(* ===== verification/_CoqProject ===== *)
-Q . S2P
Prelude.v
Abi.v
Spinlock.v
Cstring.v
Kalloc.v
Start.v
Vm.v
Pagetable.v
Usermem.v
Printf.v
Proc.v
Sched.v
Accounting.v
Datetime.v
Kstate.v
Bytes.v
Ring.v
Bio.v
Ksection.v
Usersec.v
Cache.v
Log.v
Logspace.v
Crash.v
Fs.v
Mkfs.v
Mkimage.v
Console.v
File.v
Pipes.v
Uart.v
Consline.v
Kproc.v
Syscall.v
Trap.v
Virtio.v
Vring.v
User.v
Ulib.v
Lines.v
Grep.v
Umalloc.v
Sh.v
Shparse.v
Uprogs.v
Utext.v
