(* ===== verification/Prelude.v ===== *)
(** A verification of an xv6 system for RISC-V: a kernel with three schedulers,
    process metrics and a calendar, the file system and drivers below them, and
    the user library, shell and programs above.

    * The program

    kernel/ is a small Unix kernel.  Spin locks and interrupt nesting
    (spinlock.c) protect a page allocator (kalloc.c) whose pages hold Sv39 page
    tables (vm.c); the process table (proc.c) creates, schedules, puts to sleep,
    wakes, kills and reaps processes under a round-robin, a first-come
    first-served or a priority policy and keeps waiting and turnaround times.
    Above it the file system is a stack: sleep locks (sleeplock.c), the buffer
    cache (bio.c) over the virtio disk (virtio_disk.c), the write-ahead log
    (log.c), inodes,
    directories and paths (fs.c), open files and pipes (file.c, pipe.c).  The
    console (console.c, uart.c, printf.c), exec (exec.c), the system calls
    (syscall.c, sysproc.c, sysfile.c, sysutil.c) and traps (trap.c, plic.c)
    connect it to users and devices.  A hart begins in start.c and main.c.

    mkfs/mkfs.c runs on the host and builds the disk image the kernel boots from.
    user/ holds the user library (ulib.c, printf.c, umalloc.c), the shell (sh.c),
    grep and small programs, which see the kernel as system calls.

    * How the model corresponds to the code

    Every function of the modelled files is a definition with the same name.
    C that reads and writes global state is a function in the monad [M S A]
    below, which returns [Ok] with a value and the new state, [Panic] where the
    code panics, [Spin] where it would never leave a loop, [Asleep] where the
    process sleeps longer than the environment lets it run, or [Undef] where the
    C has undefined behaviour.  Loops are [for_each], [for_find] and [for_fold]
    over index ranges, or structural recursion on fuel.  Machine integers are
    integers with their wrap-around written out ([u32], [s32], ...); physical
    memory is a function from addresses to bytes, so that free pages, page
    tables and user memory share one store; pointers into kernel arrays are
    indices.  States are layered, [mach] (locks and CPUs) inside [kmem] (memory)
    inside [pst] (processes) inside [ks] (all of the kernel), and the class
    [Lens] runs an operation of a layer in a larger state.

    - Prelude: integers, the monad, loops, lenses, tactics.   Abi: the constants
      that kernel and user programs share (fcntl.h, stat.h, fs.h).
    - Spinlock: spinlock.c; Module Harts interleaves the memory accesses of
      acquire and release on many harts as a step relation; Module Nesting is
      push_off and pop_off.
    - Cstring: string.c on byte memory.   Kalloc: kalloc.c.   Start: start.c on
      the registers of machine mode.
    - Vm: vm.c.   Pagetable: the tree of table pages as a map.
      Usermem: copyout and copyin on the memory that the map gives a user.
    - Printf: printf.c.   Proc: proc.c up to the scheduler.
      Sched: the scheduler, sched, yield, sleep, wait and the scheduling calls.
      Module Accounting: histories of scheduling events for the metrics.
      Datetime: the calendar of sysutil.c.
    - Kstate: the structures above the process table.   Bytes: fields of
      structures that overlay a block.   Ring: byte rings with wrapping counters.
      Bio: sleeplock.c and bio.c.   Ksection: critical sections and sleep locks of
      a running process.   Usersec: bytes moved to and from its memory.
      Cache: the ring of buffers as a list in order of use.   Log: log.c.
      Logspace: the reservation of log space by interleaved calls.
      Crash: commits and crashes.   Fs: fs.c.   Mkfs: mkfs.c.   Mkimage: the
      image mkfs builds, as the kernel reads it.   Console: console.c and uart.c.
      File: pipe.c and file.c.   Pipes: pipes as queues, pipewrite and piperead.
      Uart: the transmit ring and console output.   Consline: the line
      discipline as an editor of lines, from the keyboard to the reader.
      Kproc: fork, exit, exec, forkret, userinit.
      Syscall: the system calls.   Trap: trap.c, plic.c, main.c.
    - Virtio: virtio_disk.c over the registers, locks and sleeping of the class
      [DiskHost]; Module Ring interleaves the driver's critical sections, the
      interrupt handler and the device as a step relation.   Vring: the
      invariant of the descriptor rings and the history of the requests.
    - User: the system calls as the class [Unix], the monad [UM] of user programs
      (which return, exit, exec, fault or are still in a loop) and the laws of
      reading and writing, [UnixOk].   Ulib: ulib.c and user/printf.c.
      Umalloc: umalloc.c.   Lines: the lines of a text.   Grep: grep.c.
      Sh: sh.c.   Shparse: the grammar of the shell and its parser.
      Uprogs: the small programs (cat, cp, mv, rm, init, ps, ...).   Utext: wc,
      tail, diff, find and ls.

    * What is assumed

    Code outside src/ and hardware are parameters: [Image] is what the linker
    script defines and [ImageOk] what it promises; [Swtch] is a context switch,
    what other processes do while this one is off the CPU; [BlockDev] is the
    disk driver as the cache uses it, with the law [BlockDevOk] that a transfer
    is complete when virtio_disk_rw returns; [DiskHost] is what virtio_disk.c
    uses of the machine and [Device] what the virtio specification says of the
    device.  The UART is the sequence of its answers, in the record [uart]; what a
    hart that waits in main reads is a parameter of [main].  The byte order of
    mkfs's host is a parameter of Mkfs.  User programs run on any world that
    satisfies [UnixOk]; [sbrk] is a parameter of Umalloc; the stack byte
    that diff.c reads before it is assigned is a parameter of [diff_loop].
    Theorems that use a law have
    witnesses that instantiate it.

    * What the theorems show

    - Scheduling: each policy runs the process its rule names and a round-robin
      round runs everybody who was ready; along every history of scheduling
      events no process waits longer than it exists.
    - Locks: mutual exclusion and absence of panics and of lost locks under
      every interleaving; balanced nesting restores the interrupt state.
    - Memory: the allocator is a list of distinct pages and kinit frees all of
      them; mappages acts on the map that the tree represents; copyout and
      copyin respect permissions, stop at the first bad address and are inverse
      to each other.
    - File system: the buffer ring refines a least-recently-used list, a block
      is in one buffer; a commit is atomic whatever prefix of its disk writes
      survives a crash; inodes, paths and the bitmap are read back as written.
      Calls that keep to their share never find the log full, provided the log
      has the spare block that mkfs does not give it; without it there is a run
      that panics.  The image that mkfs builds holds the files it was given.
    - Disk: however processes, interrupts and the device interleave, the driver
      never panics, requests take effect one at a time between call and return,
      and all of them can complete.
    - Pipes: the ring with its wrapping counters is a queue; pipewrite and
      piperead move bytes between it and user memory.
    - Console: from boot on the input ring is well formed; consoleintr treats
      every key as the editor does, a reader gets the lines the editor made of
      the keys that arrived, and output appears in order.
    - Start: start enters main in supervisor mode with the registers main needs.
    - Libraries: memmove, string functions, number printing and the calendar
      against their specifications; where printint overruns its buffer.
    - User programs: the blocks of malloc never overlap and it fails only when it
      must; the shell's parser returns the tree of every line of its grammar;
      grep's matcher decides the language of its pattern and grep is a filter of
      lines; cat copies, wc counts, tail and diff are right on the inputs their
      buffers admit.

    * Bounds

    Fuel always comes from the data: a scan of the ring has NBUF + 1 steps, a
    walk of a path one step per byte, copyout one per page it can touch, a
    process that sleeps as many wake-ups as [swtch_wakeups] grants, a user
    program that reads a file one step per byte left in it; the theorems prove
    that the fuel is enough.

    * What is not modelled

    Assembly (entry.S, kernelvec.S, swtch.S, trampoline.S, initcode.S and the
    stubs that usys.pl generates): it saves, restores and passes registers below
    the C the model starts from.  The waiting of uartputc_sync for the device,
    which has no effect.  The test suites usertests.c and grind.c: they exercise
    the kernel and have no contract of their own. *)

From Stdlib Require Import ZArith Lia List String Bool FunctionalExtensionality.
From stdpp Require Import base tactics numbers list functions.

Global Open Scope Z_scope.

(** * Machine integers

    [uN] truncates to an unsigned N-bit value and [sN] to a two's complement
    one, as the C integer conversions of the RISC-V ABI do. *)

Definition u8 (z : Z) : Z := z mod 2 ^ 8.
Definition u16 (z : Z) : Z := z mod 2 ^ 16.
Definition u32 (z : Z) : Z := z mod 2 ^ 32.
Definition u64 (z : Z) : Z := z mod 2 ^ 64.
Definition s16 (z : Z) : Z := (z + 2 ^ 15) mod 2 ^ 16 - 2 ^ 15.
Definition s32 (z : Z) : Z := (z + 2 ^ 31) mod 2 ^ 32 - 2 ^ 31.
Definition s64 (z : Z) : Z := (z + 2 ^ 63) mod 2 ^ 64 - 2 ^ 63.

(** * The kernel monad

    C code runs on a state [S] and either returns, panics (the kernel's
    [panic] prints its argument and loops forever), spins forever on a lock
    that nobody on this hart will release, is still asleep when the bound on
    wakeups of a sleeping loop is reached, or does something that C leaves
    undefined (an access through a null pointer or past the end of an array). *)

Inductive res (S A : Type) : Type :=
| Ok (a : A) (s : S)
| Panic (msg : string)
| Spin
| Asleep
| Undef.
Arguments Ok {S A} a s.
Arguments Panic {S A} msg.
Arguments Spin {S A}.
Arguments Asleep {S A}.
Arguments Undef {S A}.

Definition M (S A : Type) : Type := S -> res S A.

Definition ret {S A : Type} (a : A) : M S A := fun s => Ok a s.

Definition bind {S A B : Type} (m : M S A) (k : A -> M S B) : M S B :=
  fun s => match m s with
           | Ok a s' => k a s'
           | Panic msg => Panic msg
           | Spin => Spin
           | Asleep => Asleep
           | Undef => Undef
           end.

Definition get {S : Type} : M S S := fun s => Ok s s.
Definition gets {S A : Type} (f : S -> A) : M S A := fun s => Ok (f s) s.
Definition modify {S : Type} (f : S -> S) : M S unit := fun s => Ok tt (f s).
Definition panic {S A : Type} (msg : string) : M S A := fun _ => Panic msg.
Definition spin {S A : Type} : M S A := fun _ => Spin.
Definition asleep {S A : Type} : M S A := fun _ => Asleep.
Definition undef {S A : Type} : M S A := fun _ => Undef.
Definition when {S : Type} (b : bool) (m : M S unit) : M S unit :=
  if b then m else ret tt.

Declare Scope kernel_scope.
Delimit Scope kernel_scope with K.
Notation "x <- m ;; k" := (bind m (fun x => k))
  (at level 100, m at next level, right associativity) : kernel_scope.
Notation "m ;;; k" := (bind m (fun _ => k))
  (at level 100, right associativity) : kernel_scope.
Global Open Scope kernel_scope.

(** Loops over the elements of an array.  [for_each] runs the body on every
    index; [for_find] stops at the first body that returns [Some] (a C
    [return], [break] or [goto] out of the loop); [for_fold] threads a local
    variable of the C function. *)

Fixpoint for_each {I S : Type} (l : list I) (body : I -> M S unit) : M S unit :=
  match l with
  | [] => ret tt
  | i :: l' => body i ;;; for_each l' body
  end.

Fixpoint for_find {I S R : Type} (l : list I) (body : I -> M S (option R))
  : M S (option R) :=
  match l with
  | [] => ret None
  | i :: l' =>
      o <- body i ;;
      match o with
      | Some r => ret (Some r)
      | None => for_find l' body
      end
  end.

Fixpoint for_fold {I S A : Type} (l : list I) (a : A) (body : A -> I -> M S A)
  : M S A :=
  match l with
  | [] => ret a
  | i :: l' => a' <- body a i ;; for_fold l' a' body
  end.

(** A C string literal as its bytes, without the terminator. *)
Fixpoint str (s : string) : list Z :=
  match s with
  | EmptyString => []
  | String c s' => Z.of_N (Ascii.N_of_ascii c) :: str s'
  end.

(** * Components of a state

    A [Lens S T] says that the state [S] has a component of type [T]; [zoom]
    runs an operation of the component in the whole state. *)

Class Lens (S T : Type) := {
  view : S -> T;
  put : T -> S -> S;
  view_put : forall t s, view (put t s) = t;
  put_view : forall s, put (view s) s = s;
  put_put : forall t t' s, put t' (put t s) = put t' s
}.

Definition zoom {S T A : Type} `{Lens S T} (m : M T A) : M S A :=
  fun s => match m (view s) with
           | Ok a t => Ok a (put t s)
           | Panic msg => Panic msg
           | Spin => Spin
           | Asleep => Asleep
           | Undef => Undef
           end.

#[export] Instance lens_id (S : Type) : Lens S S.
Proof. by refine {| view := fun s => s; put := fun t _ => t |}. Defined.

(** * Lemmas *)

Create HintDb kernel.
Create Rewrite HintDb kernel.

Lemma u8_bound z : 0 <= u8 z < 2 ^ 8.
Proof. apply Z.mod_pos_bound. lia. Qed.
Lemma u32_bound z : 0 <= u32 z < 2 ^ 32.
Proof. apply Z.mod_pos_bound. lia. Qed.
Lemma u64_bound z : 0 <= u64 z < 2 ^ 64.
Proof. apply Z.mod_pos_bound. lia. Qed.
Lemma u8_small z : 0 <= z < 2 ^ 8 -> u8 z = z.
Proof. apply Z.mod_small. Qed.
Lemma u32_small z : 0 <= z < 2 ^ 32 -> u32 z = z.
Proof. apply Z.mod_small. Qed.
Lemma u64_small z : 0 <= z < 2 ^ 64 -> u64 z = z.
Proof. apply Z.mod_small. Qed.
Lemma s32_small z : - 2 ^ 31 <= z < 2 ^ 31 -> s32 z = z.
Proof. intros ?. unfold s32. rewrite Z.mod_small; lia. Qed.

Lemma u32_s32 z : u32 (s32 z) = u32 z.
Proof. unfold u32, s32. rewrite Zminus_mod_idemp_l. f_equal. lia. Qed.

Lemma bind_Ok {S A B} (m : M S A) (k : A -> M S B) s a s' :
  m s = Ok a s' -> bind m k s = k a s'.
Proof. unfold bind. by intros ->. Qed.

Lemma bind_ret {S A B} (a : A) (k : A -> M S B) s : bind (ret a) k s = k a s.
Proof. done. Qed.

Lemma bind_assoc {S A B C} (m : M S A) (f : A -> M S B) (g : B -> M S C) s :
  bind (bind m f) g s = bind m (fun a => bind (f a) g) s.
Proof. unfold bind. by destruct (m s). Qed.

Lemma bind_cong {S A B} (m m' : M S A) (k : A -> M S B) s :
  m s = m' s -> bind m k s = bind m' k s.
Proof. unfold bind. by intros ->. Qed.

Lemma zoom_Ok {S T A} `{Lens S T} (m : M T A) s a t :
  m (view s) = Ok a t -> zoom m s = Ok a (put t s).
Proof. unfold zoom. by intros ->. Qed.

Lemma for_each_app {I S} (l1 l2 : list I) (body : I -> M S unit) s :
  for_each (l1 ++ l2) body s = (for_each l1 body ;;; for_each l2 body) s.
Proof.
  revert s; induction l1 as [|i l1 IH]; intros s; simpl; [done|].
  rewrite bind_assoc. unfold bind at 1 2. destruct (body i s); auto.
Qed.

(** Arrays are functions; these are the equations of an update. *)

Section fn_update.
Context {A T : Type} `{EqDecision A}.
Implicit Types f : A -> T.

Lemma fn_insert_insert f a x y : <[a := x]> (<[a := y]> f) = <[a := x]> f.
Proof.
  apply functional_extensionality; intros b.
  unfold insert, fn_insert. by destruct (decide (a = b)).
Qed.

Lemma fn_insert_id f a x : f a = x -> <[a := x]> f = f.
Proof.
  intros <-. apply functional_extensionality; intros b.
  unfold insert, fn_insert. by destruct (decide (a = b)) as [->|].
Qed.

Lemma fn_insert_commute f a b x y :
  a <> b -> <[a := x]> (<[b := y]> f) = <[b := y]> (<[a := x]> f).
Proof.
  intros ?. apply functional_extensionality; intros c.
  unfold insert, fn_insert.
  destruct (decide (a = c)), (decide (b = c)); congruence.
Qed.
End fn_update.

(** The equations of [view], [put] and of updated arrays, for [autorewrite]. *)
#[export] Hint Rewrite @view_put @put_view @put_put : kernel.
#[export] Hint Rewrite @fn_lookup_insert @fn_insert_insert : kernel.

(** Run a straight-line prefix: unfold the monad and reduce. *)
Ltac mrun := unfold bind, ret, gets, get, modify, when, zoom, panic, spin, undef in *; simpl.

(** Case on every integer comparison that the goal computes. *)
Ltac zb :=
  repeat match goal with
  | |- context [?a <=? ?b] => destruct (Z.leb_spec a b)
  | |- context [?a <? ?b] => destruct (Z.ltb_spec a b)
  | |- context [?a =? ?b] => destruct (Z.eqb_spec a b)
  end; cbn [andb orb negb].

(** A loop whose body, in states satisfying [P], runs without interruption. *)
Lemma for_each_ind {I S} (l : list I) (body : I -> M S unit) (P : list I -> S -> Prop) :
  (forall i l' s, P (i :: l') s -> exists s', body i s = Ok tt s' /\ P l' s') ->
  forall s, P l s -> exists s', for_each l body s = Ok tt s' /\ P [] s'.
Proof.
  intros Hb. induction l as [|i l IH]; intros s Hs; simpl.
  - by exists s.
  - destruct (Hb _ _ _ Hs) as (s1 & Hr & H1). rewrite (bind_Ok _ _ _ _ _ Hr). by apply IH.
Qed.

Lemma for_find_app {I S R} (l1 l2 : list I) (body : I -> M S (option R)) s s' :
  for_find l1 body s = Ok None s' ->
  for_find (l1 ++ l2) body s = for_find l2 body s'.
Proof.
  revert s. induction l1 as [|i l1 IH]; intros s; simpl.
  - unfold ret. by intros [= ->].
  - unfold bind. destruct (body i s) as [[r|] s1| | | |]; try done. apply IH.
Qed.

(** A scan that finds nothing in [l]. *)
Lemma for_find_none {I S R} (l : list I) (body : I -> M S (option R)) (P : S -> Prop) :
  (forall i s, i ∈ l -> P s -> exists s', body i s = Ok None s' /\ P s') ->
  forall s, P s -> exists s', for_find l body s = Ok None s' /\ P s'.
Proof.
  induction l as [|i l IH]; intros Hb s Hs; simpl.
  - by exists s.
  - destruct (Hb i s) as (s1 & Hr & H1); [by left|done|].
    rewrite (bind_Ok _ _ _ _ _ Hr). apply IH; [|done].
    intros j s2 ?. apply Hb. by right.
Qed.

(** The least index below [n] that satisfies [c], if any. *)
Lemma first_slot (c : nat -> bool) n :
  (exists i, (i < n)%nat /\ c i = true /\ forall j, (j < i)%nat -> c j = false) \/
  (forall i, (i < n)%nat -> c i = false).
Proof.
  induction n as [|n [(i & ? & ? & ?)|IH]]; [right; lia|left; exists i; auto with lia|].
  destruct (c n) eqn:E; [left; exists n; auto with lia|right].
  intros i Hi. destruct (decide (i = n)) as [->|]; [done|]. apply IH. lia.
Qed.
