(* ===== verification/Abi.v ===== *)
(** Constants that the kernel, the user programs and mkfs share: kernel/fcntl.h,
    kernel/stat.h, the on-disk layout of kernel/fs.h and the device number of
    the console (kernel/file.h). *)

From Stdlib Require Import ZArith.
From S2P Require Import Prelude.

(** * fcntl.h *)

Definition O_RDONLY : Z := 0x000.
Definition O_WRONLY : Z := 0x001.
Definition O_RDWR : Z := 0x002.
Definition O_CREATE : Z := 0x200.
Definition O_TRUNC : Z := 0x400.

(** * fs.h and stat.h *)

Definition ROOTINO : Z := 1.
Definition BSIZE : Z := 1024.
Definition FSMAGIC : Z := 0x10203040.
Definition NDIRECT : Z := 12.
Definition NINDIRECT : Z := BSIZE / 4.
Definition MAXFILE : Z := NDIRECT + NINDIRECT.
(** sizeof(struct dinode) and sizeof(struct dirent) *)
Definition DINODE_SIZE : Z := 64.
Definition DIRENT_SIZE : Z := 16.
Definition IPB : Z := BSIZE / DINODE_SIZE.
Definition BPB : Z := BSIZE * 8.
Definition DIRSIZ : Z := 14.

Definition T_DIR : Z := 1.
Definition T_FILE : Z := 2.
Definition T_DEVICE : Z := 3.

(** * file.h *)

Definition CONSOLE : Z := 1.
