(* ===== verification/Spinlock.v ===== *)
(** Spinlocks and the per-hart interrupt state: kernel/spinlock.c, the [cpu]
    array of kernel/proc.c and the SIE accessors of kernel/riscv.h.

    The first part is the sequential view that the rest of the kernel model
    uses: [acquire] and [release] act on a lock table and on the executing
    hart's [noff]/[intena]/SIE.  The second part interleaves the individual
    shared-memory steps of any number of harts that use one lock. *)

From Stdlib Require Import ZArith Lia List String Bool FunctionalExtensionality.
From stdpp Require Import base tactics numbers list functions relations.
From S2P Require Import Prelude.

(** * Data *)

(** Where each [struct spinlock] of the kernel lives. *)
Inductive lockid : Type :=
| pid_lock | wait_lock | metrics_lock | tickslock
| kmem_lock | ftable_lock | itable_lock | bcache_lock | log_lock
| cons_lock | uart_tx_lock | pr_lock | vdisk_lock
| proc_lock (i : nat)
| pipe_lock (pi : Z)
| buf_sleep_lk (b : nat)
| inode_sleep_lk (i : nat).

#[export] Instance lockid_eq_dec : EqDecision lockid.
Proof. solve_decision. Defined.

Record spinlock := mkSpinlock {
  locked : Z;             (* is the lock held? *)
  lk_name : string;
  lk_cpu : option nat     (* the cpu holding the lock *)
}.

(** [struct cpu], with the SIE bit of the hart's sstatus register. *)
Record cpu := mkCpu {
  c_proc : option nat;
  c_noff : Z;
  c_intena : bool;
  c_sie : bool
}.

Record mach := mkMach {
  m_tp : nat;                     (* the hart's tp register: its hartid *)
  m_cpus : nat -> cpu;
  m_locks : lockid -> spinlock
}.

Definition set_cpu (i : nat) (c : cpu) (m : mach) : mach :=
  mkMach (m_tp m) (<[i := c]> (m_cpus m)) (m_locks m).
Definition set_lock (l : lockid) (lk : spinlock) (m : mach) : mach :=
  mkMach (m_tp m) (m_cpus m) (<[l := lk]> (m_locks m)).
Definition set_sie (b : bool) (c : cpu) : cpu :=
  mkCpu (c_proc c) (c_noff c) (c_intena c) b.
Definition set_noff (n : Z) (c : cpu) : cpu :=
  mkCpu (c_proc c) n (c_intena c) (c_sie c).
Definition set_intena (b : bool) (c : cpu) : cpu :=
  mkCpu (c_proc c) (c_noff c) b (c_sie c).
Definition set_c_proc (p : option nat) (c : cpu) : cpu :=
  mkCpu p (c_noff c) (c_intena c) (c_sie c).

(** * Operations *)

Definition cpuid : M mach nat := gets m_tp.

Definition mycpu : M mach cpu := id <- cpuid ;; gets (fun m => m_cpus m id).

(** An assignment to a field of [mycpu()]. *)
Definition upd_mycpu (f : cpu -> cpu) : M mach unit :=
  id <- cpuid ;; modify (fun m => set_cpu id (f (m_cpus m id)) m).

Definition intr_get : M mach bool := c <- mycpu ;; ret (c_sie c).
Definition intr_on : M mach unit := upd_mycpu (set_sie true).
Definition intr_off : M mach unit := upd_mycpu (set_sie false).

Definition push_off : M mach unit :=
  old <- intr_get ;;
  intr_off ;;;
  c <- mycpu ;;
  when (c_noff c =? 0) (upd_mycpu (set_intena old)) ;;;
  upd_mycpu (fun c => set_noff (s32 (c_noff c + 1)) c).

Definition pop_off : M mach unit :=
  ie <- intr_get ;;
  if ie then panic "pop_off - interruptible" else
  c <- mycpu ;;
  if c_noff c <? 1 then panic "pop_off" else
  upd_mycpu (fun c => set_noff (s32 (c_noff c - 1)) c) ;;;
  c <- mycpu ;;
  when ((c_noff c =? 0) && c_intena c) intr_on.

Definition initlock (l : lockid) (name : string) : M mach unit :=
  modify (set_lock l (mkSpinlock 0 name None)).

Definition holding (l : lockid) : M mach bool :=
  id <- cpuid ;;
  lk <- gets (fun m => m_locks m l) ;;
  ret (negb (locked lk =? 0) && bool_decide (lk_cpu lk = Some id)).

(** The test-and-set loop leaves only with the lock taken: on a lock that is
    already taken it spins. *)
Definition acquire (l : lockid) : M mach unit :=
  push_off ;;;
  h <- holding l ;;
  if h then panic "acquire" else
  lk <- gets (fun m => m_locks m l) ;;
  if negb (locked lk =? 0) then spin else
  modify (set_lock l (mkSpinlock 1 (lk_name lk) (lk_cpu lk))) ;;;
  id <- cpuid ;;
  modify (set_lock l (mkSpinlock 1 (lk_name lk) (Some id))).

Definition release (l : lockid) : M mach unit :=
  h <- holding l ;;
  if negb h then panic "release" else
  lk <- gets (fun m => m_locks m l) ;;
  modify (set_lock l (mkSpinlock (locked lk) (lk_name lk) None)) ;;;
  modify (set_lock l (mkSpinlock 0 (lk_name lk) None)) ;;;
  pop_off.

(** * Critical sections, sequentially *)

(** The executing hart's cpu struct. *)
Definition this_cpu (m : mach) : cpu := m_cpus m (m_tp m).

(** A lock that nobody holds. *)
Definition lock_free (m : mach) (l : lockid) : Prop :=
  locked (m_locks m l) = 0 /\ lk_cpu (m_locks m l) = None.

Definition holds (m : mach) (l : lockid) : Prop :=
  locked (m_locks m l) = 1 /\ lk_cpu (m_locks m l) = Some (m_tp m).

(** What a [push_off]/[pop_off] pair leaves behind: at depth 0 the saved
    [intena] becomes the current SIE; nothing else changes. *)
Definition tidy (m : mach) : mach :=
  if c_noff (this_cpu m) =? 0
  then set_cpu (m_tp m) (set_intena (c_sie (this_cpu m)) (this_cpu m)) m
  else m.

(** Interrupt nesting is consistent: depth is a non-negative int and
    interrupts are off inside a critical section. *)
Definition noff_ok (m : mach) : Prop :=
  0 <= c_noff (this_cpu m) < 2 ^ 31 - 1 /\
  (0 < c_noff (this_cpu m) -> c_sie (this_cpu m) = false).

Definition pushed_cpu (c : cpu) : cpu :=
  mkCpu (c_proc c) (c_noff c + 1)
        (if c_noff c =? 0 then c_sie c else c_intena c) false.

(** The state just after [acquire l] on a free lock. *)
Definition acquired (l : lockid) (m : mach) : mach :=
  set_lock l (mkSpinlock 1 (lk_name (m_locks m l)) (Some (m_tp m)))
    (set_cpu (m_tp m) (pushed_cpu (this_cpu m)) m).

(** * Lemmas on critical sections *)

Lemma tidy_idem m : tidy (tidy m) = tidy m.
Proof.
  unfold tidy, this_cpu. destruct (c_noff (m_cpus m (m_tp m)) =? 0) eqn:E; [|by rewrite E].
  simpl. rewrite fn_lookup_insert. simpl. rewrite E.
  unfold set_cpu; simpl. by rewrite fn_insert_insert.
Qed.

Lemma tidy_tp m : m_tp (tidy m) = m_tp m.
Proof. unfold tidy. by case_match. Qed.

Lemma tidy_locks m : m_locks (tidy m) = m_locks m.
Proof. unfold tidy. by case_match. Qed.

Lemma tidy_this_cpu m :
  this_cpu (tidy m) =
  mkCpu (c_proc (this_cpu m)) (c_noff (this_cpu m))
    (if c_noff (this_cpu m) =? 0 then c_sie (this_cpu m) else c_intena (this_cpu m))
    (c_sie (this_cpu m)).
Proof.
  unfold tidy, this_cpu. case_match; simpl.
  - by rewrite fn_lookup_insert.
  - by destruct (m_cpus m (m_tp m)).
Qed.

Lemma tidy_other_cpu m i : i <> m_tp m -> m_cpus (tidy m) i = m_cpus m i.
Proof.
  intros ?. unfold tidy. case_match; simpl; [|done].
  by rewrite fn_lookup_insert_ne by done.
Qed.

Lemma noff_ok_tidy m : noff_ok m -> noff_ok (tidy m).
Proof. unfold noff_ok. by rewrite tidy_this_cpu. Qed.

Lemma lock_free_tidy m l : lock_free m l -> lock_free (tidy m) l.
Proof. unfold lock_free. by rewrite tidy_locks. Qed.

Lemma holds_tidy m l : holds m l -> holds (tidy m) l.
Proof. unfold holds. by rewrite tidy_locks, tidy_tp. Qed.

Lemma push_off_ok m :
  noff_ok m -> push_off m = Ok tt (set_cpu (m_tp m) (pushed_cpu (this_cpu m)) m).
Proof.
  intros [Hn Hs]. unfold push_off, intr_get, intr_off, mycpu, upd_mycpu, cpuid.
  mrun. rewrite fn_lookup_insert. simpl.
  destruct (c_noff (m_cpus m (m_tp m)) =? 0) eqn:E; simpl;
    unfold set_cpu; simpl; rewrite ?fn_lookup_insert, ?fn_insert_insert;
    simpl; rewrite s32_small by (unfold this_cpu in *; lia);
    unfold pushed_cpu, this_cpu; rewrite E; done.
Qed.

Lemma acquire_ok l m :
  noff_ok m -> lock_free m l -> acquire l m = Ok tt (acquired l m).
Proof.
  intros Hn [Hl Hc]. unfold acquire. rewrite (bind_Ok _ _ _ _ _ (push_off_ok m Hn)).
  unfold holding, cpuid. mrun. repeat (rewrite Hl; simpl).
  unfold acquired, set_lock; simpl. by rewrite fn_insert_insert.
Qed.

(** What [release] does to the hart: one level less, SIE back on at the outside. *)
Definition popped_cpu (c : cpu) : cpu :=
  mkCpu (c_proc c) (c_noff c - 1) (c_intena c)
        ((c_noff c - 1 =? 0) && c_intena c).

Definition released (l : lockid) (m : mach) : mach :=
  set_lock l (mkSpinlock 0 (lk_name (m_locks m l)) None)
    (set_cpu (m_tp m) (popped_cpu (this_cpu m)) m).

Lemma pop_off_ok m :
  1 <= c_noff (this_cpu m) < 2 ^ 31 -> c_sie (this_cpu m) = false ->
  pop_off m = Ok tt (set_cpu (m_tp m) (popped_cpu (this_cpu m)) m).
Proof.
  intros Hn Hs. unfold pop_off, intr_get, intr_on, mycpu, upd_mycpu, cpuid, this_cpu in *.
  mrun. rewrite Hs. destruct (Z.ltb_spec (c_noff (m_cpus m (m_tp m))) 1); [lia|].
  simpl. rewrite fn_lookup_insert. simpl. rewrite s32_small by lia.
  unfold popped_cpu, set_cpu, set_noff, set_sie; simpl.
  destruct (_ && _) eqn:E; simpl;
    rewrite ?fn_lookup_insert, ?fn_insert_insert; simpl; by rewrite ?E, ?Hs.
Qed.

Lemma release_ok l m :
  holds m l -> 1 <= c_noff (this_cpu m) < 2 ^ 31 -> c_sie (this_cpu m) = false ->
  release l m = Ok tt (released l m).
Proof.
  intros [Hl Hc] Hn Hs. unfold release, holding, cpuid. mrun.
  rewrite Hl, Hc. simpl. rewrite bool_decide_true by done. simpl.
  rewrite pop_off_ok by done. unfold released, set_lock, set_cpu, this_cpu; simpl.
  by rewrite fn_insert_insert.
Qed.

(** Leaving the critical section just entered restores the machine. *)
Lemma release_acquired l m :
  noff_ok m -> lock_free m l -> release l (acquired l m) = Ok tt (tidy m).
Proof.
  intros [Hn Hs] [Hl Hc]. rewrite release_ok.
  - unfold released, acquired, set_lock, set_cpu, this_cpu; simpl.
    rewrite !fn_lookup_insert, !fn_insert_insert; simpl. f_equal.
    rewrite (fn_insert_id (m_locks m)) by (destruct (m_locks m l); simpl in *; congruence).
    unfold tidy, this_cpu in *. destruct (m_cpus m (m_tp m)) as [cp n ie sie] eqn:E.
    unfold popped_cpu, pushed_cpu; simpl in *.
    replace (n + 1 - 1) with n by lia.
    destruct (Z.eqb_spec n 0); simpl.
    + subst. unfold set_cpu, set_intena; simpl. done.
    + destruct m; simpl in *. f_equal. apply fn_insert_id.
      by rewrite E, Hs by lia.
  - unfold holds, acquired; simpl. by rewrite fn_lookup_insert.
  - unfold acquired, this_cpu in *; simpl. rewrite fn_lookup_insert; simpl. lia.
  - unfold acquired, this_cpu; simpl. by rewrite fn_lookup_insert.
Qed.

Lemma noff_ok_acquired l m :
  noff_ok m -> c_noff (this_cpu m) < 2 ^ 31 - 2 -> noff_ok (acquired l m).
Proof.
  intros [Hn Hs] ?. unfold noff_ok, acquired, this_cpu in *; simpl.
  rewrite fn_lookup_insert; simpl. split; [lia|done].
Qed.

Lemma lock_free_acquired l l' m :
  l <> l' -> lock_free m l' -> lock_free (acquired l m) l'.
Proof.
  intros ?. unfold lock_free, acquired; simpl. by rewrite fn_lookup_insert_ne.
Qed.

Lemma acquired_tp l m : m_tp (acquired l m) = m_tp m.
Proof. done. Qed.

Lemma acquired_c_proc l m i : c_proc (m_cpus (acquired l m) i) = c_proc (m_cpus m i).
Proof.
  unfold acquired; simpl. destruct (decide (m_tp m = i)) as [<-|].
  - by rewrite fn_lookup_insert.
  - by rewrite fn_lookup_insert_ne.
Qed.

(** * Many harts and one lock

    Each hart runs [acquire]; critical section; [release] for ever.  The
    steps are the shared-memory accesses of the two functions, in program
    order; a step of one hart may come between any two steps of another. *)

(** A hart outside critical sections with every lock free. *)
Definition mach0 : mach :=
  mkMach 0 (fun _ => mkCpu None 0 false true) (fun _ => mkSpinlock 0 "lock" None).

Lemma mach0_noff_ok : noff_ok mach0.
Proof. split; simpl; lia. Qed.

Module Harts.

Inductive pc : Type :=
| Idle            (* outside *)
| Spinning        (* in acquire's test-and-set loop *)
| Taken           (* test-and-set succeeded, lk->cpu not yet written *)
| Critical        (* acquire returned *)
| Releasing       (* release cleared lk->cpu, lk->locked not yet written *)
| Panicked (msg : string).

Record sys := mkSys { lock : spinlock; pcs : nat -> pc }.

Definition at_pc (s : sys) (h : nat) (p : pc) : sys :=
  mkSys (lock s) (<[h := p]> (pcs s)).
Definition with_lock (s : sys) (lk : spinlock) : sys := mkSys lk (pcs s).

(** [holding], evaluated by hart [h]. *)
Definition holding_at (lk : spinlock) (h : nat) : bool :=
  negb (locked lk =? 0) && bool_decide (lk_cpu lk = Some h).

Inductive step (h : nat) : sys -> sys -> Prop :=
| step_check s :
    pcs s h = Idle -> holding_at (lock s) h = false ->
    step h s (at_pc s h Spinning)
| step_check_panic s :
    pcs s h = Idle -> holding_at (lock s) h = true ->
    step h s (at_pc s h (Panicked "acquire"))
| step_tas_busy s :
    pcs s h = Spinning -> locked (lock s) <> 0 ->
    step h s (with_lock s (mkSpinlock 1 (lk_name (lock s)) (lk_cpu (lock s))))
| step_tas_win s :
    pcs s h = Spinning -> locked (lock s) = 0 ->
    step h s (at_pc (with_lock s (mkSpinlock 1 (lk_name (lock s)) (lk_cpu (lock s)))) h Taken)
| step_set_cpu s :
    pcs s h = Taken ->
    step h s (at_pc (with_lock s (mkSpinlock (locked (lock s)) (lk_name (lock s)) (Some h))) h Critical)
| step_clear_cpu s :
    pcs s h = Critical -> holding_at (lock s) h = true ->
    step h s (at_pc (with_lock s (mkSpinlock (locked (lock s)) (lk_name (lock s)) None)) h Releasing)
| step_release_panic s :
    pcs s h = Critical -> holding_at (lock s) h = false ->
    step h s (at_pc s h (Panicked "release"))
| step_unlock s :
    pcs s h = Releasing ->
    step h s (at_pc (with_lock s (mkSpinlock 0 (lk_name (lock s)) (lk_cpu (lock s)))) h Idle).

Inductive reachable : sys -> Prop :=
| reach_init name : reachable (mkSys (mkSpinlock 0 name None) (fun _ => Idle))
| reach_step h s s' : reachable s -> step h s s' -> reachable s'.

(** The harts between winning the test-and-set and writing [locked = 0]. *)
Definition owner (p : pc) : bool :=
  match p with Taken | Critical | Releasing => true | _ => false end.

Record inv (s : sys) : Prop := {
  inv_excl : forall h h', owner (pcs s h) = true -> owner (pcs s h') = true -> h = h';
  inv_locked : locked (lock s) = 0 \/ locked (lock s) = 1;
  inv_free : locked (lock s) = 0 -> forall h, owner (pcs s h) = false;
  inv_busy : locked (lock s) <> 0 -> exists h, owner (pcs s h) = true;
  inv_cpu_crit : forall h, pcs s h = Critical -> lk_cpu (lock s) = Some h;
  inv_cpu : forall h, lk_cpu (lock s) = Some h -> pcs s h = Critical;
  inv_no_panic : forall h msg, pcs s h <> Panicked msg
}.

(** Case on whether an updated program counter is the one looked up. *)
Ltac hcase :=
  repeat match goal with
  | H : context [<[?h := ?p]> ?f ?x] |- _ =>
      destruct (decide (h = x)) as [<-|?];
      [rewrite fn_lookup_insert in H | rewrite fn_lookup_insert_ne in H by done]
  | |- context [<[?h := ?p]> ?f ?x] =>
      destruct (decide (h = x)) as [<-|?];
      [rewrite fn_lookup_insert | rewrite fn_lookup_insert_ne by done]
  end; simpl in *.

Lemma holding_at_spec s h :
  inv s -> holding_at (lock s) h = true <-> pcs s h = Critical.
Proof.
  intros I. unfold holding_at. rewrite andb_true_iff, bool_decide_eq_true. split.
  - intros [_ Hc]. by apply (inv_cpu s I).
  - intros Hc. pose proof (inv_cpu_crit s I h Hc). split; [|done].
    destruct (Z.eqb_spec (locked (lock s)) 0) as [E|]; [|done].
    pose proof (inv_free s I E h) as F. by rewrite Hc in F.
Qed.

Lemma inv_init name : inv (mkSys (mkSpinlock 0 name None) (fun _ => Idle)).
Proof. split; simpl; try done. by left. Qed.

Lemma inv_step h s s' : inv s -> step h s s' -> inv s'.
Proof.
  intros I Hst. pose proof (holding_at_spec s h I) as HH.
  destruct I as [Iex Ilk Ifr Ibu Icc Icp Inp].
  destruct Hst as [s Hp Hh|s Hp Hh|s Hp Hl|s Hp Hl|s Hp|s Hp Hh|s Hp Hh|s Hp];
    pose proof (f_equal owner Hp) as Ho; simpl in Ho; split; simpl in *; intros;
    hcase; try done; try congruence; eauto.
  all: try solve [exfalso; apply HH in Hh; congruence | exfalso; apply HH in Hp; congruence].
  all: try match goal with
       | H : lk_cpu _ = Some _ |- _ => apply Icp in H; congruence
       | H : owner (pcs _ _) = true |- _ => rewrite Ifr in H by done; done
       | H : pcs _ ?x = Critical |- _ =>
           assert (h = x) by (apply Iex; [done | by rewrite H]); congruence
       | |- owner (pcs ?s ?x) = false =>
           destruct (owner (pcs s x)) eqn:E; [|done];
           assert (h = x) by auto; congruence
       end.
  all: try solve [exists h; by rewrite fn_lookup_insert].
  destruct Ibu as [x Hx]; [done|]. exists x.
  rewrite fn_lookup_insert_ne; [done|congruence].
Qed.

Lemma inv_reachable s : reachable s -> inv s.
Proof. induction 1; eauto using inv_init, inv_step. Qed.

(** A hart that is at [p] and may move to [p'] by its own step. *)
Lemma owner_finishes s h :
  inv s -> owner (pcs s h) = true ->
  exists s', rtc (fun a b => step h a b) s s' /\ locked (lock s') = 0 /\
             forall x, x <> h -> pcs s' x = pcs s x.
Proof.
  intros I Ho.
  assert (Hrel : forall s, pcs s h = Releasing ->
    exists s', step h s s' /\ locked (lock s') = 0 /\ forall x, x <> h -> pcs s' x = pcs s x).
  { intros r Hr. eexists; split; [by apply step_unlock|]. split; [done|].
    intros x ?. simpl. by rewrite fn_lookup_insert_ne. }
  assert (Hcrit : forall s, inv s -> pcs s h = Critical ->
    exists s', rtc (fun a b => step h a b) s s' /\ locked (lock s') = 0 /\
               forall x, x <> h -> pcs s' x = pcs s x).
  { intros c Ic Hc. edestruct Hrel as (s2 & H2 & Hl & Hx); cycle 1.
    - exists s2. split; [|split; [done|]].
      + eapply rtc_l; [apply step_clear_cpu; [done|by apply holding_at_spec]|].
        by apply rtc_once.
      + intros x ?. rewrite Hx by done. simpl. by rewrite fn_lookup_insert_ne.
    - simpl. by rewrite fn_lookup_insert. }
  destruct (pcs s h) eqn:Hp; try done.
  - assert (St := step_set_cpu h s Hp). pose proof (inv_step _ _ _ I St) as I'.
    destruct (Hcrit _ I') as (s2 & H2 & Hl & Hx); [simpl; by rewrite fn_lookup_insert|].
    exists s2. split; [by eapply rtc_l|]. split; [done|].
    intros x ?. rewrite Hx by done. simpl. by rewrite fn_lookup_insert_ne.
  - by apply Hcrit.
  - destruct (Hrel s Hp) as (s2 & H2 & ? & ?). exists s2. by split; [apply rtc_once|].
Qed.

(** C9: mutual exclusion.  However the harts' memory accesses interleave, at most
    one hart is between the winning test-and-set of [acquire] and the store
    that ends [release]; [holding] is true on exactly the hart inside its
    critical section; and neither function panics. *)
Theorem mutual_exclusion s :
  reachable s ->
  (forall h h', owner (pcs s h) = true -> owner (pcs s h') = true -> h = h') /\
  (forall h, holding_at (lock s) h = true <-> pcs s h = Critical) /\
  (forall h msg, pcs s h <> Panicked msg).
Proof.
  intros I%inv_reachable. split; [apply (inv_excl s I)|].
  split; [|apply (inv_no_panic s I)]. intros h. by apply holding_at_spec.
Qed.

(** C27: no deadlock on one lock.  From every reachable state a hart that spins in
    [acquire] can still enter its critical section, once the owner (if there
    is one) has run its own remaining steps. *)
Theorem spinning_hart_can_enter s h :
  reachable s -> pcs s h = Spinning ->
  exists s', rtc (fun a b => exists h, step h a b) s s' /\ pcs s' h = Critical.
Proof.
  intros I%inv_reachable Hp.
  assert (Hfree : forall s, locked (lock s) = 0 -> pcs s h = Spinning ->
    exists s', rtc (fun a b => exists h, step h a b) s s' /\ pcs s' h = Critical).
  { intros f Hf Hs. eexists. split.
    - eapply rtc_l; [eexists; by apply (step_tas_win h)|].
      apply rtc_once. exists h. apply (step_set_cpu h). simpl. by rewrite fn_lookup_insert.
    - simpl. by rewrite fn_lookup_insert. }
  destruct (decide (locked (lock s) = 0)) as [|Hl]; [by apply Hfree|].
  destruct (inv_busy s I Hl) as [o Ho].
  destruct (owner_finishes s o I Ho) as (s1 & H1 & Hl1 & Hx1).
  destruct (Hfree s1) as (s2 & H2 & Hc); [done| |].
  - rewrite Hx1; [done|]. intros ->. by rewrite Hp in Ho.
  - exists s2. split; [|done]. etrans; [|done].
    eapply (rtc_congruence id); [|done]. eauto.
Qed.

(** Hart 0 in its critical section while hart 1 spins. *)
Definition contended : sys :=
  mkSys (mkSpinlock 1 "lock" (Some 0%nat))
    (<[1%nat := Spinning]> (<[0%nat := Critical]> (<[0%nat := Taken]> (<[0%nat := Spinning]> (fun _ => Idle))))).

Lemma contended_reachable : reachable contended.
Proof.
  unfold contended. eapply (reach_step 1); [|by apply (step_check 1 (mkSys _ _))].
  eapply (reach_step 0); [|by apply (step_set_cpu 0 (mkSys (mkSpinlock 1 "lock" None) _))].
  eapply (reach_step 0); [|by apply (step_tas_win 0 (mkSys (mkSpinlock 0 "lock" None) _))].
  eapply (reach_step 0); [|by apply (step_check 0 (mkSys _ _))].
  apply reach_init.
Qed.

Lemma mutual_exclusion_witness :
  pcs contended 0%nat = Critical /\
  forall h, holding_at (lock contended) h = true <-> pcs contended h = Critical.
Proof. split; [done|]. apply (mutual_exclusion contended contended_reachable). Defined.

Lemma spinning_hart_can_enter_witness :
  exists s', rtc (fun a b => exists h, step h a b) contended s' /\ pcs s' 1%nat = Critical.
Proof. apply (spinning_hart_can_enter contended 1 contended_reachable). reflexivity. Defined.

End Harts.

(** * Nested critical sections *)

Module Nesting.

Inductive op := Push | Pop.

Definition run_op (o : op) : M mach unit :=
  match o with Push => push_off | Pop => pop_off end.

(** Well bracketed sequences of [push_off] and [pop_off]. *)
Inductive balanced : list op -> Prop :=
| bal_nil : balanced []
| bal_wrap l : balanced l -> balanced (Push :: l ++ [Pop])
| bal_app l1 l2 : balanced l1 -> balanced l2 -> balanced (l1 ++ l2).

Lemma noff_ok_pushed m :
  noff_ok m -> c_noff (this_cpu m) < 2 ^ 31 - 2 ->
  noff_ok (set_cpu (m_tp m) (pushed_cpu (this_cpu m)) m).
Proof.
  intros [? ?] ?. unfold noff_ok, this_cpu in *; simpl.
  rewrite fn_lookup_insert; simpl. split; [lia|done].
Qed.

Lemma pop_pushed m m' :
  noff_ok m -> tidy m' = tidy (set_cpu (m_tp m) (pushed_cpu (this_cpu m)) m) ->
  pop_off m' = Ok tt (tidy m).
Proof.
  intros [Hn Hs].
  assert (Ht : tidy (set_cpu (m_tp m) (pushed_cpu (this_cpu m)) m) =
               set_cpu (m_tp m) (pushed_cpu (this_cpu m)) m).
  { unfold tidy, this_cpu at 1; simpl. rewrite fn_lookup_insert; simpl.
    destruct (Z.eqb_spec (c_noff (this_cpu m) + 1) 0); [lia|done]. }
  rewrite Ht. intros Hm.
  assert (m' = set_cpu (m_tp m) (pushed_cpu (this_cpu m)) m) as ->.
  { unfold tidy in Hm at 1. destruct (Z.eqb_spec (c_noff (this_cpu m')) 0) as [E|]; [|done].
    exfalso. apply (f_equal (fun x => c_noff (this_cpu x))) in Hm.
    unfold this_cpu in *; simpl in Hm. rewrite !fn_lookup_insert in Hm; simpl in Hm. lia. }
  rewrite pop_off_ok.
  - unfold set_cpu, this_cpu, tidy; simpl.
    rewrite fn_lookup_insert, fn_insert_insert. f_equal.
    unfold this_cpu, popped_cpu, pushed_cpu in *; simpl.
    destruct (m_cpus m (m_tp m)) as [cp n ie sie] eqn:E; simpl in *.
    replace (n + 1 - 1) with n by lia. destruct (Z.eqb_spec n 0); simpl; [done|].
    destruct m; simpl in *. f_equal. apply fn_insert_id. by rewrite E, Hs by lia.
  - unfold this_cpu in *; simpl. rewrite fn_lookup_insert; simpl. lia.
  - unfold this_cpu; simpl. by rewrite fn_lookup_insert.
Qed.

(** C36: [push_off]/[pop_off] nest.  A well bracketed sequence of calls never
    panics, and leaves the hart as one empty pair of calls would: the depth and
    the interrupt enable bit are what they were before. *)
Theorem balanced_restores l m :
  balanced l -> noff_ok m -> c_noff (this_cpu m) + Z.of_nat (length l) < 2 ^ 31 - 1 ->
  exists m', for_each l run_op m = Ok tt m' /\ tidy m' = tidy m /\
             c_noff (this_cpu m') = c_noff (this_cpu m) /\
             c_sie (this_cpu m') = c_sie (this_cpu m).
Proof.
  intros Hb Hn Hlen.
  enough (exists m', for_each l run_op m = Ok tt m' /\ tidy m' = tidy m) as (m' & ? & Ht).
  { exists m'. pose proof (f_equal this_cpu Ht) as E. rewrite !tidy_this_cpu in E.
    injection E as ? ? ? ?. done. }
  revert m Hn Hlen. induction Hb as [|l Hb IH|l1 l2 H1 IH1 H2 IH2]; intros m Hn Hlen; simpl in *.
  - by exists m.
  - rewrite length_app in Hlen; simpl in Hlen. pose proof (noff_ok_pushed m Hn).
    rewrite (bind_Ok _ _ _ _ _ (push_off_ok m Hn)), for_each_app.
    destruct (IH (set_cpu (m_tp m) (pushed_cpu (this_cpu m)) m)) as (m1 & Hr & Ht).
    + apply noff_ok_pushed; [done|]. lia.
    + unfold this_cpu in *; simpl. rewrite fn_lookup_insert; simpl. lia.
    + rewrite (bind_Ok _ _ _ _ _ Hr). simpl. unfold bind. rewrite (pop_pushed m) by done.
      exists (tidy m). split; [done|]. apply tidy_idem.
  - rewrite length_app in Hlen. rewrite for_each_app.
    destruct (IH1 m) as (m1 & Hr1 & Ht1); [done|lia|].
    pose proof (f_equal this_cpu Ht1) as E. rewrite !tidy_this_cpu in E. injection E as _ En _ Es.
    destruct (IH2 m1) as (m2 & Hr2 & Ht2); [|lia|].
    + unfold noff_ok in *. by rewrite En, Es.
    + rewrite (bind_Ok _ _ _ _ _ Hr1). exists m2. by rewrite Ht2.
Qed.

Lemma balanced_restores_witness :
  exists m', for_each [Push; Push; Pop; Pop; Push; Pop] run_op mach0 = Ok tt m' /\
             c_sie (this_cpu m') = true.
Proof.
  destruct (balanced_restores [Push; Push; Pop; Pop; Push; Pop] mach0) as (m' & Hr & _ & _ & Hs).
  - apply (bal_app [Push; Push; Pop; Pop] [Push; Pop]).
    + apply (bal_wrap [Push; Pop]), (bal_wrap []), bal_nil.
    + apply (bal_wrap []), bal_nil.
  - apply mach0_noff_ok.
  - simpl. lia.
  - exists m'. split; [exact Hr|exact Hs].
Defined.

End Nesting.

(** * Two locks at once

    The lemmas that locking code which holds one lock while it takes another
    needs: the order of the two releases does not matter. *)

Lemma acquired_tidy l m : acquired l (tidy m) = acquired l m.
Proof.
  unfold acquired. rewrite tidy_locks, tidy_tp, tidy_this_cpu.
  unfold set_lock, set_cpu, pushed_cpu, tidy; simpl.
  destruct (c_noff (this_cpu m) =? 0); simpl; rewrite ?fn_insert_insert; done.
Qed.

Lemma tidy_acquired l m : noff_ok m -> tidy (acquired l m) = acquired l m.
Proof.
  intros [? _]. unfold tidy, this_cpu at 1; simpl. rewrite fn_lookup_insert; simpl.
  destruct (Z.eqb_spec (c_noff (this_cpu m) + 1) 0); [unfold this_cpu in *; lia|done].
Qed.

Lemma acquired_this_cpu l m : this_cpu (acquired l m) = pushed_cpu (this_cpu m).
Proof. unfold this_cpu at 1, acquired; simpl. by rewrite fn_lookup_insert. Qed.

Lemma holds_acquired l m : holds (acquired l m) l.
Proof. unfold holds, acquired; simpl. by rewrite fn_lookup_insert. Qed.

Lemma release_outer l l' m :
  noff_ok m -> c_noff (this_cpu m) < 2 ^ 31 - 2 -> l <> l' ->
  lock_free m l -> lock_free m l' ->
  release l (acquired l' (acquired l m)) = Ok tt (acquired l' m).
Proof.
  intros [Hn Hs] Hr Hne Hl Hl'. rewrite release_ok.
  - unfold released. rewrite !acquired_this_cpu.
    unfold acquired, set_lock, set_cpu; simpl.
    rewrite !(fn_lookup_insert_ne _ l' l), !(fn_lookup_insert_ne _ l l') by done.
    rewrite !fn_lookup_insert, !fn_insert_insert. simpl. f_equal. f_equal.
    + f_equal. unfold popped_cpu, pushed_cpu; simpl.
      destruct (this_cpu m) as [cp n ie sie]; simpl in *. f_equal; [lia| |].
      * by destruct (Z.eqb_spec (n + 1) 0); [lia|].
      * destruct (Z.eqb_spec (n + 1 + 1 - 1) 0); [lia|done].
    + rewrite (fn_insert_commute _ l l') by done. rewrite fn_insert_insert.
      f_equal. apply fn_insert_id. destruct Hl as [E1 E2].
      destruct (m_locks m l); simpl in *; congruence.
  - unfold holds, acquired; simpl. rewrite fn_lookup_insert_ne by done.
    by rewrite fn_lookup_insert.
  - rewrite !acquired_this_cpu. unfold pushed_cpu; simpl. lia.
  - by rewrite !acquired_this_cpu.
Qed.

Lemma release_inner l l' m :
  noff_ok m -> c_noff (this_cpu m) < 2 ^ 31 - 2 -> l <> l' ->
  lock_free m l' ->
  release l' (acquired l' (acquired l m)) = Ok tt (acquired l m).
Proof.
  intros Hn Hr Hne Hl'. rewrite release_acquired.
  - by rewrite tidy_acquired.
  - by apply noff_ok_acquired.
  - by apply lock_free_acquired.
Qed.
