(* ===== verification/Cstring.v ===== *)
(** Byte-addressed memory and the kernel's string library (kernel/string.c).

    Memory is a function from addresses to bytes; [char] is unsigned on
    RISC-V.  Every function of string.c returns its destination pointer, so
    the model returns only the new memory.  Address ranges do not wrap:
    that would be undefined in C. *)

From Stdlib Require Import ZArith Lia List String Bool FunctionalExtensionality.
From stdpp Require Import base tactics numbers list functions.
From S2P Require Import Prelude.

(** * Memory *)

Definition mem : Type := Z -> Z.

Definition wf_mem (m : mem) : Prop := forall a, 0 <= m a < 2 ^ 8.

Definition store8 (a v : Z) (m : mem) : mem := <[a := u8 v]> m.

(** Little-endian words of [n] bytes. *)
Fixpoint load_le (n : nat) (a : Z) (m : mem) : Z :=
  match n with
  | O => 0
  | S n' => m a + 2 ^ 8 * load_le n' (a + 1) m
  end.

Fixpoint store_le (n : nat) (a v : Z) (m : mem) : mem :=
  match n with
  | O => m
  | S n' => store_le n' (a + 1) (v / 2 ^ 8) (store8 a v m)
  end.

Definition load32 : Z -> mem -> Z := load_le 4.
Definition load64 : Z -> mem -> Z := load_le 8.
Definition store32 : Z -> Z -> mem -> mem := store_le 4.
Definition store64 : Z -> Z -> mem -> mem := store_le 8.

(** Store a list of bytes. *)
Fixpoint store_bytes (a : Z) (l : list Z) (m : mem) : mem :=
  match l with
  | [] => m
  | b :: l' => store_bytes (a + 1) l' (store8 a b m)
  end.

Fixpoint load_bytes (n : nat) (a : Z) (m : mem) : list Z :=
  match n with
  | O => []
  | S n' => m a :: load_bytes n' (a + 1) m
  end.

(** * string.c *)

Fixpoint memset_loop (k : nat) (i dst c : Z) (m : mem) : mem :=
  match k with
  | O => m
  | S k' => memset_loop k' (i + 1) dst c (store8 (dst + i) c m)
  end.
Definition memset (dst c n : Z) (m : mem) : mem :=
  memset_loop (Z.to_nat n) 0 dst c m.

Fixpoint memcmp_loop (k : nat) (s1 s2 : Z) (m : mem) : Z :=
  match k with
  | O => 0
  | S k' => if m s1 =? m s2 then memcmp_loop k' (s1 + 1) (s2 + 1) m
            else m s1 - m s2
  end.
Definition memcmp (v1 v2 n : Z) (m : mem) : Z := memcmp_loop (Z.to_nat n) v1 v2 m.

(** [while(n-- > 0) *--d = *--s;] *)
Fixpoint move_down (k : nat) (d s : Z) (m : mem) : mem :=
  match k with
  | O => m
  | S k' => move_down k' (d - 1) (s - 1) (store8 (d - 1) (m (s - 1)) m)
  end.
(** [while(n-- > 0) *d++ = *s++;] *)
Fixpoint move_up (k : nat) (d s : Z) (m : mem) : mem :=
  match k with
  | O => m
  | S k' => move_up k' (d + 1) (s + 1) (store8 d (m s) m)
  end.
Definition memmove (dst src n : Z) (m : mem) : mem :=
  if n =? 0 then m else
  if (src <? dst) && (dst <? src + n)
  then move_down (Z.to_nat n) (dst + n) (src + n) m
  else move_up (Z.to_nat n) dst src m.

Definition memcpy (dst src n : Z) (m : mem) : mem := memmove dst src n m.

Fixpoint strncmp_loop (k : nat) (p q : Z) (m : mem) : Z :=
  match k with
  | O => 0
  | S k' => if negb (m p =? 0) && (m p =? m q)
            then strncmp_loop k' (p + 1) (q + 1) m
            else u8 (m p) - u8 (m q)
  end.
Definition strncmp (p q n : Z) (m : mem) : Z := strncmp_loop (Z.to_nat n) p q m.

(** The second loop of strncpy: [while(n-- > 0) *s++ = 0;] *)
Fixpoint strncpy_fill (k : nat) (s : Z) (m : mem) : mem :=
  match k with
  | O => m
  | S k' => strncpy_fill k' (s + 1) (store8 s 0 m)
  end.
(** The first loop; it leaves [n] at the bytes still to fill. *)
Fixpoint strncpy_loop (k : nat) (s t : Z) (m : mem) : mem :=
  match k with
  | O => m
  | S k' =>
      let c := m t in
      let m' := store8 s c m in
      if c =? 0 then strncpy_fill k' (s + 1) m'
      else strncpy_loop k' (s + 1) (t + 1) m'
  end.
Definition strncpy (s t n : Z) (m : mem) : mem := strncpy_loop (Z.to_nat n) s t m.

(** [while(--n > 0 && ( *s++ = *t++) != 0); *s = 0;] with [k = n - 1] copies
    allowed.  After copying the NUL the final store hits the next byte. *)
Fixpoint safestrcpy_loop (k : nat) (s t : Z) (m : mem) : mem :=
  match k with
  | O => store8 s 0 m
  | S k' =>
      let c := m t in
      let m' := store8 s c m in
      if c =? 0 then store8 (s + 1) 0 m'
      else safestrcpy_loop k' (s + 1) (t + 1) m'
  end.
Definition safestrcpy (s t n : Z) (m : mem) : mem :=
  if n <=? 0 then m else safestrcpy_loop (Z.to_nat (n - 1)) s t m.

(** [strlen] runs until it finds a NUL; [None] when there is none in the
    first [fuel] bytes. *)
Fixpoint strlen_loop (fuel : nat) (s n : Z) (m : mem) : option Z :=
  match fuel with
  | O => None
  | S f => if m (s + n) =? 0 then Some n else strlen_loop f s (n + 1) m
  end.
Definition strlen (fuel : nat) (s : Z) (m : mem) : option Z := strlen_loop fuel s 0 m.

(** * Specifications *)

(** [m] holds the C string [l] (no NUL in it) at [s], with its terminator. *)
Fixpoint cstr (m : mem) (s : Z) (l : list Z) : Prop :=
  match l with
  | [] => m s = 0
  | c :: l' => m s = c /\ c <> 0 /\ cstr m (s + 1) l'
  end.

(** Copy of the block of [n] bytes at [src] to [dst], all read before any write. *)
Definition block_copy (dst src n : Z) (m : mem) : mem :=
  fun a => if (dst <=? a) && (a <? dst + n) then u8 (m (src + (a - dst))) else m a.

(** * Lemmas on memory *)

Lemma store8_eq a v m : store8 a v m a = u8 v.
Proof. apply fn_lookup_insert. Qed.
Lemma store8_eq' a b v m : a = b -> store8 a v m b = u8 v.
Proof. intros <-. apply store8_eq. Qed.
Lemma store8_ne a b v m : a <> b -> store8 a v m b = m b.
Proof. apply fn_lookup_insert_ne. Qed.
Lemma u8_u8 v : u8 (u8 v) = u8 v.
Proof. unfold u8. by rewrite Z.mod_mod. Qed.

(** Split on the address of each byte store. *)
Ltac st8 :=
  repeat match goal with
  | |- context [store8 ?a ?v ?m ?b] =>
      destruct (decide (a = b)) as [?|?];
      [rewrite (store8_eq' a b v m) by done | rewrite (store8_ne a b v m) by done]
  end.

Lemma store_le_outside n a v m x :
  x < a \/ a + Z.of_nat n <= x -> store_le n a v m x = m x.
Proof.
  revert a v m. induction n as [|n IH]; intros a v m Hx; cbn [store_le]; [done|].
  rewrite IH by lia. apply store8_ne. lia.
Qed.

Lemma load_le_ext n a m m' :
  (forall x, a <= x < a + Z.of_nat n -> m x = m' x) -> load_le n a m = load_le n a m'.
Proof.
  revert a. induction n as [|n IH]; intros a Hx; cbn [load_le]; [done|].
  rewrite Hx by lia. f_equal. f_equal. apply IH. intros x ?. apply Hx. lia.
Qed.

Lemma load_store_le n a v m : load_le n a (store_le n a v m) = v mod 2 ^ (8 * Z.of_nat n).
Proof.
  revert a v m. induction n as [|n IH]; intros a v m; cbn [load_le store_le].
  - by rewrite Z.mod_1_r.
  - rewrite store_le_outside by lia. rewrite store8_eq, IH. unfold u8.
    replace (8 * Z.of_nat (S n)) with (8 + 8 * Z.of_nat n) by lia.
    rewrite Z.pow_add_r by lia. rewrite (Z.rem_mul_r v (2 ^ 8)) by lia. done.
Qed.

Lemma load_store_le_disj n k a b v m :
  a + Z.of_nat n <= b \/ b + Z.of_nat k <= a ->
  load_le n a (store_le k b v m) = load_le n a m.
Proof. intros ?. apply load_le_ext. intros x ?. apply store_le_outside. lia. Qed.

Lemma wf_store8 a v m : wf_mem m -> wf_mem (store8 a v m).
Proof. intros Hm x. st8; [apply u8_bound|apply Hm]. Qed.

Lemma wf_store_le n a v m : wf_mem m -> wf_mem (store_le n a v m).
Proof. revert a v m. induction n; cbn [store_le]; auto using wf_store8. Qed.

Lemma load_le_bound n a m : wf_mem m -> 0 <= load_le n a m < 2 ^ (8 * Z.of_nat n).
Proof.
  intros Hm. revert a. induction n as [|n IH]; intros a; cbn [load_le]; [simpl; lia|].
  specialize (IH (a + 1)). pose proof (Hm a).
  replace (8 * Z.of_nat (S n)) with (8 + 8 * Z.of_nat n) by lia.
  rewrite Z.pow_add_r by lia. nia.
Qed.

Lemma load64_store64 a v m : load64 a (store64 a v m) = u64 v.
Proof. apply (load_store_le 8). Qed.

Lemma load64_store64_ne a b v m :
  a + 8 <= b \/ b + 8 <= a -> load64 a (store64 b v m) = load64 a m.
Proof. intros ?. apply (load_store_le_disj 8 8). simpl. lia. Qed.

(** * The functions of string.c meet their specifications *)

Lemma memset_loop_spec k i dst c m a :
  memset_loop k i dst c m a =
  if (dst + i <=? a) && (a <? dst + i + Z.of_nat k) then u8 c else m a.
Proof.
  revert i m. induction k as [|k IH]; intros i m; cbn [memset_loop].
  - zb; try done; lia.
  - rewrite IH. st8; zb; try done; lia.
Qed.

Lemma memset_spec dst c n m a :
  0 <= n ->
  memset dst c n m a = if (dst <=? a) && (a <? dst + n) then u8 c else m a.
Proof.
  intros ?. unfold memset. rewrite memset_loop_spec, Z2Nat.id by lia.
  by rewrite !Z.add_0_r.
Qed.

Lemma wf_memset dst c n m : 0 <= n -> wf_mem m -> wf_mem (memset dst c n m).
Proof. intros ? Hm a. rewrite memset_spec by done. case_match; [apply u8_bound|apply Hm]. Qed.

Lemma move_up_spec k d s m a :
  d <= s \/ s + Z.of_nat k <= d ->
  move_up k d s m a = block_copy d s (Z.of_nat k) m a.
Proof.
  revert d s m. induction k as [|k IH]; intros d s m Hd; cbn [move_up]; unfold block_copy.
  - zb; try done; lia.
  - rewrite IH by lia. unfold block_copy. st8; zb; try lia; try done; (f_equal; f_equal; lia).
Qed.

Lemma move_down_spec k d s m a :
  s <= d ->
  move_down k d s m a =
  block_copy (d - Z.of_nat k) (s - Z.of_nat k) (Z.of_nat k) m a.
Proof.
  revert d s m. induction k as [|k IH]; intros d s m Hd; cbn [move_down]; unfold block_copy.
  - zb; try done; lia.
  - rewrite IH by lia. unfold block_copy. st8; zb; try lia; try done; (f_equal; f_equal; lia).
Qed.

(** [memmove] is a block copy whatever way the two blocks overlap. *)
Lemma memmove_block_copy dst src n m a :
  0 <= n -> memmove dst src n m a = block_copy dst src n m a.
Proof.
  intros Hn. unfold memmove. destruct (Z.eqb_spec n 0) as [->|].
  - unfold block_copy. zb; try done; lia.
  - destruct ((src <? dst) && (dst <? src + n)) eqn:E.
    + rewrite move_down_spec by lia. rewrite !Z2Nat.id by lia. f_equal; lia.
    + rewrite move_up_spec by lia. by rewrite !Z2Nat.id by lia.
Qed.

Lemma wf_block_copy dst src n m : wf_mem m -> wf_mem (block_copy dst src n m).
Proof. intros Hm a. unfold block_copy. case_match; [apply u8_bound|apply Hm]. Qed.

Lemma wf_memmove dst src n m : 0 <= n -> wf_mem m -> wf_mem (memmove dst src n m).
Proof. intros ? Hm a. rewrite memmove_block_copy by done. by apply wf_block_copy. Qed.

Lemma cstr_ext m m' s l :
  (forall x, s <= x <= s + Z.of_nat (length l) -> m' x = m x) -> cstr m s l -> cstr m' s l.
Proof.
  revert s. induction l as [|c l IH]; simpl; intros s Hx.
  - rewrite Hx by lia. done.
  - intros (Hc & Hnz & Hl). rewrite Hx by lia. split_and!; [done|done|].
    apply IH; [|done]. intros x ?. apply Hx. lia.
Qed.

Lemma cstr_inj m s l l' : cstr m s l -> cstr m s l' -> l = l'.
Proof.
  revert s l'. induction l as [|c l IH]; intros s [|c' l']; simpl; try done.
  - intros ? (? & ? & ?). congruence.
  - intros (? & ? & ?) ?. congruence.
  - intros (-> & ? & ?) (? & ? & ?). f_equal; [done|]. by eapply IH.
Qed.

Lemma strlen_loop_spec fuel s n l m :
  cstr m (s + n) l -> (length l < fuel)%nat ->
  strlen_loop fuel s n m = Some (n + Z.of_nat (length l)).
Proof.
  revert n l. induction fuel as [|f IH]; intros n l Hl Hf; [lia|]. simpl.
  destruct l as [|c l]; simpl in *.
  - rewrite Hl. simpl. f_equal. lia.
  - destruct Hl as (-> & Hc & Hl). destruct (Z.eqb_spec c 0); [done|].
    rewrite (IH (n + 1) l); [f_equal; lia| |lia].
    by replace (s + (n + 1)) with (s + n + 1) by lia.
Qed.

Lemma strlen_spec fuel s l m :
  cstr m s l -> (length l < fuel)%nat -> strlen fuel s m = Some (Z.of_nat (length l)).
Proof.
  intros. unfold strlen. rewrite (strlen_loop_spec _ _ _ l); [done| |done].
  by rewrite Z.add_0_r.
Qed.

Lemma memcmp_loop_zero k s1 s2 m :
  memcmp_loop k s1 s2 m = 0 <->
  forall i, 0 <= i < Z.of_nat k -> m (s1 + i) = m (s2 + i).
Proof.
  revert s1 s2. induction k as [|k IH]; intros s1 s2; cbn [memcmp_loop].
  - split; [lia|done].
  - destruct (Z.eqb_spec (m s1) (m s2)) as [E|E].
    + rewrite IH. split; intros H i Hi.
      * destruct (decide (i = 0)) as [->|]; [by rewrite !Z.add_0_r|].
        specialize (H (i - 1)). replace (s1 + i) with (s1 + 1 + (i - 1)) by lia.
        replace (s2 + i) with (s2 + 1 + (i - 1)) by lia. apply H. lia.
      * rewrite <-!Z.add_assoc. apply H. lia.
    + split; [lia|]. intros H. specialize (H 0). rewrite !Z.add_0_r in H.
      exfalso. apply E, H. lia.
Qed.

Lemma strncmp_loop_zero k p q l1 l2 m :
  wf_mem m -> cstr m p l1 -> cstr m q l2 ->
  strncmp_loop k p q m = 0 <-> take k l1 = take k l2.
Proof.
  intros Hm. revert p q l1 l2. induction k as [|k IH]; intros p q l1 l2 H1 H2; [done|].
  cbn [strncmp_loop]. rewrite !u8_small by apply Hm.
  destruct l1 as [|c1 l1], l2 as [|c2 l2]; simpl in H1, H2; simpl take.
  - by rewrite H1, H2.
  - destruct H2 as (-> & ? & _). rewrite H1. simpl. split; [lia|done].
  - destruct H1 as (-> & ? & _). rewrite H2.
    destruct (Z.eqb_spec c1 0); [done|]. simpl. split; [lia|done].
  - destruct H1 as (-> & ? & H1), H2 as (-> & ? & H2).
    destruct (Z.eqb_spec c1 0); [done|]. cbn [negb andb].
    destruct (Z.eqb_spec c1 c2) as [->|].
    + rewrite (IH _ _ l1 l2) by done. split; [by intros ->|congruence].
    + split; [lia|]. intros [=]. lia.
Qed.

Lemma safestrcpy_loop_spec k s t l m :
  wf_mem m -> cstr m t l ->
  s + Z.of_nat k + 1 <= t \/ t + Z.of_nat (length l) + 1 <= s ->
  cstr (safestrcpy_loop k s t m) s (take k l) /\
  forall a, a < s \/ s + Z.of_nat k + 1 <= a -> safestrcpy_loop k s t m a = m a.
Proof.
  revert s t l m. induction k as [|k IH]; intros s t l m Hm Hl Hd; cbn [safestrcpy_loop].
  - split; [apply store8_eq|]. intros a ?. apply store8_ne. lia.
  - destruct l as [|c l]; simpl in Hl.
    + rewrite Hl. simpl. split.
      * rewrite store8_ne by lia. apply store8_eq.
      * intros a ?. rewrite !store8_ne by lia. done.
    + destruct Hl as (Hc & Hnz & Hl). rewrite Hc. destruct (Z.eqb_spec c 0); [done|].
      simpl length in Hd.
      destruct (IH (s + 1) (t + 1) l (store8 s c m)) as [Hs Ho].
      * by apply wf_store8.
      * eapply cstr_ext; [|done]. intros x ?. apply store8_ne. lia.
      * lia.
      * split.
        -- simpl. rewrite Ho by lia. rewrite store8_eq, u8_small by (rewrite <-Hc; apply Hm).
           done.
        -- intros a ?. rewrite Ho by lia. apply store8_ne. lia.
Qed.

Lemma strncpy_fill_spec k s m a :
  strncpy_fill k s m a = if (s <=? a) && (a <? s + Z.of_nat k) then 0 else m a.
Proof.
  revert s m. induction k as [|k IH]; intros s m; cbn [strncpy_fill].
  - zb; try done; lia.
  - rewrite IH. st8; zb; try done; lia.
Qed.

(** * Ranges of bytes *)

Lemma store_bytes_spec a bs m x :
  store_bytes a bs m x = if decide (a <= x < a + Z.of_nat (length bs)) then u8 (nth (Z.to_nat (x - a)) bs 0) else m x.
Proof.
  revert a m. induction bs as [|b bs IH]; intros a m; cbn [store_bytes length].
  - rewrite decide_False by lia. done.
  - rewrite IH. destruct (decide (x = a)) as [->|].
    + rewrite decide_False, decide_True by lia. rewrite store8_eq, Z.sub_diag. done.
    + rewrite store8_ne by done. repeat case_decide; try done; try (exfalso; lia).
      replace (Z.to_nat (x - a)) with (S (Z.to_nat (x - (a + 1)))) by lia. done.
Qed.

Lemma load_bytes_spec n a m : load_bytes n a m = map (fun i => m (a + Z.of_nat i)) (seq 0 n).
Proof.
  revert a. induction n as [|n IH]; intros a; [done|]. cbn [load_bytes seq map]. rewrite Z.add_0_r. f_equal.
  rewrite IH, <-seq_shift, map_map. apply map_ext. intros i. f_equal. lia.
Qed.

Lemma wf_store_bytes a bs m : wf_mem m -> wf_mem (store_bytes a bs m).
Proof. revert a m. induction bs; cbn [store_bytes]; auto using wf_store8. Qed.

Lemma store_bytes_outside a bs m x :
  x < a \/ a + Z.of_nat (length bs) <= x -> store_bytes a bs m x = m x.
Proof. intros Hx. rewrite store_bytes_spec, decide_False; [done|lia]. Qed.

Lemma length_load_bytes n a m : length (load_bytes n a m) = n.
Proof. revert a. induction n; intros; simpl; auto. Qed.

Lemma load_bytes_ext n a m m' :
  (forall x, a <= x < a + Z.of_nat n -> m x = m' x) -> load_bytes n a m = load_bytes n a m'.
Proof.
  revert a. induction n as [|n IH]; intros a Hx; cbn [load_bytes]; [done|].
  f_equal; [apply Hx; lia|]. apply IH. intros x ?. apply Hx. lia.
Qed.

Lemma load_bytes_app n k a m :
  load_bytes (n + k) a m = load_bytes n a m ++ load_bytes k (a + Z.of_nat n) m.
Proof.
  revert a. induction n as [|n IH]; intros a; simpl; [f_equal; lia|].
  rewrite IH. do 2 f_equal. f_equal. lia.
Qed.

Lemma load_store_bytes a bs m :
  Forall (fun b => 0 <= b < 2 ^ 8) bs -> load_bytes (length bs) a (store_bytes a bs m) = bs.
Proof.
  intros Hb. revert a m. induction Hb as [|b bs Hb _ IH]; intros a m; [done|]. cbn [store_bytes load_bytes length].
  rewrite IH. f_equal. rewrite store_bytes_outside by lia. by rewrite store8_eq, u8_small.
Qed.

(** A C string is its characters followed by a NUL. *)
Lemma cstr_load m s l :
  cstr m s l <-> load_bytes (length l) s m = l /\ m (s + Z.of_nat (length l)) = 0 /\ Forall (fun c => c <> 0) l.
Proof.
  revert s. induction l as [|c l IH]; intros s; cbn [cstr length load_bytes].
  - rewrite Z.add_0_r. split; [intros ?; by repeat split|by intros (_ & ? & _)].
  - rewrite IH. replace (s + Z.of_nat (S (length l))) with (s + 1 + Z.of_nat (length l)) by lia. split.
    + intros (Hc & Hnz & Hl & Hz & Ha). rewrite Hl, Hc. split_and!; [done|done|by constructor].
    + intros (Hl & Hz & Ha). injection Hl as Hc Hl. inversion Ha; subst. by split_and!.
Qed.

Lemma cstr_app m s l1 l2 :
  cstr m s (l1 ++ l2) <->
  load_bytes (length l1) s m = l1 /\ Forall (fun c => c <> 0) l1 /\ cstr m (s + Z.of_nat (length l1)) l2.
Proof.
  revert s. induction l1 as [|c l1 IH]; intros s; cbn [app cstr length load_bytes].
  - rewrite Z.add_0_r. split; [intros ?; by repeat split|by intros (_ & _ & ?)].
  - rewrite IH. replace (s + Z.of_nat (S (length l1))) with (s + 1 + Z.of_nat (length l1)) by lia. split.
    + intros (Hc & Hnz & Hl & Ha & Hs). rewrite Hl, Hc. split_and!; [done|by constructor|done].
    + intros (Hl & Ha & Hs). injection Hl as Hc Hl. inversion Ha; subst. by split_and!.
Qed.

(** From here on the byte loops are used through their specifications. *)
Arguments load_le : simpl never.
Arguments store_le : simpl never.
Arguments load64 : simpl never.
Arguments store64 : simpl never.
Arguments load32 : simpl never.
Arguments store32 : simpl never.
Arguments safestrcpy : simpl never.
#[global] Opaque memset memmove strncpy.

(** [safestrcpy] copies at most [n - 1] characters and always terminates
    the destination, and it writes only the [n] bytes of the destination. *)
Theorem safestrcpy_spec s t n l m :
  wf_mem m -> cstr m t l -> 0 < n ->
  s + n <= t \/ t + Z.of_nat (length l) + 1 <= s ->
  cstr (safestrcpy s t n m) s (take (Z.to_nat (n - 1)) l) /\
  forall a, a < s \/ s + n <= a -> safestrcpy s t n m a = m a.
Proof.
  intros Hm Hl Hn Hd. unfold safestrcpy. destruct (Z.leb_spec n 0); [lia|].
  destruct (safestrcpy_loop_spec (Z.to_nat (n - 1)) s t l m Hm Hl) as [H1 H2]; [lia|].
  split; [done|]. intros a ?. apply H2. lia.
Qed.

(** C37: [memmove] copies the source as it was before the call, however the
    two ranges overlap. *)
Theorem memmove_snapshot dst src n m :
  0 <= n -> wf_mem m ->
  (forall i, 0 <= i < n -> memmove dst src n m (dst + i) = m (src + i)) /\
  (forall a, a < dst \/ dst + n <= a -> memmove dst src n m a = m a).
Proof.
  intros Hn Hm. split.
  - intros i Hi. rewrite memmove_block_copy by done. unfold block_copy. zb; try lia.
    rewrite u8_small by apply Hm. f_equal. lia.
  - intros a Ha. rewrite memmove_block_copy by done. unfold block_copy. zb; done || lia.
Qed.

(** [strncmp] is 0 exactly when the two strings agree on their first [n]
    characters. *)
Theorem strncmp_zero p q n l1 l2 m :
  wf_mem m -> cstr m p l1 -> cstr m q l2 ->
  strncmp p q n m = 0 <-> take (Z.to_nat n) l1 = take (Z.to_nat n) l2.
Proof. apply strncmp_loop_zero. Qed.

(** Memory with the strings "abc" at 16 and "abd" at 32. *)
Definition mem0 : mem := store_bytes 16 [97; 98; 99; 0] (store_bytes 32 [97; 98; 100; 0] (fun _ => 0)).

Lemma mem0_wf : wf_mem mem0.
Proof. intros a. unfold mem0; simpl. st8; try apply u8_bound; done. Qed.

Lemma safestrcpy_spec_witness :
  cstr mem0 16 [97; 98; 99] /\ cstr (safestrcpy 64 16 3 mem0) 64 [97; 98].
Proof.
  split; [by vm_compute|].
  apply (safestrcpy_spec 64 16 3 [97; 98; 99] mem0 mem0_wf); [by vm_compute|lia|simpl; lia].
Defined.

Lemma memmove_snapshot_witness : memmove 17 16 3 mem0 19 = 99.
Proof.
  destruct (memmove_snapshot 17 16 3 mem0 ltac:(lia) mem0_wf) as [H _]. apply (H 2). lia.
Defined.

Lemma strncmp_zero_witness : strncmp 16 32 2 mem0 = 0 /\ strncmp 16 32 3 mem0 <> 0.
Proof.
  split.
  - by apply (strncmp_zero 16 32 2 [97; 98; 99] [97; 98; 100] mem0 mem0_wf).
  - by rewrite (strncmp_zero 16 32 3 [97; 98; 99] [97; 98; 100] mem0 mem0_wf).
Defined.
