(* ===== verification/Kalloc.v ===== *)
(** The physical page allocator: kernel/kalloc.c, with the memory layout of
    kernel/memlayout.h and the page macros of kernel/riscv.h.

    The free list is threaded through the free pages themselves ([struct run]),
    so the model keeps the links in the modelled memory. *)

From Stdlib Require Import ZArith Lia List String Bool.
From stdpp Require Import base tactics numbers list functions sets.
From S2P Require Import Prelude.
From S2P Require Import Spinlock.
From S2P Require Import Cstring.

(** * Layout *)

Definition PGSIZE : Z := 4096.
Definition PGROUNDUP (sz : Z) : Z := Z.land (u64 (sz + PGSIZE - 1)) (Z.lnot (PGSIZE - 1)).
Definition PGROUNDDOWN (a : Z) : Z := Z.land a (Z.lnot (PGSIZE - 1)).
Definition KERNBASE : Z := 0x80000000.
Definition PHYSTOP : Z := KERNBASE + 128 * 1024 * 1024.

(** The symbols that the linker script kernel.ld defines. *)
Class Image := {
  kend : Z;              (* end: first address after the kernel *)
  etext : Z;             (* end of the kernel code *)
  trampoline : Z;        (* the trampoline page *)
  uservec_off : Z;       (* uservec - trampoline *)
  userret_off : Z;       (* userret - trampoline *)
  forkret_addr : Z;      (* addresses of kernel functions *)
  usertrap_addr : Z;
  kernelvec_addr : Z
}.

(** What kernel.ld promises about them: the image is loaded at KERNBASE and
    fits in RAM, and the trampoline code has a page of its own. *)
Class ImageOk (I : Image) : Prop := {
  image_order : KERNBASE <= trampoline /\ trampoline + PGSIZE <= etext /\
                etext <= kend /\ kend <= PHYSTOP;
  trampoline_aligned : trampoline mod PGSIZE = 0;
  etext_aligned : etext mod PGSIZE = 0
}.

(** * State *)

Record kmem := mkKmem {
  km_mach : mach;
  km_mem : mem;
  km_freelist : Z      (* kmem.freelist: address of the first struct run, or 0 *)
}.

#[export] Instance kmem_mach : Lens kmem mach.
Proof.
  refine {| view := km_mach; put := fun m s => mkKmem m (km_mem s) (km_freelist s) |};
    by try intros ? []; try intros [].
Defined.

Definition upd_mem (f : mem -> mem) : M kmem unit :=
  modify (fun s => mkKmem (km_mach s) (f (km_mem s)) (km_freelist s)).
Definition set_freelist (r : Z) : M kmem unit :=
  modify (fun s => mkKmem (km_mach s) (km_mem s) r).

(** * Operations *)

Section kalloc.
Context {img : Image}.

Definition kfree (pa : Z) : M kmem unit :=
  if negb (pa mod PGSIZE =? 0) || (pa <? kend) || (PHYSTOP <=? pa)
  then panic "kfree" else
  upd_mem (memset pa 1 PGSIZE) ;;;
  zoom (acquire kmem_lock) ;;;
  next <- gets km_freelist ;;
  upd_mem (store64 pa next) ;;;
  set_freelist pa ;;;
  zoom (release kmem_lock).

Definition kalloc : M kmem Z :=
  zoom (acquire kmem_lock) ;;;
  r <- gets km_freelist ;;
  when (negb (r =? 0)) (next <- gets (fun s => load64 r (km_mem s)) ;; set_freelist next) ;;;
  zoom (release kmem_lock) ;;;
  when (negb (r =? 0)) (upd_mem (memset r 5 PGSIZE)) ;;;
  ret r.

(** The loop of freerange; [fuel] bounds the pages still to visit. *)
Fixpoint freerange_loop (fuel : nat) (p pa_end : Z) : M kmem unit :=
  match fuel with
  | O => spin
  | S f => if p + PGSIZE <=? pa_end
           then kfree p ;;; freerange_loop f (p + PGSIZE) pa_end
           else ret tt
  end.
Definition freerange (pa_start pa_end : Z) : M kmem unit :=
  let p := PGROUNDUP pa_start in
  freerange_loop (S (Z.to_nat ((pa_end - p) / PGSIZE))) p pa_end.

Definition kinit : M kmem unit :=
  zoom (initlock kmem_lock "kmem") ;;;
  freerange kend PHYSTOP.

(** * The allocator as a list of pages *)

Definition page_ok (p : Z) : Prop := p mod PGSIZE = 0 /\ kend <= p < PHYSTOP.

Inductive free_pages (m : mem) : Z -> list Z -> Prop :=
| free_nil : free_pages m 0 []
| free_cons p l : p <> 0 -> free_pages m (load64 p m) l -> free_pages m p (p :: l).

(** The free list of [s] is [l]. *)
Record kmem_inv (s : kmem) (l : list Z) : Prop := {
  ki_wf : wf_mem (km_mem s);
  ki_list : free_pages (km_mem s) (km_freelist s) l;
  ki_nodup : NoDup l;
  ki_ok : Forall page_ok l
}.

(** The pages [p, p + 4096, ...], [k] of them. *)
Fixpoint pages_from (k : nat) (p : Z) : list Z :=
  match k with
  | O => []
  | S k' => p :: pages_from k' (p + PGSIZE)
  end.

Definition in_page (p a : Z) : bool := (p <=? a) && (a <? p + PGSIZE).

(** * Lemmas *)

Lemma land_page_mask a : Z.land a (Z.lnot (PGSIZE - 1)) = a / PGSIZE * PGSIZE.
Proof.
  change (PGSIZE - 1) with (Z.ones 12). rewrite <-Z.ldiff_land, Z.ldiff_ones_r by lia.
  by rewrite Z.shiftl_mul_pow2, Z.shiftr_div_pow2 by lia.
Qed.

Lemma PGROUNDUP_eq sz :
  0 <= sz -> sz + PGSIZE - 1 < 2 ^ 64 ->
  PGROUNDUP sz = (sz + PGSIZE - 1) / PGSIZE * PGSIZE.
Proof. intros. unfold PGROUNDUP. by rewrite u64_small, land_page_mask by (unfold PGSIZE in *; lia). Qed.

Lemma PGROUNDDOWN_eq a : PGROUNDDOWN a = a / PGSIZE * PGSIZE.
Proof. apply land_page_mask. Qed.

Lemma page_disjoint p q :
  p mod PGSIZE = 0 -> q mod PGSIZE = 0 -> p <> q -> p + PGSIZE <= q \/ q + PGSIZE <= p.
Proof.
  unfold PGSIZE. intros Hp Hq ?.
  pose proof (Z.div_mod p 4096). pose proof (Z.div_mod q 4096). lia.
Qed.

Lemma free_pages_ext m m' h l :
  (forall p x, p ∈ l -> p <= x < p + 8 -> m' x = m x) ->
  free_pages m h l -> free_pages m' h l.
Proof.
  intros Hx Hl. induction Hl as [|p l Hp Hl IH]; [constructor|].
  constructor; [done|].
  replace (load64 p m') with (load64 p m);
    [|symmetry; apply (load_le_ext 8); intros; apply (Hx p); [left|simpl in *; lia]].
  apply IH. intros q x ?. apply Hx. by right.
Qed.

Lemma free_pages_cons m h p l :
  free_pages m h (p :: l) -> h = p /\ p <> 0 /\ free_pages m (load64 p m) l.
Proof. inversion 1; subst. done. Qed.

Lemma upd_mem_ok f s :
  upd_mem f s = Ok tt (mkKmem (km_mach s) (f (km_mem s)) (km_freelist s)).
Proof. done. Qed.

Lemma acquire_kmem s l :
  noff_ok (km_mach s) -> lock_free (km_mach s) l ->
  zoom (acquire l) s = Ok tt (mkKmem (acquired l (km_mach s)) (km_mem s) (km_freelist s)).
Proof. intros. by rewrite (zoom_Ok _ _ _ _ (acquire_ok l (km_mach s) H H0)). Qed.

Lemma release_kmem m l me fl :
  noff_ok m -> lock_free m l ->
  zoom (release l) (mkKmem (acquired l m) me fl) = Ok tt (mkKmem (tidy m) me fl).
Proof. intros. by rewrite (zoom_Ok _ (mkKmem (acquired l m) me fl) _ _ (release_acquired l m H H0)). Qed.

(** The result of [kalloc], case by case. *)
Definition kalloc_post (s : kmem) : res kmem Z :=
  let r := km_freelist s in
  if r =? 0 then Ok 0 (mkKmem (tidy (km_mach s)) (km_mem s) 0)
  else Ok r (mkKmem (tidy (km_mach s)) (memset r 5 PGSIZE (km_mem s)) (load64 r (km_mem s))).

Lemma kalloc_eq s :
  noff_ok (km_mach s) -> lock_free (km_mach s) kmem_lock -> kalloc s = kalloc_post s.
Proof.
  intros Hn Hl. unfold kalloc, kalloc_post.
  rewrite (bind_Ok _ _ _ _ _ (acquire_kmem s _ Hn Hl)). unfold gets, bind at 1.
  simpl km_freelist. destruct (Z.eqb_spec (km_freelist s) 0) as [E|E]; cbn [negb when].
  - unfold bind at 1, ret at 1. unfold bind. rewrite release_kmem by done. by rewrite E.
  - unfold set_freelist, modify, bind; simpl. rewrite release_kmem by done. done.
Qed.

Lemma kfree_eq s pa :
  noff_ok (km_mach s) -> lock_free (km_mach s) kmem_lock -> page_ok pa ->
  kfree pa s =
  Ok tt (mkKmem (tidy (km_mach s)) (store64 pa (km_freelist s) (memset pa 1 PGSIZE (km_mem s))) pa).
Proof.
  intros Hn Hl [Ha Hr]. unfold kfree. rewrite Ha.
  destruct (Z.ltb_spec pa kend); [lia|]. destruct (Z.leb_spec PHYSTOP pa); [lia|]. simpl.
  unfold bind at 1, upd_mem at 1, modify.
  rewrite (bind_Ok _ _ _ _ _ (acquire_kmem (mkKmem _ _ _) _ Hn Hl)).
  unfold bind, gets, upd_mem, set_freelist, modify. simpl. by rewrite release_kmem.
Qed.

Lemma kfree_panics s pa : ~ page_ok pa -> kfree pa s = Panic "kfree".
Proof.
  intros Hp. unfold kfree. destruct (Z.eqb_spec (pa mod PGSIZE) 0), (Z.ltb_spec pa kend),
    (Z.leb_spec PHYSTOP pa); try done. simpl. exfalso. apply Hp. unfold page_ok. lia.
Qed.

Context {imgok : ImageOk img}.

Lemma page_ok_pos p : page_ok p -> 0 < p < 2 ^ 64.
Proof.
  destruct image_order as (? & ? & ? & ?). unfold page_ok, PHYSTOP, KERNBASE, PGSIZE in *. lia.
Qed.

Lemma page_ok_disjoint p q :
  page_ok p -> page_ok q -> p <> q -> p + PGSIZE <= q \/ q + PGSIZE <= p.
Proof. intros [? _] [? _]. by apply page_disjoint. Qed.

Lemma kmem_inv_head s l : kmem_inv s l -> km_freelist s = default 0 (head l).
Proof. intros [_ Hl _ _]. by destruct Hl. Qed.

(** Allocation takes the head of the list. *)
Lemma kalloc_inv s p l m :
  kmem_inv s (p :: l) ->
  kmem_inv (mkKmem m (memset p 5 PGSIZE (km_mem s)) (load64 p (km_mem s))) l.
Proof.
  intros [Hw Hl Hn Ho]. apply free_pages_cons in Hl as (_ & _ & Hl).
  apply NoDup_cons in Hn as [Hni Hn]. apply Forall_cons in Ho as [Hp Ho].
  split; simpl; [by apply wf_memset| |done|done].
  eapply free_pages_ext; [|done]. intros q x Hq Hx. rewrite memset_spec by done.
  assert (page_ok q) by (by eapply (proj1 (Forall_forall _ _)); [|done]).
  destruct (page_ok_disjoint p q) as [?|?]; [done|done|by intros ->|..];
    unfold PGSIZE in *; zb; try done; lia.
Qed.

(** Freeing puts the page in front. *)
Lemma kfree_inv s p l m :
  kmem_inv s l -> page_ok p -> p ∉ l ->
  kmem_inv (mkKmem m (store64 p (km_freelist s) (memset p 1 PGSIZE (km_mem s))) p) (p :: l).
Proof.
  intros [Hw Hl Hn Ho] Hp Hni. pose proof (page_ok_pos p Hp). split; simpl.
  - by apply wf_store_le, wf_memset.
  - constructor; [lia|]. rewrite load64_store64, u64_small.
    2:{ destruct l as [|q l]; [by inversion Hl|].
        apply free_pages_cons in Hl as (-> & _ & _). apply Forall_cons in Ho as [Hq _].
        pose proof (page_ok_pos q Hq). lia. }
    eapply free_pages_ext; [|done]. intros q x Hq Hx.
    assert (page_ok q) by (by eapply (proj1 (Forall_forall _ _)); [|done]).
    assert (Hd : x < p \/ p + PGSIZE <= x).
    { destruct (page_ok_disjoint p q) as [?|?]; [done|done|by intros ->|..];
        unfold PGSIZE in *; lia. }
    unfold store64. rewrite store_le_outside by (unfold PGSIZE in Hd; simpl; lia).
    rewrite memset_spec by done. zb; try done; lia.
  - by constructor.
  - by constructor.
Qed.

Lemma freerange_loop_spec k fuel p s l :
  (k < fuel)%nat -> p mod PGSIZE = 0 -> kend <= p ->
  PHYSTOP - p = Z.of_nat k * PGSIZE ->
  kmem_inv s l -> Forall (fun q => q < p) l ->
  noff_ok (km_mach s) -> lock_free (km_mach s) kmem_lock ->
  exists s', freerange_loop fuel p PHYSTOP s = Ok tt s' /\
             kmem_inv s' (rev (pages_from k p) ++ l) /\
             tidy (km_mach s') = tidy (km_mach s).
Proof.
  revert fuel p s l. induction k as [|k IH]; intros fuel p s l Hf Hal He Hk Hi Hlt Hn Hl.
  - destruct fuel as [|f]; [lia|]. simpl. unfold PGSIZE in *.
    destruct (Z.leb_spec (p + 4096) PHYSTOP); [lia|]. by exists s.
  - destruct fuel as [|f]; [lia|]. simpl.
    assert (Hpk : page_ok p) by (split; [done|unfold PGSIZE in *; lia]).
    destruct (Z.leb_spec (p + PGSIZE) PHYSTOP); [|unfold PGSIZE in *; lia].
    rewrite (bind_Ok _ _ _ _ _ (kfree_eq s p Hn Hl Hpk)).
    assert (Hni : p ∉ l).
    { intros Hin. rewrite Forall_forall in Hlt. specialize (Hlt p Hin). lia. }
    pose proof (kfree_inv s p l (tidy (km_mach s)) Hi Hpk Hni) as Hi1.
    set (s1 := mkKmem _ _ _) in *.
    destruct (IH f (p + PGSIZE) s1 (p :: l)) as (s' & Hr & Hi' & Ht);
      [lia| |unfold PGSIZE; lia|unfold PGSIZE in *; lia|done
      | |by apply noff_ok_tidy|by apply lock_free_tidy|].
    + rewrite <-Hal. unfold PGSIZE. by rewrite <-(Z.mod_add p 1 4096) by lia.
    + constructor; [unfold PGSIZE; lia|]. eapply Forall_impl; [done|]. unfold PGSIZE. simpl. lia.
    + exists s'. split; [done|]. split; [by rewrite <-app_assoc|].
      rewrite Ht. simpl. apply tidy_idem.
Qed.

(** [kalloc].  With a non-empty free list it unlinks the first page and
    returns it filled with 5s; it changes nothing outside that page; the page
    is a valid one and no longer free.  With an empty list it returns 0 and
    changes no memory.  Either way the allocator's lock is free again. *)
Theorem kalloc_spec s l :
  kmem_inv s l -> noff_ok (km_mach s) -> lock_free (km_mach s) kmem_lock ->
  exists r s', kalloc s = Ok r s' /\ km_mach s' = tidy (km_mach s) /\
  match l with
  | [] => r = 0 /\ km_mem s' = km_mem s /\ kmem_inv s' []
  | p :: l' => r = p /\ page_ok p /\ (p ∉ l') /\ kmem_inv s' l' /\
               forall a, km_mem s' a = (if in_page p a then 5 else km_mem s a)
  end.
Proof.
  intros Hi Hn Hl. rewrite kalloc_eq by done. unfold kalloc_post.
  pose proof (kmem_inv_head s l Hi) as Hh. destruct l as [|p l]; simpl in Hh; rewrite Hh.
  - eexists _, _. split; [done|]. split; [done|]. split_and!; try done.
    destruct Hi. split; simpl; try done. constructor.
  - pose proof (ki_nodup _ _ Hi) as Hnd. pose proof (ki_ok _ _ Hi) as Hok.
    apply Forall_cons in Hok as [Hok ?].
    pose proof (page_ok_pos p Hok). destruct (Z.eqb_spec p 0); [lia|].
    eexists _, _. split; [done|]. split; [done|]. apply NoDup_cons in Hnd as [? ?].
    split; [done|]. split; [done|]. split; [done|]. split; [by apply kalloc_inv|].
    intros a. simpl. rewrite memset_spec by done. done.
Qed.

(** [kfree].  A page that is not free goes to the front of the free list;
    only that page's bytes change.  An address that is not a page of the
    allocator's range makes it panic. *)
Theorem kfree_spec s l pa :
  kmem_inv s l -> noff_ok (km_mach s) -> lock_free (km_mach s) kmem_lock -> pa ∉ l ->
  (page_ok pa ->
   exists s', kfree pa s = Ok tt s' /\ kmem_inv s' (pa :: l) /\
              km_mach s' = tidy (km_mach s) /\
              forall a, in_page pa a = false -> km_mem s' a = km_mem s a) /\
  (~ page_ok pa -> kfree pa s = Panic "kfree").
Proof.
  intros Hi Hn Hl Hni. split; [|apply kfree_panics]. intros Hp.
  rewrite kfree_eq by done. eexists. split; [done|]. split; [by apply kfree_inv|].
  split; [done|]. intros a Ha. simpl. unfold in_page, PGSIZE in *.
  unfold store64. rewrite store_le_outside.
  - rewrite memset_spec by lia. by rewrite Ha.
  - destruct (Z.leb_spec pa a), (Z.ltb_spec a (pa + 4096)); simpl in *; try done; lia.
Qed.

(** C28: [kinit] terminates and puts every page from the end of the kernel to
    PHYSTOP on the free list, each exactly once. *)
Theorem kinit_frees_all s :
  wf_mem (km_mem s) -> km_freelist s = 0 -> noff_ok (km_mach s) ->
  exists s', kinit s = Ok tt s' /\
    kmem_inv s' (rev (pages_from (Z.to_nat ((PHYSTOP - PGROUNDUP kend) / PGSIZE)) (PGROUNDUP kend))).
Proof.
  intros Hw Hf Hn. destruct image_order as (? & ? & ? & ?).
  assert (Hk : 0 <= kend /\ kend + PGSIZE - 1 < 2 ^ 64)
    by (unfold PHYSTOP, KERNBASE, PGSIZE in *; lia).
  assert (Hr : PGROUNDUP kend mod PGSIZE = 0 /\ kend <= PGROUNDUP kend <= PHYSTOP).
  { rewrite PGROUNDUP_eq by lia. split; [apply Z.mod_mul; done|].
    unfold PHYSTOP, KERNBASE, PGSIZE in *.
    pose proof (Z.div_mod (kend + 4096 - 1) 4096). pose proof (Z.mod_pos_bound (kend + 4096 - 1) 4096). lia. }
  set (s1 := mkKmem (set_lock kmem_lock (mkSpinlock 0 "kmem" None) (km_mach s)) (km_mem s) (km_freelist s)).
  unfold kinit. rewrite (bind_Ok _ _ _ tt s1) by done. unfold freerange.
  assert (Hdiv : PHYSTOP - PGROUNDUP kend = PGSIZE * ((PHYSTOP - PGROUNDUP kend) / PGSIZE)).
  { apply Z_div_exact_full_2; [done|]. rewrite Zminus_mod, (proj1 Hr). done. }
  assert (0 <= (PHYSTOP - PGROUNDUP kend) / PGSIZE) by (apply Z.div_pos; [lia|done]).
  generalize dependent ((PHYSTOP - PGROUNDUP kend) / PGSIZE). intros k Hk2 Hk3.
  destruct (freerange_loop_spec (Z.to_nat k) (S (Z.to_nat k)) (PGROUNDUP kend) s1 [])
    as (s' & Hrun & Hinv & _); [lia|apply Hr|apply Hr|rewrite Z2Nat.id by lia; lia| |constructor|done| |].
  - split; simpl; [done| |constructor|constructor]. rewrite Hf. constructor.
  - done.
  - exists s'. split; [done|]. by rewrite app_nil_r in Hinv.
Qed.

End kalloc.

(** * A small image: two free pages below PHYSTOP *)

Definition image0 : Image := {|
  kend := PHYSTOP - 2 * PGSIZE;
  etext := KERNBASE + 8 * PGSIZE;
  trampoline := KERNBASE + 7 * PGSIZE;
  uservec_off := 0;
  userret_off := 0x9c;
  forkret_addr := KERNBASE + 0x1a0c;
  usertrap_addr := KERNBASE + 0x1b2e;
  kernelvec_addr := KERNBASE + 0x5c50
|}.

#[export] Instance image0_ok : ImageOk image0.
Proof. split; vm_compute; intuition congruence. Qed.

Definition page0 : Z := PHYSTOP - PGSIZE.

(** A free list with one page. *)
Definition kmem0 : kmem := mkKmem mach0 (fun _ => 0) page0.

Lemma kmem0_inv : kmem_inv (img := image0) kmem0 [page0].
Proof.
  split; simpl.
  - intros a. lia.
  - constructor; [done|]. vm_compute. constructor.
  - apply NoDup_singleton.
  - constructor; [|constructor]. split; [done|]. unfold page0, kend, image0. by vm_compute.
Qed.

Lemma kalloc_spec_witness :
  exists s', kalloc kmem0 = Ok page0 s' /\ kmem_inv (img := image0) s' [].
Proof.
  destruct (kalloc_spec (img := image0) kmem0 [page0] kmem0_inv mach0_noff_ok)
    as (r & s' & Hr & _ & -> & _ & _ & Hi & _); [split; reflexivity|].
  exists s'. split; [exact Hr|exact Hi].
Defined.

Lemma kfree_spec_witness :
  exists s', kfree (img := image0) (page0 - PGSIZE) kmem0 = Ok tt s' /\
    kmem_inv (img := image0) s' [page0 - PGSIZE; page0].
Proof.
  destruct (kfree_spec (img := image0) kmem0 [page0] (page0 - PGSIZE) kmem0_inv mach0_noff_ok) as [H _].
  - split; reflexivity.
  - by intros ?%list_elem_of_singleton.
  - destruct H as (s' & Hr & Hi & _); [split; [reflexivity|by vm_compute]|].
    exists s'. split; [exact Hr|exact Hi].
Defined.

Lemma kinit_frees_all_witness :
  exists s', kinit (img := image0) (mkKmem mach0 (fun _ => 0) 0) = Ok tt s' /\
    kmem_inv (img := image0) s' [page0; page0 - PGSIZE].
Proof.
  apply (kinit_frees_all (img := image0) (mkKmem mach0 (fun _ => 0) 0)).
  - intros a. simpl. lia.
  - reflexivity.
  - apply mach0_noff_ok.
Defined.
