(* ===== verification/Start.v ===== *)
(** kernel/start.c: what a hart does in machine mode before main.

    The registers that start.c reads and writes through kernel/riscv.h are the
    fields of [mregs]; [mret] is the instruction, with the effect that the
    privileged architecture gives it. *)

From Stdlib Require Import ZArith Lia List String Bool.
From stdpp Require Import base tactics numbers list.
From S2P Require Import Prelude.
From S2P Require Import Kalloc.

Definition MSTATUS_MPP_MASK : Z := Z.shiftl 3 11.
Definition MSTATUS_MPP_S : Z := Z.shiftl 1 11.
Definition SIE_SEIE : Z := Z.shiftl 1 9.
Definition SIE_STIE : Z := Z.shiftl 1 5.
Definition SIE_SSIE : Z := Z.shiftl 1 1.
Definition MIE_STIE : Z := Z.shiftl 1 5.

Inductive mode := Machine | Supervisor | User.

Record mregs := mkMregs {
  m_mode : mode;
  m_pc : Z;
  mstatus : Z;
  mepc : Z;
  m_satp : Z;
  medeleg : Z;
  mideleg : Z;
  m_sie : Z;
  pmpaddr0 : Z;
  pmpcfg0 : Z;
  mie : Z;
  menvcfg : Z;
  mcounteren : Z;
  m_stimecmp : Z;
  m_time : Z;
  mhartid : Z;
  m_tp_reg : Z
}.

Definition w_mstatus (x : Z) : M mregs unit := modify (fun m =>
  mkMregs (m_mode m) (m_pc m) x (mepc m) (m_satp m) (medeleg m) (mideleg m) (m_sie m) (pmpaddr0 m)
    (pmpcfg0 m) (mie m) (menvcfg m) (mcounteren m) (m_stimecmp m) (m_time m) (mhartid m) (m_tp_reg m)).
Definition w_mepc (x : Z) : M mregs unit := modify (fun m =>
  mkMregs (m_mode m) (m_pc m) (mstatus m) x (m_satp m) (medeleg m) (mideleg m) (m_sie m) (pmpaddr0 m)
    (pmpcfg0 m) (mie m) (menvcfg m) (mcounteren m) (m_stimecmp m) (m_time m) (mhartid m) (m_tp_reg m)).
Definition w_satp (x : Z) : M mregs unit := modify (fun m =>
  mkMregs (m_mode m) (m_pc m) (mstatus m) (mepc m) x (medeleg m) (mideleg m) (m_sie m) (pmpaddr0 m)
    (pmpcfg0 m) (mie m) (menvcfg m) (mcounteren m) (m_stimecmp m) (m_time m) (mhartid m) (m_tp_reg m)).
Definition w_medeleg (x : Z) : M mregs unit := modify (fun m =>
  mkMregs (m_mode m) (m_pc m) (mstatus m) (mepc m) (m_satp m) x (mideleg m) (m_sie m) (pmpaddr0 m)
    (pmpcfg0 m) (mie m) (menvcfg m) (mcounteren m) (m_stimecmp m) (m_time m) (mhartid m) (m_tp_reg m)).
Definition w_mideleg (x : Z) : M mregs unit := modify (fun m =>
  mkMregs (m_mode m) (m_pc m) (mstatus m) (mepc m) (m_satp m) (medeleg m) x (m_sie m) (pmpaddr0 m)
    (pmpcfg0 m) (mie m) (menvcfg m) (mcounteren m) (m_stimecmp m) (m_time m) (mhartid m) (m_tp_reg m)).
Definition w_sie (x : Z) : M mregs unit := modify (fun m =>
  mkMregs (m_mode m) (m_pc m) (mstatus m) (mepc m) (m_satp m) (medeleg m) (mideleg m) x (pmpaddr0 m)
    (pmpcfg0 m) (mie m) (menvcfg m) (mcounteren m) (m_stimecmp m) (m_time m) (mhartid m) (m_tp_reg m)).
Definition w_pmpaddr0 (x : Z) : M mregs unit := modify (fun m =>
  mkMregs (m_mode m) (m_pc m) (mstatus m) (mepc m) (m_satp m) (medeleg m) (mideleg m) (m_sie m) x
    (pmpcfg0 m) (mie m) (menvcfg m) (mcounteren m) (m_stimecmp m) (m_time m) (mhartid m) (m_tp_reg m)).
Definition w_pmpcfg0 (x : Z) : M mregs unit := modify (fun m =>
  mkMregs (m_mode m) (m_pc m) (mstatus m) (mepc m) (m_satp m) (medeleg m) (mideleg m) (m_sie m) (pmpaddr0 m)
    x (mie m) (menvcfg m) (mcounteren m) (m_stimecmp m) (m_time m) (mhartid m) (m_tp_reg m)).
Definition w_mie (x : Z) : M mregs unit := modify (fun m =>
  mkMregs (m_mode m) (m_pc m) (mstatus m) (mepc m) (m_satp m) (medeleg m) (mideleg m) (m_sie m) (pmpaddr0 m)
    (pmpcfg0 m) x (menvcfg m) (mcounteren m) (m_stimecmp m) (m_time m) (mhartid m) (m_tp_reg m)).
Definition w_menvcfg (x : Z) : M mregs unit := modify (fun m =>
  mkMregs (m_mode m) (m_pc m) (mstatus m) (mepc m) (m_satp m) (medeleg m) (mideleg m) (m_sie m) (pmpaddr0 m)
    (pmpcfg0 m) (mie m) x (mcounteren m) (m_stimecmp m) (m_time m) (mhartid m) (m_tp_reg m)).
Definition w_mcounteren (x : Z) : M mregs unit := modify (fun m =>
  mkMregs (m_mode m) (m_pc m) (mstatus m) (mepc m) (m_satp m) (medeleg m) (mideleg m) (m_sie m) (pmpaddr0 m)
    (pmpcfg0 m) (mie m) (menvcfg m) x (m_stimecmp m) (m_time m) (mhartid m) (m_tp_reg m)).
Definition w_stimecmp (x : Z) : M mregs unit := modify (fun m =>
  mkMregs (m_mode m) (m_pc m) (mstatus m) (mepc m) (m_satp m) (medeleg m) (mideleg m) (m_sie m) (pmpaddr0 m)
    (pmpcfg0 m) (mie m) (menvcfg m) (mcounteren m) x (m_time m) (mhartid m) (m_tp_reg m)).
Definition w_tp (x : Z) : M mregs unit := modify (fun m =>
  mkMregs (m_mode m) (m_pc m) (mstatus m) (mepc m) (m_satp m) (medeleg m) (mideleg m) (m_sie m) (pmpaddr0 m)
    (pmpcfg0 m) (mie m) (menvcfg m) (mcounteren m) (m_stimecmp m) (m_time m) (mhartid m) x).

(** mstatus.MPP, the mode that mret returns to. *)
Definition mpp (status : Z) : Z := Z.land (Z.shiftr status 11) 3.
Definition mode_of (z : Z) : mode := if z =? 3 then Machine else if z =? 1 then Supervisor else User.

(** MIE becomes MPIE, MPIE becomes 1, MPP becomes U, and MPRV becomes 0 unless
    the mode stays M. *)
Definition mret_status (x : Z) : Z :=
  let x' := if Z.testbit x 7 then Z.setbit x 3 else Z.clearbit x 3 in
  let x'' := if mpp x =? 3 then x' else Z.clearbit x' 17 in
  Z.ldiff (Z.setbit x'' 7) MSTATUS_MPP_MASK.
Definition mret : M mregs unit := modify (fun m =>
  mkMregs (mode_of (mpp (mstatus m))) (mepc m) (mret_status (mstatus m)) (mepc m) (m_satp m) (medeleg m) (mideleg m)
    (m_sie m) (pmpaddr0 m) (pmpcfg0 m) (mie m) (menvcfg m) (mcounteren m) (m_stimecmp m) (m_time m) (mhartid m)
    (m_tp_reg m)).

Definition timerinit : M mregs unit :=
  m <- get ;;
  w_mie (Z.lor (mie m) MIE_STIE) ;;;
  w_menvcfg (Z.lor (menvcfg m) (Z.shiftl 1 63)) ;;;
  w_mcounteren (Z.lor (mcounteren m) 2) ;;;
  w_stimecmp (u64 (m_time m + 1000000)).

(** [main_addr] is the address of main. *)
Definition start (main_addr : Z) : M mregs unit :=
  m <- get ;;
  let x := mstatus m in
  let x := Z.land x (u64 (Z.lnot MSTATUS_MPP_MASK)) in
  let x := Z.lor x MSTATUS_MPP_S in
  w_mstatus x ;;;
  w_mepc main_addr ;;;
  w_satp 0 ;;;
  w_medeleg 0xffff ;;;
  w_mideleg 0xffff ;;;
  w_sie (Z.lor (Z.lor (Z.lor (m_sie m) SIE_SEIE) SIE_STIE) SIE_SSIE) ;;;
  w_pmpaddr0 0x3fffffffffffff ;;;
  w_pmpcfg0 0xf ;;;
  timerinit ;;;
  w_tp (u64 (s32 (mhartid m))) ;;;
  mret.

(** * What main finds *)

(** Entry 0 of the physical memory protection lets the other modes read, write
    and execute address [a]: permissions in bits 0 to 2, and the address below
    the top of range in bits 3 and 4. *)
Definition pmp_allows (m : mregs) (a : Z) : Prop :=
  Z.land (pmpcfg0 m) 7 = 7 /\ Z.land (Z.shiftr (pmpcfg0 m) 3) 3 = 1 /\ 0 <= a < Z.shiftl (pmpaddr0 m) 2.

(** The state in which main starts on the hart that was in state [m]. *)
Record started (main_addr : Z) (m m' : mregs) : Prop := {
  sd_mode : m_mode m' = Supervisor;
  sd_pc : m_pc m' = main_addr;
  sd_paging : m_satp m' = 0;
  sd_tp : m_tp_reg m' = mhartid m;
  sd_traps : forall i, 0 <= i < 16 -> Z.testbit (medeleg m') i = true /\ Z.testbit (mideleg m') i = true;
  sd_sie : forall i, Z.testbit (m_sie m') i = Z.testbit (m_sie m) i || (i =? 1) || (i =? 5) || (i =? 9);
  sd_status : forall i, 0 <= i < 64 -> i <> 3 -> i <> 7 -> i <> 11 -> i <> 12 -> i <> 17 ->
    Z.testbit (mstatus m') i = Z.testbit (mstatus m) i;
  sd_memory : forall a, 0 <= a < PHYSTOP -> pmp_allows m' a;
  sd_timer : Z.testbit (mie m') 5 = true /\ Z.testbit (menvcfg m') 63 = true /\ Z.testbit (mcounteren m') 1 = true /\
    m_stimecmp m' = u64 (m_time m + 1000000)
}.

Definition with_mpp_s (x : Z) : Z := Z.lor (Z.land x (u64 (Z.lnot MSTATUS_MPP_MASK))) MSTATUS_MPP_S.

Lemma mask_bits i : 0 <= i < 64 -> Z.testbit (u64 (Z.lnot MSTATUS_MPP_MASK)) i = negb ((i =? 11) || (i =? 12)).
Proof.
  intros Hi. unfold u64. rewrite Z.mod_pow2_bits_low by lia. rewrite Z.lnot_spec by lia. f_equal.
  unfold MSTATUS_MPP_MASK. rewrite Z.shiftl_spec by lia.
  destruct (Z.eqb_spec i 11) as [->|]; [done|]. destruct (Z.eqb_spec i 12) as [->|]; [done|].
  destruct (decide (i < 11)); [apply Z.testbit_neg_r; lia|].
  apply (Z.bits_above_log2 3); [lia|]. change (Z.log2 3) with 1. lia.
Qed.

Lemma with_mpp_s_bits x i : 0 <= i < 64 ->
  Z.testbit (with_mpp_s x) i = if i =? 11 then true else if i =? 12 then false else Z.testbit x i.
Proof.
  intros Hi. unfold with_mpp_s. rewrite Z.lor_spec, Z.land_spec, mask_bits by done.
  unfold MSTATUS_MPP_S. rewrite Z.shiftl_1_l, Z.pow2_bits_eqb by lia. rewrite (Z.eqb_sym 11 i).
  destruct (Z.eqb_spec i 11) as [->|]; simpl; [by rewrite orb_true_r|].
  destruct (i =? 12); simpl; by rewrite ?andb_true_r, ?andb_false_r, orb_false_r.
Qed.

Lemma with_mpp_s_mode x : mpp (with_mpp_s x) = 1.
Proof.
  apply Z.bits_inj'. intros i Hi. unfold mpp. rewrite Z.land_spec, Z.shiftr_spec by lia.
  destruct (decide (i < 2)).
  - rewrite with_mpp_s_bits by lia. assert (i = 0 \/ i = 1) as [-> | ->] by lia; done.
  - rewrite (Z.bits_above_log2 3 i), andb_false_r by (change (Z.log2 3) with 1; lia).
    symmetry. apply Z.bits_above_log2; [lia|]. change (Z.log2 1) with 0. lia.
Qed.

Lemma mret_status_bits x i : 0 <= i < 64 -> i <> 3 -> i <> 7 -> i <> 11 -> i <> 12 -> i <> 17 ->
  Z.testbit (mret_status x) i = Z.testbit x i.
Proof.
  intros Hi H3 H7 H11 H12 H17. unfold mret_status. cbv zeta. rewrite Z.ldiff_spec.
  pose proof (mask_bits i Hi) as Hm. unfold u64 in Hm. rewrite Z.mod_pow2_bits_low, Z.lnot_spec in Hm by lia. rewrite Hm.
  rewrite (proj2 (Z.eqb_neq i 11)), (proj2 (Z.eqb_neq i 12)), andb_true_r by done.
  rewrite Z.setbit_neq by lia. destruct (mpp x =? 3), (Z.testbit x 7); by rewrite ?Z.clearbit_neq, ?Z.setbit_neq by lia.
Qed.

(** One register write on explicit registers. *)
Ltac mflat := cbv [w_mstatus w_mepc w_satp w_medeleg w_mideleg w_sie w_pmpaddr0 w_pmpcfg0 w_mie w_menvcfg w_mcounteren
  w_stimecmp w_tp mret modify get m_mode m_pc mstatus mepc m_satp medeleg mideleg m_sie pmpaddr0 pmpcfg0 mie menvcfg
  mcounteren m_stimecmp m_time mhartid m_tp_reg].
Ltac mstep := etransitivity; [eapply bind_Ok; lazymatch goal with |- timerinit _ = _ => fail | _ => mflat; reflexivity end|]; cbv beta.

Lemma timerinit_eq mo pc st ep sa med mid si pa pc0 mi me mc sc ti hart tp :
  timerinit (mkMregs mo pc st ep sa med mid si pa pc0 mi me mc sc ti hart tp) =
  Ok tt (mkMregs mo pc st ep sa med mid si pa pc0 (Z.lor mi MIE_STIE) (Z.lor me (Z.shiftl 1 63)) (Z.lor mc 2)
    (u64 (ti + 1000000)) ti hart tp).
Proof. unfold timerinit. repeat mstep. mflat. reflexivity. Qed.

Lemma start_regs_eq a mo pc st ep sa med mid si pa pc0 mi me mc sc ti hart tp :
  start a (mkMregs mo pc st ep sa med mid si pa pc0 mi me mc sc ti hart tp) =
  Ok tt (mkMregs (mode_of (mpp (with_mpp_s st))) a (mret_status (with_mpp_s st)) a 0 0xffff 0xffff
    (Z.lor (Z.lor (Z.lor si SIE_SEIE) SIE_STIE) SIE_SSIE) 0x3fffffffffffff 0xf
    (Z.lor mi MIE_STIE) (Z.lor me (Z.shiftl 1 63)) (Z.lor mc 2) (u64 (ti + 1000000)) ti hart (u64 (s32 hart))).
Proof.
  unfold start. mstep. cbv zeta. repeat mstep. etransitivity; [eapply bind_Ok, timerinit_eq|]. cbv beta.
  repeat mstep. mflat. reflexivity.
Qed.


