(* ===== verification/Vm.v ===== *)
(** Virtual memory: kernel/vm.c over the Sv39 macros of kernel/riscv.h.

    Page-table pages live in the modelled physical memory: a PTE is the 64-bit
    little-endian word at its address, so that page tables, user pages and the
    allocator's free list share one store.  Kernel addresses of RAM are
    physical addresses (the kernel's map of RAM is the identity).

    A kernel buffer that a caller passes to [copyout], [copyin], [copyinstr]
    or [uvmfirst] by address is passed here by its bytes. *)

From Stdlib Require Import ZArith Lia List String Bool.
From stdpp Require Import base tactics numbers list functions sets.
From S2P Require Import Prelude.
From S2P Require Import Spinlock.
From S2P Require Import Cstring.
From S2P Require Import Kalloc.

(** * Constants *)

Definition PTE_V : Z := Z.shiftl 1 0.
Definition PTE_R : Z := Z.shiftl 1 1.
Definition PTE_W : Z := Z.shiftl 1 2.
Definition PTE_X : Z := Z.shiftl 1 3.
Definition PTE_U : Z := Z.shiftl 1 4.
Definition PA2PTE (pa : Z) : Z := u64 (Z.shiftl (Z.shiftr pa 12) 10).
Definition PTE2PA (pte : Z) : Z := u64 (Z.shiftl (Z.shiftr pte 10) 12).
Definition PTE_FLAGS (pte : Z) : Z := Z.land pte 0x3FF.
Definition PX (level : nat) (va : Z) : Z :=
  Z.land (Z.shiftr va (12 + 9 * Z.of_nat level)) 0x1FF.
Definition MAXVA : Z := Z.shiftl 1 (9 + 9 + 9 + 12 - 1).
Definition TRAMPOLINE : Z := MAXVA - PGSIZE.
Definition TRAPFRAME : Z := TRAMPOLINE - PGSIZE.
Definition KSTACK (p : Z) : Z := TRAMPOLINE - (p + 1) * 2 * PGSIZE.
Definition UART0 : Z := 0x10000000.
Definition VIRTIO0 : Z := 0x10001000.
Definition PLIC : Z := 0x0c000000.

(** [pte & bit] as a C condition. *)
Definition has (pte bit : Z) : bool := negb (Z.land pte bit =? 0).

(** * Operations *)

Section vm.
Context {img : Image}.

Definition ld64 (a : Z) : M kmem Z := gets (fun s => load64 a (km_mem s)).
Definition st64 (a v : Z) : M kmem unit := upd_mem (store64 a v).

(** [walk]'s loop over the levels; [level] levels remain above the leaf. *)
Fixpoint walk_loop (level : nat) (pagetable va : Z) (alloc : bool) : M kmem Z :=
  match level with
  | O => ret (pagetable + 8 * PX 0 va)
  | S level' =>
      let pte := pagetable + 8 * PX level va in
      v <- ld64 pte ;;
      if has v PTE_V then walk_loop level' (PTE2PA v) va alloc
      else if negb alloc then ret 0 else
        pagetable' <- kalloc ;;
        if pagetable' =? 0 then ret 0 else
        upd_mem (memset pagetable' 0 PGSIZE) ;;;
        st64 pte (Z.lor (PA2PTE pagetable') PTE_V) ;;;
        walk_loop level' pagetable' va alloc
  end.
Definition walk (pagetable va : Z) (alloc : bool) : M kmem Z :=
  if MAXVA <=? va then panic "walk" else walk_loop 2 pagetable va alloc.

Definition walkaddr (pagetable va : Z) : M kmem Z :=
  if MAXVA <=? va then ret 0 else
  pte <- walk pagetable va false ;;
  if pte =? 0 then ret 0 else
  v <- ld64 pte ;;
  if negb (has v PTE_V) then ret 0 else
  if negb (has v PTE_U) then ret 0 else
  ret (PTE2PA v).

(** The [for(;;)] of mappages, one iteration per page. *)
Fixpoint mappages_loop (fuel : nat) (pagetable a last pa perm : Z) : M kmem Z :=
  match fuel with
  | O => spin
  | S f =>
      pte <- walk pagetable a true ;;
      if pte =? 0 then ret (-1) else
      v <- ld64 pte ;;
      if has v PTE_V then panic "mappages: remap" else
      st64 pte (Z.lor (Z.lor (PA2PTE pa) perm) PTE_V) ;;;
      if a =? last then ret 0 else
      mappages_loop f pagetable (u64 (a + PGSIZE)) last (u64 (pa + PGSIZE)) perm
  end.
Definition mappages (pagetable va size pa perm : Z) : M kmem Z :=
  if negb (va mod PGSIZE =? 0) then panic "mappages: va not aligned" else
  if negb (size mod PGSIZE =? 0) then panic "mappages: size not aligned" else
  if size =? 0 then panic "mappages: size" else
  mappages_loop (Z.to_nat (size / PGSIZE)) pagetable va (u64 (va + size - PGSIZE)) pa perm.

Definition kvmmap (kpgtbl va pa sz perm : Z) : M kmem unit :=
  r <- mappages kpgtbl va sz pa perm ;;
  if negb (r =? 0) then panic "kvmmap" else ret tt.

(** [for(a = va; a < va + npages*PGSIZE; a += PGSIZE)] *)
Fixpoint uvmunmap_loop (k : nat) (pagetable a : Z) (do_free : bool) : M kmem unit :=
  match k with
  | O => ret tt
  | S k' =>
      pte <- walk pagetable a false ;;
      if pte =? 0 then panic "uvmunmap: walk" else
      v <- ld64 pte ;;
      if negb (has v PTE_V) then panic "uvmunmap: not mapped" else
      if PTE_FLAGS v =? PTE_V then panic "uvmunmap: not a leaf" else
      when do_free (kfree (PTE2PA v)) ;;;
      st64 pte 0 ;;;
      uvmunmap_loop k' pagetable (a + PGSIZE) do_free
  end.
Definition uvmunmap (pagetable va npages : Z) (do_free : bool) : M kmem unit :=
  if negb (va mod PGSIZE =? 0) then panic "uvmunmap: not aligned" else
  uvmunmap_loop (Z.to_nat npages) pagetable va do_free.

Definition uvmcreate : M kmem Z :=
  pagetable <- kalloc ;;
  if pagetable =? 0 then ret 0 else
  upd_mem (memset pagetable 0 PGSIZE) ;;;
  ret pagetable.

Definition uvmfirst (pagetable : Z) (src : list Z) : M kmem unit :=
  if PGSIZE <=? Z.of_nat (length src) then panic "uvmfirst: more than a page" else
  m <- kalloc ;;
  upd_mem (memset m 0 PGSIZE) ;;;
  mappages pagetable 0 PGSIZE m (Z.lor (Z.lor (Z.lor PTE_W PTE_R) PTE_X) PTE_U) ;;;
  upd_mem (store_bytes m src).

Definition uvmdealloc (pagetable oldsz newsz : Z) : M kmem Z :=
  if oldsz <=? newsz then ret oldsz else
  when (PGROUNDUP newsz <? PGROUNDUP oldsz)
    (let npages := s32 ((PGROUNDUP oldsz - PGROUNDUP newsz) / PGSIZE) in
     uvmunmap pagetable (PGROUNDUP newsz) npages true) ;;;
  ret newsz.

(** [for(a = oldsz; a < newsz; a += PGSIZE)], with the rounded [oldsz]. *)
Fixpoint uvmalloc_loop (fuel : nat) (pagetable a oldsz newsz xperm : Z) : M kmem Z :=
  match fuel with
  | O => spin
  | S f =>
      if negb (a <? newsz) then ret newsz else
      m <- kalloc ;;
      if m =? 0 then uvmdealloc pagetable a oldsz ;;; ret 0 else
      upd_mem (memset m 0 PGSIZE) ;;;
      r <- mappages pagetable a PGSIZE m (Z.lor (Z.lor PTE_R PTE_U) xperm) ;;
      if negb (r =? 0) then kfree m ;;; uvmdealloc pagetable a oldsz ;;; ret 0 else
      uvmalloc_loop f pagetable (u64 (a + PGSIZE)) oldsz newsz xperm
  end.
Definition uvmalloc (pagetable oldsz newsz xperm : Z) : M kmem Z :=
  if newsz <? oldsz then ret oldsz else
  let oldsz := PGROUNDUP oldsz in
  uvmalloc_loop (S (Z.to_nat ((newsz - oldsz + PGSIZE - 1) / PGSIZE)))
    pagetable oldsz oldsz newsz xperm.

(** [depth] bounds the depth of the recursion: a page table has 3 levels. *)
Fixpoint freewalk (depth : nat) (pagetable : Z) : M kmem unit :=
  match depth with
  | O => spin
  | S d =>
      for_each (seq 0 512) (fun i =>
        let a := pagetable + 8 * Z.of_nat i in
        pte <- ld64 a ;;
        if has pte PTE_V && (Z.land pte (Z.lor (Z.lor PTE_R PTE_W) PTE_X) =? 0)
        then freewalk d (PTE2PA pte) ;;; st64 a 0
        else if has pte PTE_V then panic "freewalk: leaf" else ret tt) ;;;
      kfree pagetable
  end.

Definition uvmfree (pagetable sz : Z) : M kmem unit :=
  when (0 <? sz) (uvmunmap pagetable 0 (PGROUNDUP sz / PGSIZE) true) ;;;
  freewalk 3 pagetable.

(** The loop of uvmcopy; [i] is the user address of the page. *)
Fixpoint uvmcopy_loop (fuel : nat) (old new i sz : Z) : M kmem Z :=
  match fuel with
  | O => spin
  | S f =>
      if negb (i <? sz) then ret 0 else
      pte <- walk old i false ;;
      if pte =? 0 then panic "uvmcopy: pte should exist" else
      v <- ld64 pte ;;
      if negb (has v PTE_V) then panic "uvmcopy: page not present" else
      let pa := PTE2PA v in
      let flags := PTE_FLAGS v in
      m <- kalloc ;;
      if m =? 0 then uvmunmap new 0 (i / PGSIZE) true ;;; ret (-1) else
      upd_mem (memmove m pa PGSIZE) ;;;
      r <- mappages new i PGSIZE m flags ;;
      if negb (r =? 0)
      then kfree m ;;; uvmunmap new 0 (i / PGSIZE) true ;;; ret (-1)
      else uvmcopy_loop f old new (u64 (i + PGSIZE)) sz
  end.
Definition uvmcopy (old new sz : Z) : M kmem Z :=
  uvmcopy_loop (S (Z.to_nat ((sz + PGSIZE - 1) / PGSIZE))) old new 0 sz.

Definition uvmclear (pagetable va : Z) : M kmem unit :=
  pte <- walk pagetable va false ;;
  if pte =? 0 then panic "uvmclear" else
  v <- ld64 pte ;;
  st64 pte (Z.land v (Z.lnot PTE_U)).

(** Bytes of [src] still to copy go to user address [dstva]. *)
Fixpoint copyout_loop (fuel : nat) (pagetable dstva : Z) (src : list Z) : M kmem Z :=
  match fuel with
  | O => spin
  | S f =>
      let len := Z.of_nat (length src) in
      if negb (0 <? len) then ret 0 else
      let va0 := PGROUNDDOWN dstva in
      if MAXVA <=? va0 then ret (-1) else
      pte <- walk pagetable va0 false ;;
      if pte =? 0 then ret (-1) else
      v <- ld64 pte ;;
      if negb (has v PTE_V) || negb (has v PTE_U) || negb (has v PTE_W) then ret (-1) else
      let pa0 := PTE2PA v in
      let n := PGSIZE - (dstva - va0) in
      let n := if len <? n then len else n in
      upd_mem (store_bytes (pa0 + (dstva - va0)) (take (Z.to_nat n) src)) ;;;
      copyout_loop f pagetable (va0 + PGSIZE) (drop (Z.to_nat n) src)
  end.
Definition copyout (pagetable dstva : Z) (src : list Z) : M kmem Z :=
  copyout_loop (length src / 4096 + 3) pagetable dstva src.

(** Result of [copyin] and [copyinstr]: the bytes put at [dst], or [None] for
    the return value -1. *)
Fixpoint copyin_loop (fuel : nat) (pagetable : Z) (dst : list Z) (srcva len : Z)
  : M kmem (option (list Z)) :=
  match fuel with
  | O => spin
  | S f =>
      if negb (0 <? len) then ret (Some dst) else
      let va0 := PGROUNDDOWN srcva in
      pa0 <- walkaddr pagetable va0 ;;
      if pa0 =? 0 then ret None else
      let n := PGSIZE - (srcva - va0) in
      let n := if len <? n then len else n in
      bs <- gets (fun s => load_bytes (Z.to_nat n) (pa0 + (srcva - va0)) (km_mem s)) ;;
      copyin_loop f pagetable (dst ++ bs) (va0 + PGSIZE) (len - n)
  end.
Definition copyin (pagetable srcva len : Z) : M kmem (option (list Z)) :=
  copyin_loop (Z.to_nat (len / PGSIZE) + 3) pagetable [] srcva len.

(** The inner loop of copyinstr over the rest of a page: the bytes copied and
    whether the NUL was found. *)
Fixpoint copyinstr_page (n : nat) (p : Z) (m : mem) : list Z * bool :=
  match n with
  | O => ([], false)
  | S n' => if m p =? 0 then ([0], true)
            else let r := copyinstr_page n' (p + 1) m in (m p :: fst r, snd r)
  end.
Fixpoint copyinstr_loop (fuel : nat) (pagetable : Z) (dst : list Z) (srcva max : Z)
  : M kmem (option (list Z)) :=
  match fuel with
  | O => spin
  | S f =>
      if negb (0 <? max) then ret None else
      let va0 := PGROUNDDOWN srcva in
      pa0 <- walkaddr pagetable va0 ;;
      if pa0 =? 0 then ret None else
      let n := PGSIZE - (srcva - va0) in
      let n := if max <? n then max else n in
      r <- gets (fun s => copyinstr_page (Z.to_nat n) (pa0 + (srcva - va0)) (km_mem s)) ;;
      if (snd r : bool) then ret (Some (dst ++ fst r))
      else copyinstr_loop f pagetable (dst ++ fst r) (va0 + PGSIZE) (max - n)
  end.
Definition copyinstr (pagetable srcva max : Z) : M kmem (option (list Z)) :=
  copyinstr_loop (Z.to_nat (max / PGSIZE) + 3) pagetable [] srcva max.

(** proc.c: a kernel stack page per process, each below a guard page. *)
Definition NPROC : nat := 64.
Definition proc_mapstacks (kpgtbl : Z) : M kmem unit :=
  for_each (seq 0 NPROC) (fun p =>
    pa <- kalloc ;;
    if pa =? 0 then panic "kalloc" else
    kvmmap kpgtbl (KSTACK (Z.of_nat p)) pa PGSIZE (Z.lor PTE_R PTE_W)).

Definition kvmmake : M kmem Z :=
  kpgtbl <- kalloc ;;
  upd_mem (memset kpgtbl 0 PGSIZE) ;;;
  kvmmap kpgtbl UART0 UART0 PGSIZE (Z.lor PTE_R PTE_W) ;;;
  kvmmap kpgtbl VIRTIO0 VIRTIO0 PGSIZE (Z.lor PTE_R PTE_W) ;;;
  kvmmap kpgtbl PLIC PLIC 0x4000000 (Z.lor PTE_R PTE_W) ;;;
  kvmmap kpgtbl KERNBASE KERNBASE (etext - KERNBASE) (Z.lor PTE_R PTE_X) ;;;
  kvmmap kpgtbl etext etext (PHYSTOP - etext) (Z.lor PTE_R PTE_W) ;;;
  kvmmap kpgtbl TRAMPOLINE trampoline PGSIZE (Z.lor PTE_R PTE_X) ;;;
  kvmmap kpgtbl 0x100000 0x100000 PGSIZE (Z.lor PTE_R PTE_W) ;;;
  proc_mapstacks kpgtbl ;;;
  ret kpgtbl.

End vm.
