(* ===== verification/Pagetable.v ===== *)
(** What the page tables of kernel/vm.c mean.

    A page table is a map from virtual pages to page-table entries; its
    representation is a tree of pages in physical memory.  [ptinv] says that
    the tree is laid out in distinct pages that are not on the free list, and
    the operations of vm.c are shown to act on the map: [walk] finds or makes
    room for an entry without changing the map, [mappages] adds entries,
    [uvmunmap] removes them, and [copyout] and [copyin] write and read the
    memory that the map gives to a user. *)

From Stdlib Require Import ZArith Lia List String Bool.
From stdpp Require Import base tactics numbers list functions sets.
From S2P Require Import Prelude.
From S2P Require Import Spinlock.
From S2P Require Import Cstring.
From S2P Require Import Kalloc.
From S2P Require Import Vm.

(** * Bits of an entry *)

Lemma shiftr_small f n : 0 <= f < 2 ^ n -> 0 <= n -> Z.shiftr f n = 0.
Proof. intros Hf Hn. rewrite Z.shiftr_div_pow2 by done. by apply Z.div_small. Qed.

Lemma has_V_lor x : has (Z.lor x PTE_V) PTE_V = true.
Proof.
  unfold has. apply negb_true_iff, Z.eqb_neq. intros H. apply (f_equal (fun z => Z.testbit z 0)) in H.
  rewrite Z.land_spec, Z.lor_spec, Z.bits_0 in H. change (Z.testbit PTE_V 0) with true in H.
  by rewrite orb_true_r in H.
Qed.

Lemma PTE_V_small : 0 <= PTE_V < 1024.
Proof. change PTE_V with 1. lia. Qed.

Lemma has_0 b : has 0 b = false.
Proof. unfold has. by rewrite Z.land_0_l. Qed.

Section bits.
Context {img : Image} {imgok : ImageOk img}.

Lemma page_ok_low p : page_ok p -> 0 < p < 2 ^ 33 /\ p = p / 4096 * 4096.
Proof.
  intros [Ha Hr]. destruct image_order as (? & ? & ? & ?). unfold PHYSTOP, KERNBASE, PGSIZE in *.
  pose proof (Z.div_mod p 4096). lia.
Qed.

Lemma PA2PTE_eq p : page_ok p -> PA2PTE p = p / 4096 * 1024 /\ 0 <= PA2PTE p < 2 ^ 32.
Proof.
  intros Hp%page_ok_low. unfold PA2PTE. rewrite Z.shiftl_mul_pow2, Z.shiftr_div_pow2 by lia.
  change (2 ^ 12) with 4096. change (2 ^ 10) with 1024.
  assert (0 <= p / 4096 < 2 ^ 21).
  { split; [apply Z.div_pos; lia|]. apply Z.div_lt_upper_bound; lia. }
  rewrite u64_small by lia. lia.
Qed.

(** The flags do not reach the address. *)
Lemma PTE2PA_make p f : page_ok p -> 0 <= f < 1024 -> PTE2PA (Z.lor (PA2PTE p) f) = p.
Proof.
  intros Hp Hf. destruct (PA2PTE_eq p Hp) as [E _]. pose proof (page_ok_low p Hp) as [Hr Hq].
  unfold PTE2PA. rewrite Z.shiftr_lor, (shiftr_small f) by (change (2 ^ 10) with 1024; lia).
  rewrite Z.lor_0_r, E, Z.shiftr_div_pow2, Z.shiftl_mul_pow2 by lia. change (2 ^ 10) with 1024.
  rewrite Z.div_mul by lia. change (2 ^ 12) with 4096. rewrite u64_small; lia.
Qed.

Lemma lor_small a b n : 0 <= n -> 0 <= a < 2 ^ n -> 0 <= b < 2 ^ n -> 0 <= Z.lor a b < 2 ^ n.
Proof.
  intros Hn Ha Hb. assert (E : Z.lor a b = Z.lor a b mod 2 ^ n).
  { apply Z.bits_inj'. intros i Hi. destruct (Z.ltb_spec i n); [by rewrite Z.mod_pow2_bits_low|].
    rewrite Z.mod_pow2_bits_high by lia. rewrite <-(Z.mod_small a (2 ^ n)), <-(Z.mod_small b (2 ^ n)) by done.
    by rewrite Z.lor_spec, !Z.mod_pow2_bits_high by lia. }
  rewrite E. apply Z.mod_pos_bound. apply Z.pow_pos_nonneg; lia.
Qed.

Lemma make_small p f : page_ok p -> 0 <= f < 1024 -> 0 <= Z.lor (PA2PTE p) f < 2 ^ 64.
Proof.
  intros Hp Hf. destruct (PA2PTE_eq p Hp) as [_ Hr].
  pose proof (lor_small (PA2PTE p) f 64). lia.
Qed.

Lemma PX_range level va : 0 <= PX level va < 512.
Proof.
  unfold PX. change 0x1FF with (Z.ones 9). rewrite Z.land_ones by lia. apply Z.mod_pos_bound. lia.
Qed.

Lemma PX_eq level va : PX level va = va / 2 ^ (12 + 9 * Z.of_nat level) mod 512.
Proof. unfold PX. change 0x1FF with (Z.ones 9). rewrite Z.land_ones, Z.shiftr_div_pow2 by lia. done. Qed.

(** The three indices determine the page. *)
Lemma PX_inj va va' :
  0 <= va < MAXVA -> 0 <= va' < MAXVA -> (forall level, (level < 3)%nat -> PX level va = PX level va') ->
  va / PGSIZE = va' / PGSIZE.
Proof.
  intros Hv Hv' H. pose proof (H 0%nat) as H0. pose proof (H 1%nat) as H1. pose proof (H 2%nat) as H2.
  rewrite !PX_eq in H0, H1, H2. change (2 ^ (12 + 9 * Z.of_nat 0)) with 4096 in H0.
  change (2 ^ (12 + 9 * Z.of_nat 1)) with (4096 * 512) in H1.
  change (2 ^ (12 + 9 * Z.of_nat 2)) with (4096 * 512 * 512) in H2. unfold PGSIZE.
  change MAXVA with (4096 * 512 * 512 * 256) in *. rewrite <-!Z.div_div in * by lia.
  set (n := va / 4096) in *. set (n' := va' / 4096) in *.
  assert (0 <= n < 512 * 512 * 256) by (unfold n; split; [apply Z.div_pos|apply Z.div_lt_upper_bound]; lia).
  assert (0 <= n' < 512 * 512 * 256) by (unfold n'; split; [apply Z.div_pos|apply Z.div_lt_upper_bound]; lia).
  clearbody n n'. pose proof (Z.div_mod n 512). pose proof (Z.div_mod n' 512).
  pose proof (Z.div_mod (n / 512) 512). pose proof (Z.div_mod (n' / 512) 512).
  rewrite (Z.mod_small (n / 512 / 512)) in H2 by (split; [apply Z.div_pos; [apply Z.div_pos|]|apply Z.div_lt_upper_bound; [|apply Z.div_lt_upper_bound]]; lia).
  rewrite (Z.mod_small (n' / 512 / 512)) in H2 by (split; [apply Z.div_pos; [apply Z.div_pos|]|apply Z.div_lt_upper_bound; [|apply Z.div_lt_upper_bound]]; lia).
  lia.
Qed.

End bits.

(** * The tree *)

Section tree.
Context {img : Image} {imgok : ImageOk img}.

(** [T w] is the page-table page reached by the path of indices [w] from the
    root. *)

Record ptinv (s : kmem) (l : list Z) (T : list Z -> option Z) : Prop := {
  pt_kmem : kmem_inv s l;
  pt_ready : noff_ok (km_mach s) /\ lock_free (km_mach s) kmem_lock;
  pt_page : forall w p, T w = Some p -> page_ok p /\ p ∉ l;
  pt_inj : forall w w' p, T w = Some p -> T w' = Some p -> w = w';
  pt_closed : forall w i, T w = None -> T (w ++ [i]) = None;
  pt_link : forall w p i, T w = Some p -> (length w < 2)%nat -> 0 <= i < 512 ->
    match T (w ++ [i]) with
    | Some q => load64 (p + 8 * i) (km_mem s) = Z.lor (PA2PTE q) PTE_V
    | None => has (load64 (p + 8 * i) (km_mem s)) PTE_V = false
    end
}.

(** The entry of the map: 0 where there is no leaf table. *)
Definition entry (T : list Z -> option Z) (m : mem) (i j k : Z) : Z :=
  match T [i; j] with Some p => load64 (p + 8 * k) m | None => 0 end.
Definition pte_of (T : list Z -> option Z) (m : mem) (va : Z) : Z := entry T m (PX 2 va) (PX 1 va) (PX 0 va).

Lemma load64_in_page p i m m' :
  0 <= i < 512 -> (forall x, p <= x < p + PGSIZE -> m' x = m x) ->
  load64 (p + 8 * i) m' = load64 (p + 8 * i) m.
Proof. intros Hi Hm. apply (load_le_ext 8). intros x Hx. apply Hm. unfold PGSIZE. lia. Qed.

(** Memory outside the free pages and the tables is nobody's business here. *)
Lemma kmem_inv_ext s l m' :
  kmem_inv s l -> wf_mem m' -> (forall q x, q ∈ l -> q <= x < q + PGSIZE -> m' x = km_mem s x) ->
  kmem_inv (mkKmem (km_mach s) m' (km_freelist s)) l.
Proof.
  intros [Hw Hl Hn Ho] Hw' Hm. split; simpl; try done. eapply free_pages_ext; [|done].
  intros q x Hq Hx. apply (Hm q); [done|]. unfold PGSIZE. lia.
Qed.

Lemma pages_apart p q x : page_ok p -> page_ok q -> p <> q -> p <= x < p + PGSIZE -> ~ (q <= x < q + PGSIZE).
Proof. intros Hp Hq Hne. destruct (page_ok_disjoint p q Hp Hq Hne); lia. Qed.

Lemma store64_other_page p q i v m x :
  page_ok p -> page_ok q -> p <> q -> 0 <= i < 512 -> p <= x < p + PGSIZE ->
  store64 (q + 8 * i) v m x = m x.
Proof.
  intros Hp Hq Hne Hi Hx. apply (store_le_outside 8). pose proof (pages_apart p q x Hp Hq Hne Hx).
  unfold PGSIZE in *. lia.
Qed.

Lemma memset_other_page p q c m x :
  page_ok p -> page_ok q -> p <> q -> p <= x < p + PGSIZE -> memset q c PGSIZE m x = m x.
Proof.
  intros Hp Hq Hne Hx. rewrite memset_spec by done. pose proof (pages_apart p q x Hp Hq Hne Hx). zb; try done; lia.
Qed.

Lemma load64_zero p i m :
  0 <= i < 512 -> (forall x, p <= x < p + PGSIZE -> m x = 0) -> load64 (p + 8 * i) m = 0.
Proof.
  intros Hi Hm. rewrite (load64_in_page p i (fun _ => 0)) by (intros; auto). done.
Qed.

(** Storing an entry in a table touches that table only. *)
Lemma ptinv_store s l T w q i v :
  ptinv s l T -> T w = Some q -> length w = 2%nat -> 0 <= i < 512 -> 0 <= v < 2 ^ 64 ->
  let s' := mkKmem (km_mach s) (store64 (q + 8 * i) v (km_mem s)) (km_freelist s) in
  ptinv s' l T /\
  (forall i' j' k', 0 <= k' < 512 ->
     entry T (km_mem s') i' j' k' = if decide ([i'; j'] = w /\ k' = i) then v else entry T (km_mem s) i' j' k').
Proof.
  intros [Hk Hrd Hp Hin Hcl Hln] Hw Hlen Hi Hv s'. destruct (Hp w q Hw) as [Hq Hql].
  assert (Hother : forall w' p x, T w' = Some p -> w' <> w -> p <= x < p + PGSIZE -> km_mem s' x = km_mem s x).
  { intros w' p x Hw' Hne Hx. apply (store64_other_page p); try done; [by apply (Hp w')|].
    intros ->. by apply Hne, (Hin w' w q). }
  split.
  - split; try done.
    + apply kmem_inv_ext; [done|by apply wf_store_le, Hk|]. intros p x Hpl Hx.
      apply (store64_other_page p); try done; [|by intros ->].
      eapply (proj1 (Forall_forall _ _)); [apply Hk|done].
    + intros w' p i' Hw' Hl' Hi'. rewrite (load64_in_page p i' (km_mem s)); [by apply Hln|done|].
      intros x. apply (Hother w'); [done|]. intros ->. lia.
  - intros i' j' k' Hk'. unfold entry. destruct (decide ([i'; j'] = w)) as [<-|Hne].
    + rewrite Hw. simpl. destruct (decide (k' = i)) as [->|Hki].
      * rewrite decide_True by done. rewrite load64_store64. by apply u64_small.
      * rewrite decide_False by tauto. apply load64_store64_ne. lia.
    + rewrite decide_False by tauto. destruct (T [i'; j']) as [p|] eqn:E; [|done].
      apply load64_in_page; [done|]. intros x. by apply (Hother [i'; j']).
Qed.

(** A new table: the first free page, zeroed, is linked under [w]. *)
Definition new_table (s : kmem) (p pt i : Z) : kmem :=
  mkKmem (tidy (km_mach s))
    (store64 (pt + 8 * i) (Z.lor (PA2PTE p) PTE_V) (memset p 0 PGSIZE (memset p 5 PGSIZE (km_mem s))))
    (load64 p (km_mem s)).

Lemma new_table_mem s p pt i :
  page_ok p -> page_ok pt -> p <> pt -> 0 <= i < 512 ->
  let m' := km_mem (new_table s p pt i) in
  (forall q x, page_ok q -> q <> p -> q <> pt -> q <= x < q + PGSIZE -> m' x = km_mem s x) /\
  (forall x, p <= x < p + PGSIZE -> m' x = 0) /\
  load64 (pt + 8 * i) m' = Z.lor (PA2PTE p) PTE_V /\
  (forall j, 0 <= j < 512 -> j <> i -> load64 (pt + 8 * j) m' = load64 (pt + 8 * j) (km_mem s)).
Proof.
  intros Hp Hpt Hne Hi m'. unfold m', new_table; simpl. split; [|split; [|split]].
  - intros q x Hq H1 H2 Hx. rewrite (store64_other_page q) by done. by rewrite !(memset_other_page q) by done.
  - intros x Hx. rewrite (store64_other_page p) by done. rewrite memset_spec by done. zb; try lia. done.
  - rewrite load64_store64. apply u64_small. by apply make_small, PTE_V_small.
  - intros j Hj Hji. rewrite load64_store64_ne by lia. apply load64_in_page; [done|].
    intros x Hx. by rewrite !(memset_other_page pt) by done.
Qed.

Lemma new_table_kmem s p l pt i :
  kmem_inv s (p :: l) -> page_ok pt -> pt ∉ p :: l -> 0 <= i < 512 -> kmem_inv (new_table s p pt i) l.
Proof.
  intros Hk Hpt Hl Hi. pose proof (kalloc_inv s p l (tidy (km_mach s)) Hk) as Hk1.
  pose proof (ki_ok _ _ Hk) as [Hp Ho]%Forall_cons. pose proof (ki_nodup _ _ Hk) as [Hpl _]%NoDup_cons.
  assert (Hne : p <> pt) by (intros ->; apply Hl; left).
  apply (kmem_inv_ext _ _ (km_mem (new_table s p pt i))) in Hk1; [exact Hk1|by apply wf_store_le, wf_memset, Hk1|].
  intros q x Hq Hx. assert (page_ok q) by (eapply (proj1 (Forall_forall _ _)); [exact Ho|done]).
  assert (q <> p) by (by intros ->). assert (q <> pt) by (intros ->; apply Hl; by right). simpl.
  rewrite (store64_other_page q) by done. by rewrite (memset_other_page q) by done.
Qed.

Lemma app_one_ne (w : list Z) i : w <> w ++ [i].
Proof. intros H. apply (f_equal length) in H. rewrite length_app in H. simpl in H. lia. Qed.

Lemma ptinv_new s p l T w pt i :
  ptinv s (p :: l) T -> T w = Some pt -> (length w < 2)%nat -> 0 <= i < 512 -> T (w ++ [i]) = None ->
  let s' := new_table s p pt i in let T' := <[w ++ [i] := Some p]> T in
  ptinv s' l T' /\
  (forall i' j' k', 0 <= k' < 512 -> entry T' (km_mem s') i' j' k' = entry T (km_mem s) i' j' k') /\
  (forall q x, page_ok q -> q <> p -> (forall w, T w <> Some q) -> q <= x < q + PGSIZE -> km_mem s' x = km_mem s x).
Proof.
  intros [Hk Hrd Hp Hin Hcl Hln] Hw Hlen Hi Hno s' T'. destruct (Hp w pt Hw) as [Hpt Hptl].
  pose proof (ki_ok _ _ Hk) as [Hpok Ho]%Forall_cons. pose proof (ki_nodup _ _ Hk) as [Hpl _]%NoDup_cons.
  assert (Hnop : forall w', T w' <> Some p) by (intros w' Hw'; destruct (Hp w' p Hw') as [_ Hx]; apply Hx; left).
  assert (Hne : p <> pt) by (intros ->; by apply (Hnop w)).
  destruct (new_table_mem s p pt i Hpok Hpt Hne Hi) as (Hm1 & Hm2 & Hm3 & Hm4). fold s' in Hm1, Hm2, Hm3, Hm4.
  assert (HT : forall w', w' <> w ++ [i] -> T' w' = T w') by (intros w' ?; unfold T'; by rewrite fn_lookup_insert_ne).
  assert (HTn : T' (w ++ [i]) = Some p) by (unfold T'; by rewrite fn_lookup_insert).
  assert (Hother : forall w' p' x, T w' = Some p' -> w' <> w -> p' <= x < p' + PGSIZE -> km_mem s' x = km_mem s x).
  { intros w' p' x Hw' Hww Hx. apply (Hm1 p'); try done; [by apply (Hp w')|intros ->; by apply (Hnop w')|].
    intros ->. by apply Hww, (Hin w' w pt). }
  split; [split|split].
  - by apply new_table_kmem.
  - split; [apply noff_ok_tidy, Hrd|apply lock_free_tidy, Hrd].
  - intros w' p' Hw'. destruct (decide (w' = w ++ [i])) as [->|Hww].
    + rewrite HTn in Hw'. injection Hw' as <-. done.
    + rewrite HT in Hw' by done. destruct (Hp w' p' Hw') as [? Hx]. split; [done|]. intros Hx'. apply Hx. by right.
  - intros w1 w2 q H1 H2. destruct (decide (w1 = w ++ [i])) as [->|Hn1], (decide (w2 = w ++ [i])) as [->|Hn2]; try done.
    + rewrite HTn in H1. rewrite HT in H2 by done. injection H1 as <-. by apply Hnop in H2.
    + rewrite HTn in H2. rewrite HT in H1 by done. injection H2 as <-. by apply Hnop in H1.
    + rewrite HT in H1, H2 by done. by apply (Hin w1 w2 q).
  - intros w' j Hw'. assert (Hww : w' <> w ++ [i]) by (intros ->; congruence). rewrite HT in Hw' by done.
    rewrite HT; [by apply Hcl|]. intros [-> _]%app_inj_tail. congruence.
  - intros w' p' j Hw' Hl' Hj. destruct (decide (w' = w ++ [i])) as [->|Hww].
    + rewrite HTn in Hw'. injection Hw' as <-. rewrite HT by (intros E; symmetry in E; by apply app_one_ne in E).
      rewrite Hcl by done. rewrite load64_zero by done. apply has_0.
    + rewrite HT in Hw' by done. specialize (Hln w' p' j Hw' Hl' Hj). destruct (decide (w' = w)) as [->|Hwn].
      * assert (p' = pt) as -> by congruence. destruct (decide (j = i)) as [->|Hji]; [by rewrite HTn|].
        rewrite HT by (intros [_ ?]%app_inj_tail; done). by rewrite Hm4.
      * rewrite HT by (intros [? _]%app_inj_tail; done).
        rewrite (load64_in_page p' j (km_mem s)); [done|done|]. intros x. by apply (Hother w').
  - intros i' j' k' Hk'. unfold entry. destruct (decide ([i'; j'] = w ++ [i])) as [E|E].
    + rewrite E, HTn, Hno. by apply load64_zero.
    + rewrite HT by done. destruct (T [i'; j']) as [q|] eqn:Eq; [|done]. apply load64_in_page; [done|].
      intros x. apply (Hother [i'; j']); [done|]. intros <-. simpl in Hlen. lia.
  - intros q x Hq Hqp Hqt Hx. apply (Hm1 q); try done. intros ->. by apply (Hqt w).
Qed.

(** ** [walk] *)

Fixpoint idx (level : nat) (va : Z) : list Z :=
  match level with
  | O => []
  | S l => PX level va :: idx l va
  end.

(** The tree may grow by free pages; memory outside the tree and the free
    pages stays. *)
Record evolves (s : kmem) (l : list Z) (T : list Z -> option Z) (s' : kmem) (l' : list Z) (T' : list Z -> option Z) : Prop := {
  ev_inv : ptinv s' l' T';
  ev_keep : forall w p, T w = Some p -> T' w = Some p;
  ev_new : forall w q, T' w = Some q -> T w = Some q \/ q ∈ l /\ q ∉ l';
  ev_free : forall q, q ∈ l' -> q ∈ l;
  ev_mem : forall q x, page_ok q -> q ∉ l -> (forall w, T w <> Some q) -> q <= x < q + PGSIZE -> km_mem s' x = km_mem s x
}.

Lemma evolves_refl s l T : ptinv s l T -> evolves s l T s l T.
Proof. intros Hi. split; auto. Qed.

Lemma evolves_trans s l T s1 l1 T1 s2 l2 T2 :
  evolves s l T s1 l1 T1 -> evolves s1 l1 T1 s2 l2 T2 -> evolves s l T s2 l2 T2.
Proof.
  intros [I1 K1 N1 F1 E1] [I2 K2 N2 F2 E2]. split; auto.
  - intros w q Hq. destruct (N2 w q Hq) as [Hq1|[Hq1 Hq2]]; [|right; auto].
    destruct (N1 w q Hq1) as [?|[? ?]]; [by left|]. right. split; [done|]. intros ?%F2. done.
  - intros q x Hq Hql Hqt Hx. rewrite (E2 q x); try done; [by apply (E1 q)|intros ?%F1; done|].
    intros w Hw. destruct (N1 w q Hw) as [?|[? _]]; [by apply (Hqt w)|done].
Qed.

(** And the map stays. *)
Definition grown (s : kmem) (l : list Z) (T : list Z -> option Z) (s' : kmem) (l' : list Z) (T' : list Z -> option Z) : Prop :=
  evolves s l T s' l' T' /\
  forall i j k, 0 <= k < 512 -> entry T' (km_mem s') i j k = entry T (km_mem s) i j k.

Lemma grown_refl s l T : ptinv s l T -> grown s l T s l T.
Proof. intros Hi. split; [by apply evolves_refl|done]. Qed.

Lemma grown_trans s l T s1 l1 T1 s2 l2 T2 : grown s l T s1 l1 T1 -> grown s1 l1 T1 s2 l2 T2 -> grown s l T s2 l2 T2.
Proof.
  intros [E1 M1] [E2 M2]. split; [by eapply evolves_trans|]. intros i j k Hk. by rewrite M2, M1.
Qed.

Lemma kalloc_empty s T : ptinv s [] T -> kalloc s = Ok 0 (mkKmem (tidy (km_mach s)) (km_mem s) 0).
Proof.
  intros Hi. destruct (pt_ready _ _ _ Hi) as [Hn Hl]. rewrite kalloc_eq by done. unfold kalloc_post.
  by rewrite (kmem_inv_head s [] (pt_kmem _ _ _ Hi)).
Qed.

Lemma kalloc_cons s p l T :
  ptinv s (p :: l) T -> page_ok p /\ kalloc s = Ok p (mkKmem (tidy (km_mach s)) (memset p 5 PGSIZE (km_mem s)) (load64 p (km_mem s))).
Proof.
  intros Hi. destruct (pt_ready _ _ _ Hi) as [Hn Hl]. rewrite kalloc_eq by done. unfold kalloc_post.
  rewrite (kmem_inv_head s (p :: l) (pt_kmem _ _ _ Hi)). simpl.
  pose proof (ki_ok _ _ (pt_kmem _ _ _ Hi)) as [Hp _]%Forall_cons. split; [done|].
  destruct (Z.eqb_spec p 0); [|done]. apply page_ok_pos in Hp. lia.
Qed.

Lemma ptinv_tidy s l T :
  ptinv s l T -> ptinv (mkKmem (tidy (km_mach s)) (km_mem s) (km_freelist s)) l T.
Proof.
  intros [[? ? ? ?] [? ?] ? ? ? ?]. split; try done. split; [by apply noff_ok_tidy|by apply lock_free_tidy].
Qed.

Lemma walk_loop_ok level w pt va alloc s l T :
  ptinv s l T -> T w = Some pt -> (length w + level = 2)%nat ->
  exists r s' l' T', walk_loop level pt va alloc s = Ok r s' /\ grown s l T s' l' T' /\
    (alloc = false -> s' = s /\ l' = l /\ T' = T) /\
    match T' (w ++ idx level va) with
    | Some p => r = p + 8 * PX 0 va
    | None => r = 0 /\ (alloc = true -> l' = [])
    end.
Proof.
  revert w pt s l T. induction level as [|level IH]; intros w pt s l T Hi Hw Hl.
  - exists (pt + 8 * PX 0 va), s, l, T. split; [done|]. split; [by apply grown_refl|]. split; [done|].
    simpl. by rewrite app_nil_r, Hw.
  - pose proof (pt_link _ _ _ Hi w pt (PX (S level) va) Hw ltac:(lia) (PX_range _ _)) as Hlk.
    cbn [walk_loop idx]. unfold ld64, gets, bind at 1.
    replace (w ++ PX (S level) va :: idx level va) with ((w ++ [PX (S level) va]) ++ idx level va) by (by rewrite <-app_assoc).
    destruct (T (w ++ [PX (S level) va])) as [q|] eqn:Eq.
    + rewrite Hlk, has_V_lor, PTE2PA_make by (apply PTE_V_small || apply (pt_page _ _ _ Hi _ _ Eq)).
      apply IH; [done|done|]. rewrite length_app. simpl. lia.
    + rewrite Hlk. destruct alloc; cbn [negb].
      2: { exists 0, s, l, T. split; [done|]. split; [by apply grown_refl|]. split; [done|].
           assert (En : T ((w ++ [PX (S level) va]) ++ idx level va) = None); [|by rewrite En].
           destruct level as [|[|level]]; [by rewrite app_nil_r|by apply (pt_closed _ _ _ Hi)|simpl in *; lia]. }
      destruct l as [|p l].
      * rewrite (bind_Ok _ _ _ _ _ (kalloc_empty s T Hi)). simpl. eexists 0, _, [], T. split; [done|].
        split; [|split; [done|]].
        -- pose proof (kmem_inv_head _ _ (pt_kmem _ _ _ Hi)) as Hfl. simpl in Hfl.
           pose proof (grown_refl _ _ _ (ptinv_tidy _ _ _ Hi)) as Hg. rewrite Hfl in Hg. destruct Hg as [[G1 G2 G3 G4 G5] G6]. by split.
        -- assert (En : T ((w ++ [PX (S level) va]) ++ idx level va) = None); [|by rewrite En].
           destruct level as [|[|level]]; [by rewrite app_nil_r|by apply (pt_closed _ _ _ Hi)|simpl in *; lia].
      * destruct (kalloc_cons s p l T Hi) as [Hp Ek]. rewrite (bind_Ok _ _ _ _ _ Ek).
        destruct (Z.eqb_spec p 0) as [|_]; [apply page_ok_pos in Hp; lia|].
        destruct (ptinv_new s p l T w pt (PX (S level) va) Hi Hw ltac:(lia) (PX_range _ _) Eq) as (Hi' & Hmap & Hmem).
        destruct (IH (w ++ [PX (S level) va]) p _ l _ Hi') as (r & s' & l' & T' & E & Hg & _ & Hr);
          [by rewrite fn_lookup_insert|rewrite length_app; simpl; lia|].
        exists r, s', l', T'. split; [exact E|]. split; [|split; [done|exact Hr]].
        eapply grown_trans; [|exact Hg]. split; [|done]. split; try done.
        -- intros w' p' Hw'. rewrite fn_lookup_insert_ne; [done|]. intros <-. congruence.
        -- intros w' q Hq. destruct (decide (w ++ [PX (S level) va] = w')) as [<-|Hne].
           ++ rewrite fn_lookup_insert in Hq. injection Hq as <-. right. split; [left|].
              by pose proof (ki_nodup _ _ (pt_kmem _ _ _ Hi)) as [? _]%NoDup_cons.
           ++ rewrite fn_lookup_insert_ne in Hq by done. by left.
        -- intros q Hq. by right.
        -- intros q x Hq Hql. apply Hmem; [done|]. intros ->. apply Hql. left.
Qed.

Lemma walk_ok root va alloc s l T :
  ptinv s l T -> T [] = Some root -> 0 <= va < MAXVA ->
  exists r s' l' T', walk root va alloc s = Ok r s' /\ grown s l T s' l' T' /\
    (alloc = false -> s' = s /\ l' = l /\ T' = T) /\
    match T' [PX 2 va; PX 1 va] with
    | Some p => r = p + 8 * PX 0 va
    | None => r = 0 /\ (alloc = true -> l' = [])
    end.
Proof.
  intros Hi Hr Hva. unfold walk. destruct (Z.leb_spec MAXVA va); [lia|].
  apply (walk_loop_ok 2 [] root va alloc s l T Hi Hr). done.
Qed.

(** Without allocation [walk] is a lookup. *)
Definition leaf_addr (T : list Z -> option Z) (va : Z) : Z :=
  match T [PX 2 va; PX 1 va] with Some p => p + 8 * PX 0 va | None => 0 end.

Lemma walk_lookup root va s l T :
  ptinv s l T -> T [] = Some root -> 0 <= va < MAXVA -> walk root va false s = Ok (leaf_addr T va) s.
Proof.
  intros Hi Hr Hva. destruct (walk_ok root va false s l T Hi Hr Hva) as (r & s' & l' & T' & E & _ & Heq & Hm).
  destruct (Heq eq_refl) as (-> & -> & ->). rewrite E. unfold leaf_addr. destruct (T [PX 2 va; PX 1 va]); [by subst|].
  by destruct Hm as [-> _].
Qed.

Lemma leaf_addr_zero s l T va :
  ptinv s l T -> leaf_addr T va = 0 -> pte_of T (km_mem s) va = 0.
Proof.
  intros Hi. unfold leaf_addr, pte_of, entry. destruct (T [PX 2 va; PX 1 va]) as [p|] eqn:E; [|done].
  destruct (pt_page _ _ _ Hi _ _ E) as [Hp _]. apply page_ok_pos in Hp. pose proof (PX_range 0 va). lia.
Qed.

Lemma leaf_addr_load T m va : leaf_addr T va <> 0 -> load64 (leaf_addr T va) m = pte_of T m va.
Proof. unfold leaf_addr, pte_of, entry. by destruct (T [PX 2 va; PX 1 va]). Qed.

(** ** Entries *)

Lemma path_eq va va' :
  0 <= va < MAXVA -> 0 <= va' < MAXVA ->
  ([PX 2 va'; PX 1 va'] = [PX 2 va; PX 1 va] /\ PX 0 va' = PX 0 va) <-> va' / PGSIZE = va / PGSIZE.
Proof.
  intros Hv Hv'. split.
  - intros [[= E2 E1] E0]. apply PX_inj; [done|done|]. intros level Hl. destruct level as [|[|[|?]]]; done || lia.
  - intros E. assert (HP : forall level, PX level va' = PX level va).
    { intros level. rewrite !PX_eq. rewrite Z.pow_add_r by lia. change (2 ^ 12) with PGSIZE.
      rewrite <-!Z.div_div by (unfold PGSIZE; pose proof (Z.pow_pos_nonneg 2 (9 * Z.of_nat level)); lia). by rewrite E. }
    by rewrite !HP.
Qed.

(** Storing an entry through the address that [walk] returned. *)
Lemma store_entry s l T va v :
  ptinv s l T -> 0 <= va < MAXVA -> leaf_addr T va <> 0 -> 0 <= v < 2 ^ 64 ->
  let s' := mkKmem (km_mach s) (store64 (leaf_addr T va) v (km_mem s)) (km_freelist s) in
  evolves s l T s' l T /\
  forall va', 0 <= va' < MAXVA ->
    pte_of T (km_mem s') va' = if decide (va' / PGSIZE = va / PGSIZE) then v else pte_of T (km_mem s) va'.
Proof.
  intros Hi Hva Hne Hv s'. unfold leaf_addr in *. destruct (T [PX 2 va; PX 1 va]) as [p|] eqn:E; [|done].
  destruct (ptinv_store s l T [PX 2 va; PX 1 va] p (PX 0 va) v Hi E eq_refl (PX_range _ _) Hv) as [Hi' Hent].
  split.
  - split; try done; auto. intros q x Hq Hql Hqt Hx. apply (store64_other_page q); try done; [|by intros ->; apply (Hqt [PX 2 va; PX 1 va])|apply PX_range].
    by apply (pt_page _ _ _ Hi _ _ E).
  - intros va' Hva'. unfold pte_of. unfold s'. rewrite Hent by apply PX_range.
    pose proof (path_eq va va' Hva Hva') as Hp. repeat case_decide; tauto.
Qed.

Lemma grown_pte s l T s' l' T' va : grown s l T s' l' T' -> pte_of T' (km_mem s') va = pte_of T (km_mem s) va.
Proof. intros [_ Hm]. apply Hm, PX_range. Qed.

(** The entry that [mappages] stores. *)
Definition make_pte (pa perm : Z) : Z := Z.lor (Z.lor (PA2PTE pa) perm) PTE_V.

Lemma make_pte_small pa perm : 0 <= perm < 1024 -> 0 <= make_pte pa perm < 2 ^ 64.
Proof.
  intros Hp. unfold make_pte. pose proof PTE_V_small.
  assert (0 <= PA2PTE pa < 2 ^ 64) by (unfold PA2PTE, u64; apply Z.mod_pos_bound; lia).
  pose proof (lor_small (PA2PTE pa) perm 64) as H1. pose proof (lor_small (Z.lor (PA2PTE pa) perm) PTE_V 64). lia.
Qed.

(** One iteration: the page of [a] gets an entry, or there is no memory. *)
Lemma map_page root a pa perm s l T :
  ptinv s l T -> T [] = Some root -> 0 <= a < MAXVA -> 0 <= perm < 1024 ->
  has (pte_of T (km_mem s) a) PTE_V = false ->
  exists pte s1 l1 T1, walk root a true s = Ok pte s1 /\ grown s l T s1 l1 T1 /\
    ((pte = 0 /\ l1 = []) \/
     (pte <> 0 /\ has (load64 pte (km_mem s1)) PTE_V = false /\
      let s2 := mkKmem (km_mach s1) (store64 pte (make_pte pa perm) (km_mem s1)) (km_freelist s1) in
      evolves s l T s2 l1 T1 /\
      forall va, 0 <= va < MAXVA -> pte_of T1 (km_mem s2) va =
        if decide (va / PGSIZE = a / PGSIZE) then make_pte pa perm else pte_of T (km_mem s) va)).
Proof.
  intros Hi Hr Ha Hp Hfree. destruct (walk_ok root a true s l T Hi Hr Ha) as (pte & s1 & l1 & T1 & E & Hg & _ & Hm).
  exists pte, s1, l1, T1. split; [done|]. split; [done|]. pose proof Hg as [Hev _].
  assert (Hpte : pte = leaf_addr T1 a).
  { unfold leaf_addr. destruct (T1 [PX 2 a; PX 1 a]); [done|]. by destruct Hm as [-> _]. }
  destruct (decide (pte = 0)) as [E0|Hne].
  - left. split; [done|]. destruct (T1 [PX 2 a; PX 1 a]) as [p|] eqn:Et; [|by apply Hm].
    exfalso. destruct (pt_page _ _ _ (ev_inv _ _ _ _ _ _ Hev) _ _ Et) as [Hpk _]. apply page_ok_pos in Hpk.
    pose proof (PX_range 0 a). lia.
  - right. split; [done|]. rewrite Hpte in Hne. split.
    + rewrite Hpte, leaf_addr_load, (grown_pte _ _ _ _ _ _ _ Hg) by done. done.
    + destruct (store_entry s1 l1 T1 a (make_pte pa perm) (ev_inv _ _ _ _ _ _ Hev) Ha Hne (make_pte_small pa perm Hp)) as [He Hs].
      rewrite Hpte. split; [by eapply evolves_trans|]. intros va Hva. rewrite Hs by done.
      by rewrite (grown_pte _ _ _ _ _ _ _ Hg).
Qed.

Lemma same_page_iff a va : a mod PGSIZE = 0 -> 0 <= a -> va / PGSIZE = a / PGSIZE <-> a <= va < a + PGSIZE.
Proof.
  unfold PGSIZE. intros Ha H0. pose proof (Z.div_mod a 4096). pose proof (Z.div_mod va 4096).
  pose proof (Z.mod_pos_bound va 4096). lia.
Qed.

(** The map after the first [j] pages from [a] have been given entries. *)
Definition mapped_upto (T : list Z -> option Z) (m : mem) (T' : list Z -> option Z) (m' : mem) (a pa perm : Z) (j : nat) : Prop :=
  forall va, 0 <= va < MAXVA -> pte_of T' m' va =
    if decide (a <= va < a + Z.of_nat j * PGSIZE) then make_pte (pa + (va / PGSIZE - a / PGSIZE) * PGSIZE) perm
    else pte_of T m va.

Lemma mapped_none s l T s1 l1 T1 a pa perm :
  grown s l T s1 l1 T1 -> mapped_upto T (km_mem s) T1 (km_mem s1) a pa perm 0.
Proof. intros Hg va Hva. rewrite decide_False by lia. by apply (grown_pte _ _ _ _ _ _ va Hg). Qed.

Lemma mapped_one T m T1 m1 a pa perm :
  0 <= a -> a mod PGSIZE = 0 ->
  (forall va, 0 <= va < MAXVA -> pte_of T1 m1 va =
     if decide (va / PGSIZE = a / PGSIZE) then make_pte pa perm else pte_of T m va) ->
  mapped_upto T m T1 m1 a pa perm 1.
Proof.
  intros Ha Hal Hm va Hva. rewrite Hm by done. pose proof (same_page_iff a va Hal Ha) as Hd.
  repeat case_decide; try (exfalso; lia); [|done]. f_equal. lia.
Qed.

Lemma mapped_S T m T1 m1 T2 m2 a pa perm j :
  0 <= a -> a mod PGSIZE = 0 ->
  mapped_upto T m T1 m1 a pa perm 1 -> mapped_upto T1 m1 T2 m2 (a + PGSIZE) (pa + PGSIZE) perm j ->
  mapped_upto T m T2 m2 a pa perm (S j).
Proof.
  intros Ha Hal H1 H2 va Hva. rewrite H2, H1 by done.
  assert (Hd : (a + PGSIZE) / PGSIZE = a / PGSIZE + 1) by (unfold PGSIZE; rewrite <-Z.div_add by lia; f_equal; lia).
  repeat case_decide; try (exfalso; unfold PGSIZE in *; lia); try done.
  rewrite Hd. f_equal. lia.
Qed.

Lemma mappages_step f root a last pa perm s pte s1 :
  walk root a true s = Ok pte s1 -> pte <> 0 -> has (load64 pte (km_mem s1)) PTE_V = false ->
  mappages_loop (S f) root a last pa perm s =
  let s2 := mkKmem (km_mach s1) (store64 pte (make_pte pa perm) (km_mem s1)) (km_freelist s1) in
  if a =? last then Ok 0 s2
  else mappages_loop f root (u64 (a + PGSIZE)) last (u64 (pa + PGSIZE)) perm s2.
Proof.
  intros E Hne Hv. cbn [mappages_loop]. rewrite (bind_Ok _ _ _ _ _ E). destruct (Z.eqb_spec pte 0); [done|].
  unfold ld64, gets, bind at 1. rewrite Hv. unfold st64, upd_mem, modify, bind. by destruct (a =? last).
Qed.

Lemma mappages_loop_ok n root a pa perm s l T :
  ptinv s l T -> T [] = Some root -> 0 <= a -> a + Z.of_nat (S n) * PGSIZE <= MAXVA -> a mod PGSIZE = 0 ->
  0 <= pa -> pa + Z.of_nat (S n) * PGSIZE < 2 ^ 64 -> 0 <= perm < 1024 ->
  (forall va, a <= va < a + Z.of_nat (S n) * PGSIZE -> has (pte_of T (km_mem s) va) PTE_V = false) ->
  exists r s' l' T' j, mappages_loop (S n) root a (a + Z.of_nat n * PGSIZE) pa perm s = Ok r s' /\
    evolves s l T s' l' T' /\ mapped_upto T (km_mem s) T' (km_mem s') a pa perm j /\
    ((r = 0 /\ j = S n) \/ (r = -1 /\ (j <= n)%nat /\ l' = [])).
Proof.
  revert a pa s l T. induction n as [|n IH]; intros a pa s l T Hi Hr Ha Hmax Hal Hpa Hpm Hp Hfree;
    (destruct (map_page root a pa perm s l T Hi Hr) as (pte & s1 & l1 & T1 & E & Hg & [[-> ->]|(Hne & Hv & Hev & Hmap)]);
      [unfold PGSIZE in *; lia|done|apply Hfree; unfold PGSIZE in *; lia| |]).
  1,3: exists (-1), s1, [], T1, 0%nat; split; [cbn [mappages_loop]; by rewrite (bind_Ok _ _ _ _ _ E)|];
    split; [apply Hg|]; split; [by eapply mapped_none|right; split; [done|split; [lia|done]]].
  all: set (s2 := mkKmem (km_mach s1) _ _) in Hev, Hmap.
  all: assert (Hone : mapped_upto T (km_mem s) T1 (km_mem s2) a pa perm 1) by (by apply mapped_one).
  - exists 0, s2, l1, T1, 1%nat. split; [|split; [done|split; [done|by left]]].
    rewrite (mappages_step 0 _ _ _ _ _ _ _ _ E Hne Hv). by rewrite Z.mul_0_l, Z.add_0_r, Z.eqb_refl.
  - destruct (IH (a + PGSIZE) (pa + PGSIZE) s2 l1 T1) as (r & s' & l' & T' & j & E' & Hev' & Hm' & Hc);
      try (unfold PGSIZE in *; lia).
    + apply Hev.
    + by apply (ev_keep _ _ _ _ _ _ Hev).
    + unfold PGSIZE in *. by rewrite <-(Z.mod_add a 1) in Hal by lia.
    + intros va Hva. rewrite Hmap by (unfold PGSIZE in *; lia). rewrite decide_False.
      * apply Hfree. unfold PGSIZE in *. lia.
      * rewrite same_page_iff by done. lia.
    + exists r, s', l', T', (S j). split; [|split; [by eapply evolves_trans|split]].
      * rewrite (mappages_step _ _ _ _ _ _ _ _ _ E Hne Hv). fold s2.
        destruct (Z.eqb_spec a (a + Z.of_nat (S n) * PGSIZE)); [unfold PGSIZE in *; lia|].
        rewrite !u64_small by (unfold PGSIZE in *; change MAXVA with 274877906944 in *; lia).
        rewrite <-E'. f_equal. lia.
      * by eapply mapped_S.
      * destruct Hc as [[-> ->]|(-> & ? & ->)]; [by left|right]. split; [done|]. split; [lia|done].
Qed.

(** C16: [mappages] adds entries to the map.  For an aligned range of pages
    without entries it returns, and either all of the range has entries to the
    consecutive physical pages with the given permissions, or the memory for
    page tables ran out after some of them and it reports -1; no other page's
    entry changes, the tree stays well formed, and memory outside page tables
    and free pages stays as it was.  A misaligned or empty range panics. *)
Theorem mappages_spec root va size pa perm s l T :
  ptinv s l T -> T [] = Some root -> 0 <= va -> 0 <= size -> va + size <= MAXVA ->
  0 <= pa -> pa + size < 2 ^ 64 -> 0 <= perm < 1024 ->
  (forall a, va <= a < va + size -> has (pte_of T (km_mem s) a) PTE_V = false) ->
  if (va mod PGSIZE =? 0) && (size mod PGSIZE =? 0) && (0 <? size)
  then exists r s' l' T' j, mappages root va size pa perm s = Ok r s' /\
         evolves s l T s' l' T' /\ mapped_upto T (km_mem s) T' (km_mem s') va pa perm j /\
         ((r = 0 /\ Z.of_nat j * PGSIZE = size) \/ (r = -1 /\ Z.of_nat j * PGSIZE < size /\ l' = []))
  else exists msg, mappages root va size pa perm s = Panic msg.
Proof.
  intros Hi Hr Hva Hsz Hmax Hpa Hpm Hp Hfree. unfold mappages.
  destruct (Z.eqb_spec (va mod PGSIZE) 0) as [Ha|]; simpl; [|eauto].
  destruct (Z.eqb_spec (size mod PGSIZE) 0) as [Hs|]; simpl; [|eauto].
  destruct (Z.ltb_spec 0 size) as [Hz|Hz]; [|assert (size = 0) as -> by lia; simpl; eauto].
  destruct (Z.eqb_spec size 0) as [|_]; [lia|]. cbv zeta.
  assert (Hn : exists n, Z.to_nat (size / PGSIZE) = S n /\ size = Z.of_nat (S n) * PGSIZE).
  { unfold PGSIZE in *. pose proof (Z.div_mod size 4096). exists (Nat.pred (Z.to_nat (size / 4096))). lia. }
  destruct Hn as (n & -> & En).
  replace (u64 (va + size - PGSIZE)) with (va + Z.of_nat n * PGSIZE)
    by (rewrite u64_small; unfold PGSIZE in *; change MAXVA with 274877906944 in *; lia).
  rewrite En in Hmax, Hpm, Hfree. destruct (mappages_loop_ok n root va pa perm s l T) as (r & s' & l' & T' & j & E & Hev & Hm & Hc); try done.
  exists r, s', l', T', j. split; [done|]. split; [done|]. split; [done|].
  destruct Hc as [[-> ->]|(-> & Hj & ->)]; [left; by rewrite En|right]. split; [done|]. split; [unfold PGSIZE in *; lia|done].
Qed.

End tree.

(** * A concrete page table

    Three pages of tables that map page 0 of the user to a fourth. *)

Definition image1 : Image := {|
  kend := PHYSTOP - 8 * PGSIZE;
  etext := KERNBASE + 8 * PGSIZE;
  trampoline := KERNBASE + 7 * PGSIZE;
  uservec_off := 0;
  userret_off := 0x9c;
  forkret_addr := KERNBASE + 0x1a0c;
  usertrap_addr := KERNBASE + 0x1b2e;
  kernelvec_addr := KERNBASE + 0x5c50
|}.

#[export] Instance image1_ok : ImageOk image1.
Proof. split; vm_compute; intuition congruence. Qed.

Definition pt_root0 : Z := PHYSTOP - 4 * PGSIZE.
Definition pt_mid0 : Z := PHYSTOP - 3 * PGSIZE.
Definition pt_leaf0 : Z := PHYSTOP - 2 * PGSIZE.
Definition user_page0 : Z := PHYSTOP - PGSIZE.

(** R, W and U *)
Definition perm0 : Z := 22.

Definition pt_mem0 : mem :=
  store64 pt_root0 (Z.lor (PA2PTE pt_mid0) PTE_V) (store64 pt_mid0 (Z.lor (PA2PTE pt_leaf0) PTE_V)
    (store64 pt_leaf0 (make_pte user_page0 perm0) (fun _ => 0))).
Definition pt_tables0 (w : list Z) : option Z :=
  if decide (w = []) then Some pt_root0
  else if decide (w = [0]) then Some pt_mid0
  else if decide (w = [0; 0]) then Some pt_leaf0 else None.
Definition pt_kmem0 : kmem := mkKmem mach0 pt_mem0 0.

Lemma pt_pages0 : page_ok (img := image1) pt_root0 /\ page_ok (img := image1) pt_mid0 /\ page_ok (img := image1) pt_leaf0 /\
  page_ok (img := image1) user_page0.
Proof. unfold page_ok. simpl. vm_compute. intuition congruence. Qed.

Lemma pt_load0 i : 0 <= i < 512 ->
  load64 (pt_root0 + 8 * i) pt_mem0 = (if decide (i = 0) then Z.lor (PA2PTE pt_mid0) PTE_V else 0) /\
  load64 (pt_mid0 + 8 * i) pt_mem0 = (if decide (i = 0) then Z.lor (PA2PTE pt_leaf0) PTE_V else 0) /\
  load64 (pt_leaf0 + 8 * i) pt_mem0 = (if decide (i = 0) then make_pte user_page0 perm0 else 0).
Proof.
  intros Hi. assert (H0 : forall a, load64 a (fun _ => 0) = 0) by done. unfold pt_mem0.
  assert (Hr : pt_root0 = 2281684992) by done. assert (Hm : pt_mid0 = 2281689088) by done.
  assert (Hl : pt_leaf0 = 2281693184) by done. rewrite Hr, Hm, Hl. clear Hr Hm Hl.
  repeat split; case_decide as Hd; subst; rewrite ?Z.mul_0_r, ?Z.add_0_r;
    repeat (rewrite load64_store64_ne by lia); rewrite ?load64_store64, ?H0; try done; vm_compute; done.
Qed.

Lemma pt_tables0_Some w p : pt_tables0 w = Some p ->
  (w = [] /\ p = pt_root0) \/ (w = [0] /\ p = pt_mid0) \/ (w = [0; 0] /\ p = pt_leaf0).
Proof. unfold pt_tables0. repeat case_decide; intros [= <-]; tauto. Qed.

Lemma pt_inv0 : ptinv (img := image1) pt_kmem0 [] pt_tables0.
Proof.
  destruct pt_pages0 as (P1 & P2 & P3 & _). split.
  - split; simpl; [|constructor|constructor|constructor].
    repeat apply wf_store_le. intros a. lia.
  - split; [apply mach0_noff_ok|done].
  - intros w p [[_ ->]|[[_ ->]|[_ ->]]]%pt_tables0_Some; (split; [done|by intros ?%not_elem_of_nil]).
  - intros w w' p [[-> ->]|[[-> ->]|[-> ->]]]%pt_tables0_Some [[-> E]|[[-> E]|[-> E]]]%pt_tables0_Some; done.
  - intros w i Hw. destruct (pt_tables0 (w ++ [i])) as [p|] eqn:E; [|done].
    apply pt_tables0_Some in E as [[E _]|[[E _]|[E _]]]; destruct w as [|? [|? [|? ?]]]; simplify_eq/=; done.
  - intros w p i [[-> ->]|[[-> ->]|[-> ->]]]%pt_tables0_Some Hl Hi; simpl in Hl; [| |lia];
      destruct (pt_load0 i Hi) as (E1 & E2 & _); simpl km_mem; simpl app.
    + rewrite E1. unfold pt_tables0. destruct (decide (i = 0)) as [->|]; [rewrite decide_False, decide_True by congruence; reflexivity|].
      rewrite !decide_False by congruence. apply has_0.
    + rewrite E2. unfold pt_tables0. destruct (decide (i = 0)) as [->|]; [rewrite decide_False, decide_False, decide_True by congruence; reflexivity|].
      rewrite !decide_False by congruence. apply has_0.
Qed.

Lemma pte_of0 va : 0 <= va < MAXVA -> pte_of pt_tables0 pt_mem0 va = if decide (va / PGSIZE = 0) then make_pte user_page0 perm0 else 0.
Proof.
  intros Hva. unfold pte_of, entry. pose proof (PX_range 0 va) as H0.
  destruct (pt_load0 (PX 0 va) H0) as (_ & _ & E). pose proof (path_eq 0 va) as Hp.
  change (PX 2 0) with 0 in Hp. change (PX 1 0) with 0 in Hp. change (PX 0 0) with 0 in Hp. change (0 / PGSIZE) with 0 in Hp.
  unfold pt_tables0. rewrite decide_False, decide_False by done.
  destruct (decide ([PX 2 va; PX 1 va] = [0; 0])) as [Ew|Ew].
  - rewrite E. assert (Hz : 0 <= 0 < MAXVA) by (change MAXVA with 274877906944; lia). specialize (Hp Hz Hva).
    repeat case_decide; tauto.
  - rewrite decide_False; [done|]. intros Ed. apply Ew, Hp; [change MAXVA with 274877906944 in *; lia|done|done].
Qed.

Lemma mappages_spec_witness :
  exists s', mappages pt_root0 4096 4096 (PHYSTOP - 5 * PGSIZE) 18 pt_kmem0 = Ok 0 s'.
Proof.
  destruct (mappages_spec (img := image1) pt_root0 4096 4096 (PHYSTOP - 5 * PGSIZE) 18 pt_kmem0 [] pt_tables0 pt_inv0)
    as (r & s' & l' & T' & j & E & _).
  - reflexivity.
  - lia.
  - lia.
  - change MAXVA with 274877906944. lia.
  - vm_compute. congruence.
  - vm_compute. congruence.
  - lia.
  - intros a Ha. simpl. rewrite pte_of0 by (change MAXVA with 274877906944; lia). rewrite decide_False; [apply has_0|].
    unfold PGSIZE. intros Hd. pose proof (Z.div_mod a 4096). pose proof (Z.mod_pos_bound a 4096). lia.
  - assert (Hc : match mappages pt_root0 4096 4096 (PHYSTOP - 5 * PGSIZE) 18 pt_kmem0 with Ok r _ => r | _ => 1 end = 0)
      by (vm_compute; reflexivity).
    rewrite E in Hc. exists s'. rewrite <-Hc. exact E.
Defined.
