(* ===== verification/Usermem.v ===== *)
(** User memory: [copyout], [copyin] and [copyinstr] of kernel/vm.c on the
    memory that a page table maps for its user. *)

From Stdlib Require Import ZArith Lia List String Bool.
From stdpp Require Import base tactics numbers list functions sets.
From S2P Require Import Prelude.
From S2P Require Import Spinlock.
From S2P Require Import Cstring.
From S2P Require Import Kalloc.
From S2P Require Import Vm.
From S2P Require Import Pagetable.

(** * The user's view *)

Section user.
Context {img : Image} {imgok : ImageOk img}.

Definition mapped (T : list Z -> option Z) (m : mem) (va : Z) : Prop :=
  has (pte_of T m va) PTE_V = true /\ has (pte_of T m va) PTE_U = true.
Definition writable (T : list Z -> option Z) (m : mem) (va : Z) : Prop :=
  mapped T m va /\ has (pte_of T m va) PTE_W = true.

Definition pa_of (T : list Z -> option Z) (m : mem) (va : Z) : Z :=
  PTE2PA (pte_of T m va) + va mod PGSIZE.
(** The byte at a user address. *)
Definition user_byte (T : list Z -> option Z) (m : mem) (va : Z) : Z := m (pa_of T m va).

(** User pages are in RAM, apart from the page tables, the free pages and
    each other. *)
Record uinv (s : kmem) (l : list Z) (T : list Z -> option Z) : Prop := {
  ui_pt : ptinv s l T;
  ui_page : forall va, 0 <= va < MAXVA -> mapped T (km_mem s) va ->
    page_ok (PTE2PA (pte_of T (km_mem s) va)) /\ ~ (PTE2PA (pte_of T (km_mem s) va) ∈ l) /\
    forall w, T w <> Some (PTE2PA (pte_of T (km_mem s) va));
  ui_inj : forall va va', 0 <= va < MAXVA -> 0 <= va' < MAXVA -> mapped T (km_mem s) va -> mapped T (km_mem s) va' ->
    PTE2PA (pte_of T (km_mem s) va) = PTE2PA (pte_of T (km_mem s) va') -> va / PGSIZE = va' / PGSIZE
}.

Lemma pte_of_page T m va va' :
  0 <= va < MAXVA -> 0 <= va' < MAXVA -> va' / PGSIZE = va / PGSIZE -> pte_of T m va' = pte_of T m va.
Proof.
  intros Hv Hv' E. apply path_eq in E as [[= E2 E1] E0]; [|done|done]. unfold pte_of. by rewrite E0, E1, E2.
Qed.

(** A store into a page that is neither table nor free. *)
Lemma ptinv_data s l T q m' :
  ptinv s l T -> page_ok q -> q ∉ l -> (forall w, T w <> Some q) -> wf_mem m' ->
  (forall x, ~ (q <= x < q + PGSIZE) -> m' x = km_mem s x) ->
  ptinv (mkKmem (km_mach s) m' (km_freelist s)) l T /\ forall i j k, 0 <= k < 512 -> entry T m' i j k = entry T (km_mem s) i j k.
Proof.
  intros [Hk Hrd Hp Hin Hcl Hln] Hq Hql Hqt Hwf Hm.
  assert (Hother : forall w p x, T w = Some p -> p <= x < p + PGSIZE -> m' x = km_mem s x).
  { intros w p x Hw Hx. apply Hm. apply (pages_apart p q); [by apply (Hp w)|done|intros ->; by apply (Hqt w)|done]. }
  split; [split; try done|].
  - apply kmem_inv_ext; [done|done|]. intros p x Hpl Hx. apply Hm.
    apply (pages_apart p q); [|done|by intros ->|done]. eapply (proj1 (Forall_forall _ _)); [apply Hk|done].
  - intros w p i Hw Hl Hi. simpl. rewrite (load64_in_page p i (km_mem s)); [by apply Hln|done|]. intros x. by apply (Hother w).
  - intros i j k Hk'. unfold entry. destruct (T [i; j]) as [p|] eqn:E; [|done]. apply load64_in_page; [done|].
    intros x. by apply (Hother [i; j]).
Qed.

(** Storing bytes in the user page of [va0] at [off]. *)
Definition put_bytes (s : kmem) (pa : Z) (bs : list Z) : kmem :=
  mkKmem (km_mach s) (store_bytes pa bs (km_mem s)) (km_freelist s).

Lemma put_bytes_ok s l T dst bs :
  uinv s l T -> 0 <= dst < MAXVA -> mapped T (km_mem s) dst ->
  dst mod PGSIZE + Z.of_nat (length bs) <= PGSIZE ->
  let s' := put_bytes s (pa_of T (km_mem s) dst) bs in
  uinv s' l T /\ (forall va, pte_of T (km_mem s') va = pte_of T (km_mem s) va) /\
  forall va, 0 <= va < MAXVA -> mapped T (km_mem s) va ->
    user_byte T (km_mem s') va =
    if decide (dst <= va < dst + Z.of_nat (length bs)) then u8 (nth (Z.to_nat (va - dst)) bs 0)
    else user_byte T (km_mem s) va.
Proof.
  intros [Hpt Hpg Hinj] Hd Hm Hlen s'. destruct (Hpg dst Hd Hm) as (Hq & Hql & Hqt).
  set (q := PTE2PA (pte_of T (km_mem s) dst)) in *.
  assert (Hoff : 0 <= dst mod PGSIZE < PGSIZE) by (apply Z.mod_pos_bound; done).
  destruct (ptinv_data s l T q (km_mem s') Hpt Hq Hql Hqt) as [Hpt' Hent].
  { apply wf_store_bytes, Hpt. }
  { intros x Hx. simpl. rewrite store_bytes_spec, decide_False; [done|]. unfold pa_of. fold q. lia. }
  assert (Hpte : forall va, pte_of T (km_mem s') va = pte_of T (km_mem s) va) by (intros va; apply Hent, PX_range).
  split; [|split; [done|]].
  - split; [done| |].
    + intros va Hva Hmp. unfold mapped in Hmp. rewrite !Hpte in *. by apply Hpg.
    + intros va va' Hva Hva'. unfold mapped. rewrite !Hpte. by apply Hinj.
  - intros va Hva Hmp. unfold user_byte, pa_of. rewrite Hpte. simpl. rewrite store_bytes_spec. unfold pa_of. fold q.
    destruct (Hpg va Hva Hmp) as (Hq' & _ & _). set (q' := PTE2PA (pte_of T (km_mem s) va)) in *.
    assert (Hoff' : 0 <= va mod PGSIZE < PGSIZE) by (apply Z.mod_pos_bound; done).
    destruct (decide (va / PGSIZE = dst / PGSIZE)) as [Ep|Ep].
    + assert (q' = q) as -> by (unfold q', q; by rewrite (pte_of_page T (km_mem s) dst va)).
      assert (Ev : va - dst = va mod PGSIZE - dst mod PGSIZE).
      { pose proof (Z.div_mod va PGSIZE). pose proof (Z.div_mod dst PGSIZE). unfold PGSIZE in *. lia. }
      repeat case_decide; try (exfalso; lia); [|done]. do 2 f_equal. lia.
    + assert (Hqq : q' <> q) by (intros E; apply Ep; by apply Hinj).
      rewrite decide_False by (destruct (page_ok_disjoint q' q Hq' Hq Hqq); unfold PGSIZE in *; lia).
      rewrite decide_False; [done|]. intros Hr. apply Ep.
      pose proof (Z.div_mod va PGSIZE). pose proof (Z.div_mod dst PGSIZE). unfold PGSIZE in *. lia.
Qed.

(** ** Copying out *)

Definition readable (T : list Z -> option Z) (m : mem) (va : Z) : Prop := va < MAXVA /\ mapped T m va.
Definition storable (T : list Z -> option Z) (m : mem) (va : Z) : Prop := va < MAXVA /\ writable T m va.

(** The page of [dst], as the loops compute it. *)
Lemma page_split dst : 0 <= dst -> PGROUNDDOWN dst = dst - dst mod PGSIZE /\ 0 <= dst mod PGSIZE < PGSIZE /\ 0 <= PGROUNDDOWN dst.
Proof.
  intros Hd. rewrite PGROUNDDOWN_eq. pose proof (Z.div_mod dst PGSIZE). pose proof (Z.mod_pos_bound dst PGSIZE).
  pose proof (Z.div_pos dst PGSIZE). unfold PGSIZE in *. lia.
Qed.

Lemma MAXVA_page va : 0 <= va -> PGROUNDDOWN va < MAXVA <-> va < MAXVA.
Proof.
  intros Hv. destruct (page_split va Hv) as (-> & Hm & _). change MAXVA with (67108864 * 4096) in *. unfold PGSIZE in *.
  pose proof (Z.div_mod va 4096). lia.
Qed.

Lemma rounddown_page va : 0 <= va -> PGROUNDDOWN va / PGSIZE = va / PGSIZE.
Proof. intros Hv. rewrite PGROUNDDOWN_eq, Z.div_mul; done. Qed.

Lemma pte_rounddown T m va : 0 <= va < MAXVA -> pte_of T m (PGROUNDDOWN va) = pte_of T m va.
Proof.
  intros Hv. destruct (page_split va) as (_ & _ & H0); [lia|]. apply pte_of_page; [done| |apply rounddown_page; lia].
  split; [done|]. apply MAXVA_page; lia.
Qed.

(** The state after bytes [bs] have been stored from [dst] on. *)
Record written (s : kmem) (l : list Z) (T : list Z -> option Z) (dst : Z) (bs : list Z) (s' : kmem) : Prop := {
  wr_inv : uinv s' l T;
  wr_mach : km_mach s' = km_mach s;
  wr_pte : forall va, pte_of T (km_mem s') va = pte_of T (km_mem s) va;
  wr_byte : forall va, 0 <= va < MAXVA -> mapped T (km_mem s) va ->
    user_byte T (km_mem s') va =
    if decide (dst <= va < dst + Z.of_nat (length bs)) then u8 (nth (Z.to_nat (va - dst)) bs 0)
    else user_byte T (km_mem s) va
}.

Lemma written_nil s l T dst : uinv s l T -> written s l T dst [] s.
Proof. intros Hu. split; [done|done|done|]. intros va _ _. rewrite decide_False; [done|]. simpl. lia. Qed.

Lemma written_app s l T dst bs s1 bs' s2 :
  written s l T dst bs s1 -> written s1 l T (dst + Z.of_nat (length bs)) bs' s2 -> written s l T dst (bs ++ bs') s2.
Proof.
  intros [I1 M1 P1 B1] [I2 M2 P2 B2]. split; [done|congruence|intros va; by rewrite P2|]. intros va Hva Hm.
  rewrite B2; [|done|unfold mapped; by rewrite !P1]. rewrite B1 by done. rewrite length_app.
  repeat case_decide; try (exfalso; lia); try done.
  - rewrite app_nth2 by lia. do 2 f_equal. lia.
  - rewrite app_nth1 by lia. done.
Qed.

(** One iteration of copyout. *)
Lemma copyout_step f root dst src s l T :
  uinv s l T -> T [] = Some root -> 0 <= dst -> src <> [] ->
  let n := Z.min (Z.of_nat (length src)) (PGSIZE - dst mod PGSIZE) in
  (storable T (km_mem s) dst /\
   exists s1, written s l T dst (take (Z.to_nat n) src) s1 /\
     copyout_loop (S f) root dst src s = copyout_loop f root (PGROUNDDOWN dst + PGSIZE) (drop (Z.to_nat n) src) s1) \/
  (~ storable T (km_mem s) dst /\ copyout_loop (S f) root dst src s = Ok (-1) s).
Proof.
  intros Hu Hr Hd Hsrc n. destruct (page_split dst Hd) as (Epg & Hoff & Hpg). pose proof (MAXVA_page dst Hd) as Hmax.
  cbn [copyout_loop]. cbv zeta. destruct src as [|b0 src]; [done|]. set (src' := b0 :: src) in *.
  destruct (Z.ltb_spec 0 (Z.of_nat (length src'))) as [Hl|Hl]; [|simpl in Hl; lia]. cbn [negb].
  destruct (Z.leb_spec MAXVA (PGROUNDDOWN dst)) as [Hm|Hm].
  { right. split; [|done]. intros [? _]. lia. }
  assert (Hv : 0 <= dst < MAXVA) by lia.
  rewrite (bind_Ok _ _ _ _ _ (walk_lookup root (PGROUNDDOWN dst) s l T (ui_pt _ _ _ Hu) Hr ltac:(lia))).
  destruct (Z.eqb_spec (leaf_addr T (PGROUNDDOWN dst)) 0) as [E0|E0].
  { right. split; [|done]. apply (leaf_addr_zero s l T _ (ui_pt _ _ _ Hu)) in E0. rewrite pte_rounddown in E0 by done.
    intros [_ [[Hb _] _]]. by rewrite E0, has_0 in Hb. }
  unfold ld64, gets, bind at 1 3. rewrite leaf_addr_load, pte_rounddown by done.
  unfold storable, writable, mapped. set (v := pte_of T (km_mem s) dst).
  destruct (has v PTE_V) eqn:EV; [|right; split; [intuition congruence|done]].
  destruct (has v PTE_U) eqn:EU; [|right; split; [intuition congruence|done]].
  destruct (has v PTE_W) eqn:EW; [|right; split; [intuition congruence|done]]. left. split; [split; [lia|done]|]. cbn [negb orb].
  assert (En : (if Z.of_nat (length src') <? PGSIZE - (dst - PGROUNDDOWN dst) then Z.of_nat (length src')
                else PGSIZE - (dst - PGROUNDDOWN dst)) = n) by (unfold n; zb; lia).
  rewrite En. assert (Ea : PTE2PA v + (dst - PGROUNDDOWN dst) = pa_of T (km_mem s) dst) by (unfold pa_of; fold v; lia).
  rewrite Ea. exists (put_bytes s (pa_of T (km_mem s) dst) (take (Z.to_nat n) src')). split; [|done].
  destruct (put_bytes_ok s l T dst (take (Z.to_nat n) src') Hu Hv) as (H1 & H2 & H3); [done| |by split].
  rewrite length_take. lia.
Qed.

Lemma writable_same s l T dst bs s1 va : written s l T dst bs s1 -> storable T (km_mem s1) va <-> storable T (km_mem s) va.
Proof. intros [_ _ P _]. unfold storable, writable, mapped. by rewrite !P. Qed.

(** Permissions are those of the page. *)
Lemma storable_page T m va va' :
  0 <= va -> 0 <= va' -> va / PGSIZE = va' / PGSIZE -> storable T m va -> storable T m va'.
Proof.
  intros Hv Hv' E [Hmax Hw]. assert (Hm' : va' < MAXVA).
  { apply MAXVA_page; [done|]. rewrite PGROUNDDOWN_eq, <-E, <-PGROUNDDOWN_eq. by apply MAXVA_page. }
  split; [done|]. unfold writable, mapped in *. by rewrite (pte_of_page T m va va') by (done || lia).
Qed.

(** How far [copyout] gets: to the first byte that cannot be stored. *)
Lemma copyout_loop_ok fuel root dst src s l T :
  uinv s l T -> T [] = Some root -> 0 <= dst ->
  dst mod PGSIZE + Z.of_nat (length src) + PGSIZE <= Z.of_nat fuel * PGSIZE ->
  exists r k s', copyout_loop fuel root dst src s = Ok r s' /\ (k <= length src)%nat /\
    written s l T dst (take k src) s' /\ (forall va, dst <= va < dst + Z.of_nat k -> storable T (km_mem s) va) /\
    ((r = 0 /\ k = length src) \/ (r = -1 /\ (k < length src)%nat /\ ~ storable T (km_mem s) (dst + Z.of_nat k))).
Proof.
  revert dst src s. induction fuel as [|f IH]; intros dst src s Hu Hr Hd Hf.
  { pose proof (Z.mod_pos_bound dst PGSIZE). unfold PGSIZE in *. lia. }
  destruct src as [|b src0] eqn:Esrc.
  { exists 0, 0%nat, s. split; [done|]. split; [done|]. split; [by apply written_nil|]. split; [lia|by left]. }
  rewrite <-Esrc in *. assert (Hne : src <> []) by (by rewrite Esrc).
  assert (Hpos : (0 < length src)%nat) by (rewrite Esrc; simpl; lia).
  destruct (page_split dst Hd) as (Epg & Hoff & Hpg).
  destruct (copyout_step f root dst src s l T Hu Hr Hd Hne) as [(Hst & s1 & Hw & E)|[Hst E]].
  2: { exists (-1), 0%nat, s. split; [done|]. split; [lia|]. split; [by apply written_nil|]. split; [lia|].
       right. split; [done|]. split; [lia|]. by rewrite Z.add_0_r. }
  set (n := Z.min (Z.of_nat (length src)) (PGSIZE - dst mod PGSIZE)) in *.
  assert (Hn : 0 < n <= PGSIZE - dst mod PGSIZE /\ n <= Z.of_nat (length src)) by lia.
  assert (Hlt : length (take (Z.to_nat n) src) = Z.to_nat n) by (rewrite length_take; lia).
  assert (Hpage : forall va, dst <= va < dst + n -> storable T (km_mem s) va).
  { intros va Hva. apply (storable_page T _ dst); [done|lia| |done]. symmetry.
    pose proof (Z.div_mod va PGSIZE). pose proof (Z.div_mod dst PGSIZE). pose proof (Z.mod_pos_bound va PGSIZE).
    unfold PGSIZE in *. lia. }
  destruct (decide (n = Z.of_nat (length src))) as [Elast|Hmore].
  - rewrite E, drop_ge by lia. exists 0, (length src), s1. split; [|split; [done|split; [|split]]].
    + destruct f; [unfold PGSIZE in *; lia|]. done.
    + rewrite take_ge by lia. by rewrite take_ge in Hw by lia.
    + intros va Hva. apply Hpage. lia.
    + by left.
  - assert (En : n = PGSIZE - dst mod PGSIZE) by lia.
    replace (PGROUNDDOWN dst + PGSIZE) with (dst + n) in E by lia.
    assert (Hal : (dst + n) mod PGSIZE = 0).
    { rewrite En. replace (dst + (PGSIZE - dst mod PGSIZE)) with ((dst / PGSIZE + 1) * PGSIZE) by (pose proof (Z.div_mod dst PGSIZE); unfold PGSIZE in *; lia).
      apply Z.mod_mul. done. }
    destruct (IH (dst + n) (drop (Z.to_nat n) src) s1 (wr_inv _ _ _ _ _ _ Hw) Hr) as (r & k & s' & E' & Hk & Hw' & Hst' & Hc);
      [lia|rewrite length_drop, Hal; unfold PGSIZE in *; lia|].
    rewrite length_drop in Hk, Hc. exists r, (Z.to_nat n + k)%nat, s'. split; [by rewrite E|]. split; [lia|].
    split; [|split].
    + rewrite <-take_take_drop. eapply written_app; [exact Hw|]. rewrite Hlt, Z2Nat.id by lia. exact Hw'.
    + intros va Hva. destruct (decide (va < dst + n)); [apply Hpage; lia|].
      apply (writable_same s l T dst _ s1 va Hw), Hst'. lia.
    + rewrite (writable_same s l T dst _ s1 _ Hw) in Hc.
      replace (dst + Z.of_nat (Z.to_nat n + k)) with (dst + n + Z.of_nat k) by lia.
      destruct Hc as [[-> ->]|(-> & ? & ?)]; [left|right]; (split; [done|]); [lia|split; [lia|done]].
Qed.

(** ** Copying in *)

Definition user_bytes (T : list Z -> option Z) (m : mem) (va : Z) (n : nat) : list Z :=
  map (fun i => user_byte T m (va + Z.of_nat i)) (seq 0 n).

Lemma walkaddr_ok root va s l T :
  uinv s l T -> T [] = Some root -> 0 <= va ->
  exists pa, walkaddr root va s = Ok pa s /\
    ((readable T (km_mem s) va /\ pa = PTE2PA (pte_of T (km_mem s) va) /\ pa <> 0) \/ (~ readable T (km_mem s) va /\ pa = 0)).
Proof.
  intros Hu Hr Hva. unfold walkaddr, readable, mapped.
  destruct (Z.leb_spec MAXVA va) as [Hm|Hm]; [exists 0; split; [done|right; split; [intuition lia|done]]|].
  rewrite (bind_Ok _ _ _ _ _ (walk_lookup root va s l T (ui_pt _ _ _ Hu) Hr ltac:(lia))).
  destruct (Z.eqb_spec (leaf_addr T va) 0) as [E0|E0].
  { exists 0. split; [done|]. right. split; [|done]. apply (leaf_addr_zero s l T _ (ui_pt _ _ _ Hu)) in E0.
    rewrite E0, has_0. intuition congruence. }
  unfold ld64, gets, bind at 1. rewrite leaf_addr_load by done. set (v := pte_of T (km_mem s) va).
  destruct (has v PTE_V) eqn:EV; cbn [negb]; [|exists 0; split; [done|right; intuition congruence]].
  destruct (has v PTE_U) eqn:EU; cbn [negb]; [|exists 0; split; [done|right; intuition congruence]].
  exists (PTE2PA v). split; [done|]. left. split; [done|]. split; [done|].
  destruct (ui_page _ _ _ Hu va) as (Hp & _ & _); [lia|by split|]. apply page_ok_pos in Hp. fold v in Hp. lia.
Qed.

Lemma readable_page T m va va' :
  0 <= va -> 0 <= va' -> va / PGSIZE = va' / PGSIZE -> readable T m va -> readable T m va'.
Proof.
  intros Hv Hv' E [Hmax Hw]. assert (Hm' : va' < MAXVA).
  { apply MAXVA_page; [done|]. rewrite PGROUNDDOWN_eq, <-E, <-PGROUNDDOWN_eq. by apply MAXVA_page. }
  split; [done|]. unfold mapped in *. by rewrite (pte_of_page T m va va') by (done || lia).
Qed.

Lemma readable_rounddown T m va : 0 <= va -> readable T m (PGROUNDDOWN va) <-> readable T m va.
Proof.
  intros Hv. destruct (page_split va Hv) as (_ & _ & H0).
  split; apply readable_page; try done; by rewrite rounddown_page.
Qed.

(** The addresses of [n] bytes inside the page of [va]. *)
Lemma same_page va x : 0 <= va -> 0 <= x < PGSIZE - va mod PGSIZE -> (va + x) / PGSIZE = va / PGSIZE /\ (va + x) mod PGSIZE = va mod PGSIZE + x.
Proof.
  intros Hv Hx. pose proof (Z.div_mod va PGSIZE). pose proof (Z.mod_pos_bound va PGSIZE).
  pose proof (Z.div_mod (va + x) PGSIZE). pose proof (Z.mod_pos_bound (va + x) PGSIZE). unfold PGSIZE in *. lia.
Qed.

Lemma load_user T m va n :
  0 <= va < MAXVA -> va mod PGSIZE + Z.of_nat n <= PGSIZE ->
  load_bytes n (pa_of T m va) m = user_bytes T m va n.
Proof.
  intros Hv Hn. rewrite load_bytes_spec. unfold user_bytes, user_byte. apply map_ext_in. intros i Hi%in_seq.
  destruct (same_page va (Z.of_nat i)) as [Hd Hm]; [lia|lia|]. f_equal. unfold pa_of.
  assert (va + Z.of_nat i < MAXVA).
  { apply MAXVA_page; [lia|]. rewrite PGROUNDDOWN_eq, Hd, <-PGROUNDDOWN_eq. apply MAXVA_page; lia. }
  rewrite (pte_of_page T m va (va + Z.of_nat i)) by (done || lia). lia.
Qed.

Lemma seq_plus n b k : map (Nat.add n) (seq b k) = seq (n + b) k.
Proof. revert b. induction k as [|k IH]; intros b; [done|]. cbn [seq map]. rewrite IH. do 2 f_equal. lia. Qed.

Lemma user_bytes_app T m va n n' : user_bytes T m va (n + n') = user_bytes T m va n ++ user_bytes T m (va + Z.of_nat n) n'.
Proof.
  unfold user_bytes. rewrite seq_app, map_app. f_equal.
  replace (0 + n)%nat with (n + 0)%nat by lia. rewrite <-seq_plus, map_map. apply map_ext. intros i. f_equal. lia.
Qed.

Lemma copyin_loop_ok fuel root acc va len s l T :
  uinv s l T -> T [] = Some root -> 0 <= va -> 0 <= len -> va mod PGSIZE + len + PGSIZE <= Z.of_nat fuel * PGSIZE ->
  exists r, copyin_loop fuel root acc va len s = Ok r s /\
    match r with
    | Some bs => (forall a, va <= a < va + len -> readable T (km_mem s) a) /\ bs = acc ++ user_bytes T (km_mem s) va (Z.to_nat len)
    | None => exists a, va <= a < va + len /\ ~ readable T (km_mem s) a
    end.
Proof.
  intros Hu Hr. revert acc va len. induction fuel as [|f IH]; intros acc va len Hv Hl Hf.
  { pose proof (Z.mod_pos_bound va PGSIZE). unfold PGSIZE in *. lia. }
  cbn [copyin_loop]. destruct (Z.ltb_spec 0 len) as [Hp|Hp]; cbn [negb].
  2: { exists (Some acc). split; [done|]. split; [lia|]. replace len with 0 by lia. by rewrite app_nil_r. }
  destruct (page_split va Hv) as (Epg & Hoff & Hpg). cbv zeta.
  destruct (walkaddr_ok root (PGROUNDDOWN va) s l T Hu Hr Hpg) as (pa & E & Hc). rewrite (bind_Ok _ _ _ _ _ E).
  rewrite (readable_rounddown T _ va Hv) in Hc.
  destruct Hc as [(Hre & Epa & Hnz)|[Hre ->]].
  2: { exists None. split; [done|]. exists va. split; [lia|done]. }
  destruct (Z.eqb_spec pa 0); [done|]. rewrite pte_rounddown in Epa by (split; [done|apply Hre]).
  set (k := if len <? PGSIZE - (va - PGROUNDDOWN va) then len else PGSIZE - (va - PGROUNDDOWN va)).
  assert (Hk : k = Z.min len (PGSIZE - va mod PGSIZE)) by (unfold k; zb; lia).
  replace (pa + (va - PGROUNDDOWN va)) with (pa_of T (km_mem s) va) by (unfold pa_of; lia).
  unfold gets, bind. rewrite load_user by ((split; [done|apply Hre]) || lia).
  assert (Hin : forall a, va <= a < va + k -> readable T (km_mem s) a).
  { intros a Ha. apply (readable_page T _ va); [done|lia| |done]. symmetry.
    replace a with (va + (a - va)) by lia. apply same_page; lia. }
  assert (Hf' : (PGROUNDDOWN va + PGSIZE) mod PGSIZE + (len - k) + PGSIZE <= Z.of_nat f * PGSIZE).
  { rewrite PGROUNDDOWN_eq. replace (va / PGSIZE * PGSIZE + PGSIZE) with ((va / PGSIZE + 1) * PGSIZE) by lia.
    rewrite Z.mod_mul by done. unfold PGSIZE in *. lia. }
  destruct (IH (acc ++ user_bytes T (km_mem s) va (Z.to_nat k)) (PGROUNDDOWN va + PGSIZE) (len - k)) as (r & E' & Hres);
    [unfold PGSIZE in *; lia|lia|done|].
  exists r. split; [done|]. destruct (decide (k = len)) as [Ek|Ek].
  - destruct r as [bs|]; [|destruct Hres as (a & ? & _); lia]. destruct Hres as [_ ->]. split; [intros a Ha; apply Hin; lia|].
    replace (len - k) with 0 by lia. cbn [Z.to_nat user_bytes seq map]. rewrite app_nil_r. by rewrite Ek.
  - replace (PGROUNDDOWN va + PGSIZE) with (va + k) in Hres by lia. destruct r as [bs|].
    + destruct Hres as [Hr' ->]. split.
      * intros a Ha. destruct (decide (a < va + k)); [apply Hin; lia|apply Hr'; lia].
      * rewrite <-app_assoc. f_equal. replace (Z.to_nat len) with (Z.to_nat k + Z.to_nat (len - k))%nat by lia.
        rewrite user_bytes_app. do 2 f_equal. lia.
    + destruct Hres as (a & Ha & Hna). exists a. split; [lia|done].
Qed.

Lemma copyout_ok root dst src s l T :
  uinv s l T -> T [] = Some root -> 0 <= dst ->
  exists r k s', copyout root dst src s = Ok r s' /\ (k <= length src)%nat /\
    written s l T dst (take k src) s' /\ (forall va, dst <= va < dst + Z.of_nat k -> storable T (km_mem s) va) /\
    ((r = 0 /\ k = length src) \/ (r = -1 /\ (k < length src)%nat /\ ~ storable T (km_mem s) (dst + Z.of_nat k))).
Proof.
  intros Hu Hr Hd. apply copyout_loop_ok; try done.
  pose proof (Z.mod_pos_bound dst PGSIZE). pose proof (Nat.div_mod_eq (length src) 4096).
  pose proof (Nat.mod_upper_bound (length src) 4096). unfold PGSIZE in *. lia.
Qed.

(** C26: [copyout] writes user memory up to the first address that the page
    table does not let the user write.  It returns 0 and the whole of [src] is
    in the user's memory, or it returns -1 and [k] bytes are, where the address
    of the next byte is not mapped, not the user's, read-only or too high; no
    other user byte, no page-table entry and no free page changes. *)
Theorem copyout_spec root dst src s l T :
  uinv s l T -> T [] = Some root -> 0 <= dst ->
  exists r k s', copyout root dst src s = Ok r s' /\ (k <= length src)%nat /\
    written s l T dst (take k src) s' /\ (forall va, dst <= va < dst + Z.of_nat k -> storable T (km_mem s) va) /\
    ((r = 0 /\ k = length src) \/ (r = -1 /\ (k < length src)%nat /\ ~ storable T (km_mem s) (dst + Z.of_nat k))).
Proof. apply copyout_ok. Qed.

Lemma copyin_ok root va len s l T :
  uinv s l T -> T [] = Some root -> 0 <= va -> 0 <= len ->
  exists r, copyin root va len s = Ok r s /\
    match r with
    | Some bs => (forall a, va <= a < va + len -> readable T (km_mem s) a) /\ bs = user_bytes T (km_mem s) va (Z.to_nat len)
    | None => exists a, va <= a < va + len /\ ~ readable T (km_mem s) a
    end.
Proof.
  intros Hu Hr Hv Hl. apply (copyin_loop_ok _ root [] va len s l T); try done.
  pose proof (Z.mod_pos_bound va PGSIZE). pose proof (Z.div_mod len PGSIZE). pose proof (Z.mod_pos_bound len PGSIZE).
  unfold PGSIZE in *. lia.
Qed.

(** [copyin] returns the user's bytes when every address of the range is
    mapped for the user, and fails when one is not; it never changes
    anything. *)
Theorem copyin_spec root va len s l T :
  uinv s l T -> T [] = Some root -> 0 <= va -> 0 <= len ->
  exists r, copyin root va len s = Ok r s /\
    match r with
    | Some bs => (forall a, va <= a < va + len -> readable T (km_mem s) a) /\ bs = user_bytes T (km_mem s) va (Z.to_nat len)
    | None => exists a, va <= a < va + len /\ ~ readable T (km_mem s) a
    end.
Proof. apply copyin_ok. Qed.

(** C17: what [copyout] writes, [copyin] reads back, across page boundaries and
    whatever physical pages the range is mapped to. *)
Theorem copy_round_trip root dst src s l T :
  uinv s l T -> T [] = Some root -> 0 <= dst -> Forall (fun b => 0 <= b < 256) src ->
  (forall va, dst <= va < dst + Z.of_nat (length src) -> storable T (km_mem s) va) ->
  exists s', copyout root dst src s = Ok 0 s' /\
    copyin root dst (Z.of_nat (length src)) s' = Ok (Some src) s'.
Proof.
  intros Hu Hr Hd Hb Hst.
  destruct (copyout_ok root dst src s l T Hu Hr Hd) as (r & k & s' & E & Hk & Hw & _ & Hc).
  destruct Hc as [[-> ->]|(_ & Hlt & Hno)]; [|by exfalso; apply Hno, Hst; lia].
  exists s'. split; [done|]. rewrite take_ge in Hw by lia. destruct Hw as [Hu' _ Hp' Hby].
  destruct (copyin_ok root dst (Z.of_nat (length src)) s' l T Hu' Hr Hd) as (r & E' & Hres); [lia|].
  rewrite E'. f_equal. destruct r as [bs|].
  - destruct Hres as [_ ->]. rewrite Nat2Z.id. f_equal. apply list_eq. intros i. unfold user_bytes.
    destruct (decide (i < length src)%nat) as [Hi|Hi].
    + rewrite list_lookup_fmap, lookup_seq_lt by done. simpl.
      destruct (Hst (dst + Z.of_nat i)) as [Hmax [Hm _]]; [lia|]. rewrite Hby; [|lia|done].
      rewrite decide_True by lia. replace (Z.to_nat (dst + Z.of_nat i - dst)) with i by lia.
      destruct (nth_lookup_or_length src i 0) as [Hnth|]; [|lia]. rewrite Hnth. f_equal. unfold u8. apply Z.mod_small.
      rewrite Forall_lookup in Hb. apply (Hb i). done.
    + rewrite !lookup_ge_None_2; [done|lia|]. rewrite length_map, length_seq. lia.
  - destruct Hres as (a & Ha & Hna). exfalso. apply Hna. destruct (Hst a Ha) as [? [? _]].
    split; [done|]. unfold mapped in *. by rewrite !Hp'.
Qed.

End user.

(** * On the concrete page table *)

Lemma mapped0 va : 0 <= va < MAXVA -> mapped pt_tables0 pt_mem0 va <-> va / PGSIZE = 0.
Proof.
  intros Hva. unfold mapped. rewrite pte_of0 by done. case_decide as Hd.
  - split; [done|]. intros _. vm_compute. done.
  - rewrite has_0. split; [by intros [? _]|done].
Qed.

Lemma uinv0 : uinv (img := image1) pt_kmem0 [] pt_tables0.
Proof.
  assert (Hp : PTE2PA (make_pte user_page0 perm0) = user_page0) by (vm_compute; done). split.
  - apply pt_inv0.
  - intros va Hva Hm%mapped0; [|done]. simpl. rewrite pte_of0, decide_True, Hp by done.
    destruct pt_pages0 as (_ & _ & _ & H4). split; [done|]. split; [by intros ?%not_elem_of_nil|].
    intros w Hw%pt_tables0_Some. vm_compute in Hw. intuition congruence.
  - intros va va' Hva Hva' Hm%mapped0 Hm'%mapped0 _; [congruence|done|done].
Qed.

Lemma storable0 va : 0 <= va < 4096 -> storable pt_tables0 (km_mem pt_kmem0) va.
Proof.
  intros Hva. assert (Hm : 0 <= va < MAXVA) by (change MAXVA with 274877906944; lia).
  assert (Hd : va / PGSIZE = 0) by (apply Z.div_small; unfold PGSIZE; lia).
  split; [lia|]. split; [by apply mapped0|]. simpl. rewrite pte_of0, decide_True by done. vm_compute. done.
Qed.

Lemma copyout_spec_witness :
  exists r k s', copyout pt_root0 4094 [1; 2; 3; 4] pt_kmem0 = Ok r s' /\ (r = 0 /\ k = 4%nat \/ r = -1 /\ (k < 4)%nat).
Proof.
  destruct (copyout_spec (img := image1) pt_root0 4094 [1; 2; 3; 4] pt_kmem0 [] pt_tables0 uinv0) as (r & k & s' & E & _ & _ & _ & Hc).
  - reflexivity.
  - lia.
  - exists r, k, s'. split; [exact E|]. destruct Hc as [Hc|(Hr & Hk & _)]; [left; exact Hc|right; split; [exact Hr|exact Hk]].
Defined.

Lemma copyin_spec_witness : exists r, copyin pt_root0 100 8 pt_kmem0 = Ok r pt_kmem0.
Proof.
  destruct (copyin_spec (img := image1) pt_root0 100 8 pt_kmem0 [] pt_tables0 uinv0) as (r & E & _).
  - reflexivity.
  - lia.
  - lia.
  - exists r. exact E.
Defined.

Lemma copy_round_trip_witness :
  exists s', copyout pt_root0 100 [104; 105] pt_kmem0 = Ok 0 s' /\ copyin pt_root0 100 2 s' = Ok (Some [104; 105]) s'.
Proof.
  apply (copy_round_trip (img := image1) pt_root0 100 [104; 105] pt_kmem0 [] pt_tables0 uinv0).
  - reflexivity.
  - lia.
  - repeat constructor; lia.
  - intros va Hva. apply storable0. simpl in Hva. lia.
Defined.
