(* ===== verification/Printf.v ===== *)
(** Formatted output of the kernel (kernel/printf.c): [printint], [printptr]
    and the format interpreter of [printf], as functions to the bytes that
    they hand to [consputc]. *)

From Stdlib Require Import ZArith Lia List String Bool.
From stdpp Require Import base tactics numbers list.
From S2P Require Import Prelude.

(** * Integers *)

Definition digits : list Z := str "0123456789abcdef".
Definition digit (d : Z) : Z := nth (Z.to_nat d) digits 0.

(** [do { buf[i++] = digits[x % base]; } while((x /= base) != 0);]: the bytes
    in the order they are stored.  A 64-bit value has at most 64 digits. *)
Fixpoint digit_loop (fuel : nat) (x base : Z) : list Z :=
  match fuel with
  | O => []
  | S f => digit (x mod base) :: (if x / base =? 0 then [] else digit_loop f (x / base) base)
  end.

(** The contents of [char buf[16]] when the loop is done. *)
Definition printint_buf (xx base : Z) (sign : bool) : list Z :=
  let neg := sign && (xx <? 0) in
  let x := if neg then u64 (- xx) else u64 xx in
  digit_loop 64 x base ++ (if neg then [45] else []).

(** Size of [printint]'s local array. *)
Definition PRINTINT_BUF : nat := 16.

(** The bytes printed, last stored first; storing more than the array holds
    is undefined. *)
Definition printint (xx base : Z) (sign : bool) : option (list Z) :=
  let buf := printint_buf xx base sign in
  if (length buf <=? PRINTINT_BUF)%nat then Some (rev buf) else None.

(** The 16 nibbles of [x], most significant first. *)
Fixpoint printptr_loop (k : nat) (x : Z) : list Z :=
  match k with
  | O => []
  | S k' => digit (Z.shiftr x 60) :: printptr_loop k' (u64 (Z.shiftl x 4))
  end.
Definition printptr (x : Z) : list Z := str "0x" ++ printptr_loop 16 (u64 x).

(** * The format interpreter *)

(** An argument as va_arg fetches it: the 64 bits of an integer register, or
    a string (NULL is [None]). *)
Inductive arg : Type :=
| ArgInt (z : Z)
| ArgStr (s : option (list Z)).

(** [va_arg(ap, int)] and [va_arg(ap, uint64)] passed to a [long long]. *)
Definition va_int (a : arg) : Z := match a with ArgInt z => s32 z | ArgStr _ => 0 end.
Definition va_long (a : arg) : Z := match a with ArgInt z => s64 z | ArgStr _ => 0 end.
Definition va_str (a : arg) : list Z :=
  match a with ArgStr (Some s) => s | ArgStr None => str "(null)" | ArgInt _ => [] end.

(** The characters 'd', 'l', 'u', 'x', 'p', 's', '%'. *)
Definition c_d : Z := 100.
Definition c_l : Z := 108.
Definition c_u : Z := 117.
Definition c_x : Z := 120.
Definition c_p : Z := 112.
Definition c_s : Z := 115.
Definition c_pct : Z := 37.

(** What one conversion prints, given the bytes [c0 c1 c2] after the percent
    sign: the output, the number of bytes consumed after the percent sign and
    whether an argument was used.  [None] is undefined behaviour. *)
Definition convert (c0 c1 c2 : Z) (a : arg) : option (list Z * nat * bool) :=
  let int_conv z base sign n :=
    match printint z base sign with Some bs => Some (bs, n, true) | None => None end in
  if c0 =? c_d then int_conv (va_int a) 10 true 1%nat
  else if (c0 =? c_l) && (c1 =? c_d) then int_conv (va_long a) 10 true 2%nat
  else if (c0 =? c_l) && (c1 =? c_l) && (c2 =? c_d) then int_conv (va_long a) 10 true 3%nat
  else if c0 =? c_u then int_conv (va_int a) 10 false 1%nat
  else if (c0 =? c_l) && (c1 =? c_u) then int_conv (va_long a) 10 false 2%nat
  else if (c0 =? c_l) && (c1 =? c_l) && (c2 =? c_u) then int_conv (va_long a) 10 false 3%nat
  else if c0 =? c_x then int_conv (va_int a) 16 false 1%nat
  else if (c0 =? c_l) && (c1 =? c_x) then int_conv (va_long a) 16 false 2%nat
  else if (c0 =? c_l) && (c1 =? c_l) && (c2 =? c_x) then int_conv (va_long a) 16 false 3%nat
  else if c0 =? c_p then Some (printptr (va_long a), 1%nat, true)
  else if c0 =? c_s then Some (va_str a, 1%nat, true)
  else if c0 =? c_pct then Some ([c_pct], 1%nat, false)
  else Some ([c_pct; c0], 1%nat, false).

(** The loop of [printf] over the rest of the format string.  A percent sign
    that ends the format stops it.  [fuel] is the length of the format. *)
Fixpoint format_loop (fuel : nat) (fmt : list Z) (args : list arg) : option (list Z) :=
  match fuel with
  | O => Some []
  | S f =>
      match fmt with
      | [] => Some []
      | cx :: rest =>
          if negb (cx =? c_pct)
          then match format_loop f rest args with
               | Some out => Some (cx :: out)
               | None => None
               end
          else match rest with
               | [] => Some []
               | c0 :: _ =>
                   let c1 := nth 1 rest 0 in
                   let c2 := nth 2 rest 0 in
                   match convert c0 c1 c2 (hd (ArgInt 0) args) with
                   | None => None
                   | Some (bs, n, used) =>
                       match format_loop f (drop n rest)
                               (if used : bool then tl args else args) with
                       | Some out => Some (bs ++ out)
                       | None => None
                       end
                   end
               end
      end
  end.
Definition format (fmt : list Z) (args : list arg) : option (list Z) :=
  format_loop (S (length fmt)) fmt args.

(** * Properties *)

(** Reading a number back: the value of a digit and of a string of digits. *)
Definition undigit (c : Z) : Z := if c <=? 57 then c - 48 else c - 87.
Definition number (base : Z) (bs : list Z) : Z := fold_left (fun acc c => acc * base + undigit c) bs 0.
Definition parse (base : Z) (bs : list Z) : Z :=
  match bs with
  | 45 :: ds => - number base ds
  | _ => number base bs
  end.

Lemma undigit_digit d : 0 <= d < 16 -> undigit (digit d) = d /\ digit d <> 45.
Proof.
  intros Hd. assert (Hc : In d (map Z.of_nat (seq 0 16))).
  { rewrite <-(Z2Nat.id d) by lia. apply in_map, in_seq. lia. }
  simpl in Hc. repeat destruct Hc as [<-|Hc]; try done.
Qed.

Lemma digit_loop_length fuel x base k :
  2 <= base -> 0 <= x -> (S k < fuel)%nat -> (length (digit_loop fuel x base) <= S k)%nat <-> x < base ^ Z.of_nat (S k).
Proof.
  intros Hb. revert x k. induction fuel as [|f IH]; intros x k Hx Hk; [lia|]. cbn [digit_loop length].
  rewrite Nat2Z.inj_succ, Z.pow_succ_r by lia.
  destruct (Z.eqb_spec (x / base) 0) as [E|E].
  - simpl. apply Z.div_small_iff in E; [|lia]. destruct E as [E|E]; [|lia].
    assert (1 <= base ^ Z.of_nat k) by (pose proof (Z.pow_pos_nonneg base (Z.of_nat k)); lia).
    split; [nia|lia].
  - assert (Hx' : 0 <= x / base) by (apply Z.div_pos; lia). destruct k as [|k].
    + split; [intros Hl; exfalso; destruct f; simpl in Hl; lia|]. rewrite Z.pow_0_r. intros Hlt.
      exfalso. apply E. apply Z.div_small. lia.
    + rewrite <-Nat.succ_le_mono, IH by lia. split; intros Hlt.
      * pose proof (Z.div_mod x base). pose proof (Z.mod_pos_bound x base). nia.
      * apply Z.div_lt_upper_bound; lia.
Qed.

Lemma digit_loop_number fuel x base :
  2 <= base <= 16 -> 0 <= x < base ^ Z.of_nat fuel -> number base (rev (digit_loop fuel x base)) = x.
Proof.
  intros Hb. revert x. induction fuel as [|f IH]; intros x Hx.
  { rewrite Z.pow_0_r in Hx. unfold number. simpl. lia. }
  cbn [digit_loop rev]. unfold number in *. rewrite fold_left_app. cbn [fold_left].
  rewrite Nat2Z.inj_succ, Z.pow_succ_r in Hx by lia.
  pose proof (Z.mod_pos_bound x base) as Hm. destruct (undigit_digit (x mod base)) as [-> _]; [lia|].
  pose proof (Z.div_mod x base) as Hdm. destruct (Z.eqb_spec (x / base) 0) as [E|E].
  - simpl. lia.
  - rewrite IH; [lia|]. split; [apply Z.div_pos; lia|]. apply Z.div_lt_upper_bound; lia.
Qed.

Lemma digit_loop_digits fuel x base :
  2 <= base <= 16 -> Forall (fun c => c <> 45) (digit_loop fuel x base).
Proof.
  intros Hb. revert x. induction fuel as [|f IH]; intros x; cbn [digit_loop]; constructor.
  - apply undigit_digit. pose proof (Z.mod_pos_bound x base). lia.
  - destruct (x / base =? 0); [constructor|apply IH].
Qed.

Local Opaque digit_loop.

(** The magnitude that [printint] prints. *)
Definition magnitude (xx : Z) (sign : bool) : Z := if sign && (xx <? 0) then - xx else u64 xx.

Lemma printint_parse xx base sign out :
  2 <= base <= 16 -> - 2 ^ 63 <= xx < 2 ^ 63 -> printint xx base sign = Some out ->
  parse base out = (if sign then xx else u64 xx) /\ (length out <= PRINTINT_BUF)%nat.
Proof.
  intros Hb Hx. unfold printint, printint_buf. cbv zeta. destruct (Nat.leb_spec (length (digit_loop 64 (if sign && (xx <? 0) then u64 (- xx) else u64 xx) base ++
    (if sign && (xx <? 0) then [45] else []))) PRINTINT_BUF) as [Hl|]; [|done]. intros [= <-].
  rewrite length_rev. split; [|done]. rewrite rev_app_distr.
  assert (Hpow : 2 ^ 64 <= base ^ Z.of_nat 64) by (apply Z.pow_le_mono_l; lia).
  destruct (sign && (xx <? 0)) eqn:E.
  - apply andb_true_iff in E as [-> E%Z.ltb_lt]. cbn [rev app parse]. rewrite u64_small by lia.
    rewrite digit_loop_number by lia. lia.
  - assert (Hu : 0 <= u64 xx < 2 ^ 64) by (unfold u64; apply Z.mod_pos_bound; lia). cbn [rev app].
    assert (Hp : forall l, Forall (fun c => c <> 45) l -> parse base l = number base l).
    { intros l [|c l' Hc]; [done|]. unfold parse. by repeat case_match. }
    rewrite Hp by (apply Forall_rev, digit_loop_digits; lia). rewrite digit_loop_number by lia.
    destruct sign; [|done]. simpl in E. apply Z.ltb_ge in E. apply u64_small. lia.
Qed.

(** The array overflows exactly when there are more digits than it holds. *)
Lemma printint_None xx base sign :
  2 <= base <= 16 -> - 2 ^ 63 <= xx < 2 ^ 63 ->
  printint xx base sign = None <-> base ^ (if sign && (xx <? 0) then 15 else 16) <= magnitude xx sign.
Proof.
  intros Hb Hx. unfold printint, printint_buf, magnitude.
  assert (Hu : 0 <= u64 xx) by (unfold u64; apply Z.mod_pos_bound; lia). rewrite length_app.
  destruct (sign && (xx <? 0)) eqn:E.
  - apply andb_true_iff in E as [-> E%Z.ltb_lt]. rewrite u64_small by lia.
    pose proof (digit_loop_length 64 (- xx) base 14) as Hd. unfold PRINTINT_BUF. change (length [45]) with 1%nat.
    change (Z.of_nat 15) with 15 in Hd.
    destruct (Nat.leb_spec (length (digit_loop 64 (- xx) base) + 1) 16); split; try done; lia.
  - pose proof (digit_loop_length 64 (u64 xx) base 15) as Hd. unfold PRINTINT_BUF. change (length (A := Z) []) with 0%nat.
    change (Z.of_nat 16) with 16 in Hd.
    destruct (Nat.leb_spec (length (digit_loop 64 (u64 xx) base) + 0) 16); split; try done; lia.
Qed.

(** C38: printing is reversible.  Whenever [printint] stays inside its array,
    what it prints reads back as the number: signed if asked to, otherwise as
    an unsigned 64-bit value; and it stays inside exactly when the digits and
    the sign fit into 16 characters. *)
Theorem printint_round_trip xx base sign :
  2 <= base <= 16 -> - 2 ^ 63 <= xx < 2 ^ 63 ->
  match printint xx base sign with
  | Some out => parse base out = (if sign then xx else u64 xx) /\ (length out <= PRINTINT_BUF)%nat
  | None => base ^ (if sign && (xx <? 0) then 15 else 16) <= magnitude xx sign
  end.
Proof.
  intros Hb Hx. destruct (printint xx base sign) eqn:E; [by apply printint_parse|by apply printint_None].
Qed.

Lemma printint_round_trip_witness : parse 10 (str "-2147483648") = -2147483648.
Proof. apply (printint_round_trip (-2147483648) 10 true); lia. Defined.

(** The conversions that overflow [printint]'s array.  Hexadecimal output
    and %d never do; %u of a negative int always does, because the int is
    widened with its sign before it is taken as unsigned. *)
Theorem percent_u_overflows z c1 c2 :
  convert c_d c1 c2 (ArgInt z) <> None /\ convert c_x c1 c2 (ArgInt z) <> None /\
  (convert c_u c1 c2 (ArgInt z) = None <-> s32 z < 0).
Proof.
  assert (Hr : - 2 ^ 31 <= s32 z < 2 ^ 31).
  { unfold s32. pose proof (Z.mod_pos_bound (z + 2 ^ 31) (2 ^ 32)). lia. }
  assert (Hc : forall base sign n, match printint (s32 z) base sign with Some bs => Some (bs, n, true) | None => None end
                 = (None : option (list Z * nat * bool)) <-> printint (s32 z) base sign = None).
  { intros base sign n. by destruct (printint (s32 z) base sign). }
  unfold convert. cbv zeta. change (c_x =? c_d) with false. change (c_x =? c_l) with false. change (c_x =? c_u) with false.
  change (c_u =? c_d) with false. change (c_u =? c_l) with false. rewrite !Z.eqb_refl. cbn [andb]. change (va_int (ArgInt z)) with (s32 z).
  rewrite !Hc, !printint_None by lia. unfold magnitude.
  assert (Hu : u64 (s32 z) = if s32 z <? 0 then s32 z + 2 ^ 64 else s32 z).
  { unfold u64. destruct (Z.ltb_spec (s32 z) 0).
    - rewrite <-(Z.mod_add _ 1) by lia. apply Z.mod_small. lia.
    - apply Z.mod_small. lia. }
  simpl andb. rewrite Hu. change (10 ^ 16) with 10000000000000000. change (16 ^ 16) with (2 ^ 64).
  destruct (Z.ltb_spec (s32 z) 0); simpl; change (10 ^ 15) with 1000000000000000; change (10 ^ 16) with 10000000000000000; lia.
Qed.
