(* ===== verification/Proc.v ===== *)
(** Processes: the process table of kernel/proc.c and kernel/proc.h, with the
    operations that touch only the table, the page allocator and the locks.
    Operations that also use files or inodes ([fork], [exit], [userinit]) are
    built on top of these. *)

From Stdlib Require Import ZArith Lia List String Bool.
From stdpp Require Import base tactics numbers list functions sets.
From S2P Require Import Prelude.
From S2P Require Import Spinlock.
From S2P Require Import Cstring.
From S2P Require Import Kalloc.
From S2P Require Import Vm.
From S2P Require Import Printf.

(** * Data *)

Inductive procstate := UNUSED | USED | SLEEPING | RUNNABLE | RUNNING | ZOMBIE.

#[export] Instance procstate_eq_dec : EqDecision procstate.
Proof. solve_decision. Defined.

(** The enumeration's numeric value. *)
Definition state_num (st : procstate) : Z :=
  match st with
  | UNUSED => 0 | USED => 1 | SLEEPING => 2 | RUNNABLE => 3 | RUNNING => 4 | ZOMBIE => 5
  end.

Definition state_eqb (a b : procstate) : bool := state_num a =? state_num b.

(** The objects whose addresses processes sleep on; [ch_null] is 0. *)
Inductive chan : Type :=
| ch_null
| ch_proc (i : nat)
| ch_ticks
| ch_pipe_nread (pi : Z)
| ch_pipe_nwrite (pi : Z)
| ch_log
| ch_buf (b : nat)
| ch_buf_lock (b : nat)
| ch_inode_lock (i : nat)
| ch_cons_r
| ch_uart_tx_r
| ch_disk_free.

#[export] Instance chan_eq_dec : EqDecision chan.
Proof. solve_decision. Defined.

(** A [struct proc *] used as a channel. *)
Definition ch_ptr (p : option nat) : chan :=
  match p with Some i => ch_proc i | None => ch_null end.

Record context := mkContext { ctx_ra : Z; ctx_sp : Z; ctx_s : list Z }.

Definition NOFILE : nat := 16.

(** [struct proc]; its lock is [proc_lock i] in the lock table.  The
    trapframe is a page of physical memory, kept by address. *)
Record proc := mkProc {
  p_state : procstate;
  p_chan : chan;
  p_killed : Z;
  p_xstate : Z;
  p_pid : Z;
  p_parent : option nat;
  p_kstack : Z;
  p_sz : Z;
  p_pagetable : Z;
  p_trapframe : Z;
  p_context : context;
  p_ofile : list (option nat);
  p_cwd : option nat;
  p_name : list Z;
  p_creation_time : Z;
  p_run_time : Z;
  p_priority : Z;
  p_last_runnable_time : Z;
  p_total_waiting_time : Z
}.

(** Byte offsets in [struct trapframe]. *)
Definition TF_kernel_satp : Z := 0.
Definition TF_kernel_sp : Z := 8.
Definition TF_kernel_trap : Z := 16.
Definition TF_epc : Z := 24.
Definition TF_kernel_hartid : Z := 32.
Definition TF_sp : Z := 48.
Definition TF_a0 : Z := 112.
Definition TF_a1 : Z := 120.
Definition TF_a2 : Z := 128.
Definition TF_a3 : Z := 136.
Definition TF_a4 : Z := 144.
Definition TF_a5 : Z := 152.
Definition TF_a7 : Z := 168.
(** sizeof(struct trapframe) *)
Definition TF_SIZE : Z := 288.

Definition SCHED_ROUND_ROBIN : Z := 0.
Definition SCHED_FCFS : Z := 1.
Definition SCHED_PRIORITY : Z := 2.

(** The global variables of proc.c, trap.c and printf.c. *)
Record pst := mkPst {
  ps_kmem : kmem;
  ps_procs : nat -> proc;
  ps_initproc : option nat;
  ps_nextpid : Z;
  ps_ticks : Z;
  ps_sched_mode : Z;
  ps_turnaround : Z;        (* total_turnaround_time *)
  ps_waiting : Z;           (* total_waiting_time_sum *)
  ps_finished : Z;          (* finished_processes *)
  ps_locking : bool;        (* pr.locking *)
  ps_panicked : bool;
  ps_uart_out : list Z      (* bytes written to the UART's THR, oldest first *)
}.

(** Assignments to the fields. *)
Definition set_p_state (v : procstate) (r : proc) : proc :=
  mkProc v (p_chan r) (p_killed r) (p_xstate r) (p_pid r) (p_parent r)
  (p_kstack r) (p_sz r) (p_pagetable r) (p_trapframe r) (p_context r)
  (p_ofile r) (p_cwd r) (p_name r) (p_creation_time r) (p_run_time r)
  (p_priority r) (p_last_runnable_time r) (p_total_waiting_time r).
Definition set_p_chan (v : chan) (r : proc) : proc :=
  mkProc (p_state r) v (p_killed r) (p_xstate r) (p_pid r) (p_parent r)
  (p_kstack r) (p_sz r) (p_pagetable r) (p_trapframe r) (p_context r)
  (p_ofile r) (p_cwd r) (p_name r) (p_creation_time r) (p_run_time r)
  (p_priority r) (p_last_runnable_time r) (p_total_waiting_time r).
Definition set_p_killed (v : Z) (r : proc) : proc :=
  mkProc (p_state r) (p_chan r) v (p_xstate r) (p_pid r) (p_parent r)
  (p_kstack r) (p_sz r) (p_pagetable r) (p_trapframe r) (p_context r)
  (p_ofile r) (p_cwd r) (p_name r) (p_creation_time r) (p_run_time r)
  (p_priority r) (p_last_runnable_time r) (p_total_waiting_time r).
Definition set_p_xstate (v : Z) (r : proc) : proc :=
  mkProc (p_state r) (p_chan r) (p_killed r) v (p_pid r) (p_parent r)
  (p_kstack r) (p_sz r) (p_pagetable r) (p_trapframe r) (p_context r)
  (p_ofile r) (p_cwd r) (p_name r) (p_creation_time r) (p_run_time r)
  (p_priority r) (p_last_runnable_time r) (p_total_waiting_time r).
Definition set_p_pid (v : Z) (r : proc) : proc :=
  mkProc (p_state r) (p_chan r) (p_killed r) (p_xstate r) v (p_parent r)
  (p_kstack r) (p_sz r) (p_pagetable r) (p_trapframe r) (p_context r)
  (p_ofile r) (p_cwd r) (p_name r) (p_creation_time r) (p_run_time r)
  (p_priority r) (p_last_runnable_time r) (p_total_waiting_time r).
Definition set_p_parent (v : option nat) (r : proc) : proc :=
  mkProc (p_state r) (p_chan r) (p_killed r) (p_xstate r) (p_pid r) v
  (p_kstack r) (p_sz r) (p_pagetable r) (p_trapframe r) (p_context r)
  (p_ofile r) (p_cwd r) (p_name r) (p_creation_time r) (p_run_time r)
  (p_priority r) (p_last_runnable_time r) (p_total_waiting_time r).
Definition set_p_kstack (v : Z) (r : proc) : proc :=
  mkProc (p_state r) (p_chan r) (p_killed r) (p_xstate r) (p_pid r)
  (p_parent r) v (p_sz r) (p_pagetable r) (p_trapframe r) (p_context r)
  (p_ofile r) (p_cwd r) (p_name r) (p_creation_time r) (p_run_time r)
  (p_priority r) (p_last_runnable_time r) (p_total_waiting_time r).
Definition set_p_sz (v : Z) (r : proc) : proc :=
  mkProc (p_state r) (p_chan r) (p_killed r) (p_xstate r) (p_pid r)
  (p_parent r) (p_kstack r) v (p_pagetable r) (p_trapframe r) (p_context r)
  (p_ofile r) (p_cwd r) (p_name r) (p_creation_time r) (p_run_time r)
  (p_priority r) (p_last_runnable_time r) (p_total_waiting_time r).
Definition set_p_pagetable (v : Z) (r : proc) : proc :=
  mkProc (p_state r) (p_chan r) (p_killed r) (p_xstate r) (p_pid r)
  (p_parent r) (p_kstack r) (p_sz r) v (p_trapframe r) (p_context r)
  (p_ofile r) (p_cwd r) (p_name r) (p_creation_time r) (p_run_time r)
  (p_priority r) (p_last_runnable_time r) (p_total_waiting_time r).
Definition set_p_trapframe (v : Z) (r : proc) : proc :=
  mkProc (p_state r) (p_chan r) (p_killed r) (p_xstate r) (p_pid r)
  (p_parent r) (p_kstack r) (p_sz r) (p_pagetable r) v (p_context r)
  (p_ofile r) (p_cwd r) (p_name r) (p_creation_time r) (p_run_time r)
  (p_priority r) (p_last_runnable_time r) (p_total_waiting_time r).
Definition set_p_context (v : context) (r : proc) : proc :=
  mkProc (p_state r) (p_chan r) (p_killed r) (p_xstate r) (p_pid r)
  (p_parent r) (p_kstack r) (p_sz r) (p_pagetable r) (p_trapframe r) v
  (p_ofile r) (p_cwd r) (p_name r) (p_creation_time r) (p_run_time r)
  (p_priority r) (p_last_runnable_time r) (p_total_waiting_time r).
Definition set_p_ofile (v : list (option nat)) (r : proc) : proc :=
  mkProc (p_state r) (p_chan r) (p_killed r) (p_xstate r) (p_pid r)
  (p_parent r) (p_kstack r) (p_sz r) (p_pagetable r) (p_trapframe r)
  (p_context r) v (p_cwd r) (p_name r) (p_creation_time r) (p_run_time r)
  (p_priority r) (p_last_runnable_time r) (p_total_waiting_time r).
Definition set_p_cwd (v : option nat) (r : proc) : proc :=
  mkProc (p_state r) (p_chan r) (p_killed r) (p_xstate r) (p_pid r)
  (p_parent r) (p_kstack r) (p_sz r) (p_pagetable r) (p_trapframe r)
  (p_context r) (p_ofile r) v (p_name r) (p_creation_time r) (p_run_time r)
  (p_priority r) (p_last_runnable_time r) (p_total_waiting_time r).
Definition set_p_name (v : list Z) (r : proc) : proc :=
  mkProc (p_state r) (p_chan r) (p_killed r) (p_xstate r) (p_pid r)
  (p_parent r) (p_kstack r) (p_sz r) (p_pagetable r) (p_trapframe r)
  (p_context r) (p_ofile r) (p_cwd r) v (p_creation_time r) (p_run_time r)
  (p_priority r) (p_last_runnable_time r) (p_total_waiting_time r).
Definition set_p_creation_time (v : Z) (r : proc) : proc :=
  mkProc (p_state r) (p_chan r) (p_killed r) (p_xstate r) (p_pid r)
  (p_parent r) (p_kstack r) (p_sz r) (p_pagetable r) (p_trapframe r)
  (p_context r) (p_ofile r) (p_cwd r) (p_name r) v (p_run_time r)
  (p_priority r) (p_last_runnable_time r) (p_total_waiting_time r).
Definition set_p_run_time (v : Z) (r : proc) : proc :=
  mkProc (p_state r) (p_chan r) (p_killed r) (p_xstate r) (p_pid r)
  (p_parent r) (p_kstack r) (p_sz r) (p_pagetable r) (p_trapframe r)
  (p_context r) (p_ofile r) (p_cwd r) (p_name r) (p_creation_time r) v
  (p_priority r) (p_last_runnable_time r) (p_total_waiting_time r).
Definition set_p_priority (v : Z) (r : proc) : proc :=
  mkProc (p_state r) (p_chan r) (p_killed r) (p_xstate r) (p_pid r)
  (p_parent r) (p_kstack r) (p_sz r) (p_pagetable r) (p_trapframe r)
  (p_context r) (p_ofile r) (p_cwd r) (p_name r) (p_creation_time r)
  (p_run_time r) v (p_last_runnable_time r) (p_total_waiting_time r).
Definition set_p_last_runnable_time (v : Z) (r : proc) : proc :=
  mkProc (p_state r) (p_chan r) (p_killed r) (p_xstate r) (p_pid r)
  (p_parent r) (p_kstack r) (p_sz r) (p_pagetable r) (p_trapframe r)
  (p_context r) (p_ofile r) (p_cwd r) (p_name r) (p_creation_time r)
  (p_run_time r) (p_priority r) v (p_total_waiting_time r).
Definition set_p_total_waiting_time (v : Z) (r : proc) : proc :=
  mkProc (p_state r) (p_chan r) (p_killed r) (p_xstate r) (p_pid r)
  (p_parent r) (p_kstack r) (p_sz r) (p_pagetable r) (p_trapframe r)
  (p_context r) (p_ofile r) (p_cwd r) (p_name r) (p_creation_time r)
  (p_run_time r) (p_priority r) (p_last_runnable_time r) v.
Definition set_ps_kmem (v : kmem) (r : pst) : pst :=
  mkPst v (ps_procs r) (ps_initproc r) (ps_nextpid r) (ps_ticks r)
  (ps_sched_mode r) (ps_turnaround r) (ps_waiting r) (ps_finished r)
  (ps_locking r) (ps_panicked r) (ps_uart_out r).
Definition set_ps_procs (v : nat -> proc) (r : pst) : pst :=
  mkPst (ps_kmem r) v (ps_initproc r) (ps_nextpid r) (ps_ticks r)
  (ps_sched_mode r) (ps_turnaround r) (ps_waiting r) (ps_finished r)
  (ps_locking r) (ps_panicked r) (ps_uart_out r).
Definition set_ps_initproc (v : option nat) (r : pst) : pst :=
  mkPst (ps_kmem r) (ps_procs r) v (ps_nextpid r) (ps_ticks r)
  (ps_sched_mode r) (ps_turnaround r) (ps_waiting r) (ps_finished r)
  (ps_locking r) (ps_panicked r) (ps_uart_out r).
Definition set_ps_nextpid (v : Z) (r : pst) : pst :=
  mkPst (ps_kmem r) (ps_procs r) (ps_initproc r) v (ps_ticks r)
  (ps_sched_mode r) (ps_turnaround r) (ps_waiting r) (ps_finished r)
  (ps_locking r) (ps_panicked r) (ps_uart_out r).
Definition set_ps_ticks (v : Z) (r : pst) : pst :=
  mkPst (ps_kmem r) (ps_procs r) (ps_initproc r) (ps_nextpid r) v
  (ps_sched_mode r) (ps_turnaround r) (ps_waiting r) (ps_finished r)
  (ps_locking r) (ps_panicked r) (ps_uart_out r).
Definition set_ps_sched_mode (v : Z) (r : pst) : pst :=
  mkPst (ps_kmem r) (ps_procs r) (ps_initproc r) (ps_nextpid r) (ps_ticks r) v
  (ps_turnaround r) (ps_waiting r) (ps_finished r) (ps_locking r)
  (ps_panicked r) (ps_uart_out r).
Definition set_ps_turnaround (v : Z) (r : pst) : pst :=
  mkPst (ps_kmem r) (ps_procs r) (ps_initproc r) (ps_nextpid r) (ps_ticks r)
  (ps_sched_mode r) v (ps_waiting r) (ps_finished r) (ps_locking r)
  (ps_panicked r) (ps_uart_out r).
Definition set_ps_waiting (v : Z) (r : pst) : pst :=
  mkPst (ps_kmem r) (ps_procs r) (ps_initproc r) (ps_nextpid r) (ps_ticks r)
  (ps_sched_mode r) (ps_turnaround r) v (ps_finished r) (ps_locking r)
  (ps_panicked r) (ps_uart_out r).
Definition set_ps_finished (v : Z) (r : pst) : pst :=
  mkPst (ps_kmem r) (ps_procs r) (ps_initproc r) (ps_nextpid r) (ps_ticks r)
  (ps_sched_mode r) (ps_turnaround r) (ps_waiting r) v (ps_locking r)
  (ps_panicked r) (ps_uart_out r).
Definition set_ps_locking (v : bool) (r : pst) : pst :=
  mkPst (ps_kmem r) (ps_procs r) (ps_initproc r) (ps_nextpid r) (ps_ticks r)
  (ps_sched_mode r) (ps_turnaround r) (ps_waiting r) (ps_finished r) v
  (ps_panicked r) (ps_uart_out r).
Definition set_ps_panicked (v : bool) (r : pst) : pst :=
  mkPst (ps_kmem r) (ps_procs r) (ps_initproc r) (ps_nextpid r) (ps_ticks r)
  (ps_sched_mode r) (ps_turnaround r) (ps_waiting r) (ps_finished r)
  (ps_locking r) v (ps_uart_out r).
Definition set_ps_uart_out (v : list Z) (r : pst) : pst :=
  mkPst (ps_kmem r) (ps_procs r) (ps_initproc r) (ps_nextpid r) (ps_ticks r)
  (ps_sched_mode r) (ps_turnaround r) (ps_waiting r) (ps_finished r)
  (ps_locking r) (ps_panicked r) v.

#[export] Instance pst_kmem : Lens pst kmem.
Proof.
  refine {| view := ps_kmem; put := set_ps_kmem |}; by try intros ? []; try intros [].
Defined.

#[export] Instance pst_mach : Lens pst mach.
Proof.
  refine {| view := fun s => km_mach (ps_kmem s);
            put := fun m s => set_ps_kmem (mkKmem m (km_mem (ps_kmem s)) (km_freelist (ps_kmem s))) s |};
    by try intros ? [[]]; try intros [[]].
Defined.

(** * Accessors *)

Definition getp (i : nat) : M pst proc := gets (fun s => ps_procs s i).
Definition updp (i : nat) (f : proc -> proc) : M pst unit :=
  modify (fun s => set_ps_procs (<[i := f (ps_procs s i)]> (ps_procs s)) s).

Definition lock (l : lockid) : M pst unit := zoom (acquire l).
Definition unlock (l : lockid) : M pst unit := zoom (release l).

(** [myproc()]: the pointer itself, and the process for code that uses it
    without a null check. *)
Definition myproc : M pst (option nat) :=
  zoom (push_off ;;; c <- mycpu ;; pop_off ;;; ret (c_proc c)).
Definition myproc_ref : M pst nat :=
  o <- myproc ;; match o with Some p => ret p | None => undef end.

(** Loads and stores of trapframe fields. *)
Definition tf_get (i : nat) (off : Z) : M pst Z :=
  p <- getp i ;; zoom (ld64 (p_trapframe p + off)).
Definition tf_set (i : nat) (off v : Z) : M pst unit :=
  p <- getp i ;; zoom (st64 (p_trapframe p + off) v).

(** [safestrcpy] on kernel buffers given by their bytes, run by the memory
    version on a scratch memory. *)
Definition safestrcpy_bytes (dst src : list Z) (n : Z) : list Z :=
  load_bytes (length dst) 0
    (safestrcpy 0 4096 n (store_bytes 0 dst (store_bytes 4096 src (fun _ => 0)))).

(** Console output: [uartputc_sync], [consputc] and [printf]. *)
Definition BACKSPACE : Z := 0x100.

Definition uartputc_sync (c : Z) : M pst unit :=
  zoom push_off ;;;
  s <- get ;;
  if ps_panicked s then spin else
  modify (fun s => set_ps_uart_out (ps_uart_out s ++ [u8 c]) s) ;;;
  zoom pop_off.

Definition consputc (c : Z) : M pst unit :=
  if c =? BACKSPACE
  then uartputc_sync 8 ;;; uartputc_sync 32 ;;; uartputc_sync 8
  else uartputc_sync c.

Definition printf (fmt : string) (args : list arg) : M pst unit :=
  locking <- gets ps_locking ;;
  when locking (lock pr_lock) ;;;
  match format (str fmt) args with
  | None => undef
  | Some bs => for_each bs consputc
  end ;;;
  when locking (unlock pr_lock).

(** * The process table *)

Section proc.
Context {img : Image}.

Definition procinit : M pst unit :=
  zoom (initlock pid_lock "nextpid") ;;;
  zoom (initlock wait_lock "wait_lock") ;;;
  for_each (seq 0 NPROC) (fun p =>
    zoom (initlock (proc_lock p) "proc") ;;;
    updp p (set_p_state UNUSED) ;;;
    updp p (set_p_kstack (KSTACK (Z.of_nat p)))).

Definition allocpid : M pst Z :=
  lock pid_lock ;;;
  pid <- gets ps_nextpid ;;
  modify (set_ps_nextpid (s32 (pid + 1))) ;;;
  unlock pid_lock ;;;
  ret pid.

Definition proc_pagetable (p : nat) : M pst Z :=
  pagetable <- zoom uvmcreate ;;
  if pagetable =? 0 then ret 0 else
  r <- zoom (mappages pagetable TRAMPOLINE PGSIZE trampoline (Z.lor PTE_R PTE_X)) ;;
  if r <? 0 then zoom (uvmfree pagetable 0) ;;; ret 0 else
  pr <- getp p ;;
  r <- zoom (mappages pagetable TRAPFRAME PGSIZE (p_trapframe pr) (Z.lor PTE_R PTE_W)) ;;
  if r <? 0
  then zoom (uvmunmap pagetable TRAMPOLINE 1 false) ;;;
       zoom (uvmfree pagetable 0) ;;; ret 0
  else ret pagetable.

Definition proc_freepagetable (pagetable sz : Z) : M pst unit :=
  zoom (uvmunmap pagetable TRAMPOLINE 1 false) ;;;
  zoom (uvmunmap pagetable TRAPFRAME 1 false) ;;;
  zoom (uvmfree pagetable sz).

Definition freeproc (p : nat) : M pst unit :=
  pr <- getp p ;;
  when (negb (p_trapframe pr =? 0)) (zoom (kfree (p_trapframe pr))) ;;;
  updp p (set_p_trapframe 0) ;;;
  when (negb (p_pagetable pr =? 0)) (proc_freepagetable (p_pagetable pr) (p_sz pr)) ;;;
  updp p (set_p_pagetable 0) ;;;
  updp p (set_p_sz 0) ;;;
  updp p (set_p_pid 0) ;;;
  updp p (set_p_parent None) ;;;
  updp p (fun pr => set_p_name (<[0%nat := 0]> (p_name pr)) pr) ;;;
  updp p (set_p_chan ch_null) ;;;
  updp p (set_p_killed 0) ;;;
  updp p (set_p_xstate 0) ;;;
  updp p (set_p_state UNUSED) ;;;
  ticks <- gets ps_ticks ;;
  updp p (set_p_creation_time ticks) ;;;
  updp p (set_p_run_time 0).

Definition allocproc : M pst (option nat) :=
  found <- for_find (seq 0 NPROC) (fun p =>
    lock (proc_lock p) ;;;
    pr <- getp p ;;
    if state_eqb (p_state pr) UNUSED then ret (Some p)
    else unlock (proc_lock p) ;;; ret None) ;;
  match found with
  | None => ret None
  | Some p =>
      pid <- allocpid ;;
      updp p (set_p_pid pid) ;;;
      updp p (set_p_state USED) ;;;
      tf <- zoom kalloc ;;
      updp p (set_p_trapframe tf) ;;;
      if tf =? 0 then freeproc p ;;; unlock (proc_lock p) ;;; ret None else
      pt <- proc_pagetable p ;;
      updp p (set_p_pagetable pt) ;;;
      if pt =? 0 then freeproc p ;;; unlock (proc_lock p) ;;; ret None else
      pr <- getp p ;;
      updp p (set_p_context
        (mkContext forkret_addr (u64 (p_kstack pr + PGSIZE)) (replicate 12 0))) ;;;
      ticks <- gets ps_ticks ;;
      updp p (set_p_creation_time ticks) ;;;
      updp p (set_p_run_time 0) ;;;
      updp p (set_p_priority 10) ;;;
      updp p (set_p_total_waiting_time 0) ;;;
      updp p (set_p_last_runnable_time 0) ;;;
      ret (Some p)
  end.

Definition growproc (n : Z) : M pst Z :=
  p <- myproc_ref ;;
  pr <- getp p ;;
  let sz := p_sz pr in
  if 0 <? n then
    sz' <- zoom (uvmalloc (p_pagetable pr) sz (u64 (sz + n)) PTE_W) ;;
    if sz' =? 0 then ret (-1) else
    updp p (set_p_sz sz') ;;; ret 0
  else if n <? 0 then
    sz' <- zoom (uvmdealloc (p_pagetable pr) sz (u64 (sz + n))) ;;
    updp p (set_p_sz sz') ;;; ret 0
  else updp p (set_p_sz sz) ;;; ret 0.

(** * Sleeping and waking, killing *)

Definition wakeup (ch : chan) : M pst unit :=
  for_each (seq 0 NPROC) (fun p =>
    me <- myproc ;;
    when (negb (bool_decide (me = Some p)))
      (lock (proc_lock p) ;;;
       pr <- getp p ;;
       when (state_eqb (p_state pr) SLEEPING && bool_decide (p_chan pr = ch))
         (updp p (set_p_state RUNNABLE) ;;;
          ticks <- gets ps_ticks ;;
          updp p (set_p_last_runnable_time ticks)) ;;;
       unlock (proc_lock p))).

Definition reparent (p : nat) : M pst unit :=
  for_each (seq 0 NPROC) (fun pp =>
    pr <- getp pp ;;
    when (bool_decide (p_parent pr = Some p))
      (init <- gets ps_initproc ;;
       updp pp (set_p_parent init) ;;;
       wakeup (ch_ptr init))).

Definition kill (pid : Z) : M pst Z :=
  r <- for_find (seq 0 NPROC) (fun p =>
    lock (proc_lock p) ;;;
    pr <- getp p ;;
    if p_pid pr =? pid then
      updp p (set_p_killed 1) ;;;
      pr <- getp p ;;
      when (state_eqb (p_state pr) SLEEPING)
        (updp p (set_p_state RUNNABLE) ;;;
         ticks <- gets ps_ticks ;;
         updp p (set_p_last_runnable_time ticks)) ;;;
      unlock (proc_lock p) ;;;
      ret (Some 0)
    else unlock (proc_lock p) ;;; ret None) ;;
  ret (default (-1) r).

Definition setkilled (p : nat) : M pst unit :=
  lock (proc_lock p) ;;;
  updp p (set_p_killed 1) ;;;
  unlock (proc_lock p).

Definition killed (p : nat) : M pst Z :=
  lock (proc_lock p) ;;;
  pr <- getp p ;;
  unlock (proc_lock p) ;;;
  ret (p_killed pr).

(** * Accounting *)

Definition update_time : M pst unit :=
  for_each (seq 0 NPROC) (fun p =>
    lock (proc_lock p) ;;;
    pr <- getp p ;;
    when (state_eqb (p_state pr) RUNNING)
      (updp p (set_p_run_time (u32 (p_run_time pr + 1)))) ;;;
    unlock (proc_lock p)).

Definition populate_metrics : M pst (Z * Z * Z) :=
  lock metrics_lock ;;;
  s <- get ;;
  unlock metrics_lock ;;;
  ret (ps_turnaround s, ps_waiting s, ps_finished s).

(** The first lines of [exit]: account for the process that is finishing. *)
Definition exit_metrics (p : nat) : M pst unit :=
  lock metrics_lock ;;;
  s <- get ;;
  let pr := ps_procs s p in
  modify (fun s => set_ps_turnaround
    (u64 (ps_turnaround s + u32 (ps_ticks s - p_creation_time pr))) s) ;;;
  modify (fun s => set_ps_waiting (u64 (ps_waiting s + p_total_waiting_time pr)) s) ;;;
  modify (fun s => set_ps_finished (u64 (ps_finished s + 1)) s) ;;;
  unlock metrics_lock.

(** * Copying to and from the current process *)

(** The destination or source of a transfer is a user address or a kernel one. *)
Definition either_copyout (user_dst : bool) (dst : Z) (src : list Z) : M pst Z :=
  p <- myproc_ref ;;
  if user_dst
  then pr <- getp p ;; zoom (copyout (p_pagetable pr) dst src)
  else zoom (upd_mem (store_bytes dst src)) ;;; ret 0.

Definition either_copyin (user_src : bool) (src len : Z) : M pst (option (list Z)) :=
  p <- myproc_ref ;;
  if user_src
  then pr <- getp p ;; zoom (copyin (p_pagetable pr) src len)
  else bs <- zoom (gets (fun s => load_bytes (Z.to_nat len) src (km_mem s))) ;;
       ret (Some bs).

(** * The process listing of ^P *)

Definition state_name (st : procstate) : string :=
  match st with
  | UNUSED => "unused" | USED => "used" | SLEEPING => "sleep "
  | RUNNABLE => "runble" | RUNNING => "run   " | ZOMBIE => "zombie"
  end.

(** A C string held in a byte array: the bytes before the first NUL. *)
Fixpoint until_nul (l : list Z) : list Z :=
  match l with
  | [] => []
  | c :: l' => if c =? 0 then [] else c :: until_nul l'
  end.

Definition newline : string := String (Ascii.ascii_of_nat 10) EmptyString.
Definition tab : string := String (Ascii.ascii_of_nat 9) EmptyString.

Definition procdump : M pst unit :=
  printf newline [] ;;;
  for_each (seq 0 NPROC) (fun p =>
    pr <- getp p ;;
    if state_eqb (p_state pr) UNUSED then ret tt else
    printf "%d %s %s" [ArgInt (p_pid pr); ArgStr (Some (str (state_name (p_state pr))));
                       ArgStr (Some (until_nul (p_name pr)))] ;;;
    printf newline []).

End proc.

(** * Lemmas on the process state *)

Definition pmach (s : pst) : mach := km_mach (ps_kmem s).
Definition set_pmach (m : mach) (s : pst) : pst :=
  set_ps_kmem (mkKmem m (km_mem (ps_kmem s)) (km_freelist (ps_kmem s))) s.

(** Nobody holds the lock of a process. *)
Definition table_unlocked (m : mach) : Prop :=
  forall i, (i < NPROC)%nat -> lock_free m (proc_lock i).

Lemma lock_eq l s :
  noff_ok (pmach s) -> lock_free (pmach s) l ->
  lock l s = Ok tt (set_pmach (acquired l (pmach s)) s).
Proof. intros Hn Hl. unfold lock. by rewrite (zoom_Ok _ s _ _ (acquire_ok l (pmach s) Hn Hl)). Qed.

Lemma unlock_eq l s m :
  noff_ok m -> lock_free m l -> pmach s = acquired l m ->
  unlock l s = Ok tt (set_pmach (tidy m) s).
Proof.
  intros Hn Hl E. unfold unlock. erewrite zoom_Ok; [done|].
  change (view s) with (pmach s). rewrite E. by apply release_acquired.
Qed.

Lemma set_pmach_set m m' s : set_pmach m (set_pmach m' s) = set_pmach m s.
Proof. done. Qed.
Lemma set_pmach_id s : set_pmach (pmach s) s = s.
Proof. by destruct s as [[]]. Qed.
Lemma set_procs_id s : set_ps_procs (ps_procs s) s = s.
Proof. by destruct s. Qed.

Lemma myproc_eq s :
  noff_ok (pmach s) ->
  myproc s = Ok (c_proc (this_cpu (pmach s))) (set_pmach (tidy (pmach s)) s).
Proof.
  intros Hn. unfold myproc. erewrite zoom_Ok; [done|]. change (view s) with (pmach s).
  rewrite (bind_Ok _ _ _ _ _ (push_off_ok _ Hn)). unfold mycpu, cpuid. mrun.
  rewrite (Nesting.pop_pushed (pmach s)) by done. by rewrite fn_lookup_insert.
Qed.

Lemma tidy_c_proc m : c_proc (this_cpu (tidy m)) = c_proc (this_cpu m).
Proof. by rewrite tidy_this_cpu. Qed.

Lemma table_unlocked_tidy m : table_unlocked m -> table_unlocked (tidy m).
Proof. intros Ht i Hi. by apply lock_free_tidy, Ht. Qed.

(** Rewrite the slots of [l] one after the other with [g]. *)
Fixpoint sweep (g : nat -> proc -> proc) (l : list nat) (f : nat -> proc) : nat -> proc :=
  match l with
  | [] => f
  | i :: l' => sweep g l' (<[i := g i (f i)]> f)
  end.

Lemma sweep_out g l f j : j ∉ l -> sweep g l f j = f j.
Proof.
  revert f. induction l as [|i l IH]; intros f Hj; simpl; [done|].
  apply not_elem_of_cons in Hj as [? ?]. rewrite IH by done. by apply fn_lookup_insert_ne.
Qed.

Lemma sweep_in g l f j : NoDup l -> j ∈ l -> sweep g l f j = g j (f j).
Proof.
  revert f. induction l as [|i l IH]; intros f Hnd Hj; simpl; [by apply not_elem_of_nil in Hj|].
  apply NoDup_cons in Hnd as [Hni Hnd]. apply elem_of_cons in Hj as [->|Hj].
  - rewrite sweep_out by done. apply fn_lookup_insert.
  - rewrite IH by done. rewrite fn_lookup_insert_ne; [done|]. by intros ->.
Qed.

(** A loop over the table whose iteration for slot [i], run with the machine
    of the start or its tidied version, rewrites slot [i] with [g i] and
    leaves the machine tidied. *)
Lemma table_sweep (body : nat -> M pst unit) (g : nat -> proc -> proc) (s : pst) (l : list nat) f m :
  (m = pmach s \/ m = tidy (pmach s)) ->
  (forall i f m, i ∈ l -> m = pmach s \/ m = tidy (pmach s) ->
     body i (set_pmach m (set_ps_procs f s)) =
     Ok tt (set_pmach (tidy (pmach s)) (set_ps_procs (<[i := g i (f i)]> f) s))) ->
  for_each l body (set_pmach m (set_ps_procs f s)) =
  Ok tt (set_pmach (match l with [] => m | _ => tidy (pmach s) end)
    (set_ps_procs (sweep g l f) s)).
Proof.
  revert f m. induction l as [|i l IH]; intros f m Hm Hb; simpl; [done|].
  rewrite (bind_Ok _ _ _ _ _ (Hb i f m ltac:(by left) Hm)).
  rewrite IH; [by destruct l|by right|].
  intros j f' m' Hj. apply Hb. by right.
Qed.

(** The whole table. *)
Lemma table_sweep_all (body : nat -> M pst unit) (g : nat -> proc -> proc) (s : pst) :
  (forall i f m, (i < NPROC)%nat -> m = pmach s \/ m = tidy (pmach s) ->
     body i (set_pmach m (set_ps_procs f s)) =
     Ok tt (set_pmach (tidy (pmach s)) (set_ps_procs (<[i := g i (f i)]> f) s))) ->
  exists f, for_each (seq 0 NPROC) body s = Ok tt (set_pmach (tidy (pmach s)) (set_ps_procs f s)) /\
    forall j, f j = if decide (j < NPROC)%nat then g j (ps_procs s j) else ps_procs s j.
Proof.
  intros Hb. exists (sweep g (seq 0 NPROC) (ps_procs s)). split.
  - rewrite <-(set_pmach_id s) at 1. rewrite <-(set_procs_id s) at 2.
    rewrite (table_sweep _ g s); [done|by left|].
    intros i f m Hi. apply Hb. apply elem_of_seq in Hi. lia.
  - intros j. case_decide.
    + apply sweep_in; [apply NoDup_ListNoDup, seq_NoDup|]. apply elem_of_seq. lia.
    + apply sweep_out. rewrite elem_of_seq. lia.
Qed.

(** Entering and leaving a critical section on slot [i] around a change of
    that slot. *)
Lemma slot_section i (c : proc -> bool) (inner : proc -> M pst unit) (h : Z -> proc -> proc) s f m :
  (forall s, inner (ps_procs s i) s =
     Ok tt (set_ps_procs (<[i := h (ps_ticks s) (ps_procs s i)]> (ps_procs s)) s)) ->
  (i < NPROC)%nat -> noff_ok (pmach s) -> table_unlocked (pmach s) ->
  m = pmach s \/ m = tidy (pmach s) ->
  (lock (proc_lock i) ;;;
   pr <- getp i ;;
   when (c pr) (inner pr) ;;;
   unlock (proc_lock i)) (set_pmach m (set_ps_procs f s)) =
  Ok tt (set_pmach (tidy (pmach s))
    (set_ps_procs (<[i := (if c (f i) then h (ps_ticks s) (f i) else f i)]> f) s)).
Proof.
  intros Hin Hi Hn Ht Hm.
  assert (Hn' : noff_ok m) by (destruct Hm as [->| ->]; auto using noff_ok_tidy).
  assert (Hl' : lock_free m (proc_lock i)) by (destruct Hm as [->| ->]; auto using lock_free_tidy).
  assert (Hty : tidy m = tidy (pmach s)) by (destruct Hm as [->| ->]; auto using tidy_idem).
  rewrite (bind_Ok _ _ _ _ _ (lock_eq (proc_lock i) (set_pmach m (set_ps_procs f s)) Hn' Hl')).
  unfold getp, gets, bind at 1. simpl ps_procs. destruct (c (f i)) eqn:E; cbn [when].
  - set (s1 := set_pmach _ _). unfold bind. change (f i) with (ps_procs s1 i). rewrite Hin.
    erewrite (unlock_eq _ _ m); [|done|done|done]. rewrite Hty. done.
  - unfold bind, ret.
    erewrite (unlock_eq _ _ m); [|done|done|done]. rewrite Hty.
    by rewrite fn_insert_id.
Qed.

(** Run the table loop in the goal; [g] is the effect on a slot. *)
Ltac table_loop s g :=
  match goal with
  | |- context [for_each (seq 0 NPROC) ?b s] =>
      destruct (table_sweep_all b g s) as (f & Hr & Hf)
  end.

(** Effect of the operations on one slot. *)
Definition woken (ticks : Z) (pr : proc) : proc :=
  set_p_last_runnable_time ticks (set_p_state RUNNABLE pr).

Definition asleep_on (ch : chan) (pr : proc) : bool :=
  state_eqb (p_state pr) SLEEPING && bool_decide (p_chan pr = ch).

Lemma wakeup_eq ch s :
  noff_ok (pmach s) -> table_unlocked (pmach s) ->
  exists f, wakeup ch s = Ok tt (set_pmach (tidy (pmach s)) (set_ps_procs f s)) /\
  forall j, f j =
    if decide (j < NPROC /\ c_proc (this_cpu (pmach s)) <> Some j)%nat
    then (if asleep_on ch (ps_procs s j) then woken (ps_ticks s) (ps_procs s j) else ps_procs s j)
    else ps_procs s j.
Proof.
  intros Hn Ht. unfold wakeup.
  table_loop s (fun j pr => if decide (c_proc (this_cpu (pmach s)) = Some j) then pr
                            else if asleep_on ch pr then woken (ps_ticks s) pr else pr).
  - intros i f m Hi Hm.
    assert (Hn' : noff_ok m) by (destruct Hm as [->| ->]; auto using noff_ok_tidy).
    assert (Hty : tidy m = tidy (pmach s)) by (destruct Hm as [->| ->]; auto using tidy_idem).
    assert (Hc : c_proc (this_cpu m) = c_proc (this_cpu (pmach s)))
      by (destruct Hm as [->| ->]; auto using tidy_c_proc).
    rewrite (bind_Ok _ _ _ _ _ (myproc_eq (set_pmach m (set_ps_procs f s)) Hn')).
    change (pmach (set_pmach m _)) with m. rewrite Hty, Hc, set_pmach_set.
    case_decide as Hd.
    + rewrite bool_decide_true by done. simpl. unfold ret. by rewrite fn_insert_id.
    + rewrite bool_decide_false by done. cbn [negb when].
      rewrite (slot_section i (asleep_on ch) _ woken s f (tidy (pmach s))); try done; [|by right].
      intros s'. unfold bind, updp, gets, modify; simpl. unfold woken.
      by rewrite fn_lookup_insert, fn_insert_insert.
  - exists f. split; [exact Hr|]. intros j. rewrite Hf. repeat case_decide; naive_solver.
Qed.

(** [wakeup].  Every process other than the caller that sleeps on the
    channel becomes RUNNABLE, stamped with the current tick; no other slot
    and no other variable changes, and every lock taken is released. *)
Theorem wakeup_spec ch s :
  noff_ok (pmach s) -> table_unlocked (pmach s) ->
  exists f, wakeup ch s = Ok tt (set_pmach (tidy (pmach s)) (set_ps_procs f s)) /\
  forall j, f j =
    if decide (j < NPROC /\ c_proc (this_cpu (pmach s)) <> Some j)%nat
    then (if asleep_on ch (ps_procs s j) then woken (ps_ticks s) (ps_procs s j) else ps_procs s j)
    else ps_procs s j.
Proof. apply wakeup_eq. Qed.

(** * Scans of the table for a slot *)

Section table_find.
Context {R : Type} (c : proc -> bool) (act : nat -> proc -> M pst (option R)).

(** The loops of [kill], [setpriority] and [allocproc]: lock each slot in
    turn, act on the first one that satisfies [c], release the others. *)
Definition find_body (p : nat) : M pst (option R) :=
  lock (proc_lock p) ;;;
  pr <- getp p ;;
  if c pr then act p pr else unlock (proc_lock p) ;;; ret None.

Lemma find_body_skip i s :
  (i < NPROC)%nat -> noff_ok (pmach s) -> table_unlocked (pmach s) -> c (ps_procs s i) = false ->
  find_body i s = Ok None (set_pmach (tidy (pmach s)) s).
Proof.
  intros Hi Hn Ht Hc. unfold find_body.
  rewrite (bind_Ok _ _ _ _ _ (lock_eq _ _ Hn (Ht i Hi))).
  unfold getp, gets, bind at 1. change (ps_procs (set_pmach _ s)) with (ps_procs s).
  rewrite Hc. unfold bind, ret.
  by erewrite (unlock_eq _ _ (pmach s)); [| |apply Ht|].
Qed.

Lemma find_none_in l s :
  (forall i, i ∈ l -> (i < NPROC)%nat /\ c (ps_procs s i) = false) ->
  noff_ok (pmach s) -> table_unlocked (pmach s) ->
  for_find l find_body s =
  Ok None (match l with [] => s | _ => set_pmach (tidy (pmach s)) s end).
Proof.
  revert s. induction l as [|i l IH]; intros s Hl Hn Ht; simpl; [done|].
  destruct (Hl i) as [Hi Hc]; [by left|].
  rewrite (bind_Ok _ _ _ _ _ (find_body_skip i s Hi Hn Ht Hc)). rewrite IH.
  - destruct l; [done|]. change (pmach (set_pmach _ s)) with (tidy (pmach s)). by rewrite tidy_idem.
  - intros j Hj. apply Hl. by right.
  - by apply noff_ok_tidy.
  - by apply table_unlocked_tidy.
Qed.

Lemma table_find_none s :
  (forall i, (i < NPROC)%nat -> c (ps_procs s i) = false) ->
  noff_ok (pmach s) -> table_unlocked (pmach s) ->
  for_find (seq 0 NPROC) find_body s = Ok None (set_pmach (tidy (pmach s)) s).
Proof.
  intros Hc Hn Ht. rewrite find_none_in; [done| |done|done].
  intros i Hi%elem_of_seq. split; [lia|]. apply Hc. lia.
Qed.

(** The scan stops at the first slot that satisfies [c], with its lock held. *)
Lemma table_find_first i s :
  (i < NPROC)%nat -> c (ps_procs s i) = true ->
  (forall j, (j < i)%nat -> c (ps_procs s j) = false) ->
  noff_ok (pmach s) -> table_unlocked (pmach s) ->
  for_find (seq 0 NPROC) find_body s =
  (o <- act i (ps_procs s i) ;;
   match o with
   | Some r => ret (Some r)
   | None => for_find (seq (S i) (NPROC - S i)) find_body
   end) (set_pmach (acquired (proc_lock i) (pmach s)) s).
Proof.
  intros Hi Hc Hj Hn Ht.
  replace (seq 0 NPROC) with (seq 0 i ++ i :: seq (S i) (NPROC - S i)).
  2:{ change (i :: seq (S i) (NPROC - S i)) with (seq i (S (NPROC - S i))).
      rewrite <-seq_app. f_equal. lia. }
  erewrite for_find_app.
  2:{ apply find_none_in; [|done|done]. intros j Hin%elem_of_seq. split; [lia|]. apply Hj. lia. }
  set (s1 := match seq 0 i with [] => s | _ => _ end).
  assert (Hs1 : s1 = s \/ s1 = set_pmach (tidy (pmach s)) s)
    by (subst s1; destruct (seq 0 i); auto).
  assert (E : find_body i s1 = act i (ps_procs s i) (set_pmach (acquired (proc_lock i) (pmach s)) s)).
  { unfold find_body.
    assert (Hn1 : noff_ok (pmach s1)) by (destruct Hs1 as [->| ->]; [done|by apply noff_ok_tidy]).
    assert (Hl1 : lock_free (pmach s1) (proc_lock i))
      by (destruct Hs1 as [->| ->]; [by apply Ht|by apply lock_free_tidy, Ht]).
    rewrite (bind_Ok _ _ _ _ _ (lock_eq _ _ Hn1 Hl1)). unfold getp, gets, bind.
    change (ps_procs (set_pmach _ s1)) with (ps_procs s1).
    replace (ps_procs s1) with (ps_procs s) by (by destruct Hs1 as [->| ->]). rewrite Hc.
    destruct Hs1 as [->| ->]; [done|]. rewrite set_pmach_set.
    change (pmach (set_pmach _ _)) with (tidy (pmach s)). by rewrite acquired_tidy. }
  cbn [for_find]. unfold bind at 1 2. by rewrite E.
Qed.

End table_find.

(** Recognise the loop in the goal. *)
Ltac table_search :=
  match goal with
  | |- context [for_find (seq 0 NPROC) ?b] =>
      match b with
      | fun p => bind (lock (proc_lock p))
           (fun _ => bind (getp p) (fun pr => if @?c pr then @?act p pr else @?els p)) =>
          change b with (find_body c act)
      end
  end.

(** The effect of [kill] on its victim. *)
Definition killed_proc (ticks : Z) (pr : proc) : proc :=
  if state_eqb (p_state pr) SLEEPING then woken ticks (set_p_killed 1 pr) else set_p_killed 1 pr.

Lemma kill_eq pid s :
  noff_ok (pmach s) -> table_unlocked (pmach s) ->
  (forall i, (i < NPROC)%nat -> p_pid (ps_procs s i) = pid ->
     (forall j, (j < i)%nat -> p_pid (ps_procs s j) <> pid) ->
     kill pid s = Ok 0 (set_pmach (tidy (pmach s))
       (set_ps_procs (<[i := killed_proc (ps_ticks s) (ps_procs s i)]> (ps_procs s)) s))) /\
  ((forall i, (i < NPROC)%nat -> p_pid (ps_procs s i) <> pid) ->
     kill pid s = Ok (-1) (set_pmach (tidy (pmach s)) s)).
Proof.
  intros Hn Ht. unfold kill. table_search. split.
  - intros i Hi Hp Hj. unfold bind at 1.
    rewrite (table_find_first _ _ i); [|done|by apply Z.eqb_eq| |done|done].
    2:{ intros j ?. by apply Z.eqb_neq, Hj. }
    unfold bind at 1 2, updp at 1, modify. unfold bind at 1, getp at 1, gets.
    simpl ps_procs. rewrite fn_lookup_insert. unfold killed_proc.
    destruct (state_eqb (p_state (ps_procs s i)) SLEEPING) eqn:E; simpl; rewrite E.
    + unfold bind, updp, modify, ret; simpl. rewrite fn_lookup_insert.
      erewrite (unlock_eq _ _ (pmach s)); [|done|by apply Ht|done].
      simpl. by rewrite !fn_lookup_insert, !fn_insert_insert.
    + unfold bind, ret; simpl. by erewrite (unlock_eq _ _ (pmach s)); [|done|apply Ht|done].
  - intros Hp. unfold bind at 1. rewrite table_find_none; [done| |done|done].
    intros i ?. by apply Z.eqb_neq, Hp.
Qed.

(** [kill].  The first slot with the pid is marked killed, and made
    RUNNABLE if it sleeps; nothing else changes.  With no such slot the
    result is -1 and the table is unchanged. *)
Theorem kill_spec pid s :
  noff_ok (pmach s) -> table_unlocked (pmach s) ->
  (forall i, (i < NPROC)%nat -> p_pid (ps_procs s i) = pid ->
     (forall j, (j < i)%nat -> p_pid (ps_procs s j) <> pid) ->
     kill pid s = Ok 0 (set_pmach (tidy (pmach s))
       (set_ps_procs (<[i := killed_proc (ps_ticks s) (ps_procs s i)]> (ps_procs s)) s))) /\
  ((forall i, (i < NPROC)%nat -> p_pid (ps_procs s i) <> pid) ->
     kill pid s = Ok (-1) (set_pmach (tidy (pmach s)) s)).
Proof. apply kill_eq. Qed.

(** * Accounting *)

(** A tick of run time for a running process. *)
Definition ticked (pr : proc) : proc :=
  if state_eqb (p_state pr) RUNNING then set_p_run_time (u32 (p_run_time pr + 1)) pr else pr.

Lemma update_time_eq s :
  noff_ok (pmach s) -> table_unlocked (pmach s) ->
  exists f, update_time s = Ok tt (set_pmach (tidy (pmach s)) (set_ps_procs f s)) /\
  forall j, f j = if decide (j < NPROC)%nat then ticked (ps_procs s j) else ps_procs s j.
Proof.
  intros Hn Ht. unfold update_time. table_loop s (fun (_ : nat) => ticked).
  - intros i f m Hi Hm. unfold ticked.
    by rewrite (slot_section i (fun pr => state_eqb (p_state pr) RUNNING)
      (fun pr => updp i (set_p_run_time (u32 (p_run_time pr + 1))))
      (fun _ pr => set_p_run_time (u32 (p_run_time pr + 1)) pr) s f m).
  - by exists f.
Qed.

(** What [exit] adds to the totals. *)
Definition account (pr : proc) (s : pst) : pst :=
  set_ps_finished (u64 (ps_finished s + 1))
    (set_ps_waiting (u64 (ps_waiting s + p_total_waiting_time pr))
      (set_ps_turnaround (u64 (ps_turnaround s + u32 (ps_ticks s - p_creation_time pr))) s)).

Lemma exit_metrics_eq p s :
  noff_ok (pmach s) -> lock_free (pmach s) metrics_lock ->
  exit_metrics p s = Ok tt (set_pmach (tidy (pmach s)) (account (ps_procs s p) s)).
Proof.
  intros Hn Hl. unfold exit_metrics. rewrite (bind_Ok _ _ _ _ _ (lock_eq _ _ Hn Hl)).
  unfold bind, get, modify. by erewrite (unlock_eq _ _ (pmach s)).
Qed.

(** * A small table *)

Definition proc0 : proc :=
  mkProc UNUSED ch_null 0 0 0 None 0 0 0 0 (mkContext 0 0 (replicate 12 0))
    (replicate NOFILE None) None (replicate 16 0) 0 0 0 0 0.

(** Slot 1 sleeps on the clock, slots 2 and 3 are runnable. *)
Definition procs0 : nat -> proc := fun i =>
  match i with
  | 1%nat => set_p_pid 4 (set_p_state SLEEPING (set_p_chan ch_ticks proc0))
  | 2%nat => set_p_pid 5 (set_p_state RUNNABLE (set_p_priority 3
      (set_p_creation_time 9 (set_p_last_runnable_time 10 proc0))))
  | 3%nat => set_p_pid 6 (set_p_state RUNNABLE (set_p_priority 7
      (set_p_creation_time 8 (set_p_last_runnable_time 11 proc0))))
  | _ => proc0
  end.

(** The process state on machine [m] under scheduling policy [mode]. *)
Definition pst0 (m : mach) (mode : Z) : pst :=
  mkPst (mkKmem m (fun _ => 0) page0) procs0 None 7 12 mode 0 0 0 true false [].

Lemma mach0_table : table_unlocked mach0.
Proof. by split. Qed.

Lemma wakeup_spec_witness :
  exists f, wakeup ch_ticks (pst0 mach0 SCHED_FCFS) =
            Ok tt (set_pmach (tidy mach0) (set_ps_procs f (pst0 mach0 SCHED_FCFS))) /\
            p_state (f 1%nat) = RUNNABLE /\ p_last_runnable_time (f 1%nat) = 12.
Proof.
  destruct (wakeup_spec ch_ticks (pst0 mach0 SCHED_FCFS) mach0_noff_ok mach0_table) as (f & Hr & Hf).
  exists f. split; [exact Hr|]. rewrite Hf, decide_True by (split; [unfold NPROC; lia|done]).
  split; reflexivity.
Defined.

Lemma kill_spec_witness :
  exists s', kill 4 (pst0 mach0 SCHED_FCFS) = Ok 0 s' /\ p_killed (ps_procs s' 1%nat) = 1 /\
  kill 99 (pst0 mach0 SCHED_FCFS) = Ok (-1) (set_pmach (tidy mach0) (pst0 mach0 SCHED_FCFS)).
Proof.
  destruct (kill_spec 4 (pst0 mach0 SCHED_FCFS) mach0_noff_ok mach0_table) as [H1 _].
  destruct (kill_spec 99 (pst0 mach0 SCHED_FCFS) mach0_noff_ok mach0_table) as [_ H2].
  eexists. split; [apply (H1 1%nat)|split].
  - unfold NPROC. lia.
  - reflexivity.
  - intros j Hj. destruct j; [done|lia].
  - reflexivity.
  - apply H2. intros i Hi. by do 4 (destruct i as [|i]; [done|]).
Defined.
