(* ===== verification/Sched.v ===== *)
(** Scheduling: [scheduler], [sched], [yield], [sleep], [wait] and the
    scheduling system calls of kernel/proc.c.

    A context switch leaves the code of this hart's current thread.  The
    interface [Swtch] says what comes back: [swtch_out] is everything that
    happens from [sched]'s [swtch] until the scheduler resumes this process,
    and [swtch_in p] is everything from the scheduler's [swtch] to process [p]
    until [p] gives the CPU back.  Both act on the whole state [S], of which
    the process state is a component.  [swtch_wakeups] bounds how often a loop
    that sleeps is woken; a loop woken more often ends in [Asleep]. *)

From Stdlib Require Import ZArith Lia List String Bool.
From stdpp Require Import base tactics numbers list functions sets.
From S2P Require Import Prelude.
From S2P Require Import Spinlock.
From S2P Require Import Cstring.
From S2P Require Import Kalloc.
From S2P Require Import Vm.
From S2P Require Import Printf.
From S2P Require Import Proc.

Class Swtch (S : Type) := {
  swtch_out : M S unit;
  swtch_in : nat -> M S unit;
  swtch_wakeups : nat
}.

Section sched.
Context {S : Type} `{Lens S pst} `{Swtch S}.
Context {img : Image}.

(** * Giving up the CPU *)

Definition sched : M S unit :=
  p <- zoom myproc_ref ;;
  h <- zoom (zoom (holding (proc_lock p)) : M pst bool) ;;
  if negb h then panic "sched p->lock" else
  c <- zoom (zoom mycpu : M pst cpu) ;;
  if negb (c_noff c =? 1) then panic "sched locks" else
  pr <- zoom (getp p) ;;
  if state_eqb (p_state pr) RUNNING then panic "sched running" else
  ie <- zoom (zoom intr_get : M pst bool) ;;
  if (ie : bool) then panic "sched interruptible" else
  c <- zoom (zoom mycpu : M pst cpu) ;;
  let intena := c_intena c in
  swtch_out ;;;
  zoom (zoom (upd_mycpu (set_intena intena)) : M pst unit).

Definition yield : M S unit :=
  p <- zoom myproc_ref ;;
  zoom (lock (proc_lock p)) ;;;
  mode <- zoom (gets ps_sched_mode) ;;
  if mode =? SCHED_FCFS then zoom (unlock (proc_lock p)) else
  zoom (updp p (set_p_state RUNNABLE)) ;;;
  ticks <- zoom (gets ps_ticks) ;;
  zoom (updp p (set_p_last_runnable_time ticks)) ;;;
  sched ;;;
  zoom (unlock (proc_lock p)).

Definition sleep (ch : chan) (lk : lockid) : M S unit :=
  p <- zoom myproc_ref ;;
  zoom (lock (proc_lock p)) ;;;
  zoom (unlock lk) ;;;
  zoom (updp p (set_p_chan ch)) ;;;
  zoom (updp p (set_p_state SLEEPING)) ;;;
  sched ;;;
  zoom (updp p (set_p_chan ch_null)) ;;;
  zoom (unlock (proc_lock p)) ;;;
  zoom (lock lk).

(** * Choosing a process *)

(** Not called by the scheduler; kept in step with the source. *)
Definition choose_next_process : M pst (option nat) :=
  mode <- gets ps_sched_mode ;;
  if mode =? SCHED_ROUND_ROBIN
  then for_find (seq 0 NPROC) (fun p =>
         pr <- getp p ;;
         if state_eqb (p_state pr) RUNNABLE then ret (Some p) else ret None)
  else ret None.

(** [c->proc = p], for the scheduler's own [c]. *)
Definition set_cpu_proc (c : nat) (p : option nat) : M pst unit :=
  zoom (modify (fun m => set_cpu c (set_c_proc p (m_cpus m c)) m)).

(** The lines common to the three policies, up to the switch: account for the
    waiting time and mark [p] as running on [c]; [p]'s lock is held. *)
Definition start_running (c p : nat) : M pst unit :=
  pr <- getp p ;;
  ticks <- gets ps_ticks ;;
  when (0 <? p_last_runnable_time pr)
    (updp p (set_p_total_waiting_time
       (u32 (p_total_waiting_time pr + u32 (ticks - p_last_runnable_time pr))))) ;;;
  updp p (set_p_state RUNNING) ;;;
  set_cpu_proc c (Some p).

Definition dispatch (c p : nat) : M S unit :=
  zoom (start_running c p) ;;;
  swtch_in p ;;;
  zoom (set_cpu_proc c None).

Definition round_robin (c : nat) : M S unit :=
  for_each (seq 0 NPROC) (fun p =>
    zoom (lock (proc_lock p)) ;;;
    pr <- zoom (getp p) ;;
    when (state_eqb (p_state pr) RUNNABLE) (dispatch c p) ;;;
    zoom (unlock (proc_lock p))).

(** The scan of the table that FCFS and the priority policy share: keep the
    lock of the best candidate so far, release every other one. *)
Definition scan (better : proc -> proc -> bool) : M pst (option nat) :=
  for_fold (seq 0 NPROC) None (fun best p =>
    lock (proc_lock p) ;;;
    pr <- getp p ;;
    if state_eqb (p_state pr) RUNNABLE then
      match best with
      | None => ret (Some p)
      | Some b =>
          br <- getp b ;;
          if better pr br
          then unlock (proc_lock b) ;;; ret (Some p)
          else unlock (proc_lock p) ;;; ret best
      end
    else unlock (proc_lock p) ;;; ret best).

Definition fcfs_better (p b : proc) : bool := p_creation_time p <? p_creation_time b.

Definition priority_better (p b : proc) : bool :=
  (p_priority p <? p_priority b) ||
  ((p_priority p =? p_priority b) && (p_creation_time p <? p_creation_time b)).

Definition run_best (c : nat) (better : proc -> proc -> bool) : M S unit :=
  best <- zoom (scan better) ;;
  match best with
  | None => ret tt
  | Some p => dispatch c p ;;; zoom (unlock (proc_lock p))
  end.

(** One iteration of the scheduler's [for(;;)]. *)
Definition scheduler_round (c : nat) : M S unit :=
  zoom (zoom intr_on : M pst unit) ;;;
  mode <- zoom (gets ps_sched_mode) ;;
  if mode =? SCHED_ROUND_ROBIN then round_robin c
  else if mode =? SCHED_FCFS then run_best c fcfs_better
  else if mode =? SCHED_PRIORITY then run_best c priority_better
  else ret tt.

(** [scheduler], run for [n] iterations of its infinite loop. *)
Definition scheduler (n : nat) : M S unit :=
  c <- zoom (zoom cpuid : M pst nat) ;;
  zoom (set_cpu_proc c None) ;;;
  for_each (seq 0 n) (fun _ => scheduler_round c).

(** * Waiting for children *)

(** The scan of [wait]: [Some r] when [wait] returns [r], and whether the
    process has children. *)
Definition wait_scan (p : nat) (addr : Z) : M pst (bool * option Z) :=
  for_fold (seq 0 NPROC) (false, None) (fun acc pp =>
    match snd acc with
    | Some _ => ret acc
    | None =>
        ppr <- getp pp ;;
        if bool_decide (p_parent ppr = Some p) then
          lock (proc_lock pp) ;;;
          ppr <- getp pp ;;
          if state_eqb (p_state ppr) ZOMBIE then
            let pid := p_pid ppr in
            pr <- getp p ;;
            r <- (if negb (addr =? 0)
                  then zoom (copyout (p_pagetable pr) addr
                               (load_bytes 4 0 (store32 0 (p_xstate ppr) (fun _ => 0))))
                  else ret 0) ;;
            if r <? 0 then
              unlock (proc_lock pp) ;;; unlock wait_lock ;;; ret (true, Some (-1))
            else
              freeproc pp ;;;
              unlock (proc_lock pp) ;;; unlock wait_lock ;;; ret (true, Some pid)
          else unlock (proc_lock pp) ;;; ret (true, None)
        else ret acc
    end).

Fixpoint wait_loop (fuel : nat) (p : nat) (addr : Z) : M S Z :=
  match fuel with
  | O => asleep
  | Datatypes.S f =>
      r <- zoom (wait_scan p addr) ;;
      match r with
      | (_, Some pid) => ret pid
      | (havekids, None) =>
          (* killed(p) is called only when there are children *)
          k <- (if havekids : bool then zoom (killed p) else ret 0) ;;
          if negb havekids || negb (k =? 0)
          then zoom (unlock wait_lock) ;;; ret (-1)
          else sleep (ch_proc p) wait_lock ;;; wait_loop f p addr
      end
  end.
Definition wait (addr : Z) : M S Z :=
  p <- zoom myproc_ref ;;
  zoom (lock wait_lock) ;;;
  wait_loop (Datatypes.S swtch_wakeups) p addr.

(** * The scheduling system calls *)

Definition setpriority (pid priority : Z) : M S Z :=
  r <- zoom (for_find (seq 0 NPROC) (fun p =>
    lock (proc_lock p) ;;;
    pr <- getp p ;;
    if (p_pid pr =? pid) && negb (state_eqb (p_state pr) UNUSED) then
      updp p (set_p_priority priority) ;;;
      unlock (proc_lock p) ;;;
      ret (Some 0)
    else unlock (proc_lock p) ;;; ret None)) ;;
  match r with
  | None => ret (-1)
  | Some _ =>
      mode <- zoom (gets ps_sched_mode) ;;
      when (mode =? SCHED_PRIORITY) yield ;;;
      ret 0
  end.

Definition setscheduler (policy : Z) : M S Z :=
  if (policy <? SCHED_ROUND_ROBIN) || (SCHED_PRIORITY <? policy) then ret (-1) else
  zoom (lock metrics_lock) ;;;
  zoom (modify (set_ps_turnaround 0)) ;;;
  zoom (modify (set_ps_waiting 0)) ;;;
  zoom (modify (set_ps_finished 0)) ;;;
  zoom (unlock metrics_lock) ;;;
  zoom (modify (set_ps_sched_mode policy)) ;;;
  yield ;;;
  ret 0.

End sched.

(** * Lemmas on choosing a process *)

(** The scan without its locks: the candidate that survives slot [p]. *)
Definition pick_step (better : proc -> proc -> bool) (f : nat -> proc)
    (best : option nat) (p : nat) : option nat :=
  if state_eqb (p_state (f p)) RUNNABLE then
    match best with
    | None => Some p
    | Some b => if better (f p) (f b) then Some p else Some b
    end
  else best.

Definition pick (better : proc -> proc -> bool) (f : nat -> proc) : option nat :=
  fold_left (pick_step better f) (seq 0 NPROC) None.

(** The machine while the scan holds the lock of its candidate. *)
Definition held (best : option nat) (m : mach) : mach :=
  match best with None => tidy m | Some b => acquired (proc_lock b) m end.

(** There is room on the hart for two nested critical sections. *)
Definition room (m : mach) : Prop := c_noff (this_cpu m) < 2 ^ 31 - 2.

Lemma held_tidy o m : held o (tidy m) = held o m.
Proof. destruct o; simpl; [apply acquired_tidy|apply tidy_idem]. Qed.

Section scan.
Context (better : proc -> proc -> bool) (s : pst).
Hypothesis Hn : noff_ok (pmach s).
Hypothesis Hr : room (pmach s).
Hypothesis Ht : table_unlocked (pmach s).

Lemma proc_lock_ne i j : i <> j -> proc_lock i <> proc_lock j.
Proof. by intros ? [= ->]. Qed.

(** Taking and dropping a lock that is not the candidate's. *)
Lemma held_lock best p :
  (forall b, best = Some b -> b <> p) -> (p < NPROC)%nat ->
  lock (proc_lock p) (set_pmach (held best (pmach s)) s) =
  Ok tt (set_pmach (acquired (proc_lock p) (held best (pmach s))) s).
Proof.
  intros Hb Hp. rewrite lock_eq; [done| |]; destruct best as [b|]; simpl.
  - by apply noff_ok_acquired.
  - by apply noff_ok_tidy.
  - apply lock_free_acquired; [apply proc_lock_ne; by apply Hb|by apply Ht].
  - by apply lock_free_tidy, Ht.
Qed.

Lemma held_unlock best p :
  (forall b, best = Some b -> b <> p) -> (p < NPROC)%nat ->
  unlock (proc_lock p) (set_pmach (acquired (proc_lock p) (held best (pmach s))) s) =
  Ok tt (set_pmach (held best (pmach s)) s).
Proof.
  intros Hb Hp. destruct best as [b|].
  - unfold unlock. erewrite zoom_Ok; [done|]. apply release_inner; try done.
    + apply proc_lock_ne. by apply Hb.
    + by apply Ht.
  - rewrite (unlock_eq _ _ (tidy (pmach s))); [simpl; by rewrite tidy_idem| | |done].
    + by apply noff_ok_tidy.
    + by apply lock_free_tidy, Ht.
Qed.

Lemma held_swap b p :
  b <> p -> (b < NPROC)%nat -> (p < NPROC)%nat ->
  unlock (proc_lock b) (set_pmach (acquired (proc_lock p) (held (Some b) (pmach s))) s) =
  Ok tt (set_pmach (held (Some p) (pmach s)) s).
Proof.
  intros Hb ? ?. unfold unlock. erewrite zoom_Ok; [done|].
  apply release_outer; try done; [by apply proc_lock_ne|by apply Ht|by apply Ht].
Qed.

Lemma scan_loop l best :
  NoDup l -> (forall p, p ∈ l -> (p < NPROC)%nat) ->
  (forall b, best = Some b -> (b < NPROC)%nat /\ b ∉ l) ->
  for_fold l best (fun best p =>
    lock (proc_lock p) ;;;
    pr <- getp p ;;
    if state_eqb (p_state pr) RUNNABLE then
      match best with
      | None => ret (Some p)
      | Some b =>
          br <- getp b ;;
          if better pr br
          then unlock (proc_lock b) ;;; ret (Some p)
          else unlock (proc_lock p) ;;; ret best
      end
    else unlock (proc_lock p) ;;; ret best) (set_pmach (held best (pmach s)) s) =
  Ok (fold_left (pick_step better (ps_procs s)) l best)
     (set_pmach (held (fold_left (pick_step better (ps_procs s)) l best) (pmach s)) s).
Proof.
  revert best. induction l as [|p l IH]; intros best Hnd Hl Hb; [done|].
  cbn [for_fold fold_left]. apply NoDup_cons in Hnd as [Hp Hnd].
  assert (Hlt : (p < NPROC)%nat) by (apply Hl; left).
  assert (Hne : forall b, best = Some b -> b <> p).
  { intros b E ->. apply Hb in E as [_ E]. apply E. left. }
  assert (Hb' : forall b, best = Some b -> (b < NPROC)%nat /\ b ∉ l).
  { intros b E. apply Hb in E as [? E]. split; [done|]. intros ?. apply E. by right. }
  rewrite !bind_assoc, (bind_Ok _ _ _ _ _ (held_lock best p Hne Hlt)).
  unfold getp at 1, gets at 1. rewrite bind_assoc. unfold bind at 1.
  change (ps_procs (set_pmach _ s)) with (ps_procs s). unfold pick_step at 2 4.
  destruct (state_eqb (p_state (ps_procs s p)) RUNNABLE).
  2:{ rewrite bind_assoc, (bind_Ok _ _ _ _ _ (held_unlock best p Hne Hlt)), bind_ret.
      apply IH; [done| |done]. intros q ?. apply Hl. by right. }
  destruct best as [b|].
  2:{ rewrite bind_ret, acquired_tidy. apply IH; [done| |].
      - intros q ?. apply Hl. by right.
      - by intros ? [= <-]. }
  unfold getp at 1, gets at 1. rewrite bind_assoc. unfold bind at 1.
  change (ps_procs (set_pmach _ s)) with (ps_procs s).
  destruct (better (ps_procs s p) (ps_procs s b)); rewrite bind_assoc.
  - destruct (Hb' b eq_refl) as [? _].
    erewrite bind_Ok by (apply held_swap; auto). rewrite bind_ret. apply IH; [done| |].
    + intros q ?. apply Hl. by right.
    + by intros ? [= <-].
  - rewrite (bind_Ok _ _ _ _ _ (held_unlock (Some b) p Hne Hlt)), bind_ret.
    apply IH; [done| |done]. intros q ?. apply Hl. by right.
Qed.

Lemma scan_eq :
  scan better s = Ok (pick better (ps_procs s)) (set_pmach (held (pick better (ps_procs s)) (pmach s)) s).
Proof.
  unfold pick. rewrite <-scan_loop.
  - unfold scan. change (seq 0 NPROC) with (0%nat :: seq 1 (NPROC - 1)). cbn [for_fold].
    assert (H0 : (0 < NPROC)%nat) by (unfold NPROC; lia).
    rewrite !bind_assoc, (bind_Ok _ _ _ _ _ (held_lock None 0 ltac:(done) H0)).
    rewrite (bind_Ok _ _ _ _ _ (lock_eq (proc_lock 0) s Hn (Ht _ H0))).
    simpl held. by rewrite acquired_tidy.
  - apply NoDup_ListNoDup, seq_NoDup.
  - intros p Hp%elem_of_seq. lia.
  - done.
Qed.

End scan.

(** The comparisons of the two policies are strict weak orders. *)
Class StrictWeak (better : proc -> proc -> bool) : Prop := {
  sw_irrefl : forall p, better p p = false;
  sw_trans : forall p q r, better p q = true -> better q r = true -> better p r = true;
  sw_split : forall p q r, better p r = true -> better p q = true \/ better q r = true
}.

#[export] Instance fcfs_strict_weak : StrictWeak fcfs_better.
Proof. split; unfold fcfs_better; intros *; zb; lia || auto. Qed.

#[export] Instance priority_strict_weak : StrictWeak priority_better.
Proof. split; unfold priority_better; intros *; zb; lia || auto. Qed.

Definition runnable (pr : proc) : bool := state_eqb (p_state pr) RUNNABLE.

Lemma runnable_spec pr : runnable pr = true <-> p_state pr = RUNNABLE.
Proof. unfold runnable. by destruct (p_state pr). Qed.

(** [b] is the best runnable slot below [n], the lowest among equals. *)
Definition best_below (better : proc -> proc -> bool) (f : nat -> proc) (n b : nat) : Prop :=
  (b < n)%nat /\ runnable (f b) = true /\
  forall j, (j < n)%nat -> runnable (f j) = true ->
    better (f j) (f b) = false /\ ((j < b)%nat -> better (f b) (f j) = true).

Section pick.
Context (better : proc -> proc -> bool) `{!StrictWeak better} (f : nat -> proc).

Lemma pick_spec n :
  match fold_left (pick_step better f) (seq 0 n) None with
  | Some b => best_below better f n b
  | None => forall j, (j < n)%nat -> runnable (f j) = false
  end.
Proof.
  induction n as [|n IH]; [simpl; lia|].
  rewrite seq_S, fold_left_app. simpl. destruct (fold_left _ _ _) as [b|]; unfold pick_step.
  - destruct IH as (Hb & Hrun & Hmin). fold (runnable (f n)).
    destruct (runnable (f n)) eqn:En; [destruct (better (f n) (f b)) eqn:Eb|].
    + split; [lia|split; [done|]]. intros j Hj Hrj.
      destruct (decide (j = n)) as [->|]; [split; [apply sw_irrefl|lia]|].
      destruct (Hmin j ltac:(lia) Hrj) as [H1 _].
      assert (better (f n) (f j) = true) as H2.
      { destruct (sw_split _ (f j) _ Eb) as [?|?]; [done|congruence]. }
      split; [|done]. destruct (better (f j) (f n)) eqn:E; [|done].
      by rewrite <-(sw_irrefl (f n)), (sw_trans _ _ _ H2 E).
    + split; [lia|split; [done|]]. intros j Hj Hrj.
      destruct (decide (j = n)) as [->|]; [split; [done|lia]|]. apply Hmin; [lia|done].
    + split; [lia|split; [done|]]. intros j Hj Hrj.
      destruct (decide (j = n)) as [->|]; [congruence|]. apply Hmin; [lia|done].
  - fold (runnable (f n)). destruct (runnable (f n)) eqn:En.
    + split; [lia|split; [done|]]. intros j Hj Hrj.
      destruct (decide (j = n)) as [->|]; [split; [apply sw_irrefl|lia]|].
      rewrite IH in Hrj by lia. done.
    + intros j Hj. destruct (decide (j = n)) as [->|]; [done|]. apply IH. lia.
Qed.

Lemma pick_best b : best_below better f NPROC b -> pick better f = Some b.
Proof.
  intros (Hb & Hrun & Hmin). pose proof (pick_spec NPROC) as Hp. unfold pick.
  destruct (fold_left _ _ _) as [b'|]; [|by rewrite Hp in Hrun].
  destruct Hp as (Hb' & Hrun' & Hmin'). f_equal.
  destruct (Hmin b' Hb' Hrun') as [H1 H2]. destruct (Hmin' b Hb Hrun) as [H3 H4].
  destruct (Nat.lt_trichotomy b b') as [L|[E|L]]; [|done|].
  - rewrite H4 in H1; done.
  - rewrite H2 in H3; done.
Qed.

Lemma pick_none : (forall j, (j < NPROC)%nat -> runnable (f j) = false) -> pick better f = None.
Proof.
  intros Hf. pose proof (pick_spec NPROC) as Hp. unfold pick.
  destruct (fold_left _ _ _) as [b|]; [|done]. destruct Hp as (Hb & Hrun & _).
  by rewrite Hf in Hrun.
Qed.

End pick.

(** * Lemmas on dispatching *)

(** The chosen process when the scheduler switches to it. *)
Definition dispatched (ticks : Z) (pr : proc) : proc :=
  set_p_state RUNNING
    (if 0 <? p_last_runnable_time pr
     then set_p_total_waiting_time
            (u32 (p_total_waiting_time pr + u32 (ticks - p_last_runnable_time pr))) pr
     else pr).

Definition cpu_runs (c : nat) (o : option nat) (m : mach) : mach :=
  set_cpu c (set_c_proc o (m_cpus m c)) m.

Definition running_on (c p : nat) (s : pst) : pst :=
  set_pmach (cpu_runs c (Some p) (pmach s))
    (set_ps_procs (<[p := dispatched (ps_ticks s) (ps_procs s p)]> (ps_procs s)) s).

Lemma start_running_eq c p s : start_running c p s = Ok tt (running_on c p s).
Proof.
  unfold start_running, set_cpu_proc, running_on, dispatched. unfold bind, getp, updp, gets, modify.
  simpl. destruct (0 <? _); simpl; [by rewrite fn_lookup_insert, fn_insert_insert|done].
Qed.

Lemma set_cpu_proc_eq c o s : set_cpu_proc c o s = Ok tt (set_pmach (cpu_runs c o (pmach s)) s).
Proof. done. Qed.

(** The machine after [intr_on]. *)
Definition irq_on (m : mach) : mach := set_cpu (m_tp m) (set_sie true (this_cpu m)) m.

(** The scheduler's own invariant: outside every critical section, and no
    process lock held. *)
Record at_scheduler (m : mach) : Prop := {
  sch_noff : c_noff (this_cpu m) = 0;
  sch_table : table_unlocked m
}.

Lemma irq_on_ok m : at_scheduler m -> noff_ok (irq_on m) /\ room (irq_on m) /\ table_unlocked (irq_on m).
Proof.
  intros [Hn Ht]. unfold noff_ok, room, irq_on, this_cpu in *; simpl.
  rewrite !fn_lookup_insert; simpl. rewrite Hn. split; [lia|]. split; [lia|]. exact Ht.
Qed.

(** What is left of a dispatch when the process gives the CPU back. *)
Definition after_switch {S} `{Lens S pst} (c p : nat) : M S unit :=
  zoom (set_cpu_proc c None) ;;; zoom (unlock (proc_lock p)).

Section rounds.
Context {S : Type} `{Lens S pst} `{Swtch S}.

Lemma zoom_step {A B} (m : M pst A) (k : A -> M S B) (t t' : pst) (s : S) a :
  m t = Ok a t' -> (x <- zoom m ;; k x) (put t s) = k a (put t' s).
Proof.
  intros E. erewrite bind_Ok; [done|]. erewrite zoom_Ok by (by rewrite view_put). by rewrite put_put.
Qed.

Lemma intr_on_eq t : (zoom intr_on : M pst unit) t = Ok tt (set_pmach (irq_on (pmach t)) t).
Proof. done. Qed.

(** A round of a policy that scans the table, up to the switch. *)
Lemma run_best_eq c better `{!StrictWeak better} t s :
  noff_ok (pmach t) -> room (pmach t) -> table_unlocked (pmach t) ->
  (forall b, best_below better (ps_procs t) NPROC b ->
     run_best c better (put t s) =
     (swtch_in b ;;; after_switch c b)
       (put (running_on c b (set_pmach (acquired (proc_lock b) (pmach t)) t)) s)) /\
  ((forall j, (j < NPROC)%nat -> runnable (ps_procs t j) = false) ->
     run_best c better (put t s) = Ok tt (put (set_pmach (tidy (pmach t)) t) s)).
Proof.
  intros Hn Hr Ht. split; [intros b Hb|intros Hb]; unfold run_best.
  - rewrite (zoom_step _ _ _ _ s _ (scan_eq better t Hn Hr Ht)).
    rewrite (pick_best _ _ _ Hb). simpl held. unfold dispatch, after_switch.
    rewrite bind_assoc, (zoom_step _ _ _ _ s _ (start_running_eq c b _)).
    rewrite bind_assoc. done.
  - rewrite (zoom_step _ _ _ _ s _ (scan_eq better t Hn Hr Ht)).
    by rewrite (pick_none _ _ Hb).
Qed.

(** An iteration of the scheduler: interrupts on, then the policy's round. *)
Lemma scheduler_round_eq c s :
  let t := set_pmach (irq_on (pmach (view s))) (view s) in
  scheduler_round c s =
  (if ps_sched_mode t =? SCHED_ROUND_ROBIN then round_robin c
   else if ps_sched_mode t =? SCHED_FCFS then run_best c fcfs_better
   else if ps_sched_mode t =? SCHED_PRIORITY then run_best c priority_better
   else ret tt) (put t s).
Proof.
  unfold scheduler_round. rewrite <-(put_view s) at 1.
  rewrite (zoom_step _ _ _ _ s _ (intr_on_eq _)).
  by rewrite (zoom_step (gets ps_sched_mode) _ _ _ s _ eq_refl).
Qed.



End rounds.

(** * Round robin

    The scheduler over a state that also records which processes it ran.
    [user p] is what process [p] and the interrupts do while it has the CPU;
    it comes back through [sched], so with the same locks held, one level of
    [push_off] and interrupts off.  It may change the table, but only the
    running process takes itself out of the RUNNABLE processes. *)

Record gives_back (user : nat -> pst -> pst) : Prop := {
  gb_tp : forall p t, m_tp (pmach (user p t)) = m_tp (pmach t);
  gb_locks : forall p t, m_locks (pmach (user p t)) = m_locks (pmach t);
  gb_noff : forall p t, c_noff (this_cpu (pmach (user p t))) = c_noff (this_cpu (pmach t));
  gb_sie : forall p t, c_sie (this_cpu (pmach (user p t))) = c_sie (this_cpu (pmach t));
  gb_runnable : forall p t j, j <> p -> runnable (ps_procs t j) = true ->
    runnable (ps_procs (user p t) j) = true
}.

Definition trace_lens : Lens (pst * list nat) pst.
Proof. by refine {| view := fst; put := fun t s => (t, snd s) |}; try intros ? []; try intros []. Defined.

Definition trace_swtch (user : nat -> pst -> pst) : Swtch (pst * list nat) := {|
  swtch_out := ret tt;
  swtch_in := fun p => modify (fun s => (user p (fst s), snd s ++ [p]));
  swtch_wakeups := 0
|}.

Section round_robin_fair.
Context (user : nat -> pst -> pst).
Hypothesis Huser : gives_back user.

#[local] Existing Instance trace_lens.
#[local] Instance this_swtch : Swtch (pst * list nat) := trace_swtch user.

Lemma at_scheduler_ok m : at_scheduler m -> noff_ok m.
Proof. intros [Hn _]. unfold noff_ok. rewrite Hn. lia. Qed.

(** Releasing the only lock leaves the hart outside critical sections. *)
Lemma release_last p m :
  (forall l, l <> proc_lock p -> forall i, l = proc_lock i -> (i < NPROC)%nat -> lock_free m l) ->
  holds m (proc_lock p) -> c_noff (this_cpu m) = 1 -> c_sie (this_cpu m) = false ->
  exists m', release (proc_lock p) m = Ok tt m' /\ at_scheduler m' /\ m_tp m' = m_tp m.
Proof.
  intros Ht Hh Hn Hs. eexists. split; [apply release_ok; [done|lia|done]|].
  split; [split|done]; unfold released, this_cpu in *; simpl.
  - rewrite fn_lookup_insert. unfold popped_cpu; simpl. lia.
  - intros i Hi. unfold lock_free; simpl. destruct (decide (proc_lock p = proc_lock i)) as [->|Hne].
    + by rewrite fn_lookup_insert.
    + rewrite fn_lookup_insert_ne by done. by apply (Ht (proc_lock i) ltac:(congruence) i).
Qed.

Lemma cpu_runs_this c o m : this_cpu (cpu_runs c o m) =
  mkCpu (if decide (c = m_tp m) then o else c_proc (this_cpu m))
    (c_noff (this_cpu m)) (c_intena (this_cpu m)) (c_sie (this_cpu m)).
Proof.
  unfold cpu_runs, this_cpu; simpl. case_decide as E; [subst; by rewrite fn_lookup_insert|].
  rewrite fn_lookup_insert_ne by done. by destruct (m_cpus m (m_tp m)).
Qed.

(** One slot of the round. *)
Lemma round_slot c t tr p :
  at_scheduler (pmach t) -> (p < NPROC)%nat ->
  exists t', (zoom (lock (proc_lock p)) ;;;
              pr <- zoom (getp p) ;;
              when (state_eqb (p_state pr) RUNNABLE) (dispatch c p) ;;;
              zoom (unlock (proc_lock p))) (t, tr) =
             Ok tt (t', if runnable (ps_procs t p) then tr ++ [p] else tr) /\
    at_scheduler (pmach t') /\
    (forall j, j <> p -> runnable (ps_procs t j) = true -> runnable (ps_procs t' j) = true).
Proof.
  intros Hs Hp. pose proof (at_scheduler_ok _ Hs) as Hn. destruct Hs as [H0 Ht].
  change (t, tr) with (put t (t, tr)).
  rewrite (zoom_step _ _ _ _ _ _ (lock_eq _ _ Hn (Ht p Hp))).
  rewrite (zoom_step (getp p) _ _ _ _ _ eq_refl).
  change (ps_procs (set_pmach _ t)) with (ps_procs t). fold (runnable (ps_procs t p)).
  destruct (runnable (ps_procs t p)) eqn:Er; cbn [when].
  - unfold dispatch. rewrite bind_assoc, (zoom_step _ _ _ _ _ _ (start_running_eq c p _)).
    set (t1 := running_on _ _ _). rewrite bind_assoc. unfold bind at 1.
    cbn [swtch_in this_swtch trace_swtch modify fst snd put trace_lens].
    change (user p t1, tr ++ [p]) with (put (user p t1) (t1, tr ++ [p])).
    rewrite (zoom_step _ _ _ _ _ _ (set_cpu_proc_eq c None _)).
    set (t2 := set_pmach _ (user p t1)).
    destruct (release_last p (pmach t2)) as (m' & Hrel & Hm' & _).
    + intros l Hl i -> Hi. change (m_locks (pmach t2)) with (m_locks (pmach (user p t1))).
      unfold lock_free. change (m_locks (pmach t2)) with (m_locks (pmach (user p t1))).
      rewrite gb_locks by done. by apply lock_free_acquired; [congruence|apply Ht].
    + unfold holds. change (m_locks (pmach t2)) with (m_locks (pmach (user p t1))).
      change (m_tp (pmach t2)) with (m_tp (pmach (user p t1))).
      rewrite gb_locks, gb_tp by done. apply (holds_acquired (proc_lock p) (pmach t)).
    + unfold t2. change (pmach (set_pmach ?m _)) with m. rewrite cpu_runs_this; cbn [c_noff].
      rewrite gb_noff by done. unfold t1, running_on. change (pmach (set_pmach ?m _)) with m.
      rewrite cpu_runs_this; cbn [c_noff].
      change (pmach (set_pmach ?m _)) with m. rewrite acquired_this_cpu; simpl. lia.
    + unfold t2. change (pmach (set_pmach ?m _)) with m. rewrite cpu_runs_this; cbn [c_sie].
      rewrite gb_sie by done. unfold t1, running_on. change (pmach (set_pmach ?m _)) with m.
      rewrite cpu_runs_this; cbn [c_sie].
      change (pmach (set_pmach ?m _)) with m. by rewrite acquired_this_cpu.
    + exists (set_pmach m' t2). split; [|split; [done|]].
      * erewrite zoom_Ok; [done|]. rewrite view_put. unfold unlock. by erewrite zoom_Ok.
      * intros j Hj Hrj. change (ps_procs (set_pmach m' t2)) with (ps_procs (user p t1)).
        apply gb_runnable; [done..|]. simpl. by rewrite fn_lookup_insert_ne.
  - exists (set_pmach (tidy (pmach t)) t). split; [|split; [|done]].
    + unfold bind, ret. erewrite zoom_Ok; [done|]. rewrite view_put.
      erewrite unlock_eq; [done|done|by apply Ht|done].
    + split; [|by apply table_unlocked_tidy]. change (pmach (set_pmach ?m _)) with m.
      by rewrite tidy_this_cpu.
Qed.

(** A strictly increasing list of slots. *)
Definition increasing (l : list nat) : Prop :=
  forall i j x y, l !! i = Some x -> l !! j = Some y -> (i < j)%nat -> (x < y)%nat.

Lemma increasing_snoc l n : increasing l -> (forall x, x ∈ l -> (x < n)%nat) -> increasing (l ++ [n]).
Proof.
  intros Hl Hn i j x y Hi Hj Hij.
  apply lookup_app_Some in Hj as [Hj|[Hlen Hj]].
  - rewrite lookup_app_l in Hi by (apply lookup_lt_Some in Hj; lia). by eapply Hl.
  - apply list_lookup_singleton_Some in Hj as [Hj <-].
    rewrite lookup_app_l in Hi by lia. eapply Hn, list_elem_of_lookup_2, Hi.
Qed.

(** The state of a round that has still to visit the slots [l]. *)
Definition round_inv (t : pst) (tr : list nat) (l : list nat) (s : pst * list nat) : Prop :=
  exists n ran, (n <= NPROC)%nat /\ l = seq n (NPROC - n) /\ snd s = tr ++ ran /\
    at_scheduler (pmach (fst s)) /\ increasing ran /\ (forall x, x ∈ ran -> (x < n)%nat) /\
    (forall j, (j < n)%nat -> runnable (ps_procs t j) = true -> j ∈ ran) /\
    (forall j, (n <= j)%nat -> runnable (ps_procs t j) = true -> runnable (ps_procs (fst s) j) = true).

Lemma round_inv_step c t tr i l s :
  round_inv t tr (i :: l) s ->
  exists s', (zoom (lock (proc_lock i)) ;;;
              pr <- zoom (getp i) ;;
              when (state_eqb (p_state pr) RUNNABLE) (dispatch c i) ;;;
              zoom (unlock (proc_lock i))) s = Ok tt s' /\ round_inv t tr l s'.
Proof.
  destruct s as [t1 tr1]. intros (n & ran & Hn & Hl & Htr & Hs & Hinc & Hlt & Hin & Hrun).
  simpl in *. subst tr1.
  destruct (NPROC - n)%nat as [|k] eqn:Ek; [done|]. injection Hl as -> ->.
  destruct (round_slot c t1 (tr ++ ran) n Hs ltac:(lia)) as (t2 & Hr & Hs2 & Hrun2).
  eexists. split; [exact Hr|]. exists (S n), (if runnable (ps_procs t1 n) then ran ++ [n] else ran).
  split; [lia|]. split; [f_equal; lia|]. split; [simpl; case_match; by rewrite ?app_assoc|].
  split; [done|]. split; [case_match; [by apply increasing_snoc|done]|].
  split; [|split].
  - intros x Hx. case_match; [apply elem_of_app in Hx as [Hx|Hx%list_elem_of_singleton]|];
      try apply Hlt in Hx; lia.
  - intros j Hj Hrj. destruct (decide (j = n)) as [->|].
    + rewrite (Hrun n) by done. apply elem_of_app. right. by apply list_elem_of_singleton.
    + assert (j ∈ ran) by (apply Hin; [lia|done]). case_match; [|done]. apply elem_of_app. by left.
  - intros j Hj Hrj. apply Hrun2; [lia|]. apply Hrun; [lia|done].
Qed.


End round_robin_fair.

(** * Giving up the CPU: lemmas and theorems *)

Lemma tidy_inside m : c_noff (this_cpu m) <> 0 -> tidy m = m.
Proof. intros ?. unfold tidy. by destruct (Z.eqb_spec (c_noff (this_cpu m)) 0). Qed.

Lemma myproc_ref_eq s p :
  noff_ok (pmach s) -> c_proc (this_cpu (pmach s)) = Some p ->
  myproc_ref s = Ok p (set_pmach (tidy (pmach s)) s).
Proof. intros Hn Hp. unfold myproc_ref. by rewrite (bind_Ok _ _ _ _ _ (myproc_eq s Hn)), Hp. Qed.

(** An operation that only reads its component. *)
Lemma zoom_reader {S T A} `{Lens S T} (m : M T A) s a : m (view s) = Ok a (view s) -> zoom m s = Ok a s.
Proof. intros E. by rewrite (zoom_Ok _ _ _ _ E), put_view. Qed.

Lemma holding_true l (t : pst) :
  holds (pmach t) l -> (zoom (holding l) : M pst bool) t = Ok true t.
Proof.
  intros [Hl Hc]. apply zoom_reader.
  unfold holding, cpuid. mrun. change (km_mach (ps_kmem t)) with (pmach t).
  rewrite Hl, Hc. simpl. by rewrite bool_decide_true.
Qed.

Section giving_up.
Context {S : Type} `{Lens S pst} `{Swtch S}.

(** The end of [sched]: the thread's [intena] comes back with it. *)
Definition resume_intena (b : bool) : M S unit :=
  zoom (zoom (upd_mycpu (set_intena b)) : M pst unit).

Lemma sched_eq p t s :
  c_proc (this_cpu (pmach t)) = Some p -> holds (pmach t) (proc_lock p) ->
  c_noff (this_cpu (pmach t)) = 1 -> c_sie (this_cpu (pmach t)) = false ->
  p_state (ps_procs t p) <> RUNNING ->
  sched (put t s) = (swtch_out ;;; resume_intena (c_intena (this_cpu (pmach t)))) (put t s).
Proof.
  intros Hp Hh Hn Hs Hst. unfold sched.
  assert (E : myproc_ref t = Ok p t).
  { rewrite (myproc_ref_eq t p); [|split; [lia|done]|done].
    by rewrite tidy_inside, set_pmach_id by lia. }
  rewrite (zoom_step _ _ _ _ s _ E), (zoom_step _ _ _ _ s _ (holding_true _ _ Hh)).
  cbn [negb]. assert (Em : (zoom mycpu : M pst cpu) t = Ok (this_cpu (pmach t)) t).
  { by apply zoom_reader. }
  rewrite (zoom_step _ _ _ _ s _ Em), Hn. cbn [negb Z.eqb Pos.eqb].
  rewrite (zoom_step (getp p) _ _ _ s _ eq_refl).
  assert (state_eqb (p_state (ps_procs t p)) RUNNING = false) as -> by (by destruct (p_state _)).
  assert (Ei : (zoom intr_get : M pst bool) t = Ok false t).
  { apply zoom_reader. rewrite <-Hs. done. }
  rewrite (zoom_step _ _ _ _ s _ Ei). by rewrite (zoom_step _ _ _ _ s _ Em).
Qed.

(** The state in which [yield] calls [swtch]. *)
Definition yielded (p : nat) (t : pst) : pst :=
  set_pmach (acquired (proc_lock p) (pmach t))
    (set_ps_procs (<[p := woken (ps_ticks t) (ps_procs t p)]> (ps_procs t)) t).

Section yield.
Context (p : nat) (s : S).
Let t := view s.
Hypothesis Hp : c_proc (this_cpu (pmach t)) = Some p.
Hypothesis Hn : c_noff (this_cpu (pmach t)) = 0.
Hypothesis Hl : lock_free (pmach t) (proc_lock p).

Lemma yield_starts :
  yield s =
  (if ps_sched_mode t =? SCHED_FCFS then zoom (unlock (proc_lock p)) else
   zoom (updp p (set_p_state RUNNABLE)) ;;;
   ticks <- zoom (gets ps_ticks) ;;
   zoom (updp p (set_p_last_runnable_time ticks)) ;;;
   sched ;;;
   zoom (unlock (proc_lock p))) (put (set_pmach (acquired (proc_lock p) (pmach t)) t) s).
Proof.
  assert (Hok : noff_ok (pmach t)) by (split; lia).
  unfold yield. rewrite <-(put_view s) at 1. fold t.
  rewrite (zoom_step _ _ _ _ s _ (myproc_ref_eq t p Hok Hp)).
  assert (El : lock (proc_lock p) (set_pmach (tidy (pmach t)) t) =
    Ok tt (set_pmach (acquired (proc_lock p) (pmach t)) t)).
  { rewrite lock_eq; [|by apply noff_ok_tidy|by apply lock_free_tidy].
    change (pmach (set_pmach ?m _)) with m. by rewrite acquired_tidy. }
  by rewrite (zoom_step _ _ _ _ s _ El), (zoom_step (gets ps_sched_mode) _ _ _ s _ eq_refl).
Qed.

Lemma yield_returns :
  ps_sched_mode t = SCHED_FCFS -> yield s = Ok tt (put (set_pmach (tidy (pmach t)) t) s).
Proof.
  intros Hm. rewrite yield_starts, Hm. simpl. assert (Hok : noff_ok (pmach t)) by (split; lia).
  erewrite zoom_Ok by (rewrite view_put; by apply (unlock_eq _ _ (pmach t))). by rewrite put_put.
Qed.

Lemma yield_switches :
  ps_sched_mode t <> SCHED_FCFS ->
  yield s = (swtch_out ;;; resume_intena (c_sie (this_cpu (pmach t))) ;;;
             zoom (unlock (proc_lock p))) (put (yielded p t) s).
Proof.
  intros Hm%Z.eqb_neq. rewrite yield_starts, Hm.
  rewrite (zoom_step (updp _ _) _ _ _ s _ eq_refl), (zoom_step (gets ps_ticks) _ _ _ s _ eq_refl).
  rewrite (zoom_step (updp _ _) _ _ _ s _ eq_refl). simpl ps_procs.
  rewrite fn_lookup_insert, fn_insert_insert. change (set_ps_procs _ _) with (yielded p t).
  assert (Ec : this_cpu (pmach (yielded p t)) = pushed_cpu (this_cpu (pmach t)))
    by apply (acquired_this_cpu (proc_lock p)).
  etransitivity; [apply bind_cong, (sched_eq p)|rewrite bind_assoc]; rewrite ?Ec; try done.
  - apply (holds_acquired (proc_lock p) (pmach t)).
  - simpl. lia.
  - simpl. by rewrite fn_lookup_insert.
  - unfold pushed_cpu; cbn [c_intena]. by rewrite Hn.
Qed.

(** [yield].  Under FCFS it returns at once: the process keeps the CPU
    and nothing changes.  Under the other policies the process becomes
    RUNNABLE, stamped with the tick at which it starts to wait, and switches
    to the scheduler with its own lock as the only one held. *)
Theorem yield_spec :
  (ps_sched_mode t = SCHED_FCFS -> yield s = Ok tt (put (set_pmach (tidy (pmach t)) t) s)) /\
  (ps_sched_mode t <> SCHED_FCFS ->
     yield s = (swtch_out ;;; resume_intena (c_sie (this_cpu (pmach t))) ;;;
                zoom (unlock (proc_lock p))) (put (yielded p t) s)).
Proof. split; [apply yield_returns|apply yield_switches]. Qed.

End yield.

End giving_up.

Section scheduling_calls.
Context {S : Type} `{Lens S pst} `{Swtch S}.

(** The state that [setscheduler] installs. *)
Definition policy_set (policy : Z) (t : pst) : pst :=
  set_pmach (tidy (pmach t))
    (set_ps_sched_mode policy (set_ps_finished 0 (set_ps_waiting 0 (set_ps_turnaround 0 t)))).

(** [setscheduler].  A policy outside the three is refused and changes
    nothing.  Otherwise the accumulated metrics are zeroed and the policy is
    installed before the caller yields; switching to FCFS returns to the
    caller without a reschedule. *)
Theorem setscheduler_spec policy p s :
  let t := view s in
  c_proc (this_cpu (pmach t)) = Some p -> c_noff (this_cpu (pmach t)) = 0 ->
  lock_free (pmach t) (proc_lock p) -> lock_free (pmach t) metrics_lock ->
  (~ (SCHED_ROUND_ROBIN <= policy <= SCHED_PRIORITY) -> setscheduler policy s = Ok (-1) s) /\
  (SCHED_ROUND_ROBIN <= policy <= SCHED_PRIORITY ->
     setscheduler policy s = (yield ;;; ret 0) (put (policy_set policy t) s)) /\
  setscheduler SCHED_FCFS s = Ok 0 (put (policy_set SCHED_FCFS t) s).
Proof.
  intros t Hp Hn Hlp Hlm. assert (Hok : noff_ok (pmach t)) by (split; lia).
  assert (Hset : forall pol, SCHED_ROUND_ROBIN <= pol <= SCHED_PRIORITY ->
    setscheduler pol s = (yield ;;; ret 0) (put (policy_set pol t) s)).
  { intros pol Hpol. unfold setscheduler, SCHED_ROUND_ROBIN, SCHED_PRIORITY in *.
    destruct (Z.ltb_spec pol 0), (Z.ltb_spec 2 pol); try lia. cbn [orb].
    rewrite <-(put_view s) at 1. fold t.
    rewrite (zoom_step _ _ _ _ s _ (lock_eq _ _ Hok Hlm)).
    do 3 rewrite (zoom_step (modify _) _ _ _ s _ eq_refl).
    erewrite zoom_step by (by apply (unlock_eq _ _ (pmach t))).
    by rewrite (zoom_step (modify _) _ _ _ s _ eq_refl). }
  split; [|split; [apply Hset|]].
  - intros Hpol. unfold setscheduler.
    destruct (Z.ltb_spec policy SCHED_ROUND_ROBIN), (Z.ltb_spec SCHED_PRIORITY policy); done || lia.
  - rewrite Hset by (unfold SCHED_ROUND_ROBIN, SCHED_FCFS, SCHED_PRIORITY; lia).
    erewrite bind_Ok; [done|].
    rewrite (yield_returns p); rewrite ?view_put; try done.
    + by rewrite put_put; change (pmach (policy_set _ t)) with (tidy (pmach t)); rewrite tidy_idem.
    + change (pmach (policy_set _ t)) with (tidy (pmach t)). by rewrite tidy_c_proc.
    + change (pmach (policy_set _ t)) with (tidy (pmach t)). by rewrite tidy_this_cpu.
    + by apply lock_free_tidy.
Qed.

(** A slot that [setpriority] matches. *)
Definition live_pid (pid : Z) (pr : proc) : Prop := p_pid pr = pid /\ p_state pr <> UNUSED.

Lemma live_pid_test pid pr :
  (p_pid pr =? pid) && negb (state_eqb (p_state pr) UNUSED) = true <-> live_pid pid pr.
Proof.
  unfold live_pid. rewrite andb_true_iff, Z.eqb_eq. by destruct (p_state pr); simpl; intuition.
Qed.

(** [setpriority].  The first live process with the pid gets the
    priority, whatever its value, and under priority scheduling the caller
    then yields; with no such process the result is -1 and the table is
    unchanged. *)
Theorem setpriority_spec pid priority s :
  let t := view s in
  noff_ok (pmach t) -> table_unlocked (pmach t) ->
  (forall i, (i < NPROC)%nat -> live_pid pid (ps_procs t i) ->
     (forall j, (j < i)%nat -> ~ live_pid pid (ps_procs t j)) ->
     setpriority pid priority s =
     (when (ps_sched_mode t =? SCHED_PRIORITY) yield ;;; ret 0)
       (put (set_pmach (tidy (pmach t))
          (set_ps_procs (<[i := set_p_priority priority (ps_procs t i)]> (ps_procs t)) t)) s)) /\
  ((forall i, (i < NPROC)%nat -> ~ live_pid pid (ps_procs t i)) ->
     setpriority pid priority s = Ok (-1) (put (set_pmach (tidy (pmach t)) t) s)).
Proof.
  intros t Hn Ht. unfold setpriority. table_search. split.
  - intros i Hi Hp Hj. rewrite <-(put_view s) at 1. fold t. erewrite zoom_step; cycle 1.
    { rewrite (table_find_first _ _ i); [|done|by apply live_pid_test| |done|done].
      2:{ intros j ?. apply not_true_iff_false. rewrite live_pid_test. by apply Hj. }
      rewrite bind_assoc. unfold bind at 1, updp at 1, modify. rewrite bind_assoc.
      by erewrite bind_Ok by (by apply (unlock_eq _ _ (pmach t)); [|apply Ht|]). }
    cbv iota. by rewrite (zoom_step (gets ps_sched_mode) _ _ _ s _ eq_refl).
  - intros Hp. rewrite <-(put_view s) at 1. fold t. erewrite zoom_step; cycle 1.
    { apply table_find_none; [|done|done].
      intros i ?. apply not_true_iff_false. rewrite live_pid_test. by apply Hp. }
    done.
Qed.

End scheduling_calls.

(** * The theorems on a small table

    Processes that give the CPU straight back. *)

Definition swtch0 : Swtch pst := {| swtch_out := ret tt; swtch_in := fun _ => ret tt; swtch_wakeups := 0 |}.

(** Slot 2 is running on hart 0. *)
Definition mach_running : mach :=
  mkMach 0 (fun _ => mkCpu (Some 2%nat) 0 false true) (fun _ => mkSpinlock 0 "lock" None).

Section witnesses.
#[local] Existing Instance swtch0.

Lemma mach0_at_scheduler : at_scheduler mach0.
Proof. by split; [|apply mach0_table]. Qed.



(** The process that runs goes to sleep. *)
Definition sleeper (p : nat) (t : pst) : pst :=
  set_ps_procs (<[p := set_p_state SLEEPING (ps_procs t p)]> (ps_procs t)) t.


Lemma yield_spec_witness :
  yield (pst0 mach_running SCHED_FCFS) =
    Ok tt (set_pmach (tidy mach_running) (pst0 mach_running SCHED_FCFS)) /\
  exists s', yield (pst0 mach_running SCHED_ROUND_ROBIN) = Ok tt s' /\
             p_last_runnable_time (ps_procs s' 2%nat) = 12.
Proof.
  split.
  - apply (yield_spec (H := lens_id pst) 2 (pst0 mach_running SCHED_FCFS)); by try split.
  - eexists. rewrite (proj2 (yield_spec (H := lens_id pst) 2 (pst0 mach_running SCHED_ROUND_ROBIN) eq_refl eq_refl
      (conj eq_refl eq_refl))) by done.
    split; reflexivity.
Defined.

Lemma setscheduler_spec_witness :
  setscheduler 3 (pst0 mach_running SCHED_FCFS) = Ok (-1) (pst0 mach_running SCHED_FCFS) /\
  setscheduler SCHED_FCFS (pst0 mach_running SCHED_FCFS) =
    Ok 0 (policy_set SCHED_FCFS (pst0 mach_running SCHED_FCFS)).
Proof.
  destruct (setscheduler_spec (H := lens_id pst) 3 2 (pst0 mach_running SCHED_FCFS) eq_refl eq_refl
    (conj eq_refl eq_refl) (conj eq_refl eq_refl)) as (H1 & _ & H3).
  split; [apply H1; unfold SCHED_PRIORITY; lia|exact H3].
Defined.

Lemma setpriority_spec_witness :
  exists s', setpriority 6 1 (pst0 mach0 SCHED_FCFS) = Ok 0 s' /\ p_priority (ps_procs s' 3%nat) = 1.
Proof.
  destruct (setpriority_spec (H := lens_id pst) 6 1 (pst0 mach0 SCHED_FCFS) mach0_noff_ok mach0_table) as [H _].
  eexists. rewrite (H 3%nat).
  - split; reflexivity.
  - unfold NPROC. lia.
  - by split.
  - intros j Hj [Hp _]. do 3 (destruct j as [|j]; [done|]). lia.
Defined.

End witnesses.
