(* ===== verification/Accounting.v ===== *)
(** Accounting: the waiting and turnaround times that kernel/proc.c collects
    for the metrics system call, along every history of scheduling events.

    Each event runs the kernel operation that causes it, or, where the
    operation continues in another thread or allocates memory, performs the
    assignments of that operation to the table. *)

From Stdlib Require Import ZArith Lia List String Bool.
From stdpp Require Import base tactics numbers list functions relations.
From S2P Require Import Prelude.
From S2P Require Import Spinlock.
From S2P Require Import Kalloc.
From S2P Require Import Vm.
From S2P Require Import Proc.
From S2P Require Import Sched.

Module Accounting.

(** [allocproc] on a free slot, the assignments that accounting sees. *)
Definition allocated (pid ticks : Z) (pr : proc) : proc :=
  set_p_last_runnable_time 0 (set_p_total_waiting_time 0 (set_p_priority 10
    (set_p_run_time 0 (set_p_creation_time ticks (set_p_state USED (set_p_pid pid pr)))))).

(** [freeproc] likewise. *)
Definition freed (ticks : Z) (pr : proc) : proc :=
  set_p_run_time 0 (set_p_creation_time ticks (set_p_state UNUSED (set_p_killed 0 (set_p_pid 0 pr)))).

Definition set_slot (p : nat) (f : proc -> proc) (s : pst) : pst :=
  set_ps_procs (<[p := f (ps_procs s p)]> (ps_procs s)) s.

(** The clock does not wrap during the history, and fewer than 2^32
    processes finish. *)
Inductive step : pst -> pst -> Prop :=
| step_tick s : ps_ticks s + 1 < 2 ^ 32 -> step s (set_ps_ticks (u32 (ps_ticks s + 1)) s)
| step_update_time s s' : update_time s = Ok tt s' -> step s s'
| step_wakeup ch s s' : wakeup ch s = Ok tt s' -> step s s'
| step_kill pid r s s' : kill pid s = Ok r s' -> step s s'
| step_dispatch c p s s' :
    p_state (ps_procs s p) = RUNNABLE -> start_running c p s = Ok tt s' -> step s s'
| step_yield p s :
    p_state (ps_procs s p) = RUNNING -> step s (set_slot p (woken (ps_ticks s)) s)
| step_sleep p ch s :
    p_state (ps_procs s p) = RUNNING ->
    step s (set_slot p (fun pr => set_p_state SLEEPING (set_p_chan ch pr)) s)
| step_alloc p pid s :
    p_state (ps_procs s p) = UNUSED -> step s (set_slot p (allocated pid (ps_ticks s)) s)
| step_start p s :
    p_state (ps_procs s p) = USED -> step s (set_slot p (woken (ps_ticks s)) s)
| step_exit p s s' :
    p_state (ps_procs s p) = RUNNING -> ps_finished s < 2 ^ 32 - 1 ->
    exit_metrics p s = Ok tt s' -> step s (set_slot p (set_p_state ZOMBIE) s')
| step_reap p s :
    p_state (ps_procs s p) = ZOMBIE \/ p_state (ps_procs s p) = USED ->
    step s (set_slot p (freed (ps_ticks s)) s)
| step_policy pol s : step s (policy_set pol s).

(** The kernel after boot. *)
Record booted (s : pst) : Prop := {
  bt_noff : noff_ok (pmach s);
  bt_table : table_unlocked (pmach s);
  bt_metrics : lock_free (pmach s) metrics_lock;
  bt_ticks : ps_ticks s = 0;
  bt_unused : forall p, p_state (ps_procs s p) = UNUSED;
  bt_turnaround : ps_turnaround s = 0;
  bt_waiting : ps_waiting s = 0;
  bt_finished : ps_finished s = 0
}.

(** A process never waited longer than it exists; one that is waiting now
    did not before its current wait began. *)
Definition slot_ok (ticks : Z) (pr : proc) : Prop :=
  p_state pr = UNUSED \/
  0 <= p_creation_time pr <= ticks /\ 0 <= p_last_runnable_time pr <= ticks /\
  0 <= p_total_waiting_time pr /\
  p_total_waiting_time pr <=
    (if bool_decide (p_state pr = RUNNABLE) && (0 <? p_last_runnable_time pr)
     then p_last_runnable_time pr else ticks) - p_creation_time pr.

Record inv (s : pst) : Prop := {
  inv_noff : noff_ok (pmach s);
  inv_table : table_unlocked (pmach s);
  inv_metrics : lock_free (pmach s) metrics_lock;
  inv_ticks : 0 <= ps_ticks s < 2 ^ 32;
  inv_slots : forall p, slot_ok (ps_ticks s) (ps_procs s p);
  inv_waiting : 0 <= ps_waiting s <= ps_turnaround s;
  inv_finished : 0 <= ps_finished s < 2 ^ 32;
  inv_turnaround : ps_turnaround s <= ps_finished s * 2 ^ 32
}.

(** ** The slots *)

Lemma slot_tick T pr : slot_ok T pr -> slot_ok (T + 1) pr.
Proof. intros [?|(? & ? & ? & ?)]; [by left|right]. repeat split; try lia. case_match; lia. Qed.

Lemma slot_ticked T pr : slot_ok T pr -> slot_ok T (ticked pr).
Proof. unfold ticked. by case_match. Qed.

(** A process that was not waiting starts to wait. *)
Lemma slot_woken T pr :
  0 <= T -> p_state pr <> UNUSED -> p_state pr <> RUNNABLE -> slot_ok T pr -> slot_ok T (woken T pr).
Proof.
  intros HT Hu Hr [?|(? & ? & ? & Hw)]; [done|right]. unfold woken; simpl.
  rewrite bool_decide_false in Hw by done. simpl in Hw.
  repeat split; try lia. by destruct (0 <? T); simpl; lia.
Qed.

Lemma slot_killed T pr : 0 <= T -> slot_ok T pr -> slot_ok T (killed_proc T pr).
Proof.
  intros HT Hp. unfold killed_proc. destruct (p_state pr) eqn:E; simpl; try exact Hp.
  apply slot_woken; simpl; rewrite ?E; done.
Qed.

(** The wait that ends is added to the total, without wrapping. *)
Lemma slot_dispatched T pr :
  0 <= T < 2 ^ 32 -> p_state pr = RUNNABLE -> slot_ok T pr -> slot_ok T (dispatched T pr).
Proof.
  intros HT Hr [E|(? & ? & ? & Hw)]; [by rewrite E in Hr|right].
  rewrite bool_decide_true in Hw by done. unfold dispatched.
  destruct (Z.ltb_spec 0 (p_last_runnable_time pr)); simpl in *.
  - rewrite (u32_small (T - _)), u32_small by lia. repeat split; try lia.
  - repeat split; lia.
Qed.

Lemma slot_allocated T pid pr : 0 <= T -> slot_ok T (allocated pid T pr).
Proof. intros ?. right. simpl. repeat split; lia. Qed.

Lemma slot_same T pr st :
  p_state pr <> UNUSED -> p_state pr <> RUNNABLE -> st <> RUNNABLE ->
  forall ch, slot_ok T pr -> slot_ok T (set_p_state st (set_p_chan ch pr)).
Proof.
  intros Hu Hr Hst ch [?|(? & ? & ? & Hw)]; [done|right]; simpl.
  rewrite bool_decide_false in Hw by done. rewrite bool_decide_false by done. done.
Qed.

(** ** The invariant *)

Lemma inv_change s m f :
  inv s -> noff_ok m -> table_unlocked m -> lock_free m metrics_lock ->
  (forall p, slot_ok (ps_ticks s) (f p)) -> inv (set_pmach m (set_ps_procs f s)).
Proof. intros []; by constructor. Qed.

Lemma inv_tidied s f :
  inv s -> (forall p, slot_ok (ps_ticks s) (f p)) -> inv (set_pmach (tidy (pmach s)) (set_ps_procs f s)).
Proof.
  intros Hs Hf. apply inv_change; try done.
  - apply noff_ok_tidy, Hs.
  - apply table_unlocked_tidy, Hs.
  - apply lock_free_tidy, Hs.
Qed.

Lemma inv_slot p g s : inv s -> slot_ok (ps_ticks s) (g (ps_procs s p)) -> inv (set_slot p g s).
Proof.
  intros Hs Hg. unfold set_slot. rewrite <-(set_pmach_id (set_ps_procs _ s)).
  apply inv_change; [done|apply Hs..|].
  intros q. destruct (decide (p = q)) as [<-|].
  - by rewrite fn_lookup_insert.
  - rewrite fn_lookup_insert_ne by done. apply Hs.
Qed.

Lemma inv_dispatch c p s : inv s -> p_state (ps_procs s p) = RUNNABLE -> inv (running_on c p s).
Proof.
  intros Hs Hr. unfold running_on. apply inv_change; try done.
  - destruct (inv_noff _ Hs) as [? ?]. unfold noff_ok. by rewrite cpu_runs_this.
  - apply Hs.
  - apply Hs.
  - intros q. destruct (decide (p = q)) as [<-|].
    + rewrite fn_lookup_insert. apply slot_dispatched; [apply Hs|done|apply Hs].
    + rewrite fn_lookup_insert_ne by done. apply Hs.
Qed.

Lemma inv_account p s :
  inv s -> p_state (ps_procs s p) = RUNNING -> ps_finished s < 2 ^ 32 - 1 ->
  inv (set_pmach (tidy (pmach s)) (account (ps_procs s p) s)).
Proof.
  intros Hs Hr Hf. pose proof (inv_tidied s (ps_procs s) Hs (inv_slots _ Hs)) as Ht.
  destruct (inv_slots _ Hs p) as [E|(Hc & Hl & Hw0 & Hw)]; [by rewrite E in Hr|].
  rewrite bool_decide_false in Hw by (by rewrite Hr). simpl in Hw.
  destruct (inv_ticks _ Hs) as [? ?]. destruct (inv_waiting _ Hs) as [? ?].
  destruct (inv_finished _ Hs) as [? ?]. pose proof (inv_turnaround _ Hs) as Htt.
  constructor; try apply Ht; simpl; rewrite ?(u32_small (_ - _)), !u64_small by lia; lia.
Qed.

Lemma inv_kill pid r s s' : inv s -> kill pid s = Ok r s' -> inv s'.
Proof.
  intros Hs E. destruct (kill_eq pid s (inv_noff _ Hs) (inv_table _ Hs)) as [Hsome Hnone].
  destruct (first_slot (fun i => p_pid (ps_procs s i) =? pid) NPROC) as [(i & Hi & Ec & Hj)|Hno].
  - rewrite (Hsome i) in E; [|done|by apply Z.eqb_eq|].
    2:{ intros j ?. by apply Z.eqb_neq, Hj. }
    injection E as <- <-. apply inv_tidied; [done|]. intros q. destruct (decide (i = q)) as [<-|].
    + rewrite fn_lookup_insert. apply slot_killed; apply Hs.
    + rewrite fn_lookup_insert_ne by done. apply Hs.
  - rewrite Hnone in E by (intros i ?; by apply Z.eqb_neq, Hno). injection E as <- <-.
    rewrite <-(set_procs_id s) at 2. apply inv_tidied; [done|]. apply Hs.
Qed.

Lemma inv_event s s' : inv s -> step s s' -> inv s'.
Proof.
  intros Hs Hst. pose proof (inv_ticks _ Hs) as HT.
  assert (Hnr : forall p st, p_state (ps_procs s p) = st -> st <> UNUSED -> st <> RUNNABLE ->
    p_state (ps_procs s p) <> UNUSED /\ p_state (ps_procs s p) <> RUNNABLE) by (by intros * <-).
  destruct Hst as [s Hb|s s' E|ch s s' E|pid r s s' E|c p s s' Hp E|p s Hp|p ch s Hp
    |p pid s Hp|p s Hp|p s s' Hp Hf E|p s Hp|pol s].
  - rewrite u32_small by lia. destruct Hs. constructor; simpl; try done; try lia.
    intros p. by apply slot_tick.
  - destruct (update_time_eq s) as (f & E' & Hf); [apply Hs|apply Hs|].
    rewrite E in E'. injection E' as ->. apply inv_tidied; [done|]. intros p. rewrite Hf.
    case_decide; [apply slot_ticked|]; apply Hs.
  - destruct (wakeup_eq ch s) as (f & E' & Hf); [apply Hs|apply Hs|].
    rewrite E in E'. injection E' as ->. apply inv_tidied; [done|]. intros p. rewrite Hf.
    case_decide; [|apply Hs]. destruct (asleep_on ch (ps_procs s p)) eqn:Ea; [|apply Hs].
    unfold asleep_on in Ea. apply slot_woken; [lia| | |apply Hs]; by destruct (p_state (ps_procs s p)).
  - by apply (inv_kill pid r s).
  - rewrite start_running_eq in E. injection E as <-. by apply inv_dispatch.
  - destruct (Hnr p _ Hp) as [? ?]; try done. apply inv_slot, slot_woken; try done; [lia|apply Hs].
  - destruct (Hnr p _ Hp) as [? ?]; try done. apply inv_slot, slot_same; try done. apply Hs.
  - apply inv_slot, slot_allocated; [done|lia].
  - destruct (Hnr p _ Hp) as [? ?]; try done. apply inv_slot, slot_woken; try done; [lia|apply Hs].
  - rewrite exit_metrics_eq in E by apply Hs. injection E as <-.
    pose proof (inv_account p s Hs Hp Hf) as Ha. apply inv_slot; [done|].
    destruct (Hnr p _ Hp) as [? ?]; try done.
    apply (slot_same _ _ ZOMBIE ltac:(done) ltac:(done) ltac:(done) (p_chan (ps_procs s p)) (inv_slots _ Hs p)).
  - apply inv_slot; [done|]. by left.
  - pose proof (inv_tidied s (ps_procs s) Hs (inv_slots _ Hs)) as Ht.
    constructor; try apply Ht; simpl; lia.
Qed.

Lemma inv_booted s : booted s -> inv s.
Proof.
  intros []. constructor; try done; try lia. intros p. by left.
Qed.


(** A process that is created, waits for two ticks, runs for one and exits. *)
Definition boot0 : pst :=
  mkPst (mkKmem mach0 (fun _ => 0) page0) (fun _ => proc0) None 1 0 SCHED_FCFS 0 0 0 true false [].

Lemma boot0_booted : booted boot0.
Proof. by constructor. Qed.

Lemma history0 : exists s', rtc step boot0 s' /\ ps_turnaround s' = 3 /\ ps_waiting s' = 2.
Proof.
  eexists. split.
  - eapply rtc_l; [by apply step_tick|]. eapply rtc_l; [by apply (step_alloc 0 1)|].
    eapply rtc_l; [by apply (step_start 0)|].
    eapply rtc_l; [by apply step_tick|]. eapply rtc_l; [by apply step_tick|].
    eapply rtc_l; [apply (step_dispatch 0 0); [done|apply start_running_eq]|].
    eapply rtc_l; [by apply step_tick|].
    eapply rtc_l; [apply (step_exit 0); [done|done|apply exit_metrics_eq; [split; simpl; lia|done]]|].
    apply rtc_refl.
  - split; reflexivity.
Qed.


End Accounting.
