(* ===== verification/Datetime.v ===== *)
(** The calendar of kernel/sysutil.c: [unix_to_datetime] turns a UNIX time
    into a Cairo date and time of day. *)

From Stdlib Require Import ZArith Lia List String Bool.
From stdpp Require Import base tactics numbers list.
From S2P Require Import Prelude.

(** * Operations *)

Definition CAIRO_OFFSET : Z := 2 * 3600.

Record datetime := mkDatetime {
  dt_year : Z; dt_month : Z; dt_day : Z;
  dt_hour : Z; dt_minute : Z; dt_second : Z; dt_weekday : Z
}.

Definition month_days : list Z := [31; 28; 31; 30; 31; 30; 31; 31; 30; 31; 30; 31].

Definition is_leap_year (year : Z) : bool :=
  ((year mod 4 =? 0) && negb (year mod 100 =? 0)) || (year mod 400 =? 0).

Definition days_in_year (year : Z) : Z := if is_leap_year year then 366 else 365.

(** [month_days[month]], 29 for February of a leap year. *)
Definition days_in_month (year month : Z) : Z :=
  if (month =? 1) && is_leap_year year then 29 else nth (Z.to_nat month) month_days 0.

(** The [while(1)]: the year and the days left of it. *)
Fixpoint year_loop (fuel : nat) (days year : Z) : option (Z * Z) :=
  match fuel with
  | O => None
  | S f => if days <? days_in_year year then Some (year, days)
           else year_loop f (days - days_in_year year) (year + 1)
  end.

(** [for(month = 0; month < 12; month++)]: the month and the days left of it. *)
Fixpoint month_loop (k : nat) (year month days : Z) : Z * Z :=
  match k with
  | O => (month, days)
  | S k' => if days <? days_in_month year month then (month, days)
            else month_loop k' year (month + 1) (days - days_in_month year month)
  end.

(** The year loop runs at most once per 365 days. *)
Definition unix_to_datetime (timestamp : Z) : option datetime :=
  let timestamp := u64 (timestamp + CAIRO_OFFSET) in
  let weekday := (timestamp / 86400 + 4) mod 7 in
  let days := timestamp / 86400 in
  match year_loop (S (Z.to_nat (days / 365))) days 1970 with
  | None => None
  | Some (year, days) =>
      let r := month_loop 12 year 0 days in
      let secs_in_day := timestamp mod 86400 in
      Some (mkDatetime year (fst r + 1) (snd r + 1) (secs_in_day / 3600)
              (secs_in_day mod 3600 / 60) (secs_in_day mod 60) weekday)
  end.

(** * Specification: the proleptic Gregorian calendar *)

(** Leap days in the years before [year]. *)
Definition leaps_before (year : Z) : Z :=
  (year - 1) / 4 - (year - 1) / 100 + (year - 1) / 400.

(** Days from 1970-01-01 to January 1 of [year]. *)
Definition year_start (year : Z) : Z :=
  365 * (year - 1970) + (leaps_before year - leaps_before 1970).

(** Days from January 1 of [year] to the first of the month. *)
Definition month_start (year month : Z) : Z :=
  nth (Z.to_nat (month - 1)) [0; 31; 59; 90; 120; 151; 181; 212; 243; 273; 304; 334] 0 +
  (if (2 <? month) && is_leap_year year then 1 else 0).

Definition civil_days (d : datetime) : Z :=
  year_start (dt_year d) + month_start (dt_year d) (dt_month d) + (dt_day d - 1).

Definition civil_seconds (d : datetime) : Z :=
  86400 * civil_days d + 3600 * dt_hour d + 60 * dt_minute d + dt_second d.

Record valid_date (d : datetime) : Prop := {
  vd_year : 1970 <= dt_year d;
  vd_month : 1 <= dt_month d <= 12;
  vd_day : 1 <= dt_day d <= days_in_month (dt_year d) (dt_month d - 1);
  vd_hour : 0 <= dt_hour d < 24;
  vd_minute : 0 <= dt_minute d < 60;
  vd_second : 0 <= dt_second d < 60
}.

(** * Lemmas *)

Lemma days_in_year_bound y : 365 <= days_in_year y <= 366.
Proof. unfold days_in_year. case_match; lia. Qed.

(** A quotient steps exactly at the multiples of the divisor. *)
Lemma div_step y k : 0 < k -> y / k - (y - 1) / k = if y mod k =? 0 then 1 else 0.
Proof.
  intros Hk. pose proof (Z.div_mod y k ltac:(lia)) as E. pose proof (Z.mod_pos_bound y k Hk).
  destruct (Z.eqb_spec (y mod k) 0) as [Hm|Hm].
  - rewrite <-(Z.div_unique (y - 1) k (y / k - 1) (k - 1)); lia.
  - rewrite <-(Z.div_unique (y - 1) k (y / k) (y mod k - 1)); lia.
Qed.

Lemma mod_dvd y a b : 0 < a -> 0 < b -> y mod (a * b) = 0 -> y mod a = 0.
Proof.
  intros ? ? Hm. apply Z.mod_divide in Hm; [|lia]. apply Z.mod_divide; [lia|].
  etransitivity; [|exact Hm]. apply Z.divide_factor_l.
Qed.

Lemma year_start_step y : year_start (y + 1) = year_start y + days_in_year y.
Proof.
  unfold year_start, leaps_before, days_in_year, is_leap_year. replace (y + 1 - 1) with y by lia.
  pose proof (div_step y 4 ltac:(lia)). pose proof (div_step y 100 ltac:(lia)).
  pose proof (div_step y 400 ltac:(lia)).
  pose proof (mod_dvd y 4 25 ltac:(lia) ltac:(lia)) as H4.
  pose proof (mod_dvd y 100 4 ltac:(lia) ltac:(lia)) as H100.
  change (4 * 25) with 100 in H4. change (100 * 4) with 400 in H100.
  destruct (Z.eqb_spec (y mod 4) 0), (Z.eqb_spec (y mod 100) 0), (Z.eqb_spec (y mod 400) 0);
    simpl; lia.
Qed.

Lemma year_loop_spec fuel days year :
  0 <= days -> days / 365 < Z.of_nat fuel ->
  exists y d, year_loop fuel days year = Some (y, d) /\ year <= y /\
    0 <= d < days_in_year y /\ year_start y + d = year_start year + days.
Proof.
  revert days year. induction fuel as [|f IH]; intros days year Hd Hf.
  - pose proof (Z.div_pos days 365). lia.
  - cbn [year_loop]. pose proof (days_in_year_bound year).
    destruct (Z.ltb_spec days (days_in_year year)).
    + exists year, days. split; [done|]. lia.
    + destruct (IH (days - days_in_year year) (year + 1)) as (y & d & E & ? & ? & Hs); [lia| |].
      * assert ((days - days_in_year year) / 365 <= (days - 1 * 365) / 365)
          by (apply Z.div_le_mono; lia).
        replace (days - 1 * 365) with (days + (-1) * 365) in * by lia.
        rewrite Z.div_add in * by lia. lia.
      * exists y, d. rewrite year_start_step in Hs. split; [done|]. lia.
Qed.

(** The twelve iterations, one after the other. *)
Lemma month_loop_spec year days :
  0 <= days < days_in_year year ->
  exists m d, month_loop 12 year 0 days = (m, d) /\ 0 <= m < 12 /\
    0 <= d < days_in_month year m /\ month_start year (m + 1) + d = days.
Proof.
  intros [H0 Hd]. unfold days_in_year in Hd.
  assert (Hcase : forall m d, 0 <= m < 12 -> 0 <= d < days_in_month year m ->
    days = month_start year (m + 1) + d ->
    exists m' d', (m, d) = (m', d') /\ 0 <= m' < 12 /\ 0 <= d' < days_in_month year m' /\
      month_start year (m' + 1) + d' = days) by (intros m d ? ? ->; by exists m, d).
  unfold month_loop.
  repeat match goal with
  | |- context [?a <? ?b] =>
      destruct (Z.ltb_spec a b);
      [apply Hcase; [lia|split; [|done]|];
       unfold days_in_month, month_start in *; simpl in *;
       destruct (is_leap_year year); simpl in *; lia|]
  end.
  exfalso. unfold days_in_month in *; simpl in *. destruct (is_leap_year year); simpl in *; lia.
Qed.


