(* ===== verification/Kstate.v ===== *)
(** The kernel's state above the process table: the structures of
    kernel/sleeplock.h, kernel/buf.h, kernel/fs.h, kernel/file.h, kernel/log.c,
    kernel/pipe.c, kernel/console.c and kernel/uart.c, and the accessors that
    the components share.

    Pointers to array elements are indices.  A disk block is the list of its
    bytes; [splice], [le_get] and [le_put] are the C accesses to fields of a
    structure that overlays it.  The writes to the disk are recorded in order,
    so that the contents at a crash between any two of them can be stated. *)

From Stdlib Require Import ZArith Lia List String Bool.
From stdpp Require Import base tactics numbers list functions.
From S2P Require Import Prelude.
From S2P Require Import Abi.
From S2P Require Import Spinlock.
From S2P Require Import Cstring.
From S2P Require Import Kalloc.
From S2P Require Import Vm.
From S2P Require Import Proc.
From S2P Require Import Sched.

(** * Constants *)

Definition NFILE : nat := 100.
Definition NINODE : nat := 50.
Definition NDEV : Z := 10.
Definition ROOTDEV : Z := 1.
Definition MAXARG : nat := 32.
Definition MAXOPBLOCKS : Z := 10.
Definition LOGSIZE : Z := MAXOPBLOCKS * 3.
Definition NBUF : nat := 30.
Definition MAXPATH : Z := 128.
Definition USERSTACK : Z := 1.

Definition PIPESIZE : Z := 512.
Definition INPUT_BUF_SIZE : Z := 128.
Definition UART_TX_BUF_SIZE : Z := 32.

(** * Bytes of a structure *)

(** Overwrite the bytes of [l] from [off] on with [bs]. *)
Definition splice (off : Z) (bs l : list Z) : list Z :=
  take (Z.to_nat off) l ++ bs ++ drop (Z.to_nat off + length bs) l.

(** The [n] bytes of [l] at [off]. *)
Definition slice (off n : Z) (l : list Z) : list Z := take (Z.to_nat n) (drop (Z.to_nat off) l).

(** Little-endian integers. *)
Fixpoint le_val (l : list Z) : Z :=
  match l with
  | [] => 0
  | b :: l' => b + 2 ^ 8 * le_val l'
  end.
Fixpoint le_bytes (n : nat) (v : Z) : list Z :=
  match n with
  | O => []
  | S n' => u8 v :: le_bytes n' (v / 2 ^ 8)
  end.
Definition le_get (n off : Z) (l : list Z) : Z := le_val (slice off n l).
Definition le_put (n off v : Z) (l : list Z) : list Z := splice off (le_bytes (Z.to_nat n) v) l.

(** An element of an array. *)
Definition at_Z (l : list Z) (i : Z) : Z := nth (Z.to_nat i) l 0.

(** * Data *)

(** The sleep locks, each in the structure it protects. *)
Inductive slid : Type :=
| sl_buf (b : nat)
| sl_inode (i : nat).

#[export] Instance slid_eq_dec : EqDecision slid.
Proof. solve_decision. Defined.

(** [struct sleeplock]; its [lk] is [slid_lock] in the lock table and its
    address, as a channel, is [slid_chan]. *)
Record sleeplock := mkSleeplock {
  sl_locked : bool;
  sl_name : string;
  sl_pid : Z            (* process holding lock *)
}.

Definition slid_lock (l : slid) : lockid :=
  match l with sl_buf b => buf_sleep_lk b | sl_inode i => inode_sleep_lk i end.
Definition slid_chan (l : slid) : chan :=
  match l with sl_buf b => ch_buf_lock b | sl_inode i => ch_inode_lock i end.

(** The type field of [struct file]. *)
Inductive ftype := FD_NONE | FD_PIPE | FD_INODE | FD_DEVICE.


(** [struct buf]. *)
Record buf := mkBuf {
  b_valid : bool;   (* has data been read from disk? *)
  b_dev : Z;
  b_blockno : Z;
  b_refcnt : Z;
  b_prev : nat;   (* LRU cache list *)
  b_next : nat;
  b_data : list Z
}.

(** [struct log] with its [struct logheader]; the lock is [log_lock]. *)
Record log := mkLog {
  lg_start : Z;
  lg_size : Z;
  lg_outstanding : Z;   (* how many FS sys calls are executing *)
  lg_committing : bool;   (* in commit(), please wait *)
  lg_dev : Z;
  lg_n : Z;   (* lh.n *)
  lg_block : list Z   (* lh.block *)
}.

(** [struct superblock]. *)
Record superblock := mkSuperblock {
  sb_magic : Z;
  sb_size : Z;
  sb_nblocks : Z;
  sb_ninodes : Z;
  sb_nlog : Z;
  sb_logstart : Z;
  sb_inodestart : Z;
  sb_bmapstart : Z
}.

(** The in-memory [struct inode]. *)
Record inode := mkInode {
  i_dev : Z;
  i_inum : Z;
  i_ref : Z;
  i_valid : bool;   (* inode has been read from disk? *)
  i_type : Z;
  i_major : Z;
  i_minor : Z;
  i_nlink : Z;
  i_size : Z;
  i_addrs : list Z   (* NDIRECT + 1 of them *)
}.

(** [struct file]. *)
Record file := mkFile {
  f_type : ftype;
  f_ref : Z;
  f_readable : bool;
  f_writable : bool;
  f_pipe : Z;   (* address of the struct pipe *)
  f_ip : option nat;
  f_off : Z;
  f_major : Z
}.

(** [struct pipe]; the lock is [pipe_lock] of its address. *)
Record pipe := mkPipe {
  pi_data : list Z;   (* PIPESIZE bytes *)
  pi_nread : Z;   (* number of bytes read *)
  pi_nwrite : Z;   (* number of bytes written *)
  pi_readopen : bool;
  pi_writeopen : bool
}.

(** The console's [cons] with the fork's interrupt counter. *)
Record cons := mkCons {
  cons_buf : list Z;   (* INPUT_BUF_SIZE bytes *)
  cons_r : Z;   (* read index *)
  cons_w : Z;   (* write index *)
  cons_e : Z;   (* edit index *)
  kbd_intr_count : Z
}.

(** The UART driver's ring, and the device it drives. *)
Record uart := mkUart {
  tx_buf : list Z;   (* UART_TX_BUF_SIZE bytes *)
  tx_w : Z;   (* uart_tx_w *)
  tx_r : Z;   (* uart_tx_r *)
  lsr_idle : list bool;   (* the next readings of LSR_TX_IDLE; true when exhausted *)
  rx_fifo : list Z;   (* bytes that have arrived and wait in RHR *)
  uart_ctl : list (Z * Z)   (* the writes to the control registers, in order *)
}.

(** The supervisor registers that trap.c uses, the interrupts that the PLIC
    has pending and the clock. *)
Record csrs := mkCsrs {
  r_sepc : Z;
  r_scause : Z;
  r_stval : Z;
  r_spp : bool;   (* sstatus.SPP *)
  r_spie : bool;   (* sstatus.SPIE *)
  r_stvec : Z;
  r_satp : Z;
  r_time : Z;
  r_stimecmp : Z;
  r_irq : list Z;   (* what plic_claim returns next; 0 when exhausted *)
  r_plic : Z -> Z   (* the other PLIC registers, by address *)
}.

(** The handlers that devsw connects. *)
Inductive device := dev_console.

(** The kernel's state: every global variable and device that the kernel above
    the process table uses. *)
Record ks := mkKs {
  k_ps : pst;
  k_sleep : slid -> sleeplock;
  k_bufs : nat -> buf;   (* bcache.buf, and bcache.head at NBUF *)
  k_disk : Z -> list Z;   (* the blocks of the disk *)
  k_writes : list (Z * list Z);   (* the disk writes so far, oldest first *)
  k_log : log;
  k_sb : superblock;
  k_inodes : nat -> inode;   (* itable.inode *)
  k_files : nat -> file;   (* ftable.file *)
  k_pipes : Z -> pipe;   (* by address *)
  k_cons : cons;
  k_uart : uart;
  k_devsw : Z -> option device;
  k_first : bool;   (* first of forkret *)
  k_seed : Z;   (* seed of sysutil.c *)
  k_csr : csrs;
  k_kernel_pagetable : Z;
  k_total_syscalls : Z
}.

(** ** Assignments to the fields *)

Definition set_b_valid (v : bool) (b : buf) : buf :=
  mkBuf v (b_dev b) (b_blockno b) (b_refcnt b) (b_prev b) (b_next b) (b_data b).
Definition set_b_dev (v : Z) (b : buf) : buf :=
  mkBuf (b_valid b) v (b_blockno b) (b_refcnt b) (b_prev b) (b_next b) (b_data b).
Definition set_b_blockno (v : Z) (b : buf) : buf :=
  mkBuf (b_valid b) (b_dev b) v (b_refcnt b) (b_prev b) (b_next b) (b_data b).
Definition set_b_refcnt (v : Z) (b : buf) : buf :=
  mkBuf (b_valid b) (b_dev b) (b_blockno b) v (b_prev b) (b_next b) (b_data b).
Definition set_b_prev (v : nat) (b : buf) : buf :=
  mkBuf (b_valid b) (b_dev b) (b_blockno b) (b_refcnt b) v (b_next b) (b_data b).
Definition set_b_next (v : nat) (b : buf) : buf :=
  mkBuf (b_valid b) (b_dev b) (b_blockno b) (b_refcnt b) (b_prev b) v (b_data b).
Definition set_b_data (v : list Z) (b : buf) : buf :=
  mkBuf (b_valid b) (b_dev b) (b_blockno b) (b_refcnt b) (b_prev b) (b_next b) v.

Definition set_lg_start (v : Z) (l : log) : log :=
  mkLog v (lg_size l) (lg_outstanding l) (lg_committing l) (lg_dev l) (lg_n l)
    (lg_block l).
Definition set_lg_size (v : Z) (l : log) : log :=
  mkLog (lg_start l) v (lg_outstanding l) (lg_committing l) (lg_dev l) (lg_n l)
    (lg_block l).
Definition set_lg_outstanding (v : Z) (l : log) : log :=
  mkLog (lg_start l) (lg_size l) v (lg_committing l) (lg_dev l) (lg_n l) (lg_block l).
Definition set_lg_committing (v : bool) (l : log) : log :=
  mkLog (lg_start l) (lg_size l) (lg_outstanding l) v (lg_dev l) (lg_n l) (lg_block l).
Definition set_lg_dev (v : Z) (l : log) : log :=
  mkLog (lg_start l) (lg_size l) (lg_outstanding l) (lg_committing l) v (lg_n l)
    (lg_block l).
Definition set_lg_n (v : Z) (l : log) : log :=
  mkLog (lg_start l) (lg_size l) (lg_outstanding l) (lg_committing l) (lg_dev l) v
    (lg_block l).
Definition set_lg_block (v : list Z) (l : log) : log :=
  mkLog (lg_start l) (lg_size l) (lg_outstanding l) (lg_committing l) (lg_dev l)
    (lg_n l) v.

Definition set_i_dev (v : Z) (i : inode) : inode :=
  mkInode v (i_inum i) (i_ref i) (i_valid i) (i_type i) (i_major i) (i_minor i)
    (i_nlink i) (i_size i) (i_addrs i).
Definition set_i_inum (v : Z) (i : inode) : inode :=
  mkInode (i_dev i) v (i_ref i) (i_valid i) (i_type i) (i_major i) (i_minor i)
    (i_nlink i) (i_size i) (i_addrs i).
Definition set_i_ref (v : Z) (i : inode) : inode :=
  mkInode (i_dev i) (i_inum i) v (i_valid i) (i_type i) (i_major i) (i_minor i)
    (i_nlink i) (i_size i) (i_addrs i).
Definition set_i_valid (v : bool) (i : inode) : inode :=
  mkInode (i_dev i) (i_inum i) (i_ref i) v (i_type i) (i_major i) (i_minor i)
    (i_nlink i) (i_size i) (i_addrs i).
Definition set_i_type (v : Z) (i : inode) : inode :=
  mkInode (i_dev i) (i_inum i) (i_ref i) (i_valid i) v (i_major i) (i_minor i)
    (i_nlink i) (i_size i) (i_addrs i).
Definition set_i_major (v : Z) (i : inode) : inode :=
  mkInode (i_dev i) (i_inum i) (i_ref i) (i_valid i) (i_type i) v (i_minor i)
    (i_nlink i) (i_size i) (i_addrs i).
Definition set_i_minor (v : Z) (i : inode) : inode :=
  mkInode (i_dev i) (i_inum i) (i_ref i) (i_valid i) (i_type i) (i_major i) v
    (i_nlink i) (i_size i) (i_addrs i).
Definition set_i_nlink (v : Z) (i : inode) : inode :=
  mkInode (i_dev i) (i_inum i) (i_ref i) (i_valid i) (i_type i) (i_major i) (i_minor i)
    v (i_size i) (i_addrs i).
Definition set_i_size (v : Z) (i : inode) : inode :=
  mkInode (i_dev i) (i_inum i) (i_ref i) (i_valid i) (i_type i) (i_major i) (i_minor i)
    (i_nlink i) v (i_addrs i).
Definition set_i_addrs (v : list Z) (i : inode) : inode :=
  mkInode (i_dev i) (i_inum i) (i_ref i) (i_valid i) (i_type i) (i_major i) (i_minor i)
    (i_nlink i) (i_size i) v.

Definition set_f_type (v : ftype) (f : file) : file :=
  mkFile v (f_ref f) (f_readable f) (f_writable f) (f_pipe f) (f_ip f) (f_off f)
    (f_major f).
Definition set_f_ref (v : Z) (f : file) : file :=
  mkFile (f_type f) v (f_readable f) (f_writable f) (f_pipe f) (f_ip f) (f_off f)
    (f_major f).
Definition set_f_readable (v : bool) (f : file) : file :=
  mkFile (f_type f) (f_ref f) v (f_writable f) (f_pipe f) (f_ip f) (f_off f) (f_major f).
Definition set_f_writable (v : bool) (f : file) : file :=
  mkFile (f_type f) (f_ref f) (f_readable f) v (f_pipe f) (f_ip f) (f_off f) (f_major f).
Definition set_f_pipe (v : Z) (f : file) : file :=
  mkFile (f_type f) (f_ref f) (f_readable f) (f_writable f) v (f_ip f) (f_off f)
    (f_major f).
Definition set_f_ip (v : option nat) (f : file) : file :=
  mkFile (f_type f) (f_ref f) (f_readable f) (f_writable f) (f_pipe f) v (f_off f)
    (f_major f).
Definition set_f_off (v : Z) (f : file) : file :=
  mkFile (f_type f) (f_ref f) (f_readable f) (f_writable f) (f_pipe f) (f_ip f) v
    (f_major f).
Definition set_f_major (v : Z) (f : file) : file :=
  mkFile (f_type f) (f_ref f) (f_readable f) (f_writable f) (f_pipe f) (f_ip f)
    (f_off f) v.

Definition set_pi_data (v : list Z) (pi : pipe) : pipe :=
  mkPipe v (pi_nread pi) (pi_nwrite pi) (pi_readopen pi) (pi_writeopen pi).
Definition set_pi_nread (v : Z) (pi : pipe) : pipe :=
  mkPipe (pi_data pi) v (pi_nwrite pi) (pi_readopen pi) (pi_writeopen pi).
Definition set_pi_nwrite (v : Z) (pi : pipe) : pipe :=
  mkPipe (pi_data pi) (pi_nread pi) v (pi_readopen pi) (pi_writeopen pi).
Definition set_pi_readopen (v : bool) (pi : pipe) : pipe :=
  mkPipe (pi_data pi) (pi_nread pi) (pi_nwrite pi) v (pi_writeopen pi).
Definition set_pi_writeopen (v : bool) (pi : pipe) : pipe :=
  mkPipe (pi_data pi) (pi_nread pi) (pi_nwrite pi) (pi_readopen pi) v.

Definition set_cons_buf (v : list Z) (c : cons) : cons :=
  mkCons v (cons_r c) (cons_w c) (cons_e c) (kbd_intr_count c).
Definition set_cons_r (v : Z) (c : cons) : cons :=
  mkCons (cons_buf c) v (cons_w c) (cons_e c) (kbd_intr_count c).
Definition set_cons_w (v : Z) (c : cons) : cons :=
  mkCons (cons_buf c) (cons_r c) v (cons_e c) (kbd_intr_count c).
Definition set_cons_e (v : Z) (c : cons) : cons :=
  mkCons (cons_buf c) (cons_r c) (cons_w c) v (kbd_intr_count c).
Definition set_kbd_intr_count (v : Z) (c : cons) : cons :=
  mkCons (cons_buf c) (cons_r c) (cons_w c) (cons_e c) v.

Definition set_tx_buf (v : list Z) (u : uart) : uart :=
  mkUart v (tx_w u) (tx_r u) (lsr_idle u) (rx_fifo u) (uart_ctl u).
Definition set_tx_w (v : Z) (u : uart) : uart :=
  mkUart (tx_buf u) v (tx_r u) (lsr_idle u) (rx_fifo u) (uart_ctl u).
Definition set_tx_r (v : Z) (u : uart) : uart :=
  mkUart (tx_buf u) (tx_w u) v (lsr_idle u) (rx_fifo u) (uart_ctl u).
Definition set_lsr_idle (v : list bool) (u : uart) : uart :=
  mkUart (tx_buf u) (tx_w u) (tx_r u) v (rx_fifo u) (uart_ctl u).
Definition set_rx_fifo (v : list Z) (u : uart) : uart :=
  mkUart (tx_buf u) (tx_w u) (tx_r u) (lsr_idle u) v (uart_ctl u).
Definition set_uart_ctl (v : list (Z * Z)) (u : uart) : uart :=
  mkUart (tx_buf u) (tx_w u) (tx_r u) (lsr_idle u) (rx_fifo u) v.

Definition set_r_sepc (v : Z) (c : csrs) : csrs :=
  mkCsrs v (r_scause c) (r_stval c) (r_spp c) (r_spie c) (r_stvec c) (r_satp c)
    (r_time c) (r_stimecmp c) (r_irq c) (r_plic c).
Definition set_r_scause (v : Z) (c : csrs) : csrs :=
  mkCsrs (r_sepc c) v (r_stval c) (r_spp c) (r_spie c) (r_stvec c) (r_satp c) (r_time c)
    (r_stimecmp c) (r_irq c) (r_plic c).
Definition set_r_stval (v : Z) (c : csrs) : csrs :=
  mkCsrs (r_sepc c) (r_scause c) v (r_spp c) (r_spie c) (r_stvec c) (r_satp c)
    (r_time c) (r_stimecmp c) (r_irq c) (r_plic c).
Definition set_r_spp (v : bool) (c : csrs) : csrs :=
  mkCsrs (r_sepc c) (r_scause c) (r_stval c) v (r_spie c) (r_stvec c) (r_satp c)
    (r_time c) (r_stimecmp c) (r_irq c) (r_plic c).
Definition set_r_spie (v : bool) (c : csrs) : csrs :=
  mkCsrs (r_sepc c) (r_scause c) (r_stval c) (r_spp c) v (r_stvec c) (r_satp c)
    (r_time c) (r_stimecmp c) (r_irq c) (r_plic c).
Definition set_r_stvec (v : Z) (c : csrs) : csrs :=
  mkCsrs (r_sepc c) (r_scause c) (r_stval c) (r_spp c) (r_spie c) v (r_satp c)
    (r_time c) (r_stimecmp c) (r_irq c) (r_plic c).
Definition set_r_satp (v : Z) (c : csrs) : csrs :=
  mkCsrs (r_sepc c) (r_scause c) (r_stval c) (r_spp c) (r_spie c) (r_stvec c) v
    (r_time c) (r_stimecmp c) (r_irq c) (r_plic c).
Definition set_r_time (v : Z) (c : csrs) : csrs :=
  mkCsrs (r_sepc c) (r_scause c) (r_stval c) (r_spp c) (r_spie c) (r_stvec c) (r_satp c)
    v (r_stimecmp c) (r_irq c) (r_plic c).
Definition set_r_stimecmp (v : Z) (c : csrs) : csrs :=
  mkCsrs (r_sepc c) (r_scause c) (r_stval c) (r_spp c) (r_spie c) (r_stvec c) (r_satp c)
    (r_time c) v (r_irq c) (r_plic c).
Definition set_r_irq (v : list Z) (c : csrs) : csrs :=
  mkCsrs (r_sepc c) (r_scause c) (r_stval c) (r_spp c) (r_spie c) (r_stvec c) (r_satp c)
    (r_time c) (r_stimecmp c) v (r_plic c).
Definition set_r_plic (v : Z -> Z) (c : csrs) : csrs :=
  mkCsrs (r_sepc c) (r_scause c) (r_stval c) (r_spp c) (r_spie c) (r_stvec c) (r_satp c)
    (r_time c) (r_stimecmp c) (r_irq c) v.

Definition set_k_ps (v : pst) (k : ks) : ks :=
  mkKs v (k_sleep k) (k_bufs k) (k_disk k) (k_writes k) (k_log k) (k_sb k) (k_inodes k)
    (k_files k) (k_pipes k) (k_cons k) (k_uart k) (k_devsw k) (k_first k) (k_seed k)
    (k_csr k) (k_kernel_pagetable k) (k_total_syscalls k).
Definition set_k_sleep (v : slid -> sleeplock) (k : ks) : ks :=
  mkKs (k_ps k) v (k_bufs k) (k_disk k) (k_writes k) (k_log k) (k_sb k) (k_inodes k)
    (k_files k) (k_pipes k) (k_cons k) (k_uart k) (k_devsw k) (k_first k) (k_seed k)
    (k_csr k) (k_kernel_pagetable k) (k_total_syscalls k).
Definition set_k_bufs (v : nat -> buf) (k : ks) : ks :=
  mkKs (k_ps k) (k_sleep k) v (k_disk k) (k_writes k) (k_log k) (k_sb k) (k_inodes k)
    (k_files k) (k_pipes k) (k_cons k) (k_uart k) (k_devsw k) (k_first k) (k_seed k)
    (k_csr k) (k_kernel_pagetable k) (k_total_syscalls k).
Definition set_k_disk (v : Z -> list Z) (k : ks) : ks :=
  mkKs (k_ps k) (k_sleep k) (k_bufs k) v (k_writes k) (k_log k) (k_sb k) (k_inodes k)
    (k_files k) (k_pipes k) (k_cons k) (k_uart k) (k_devsw k) (k_first k) (k_seed k)
    (k_csr k) (k_kernel_pagetable k) (k_total_syscalls k).
Definition set_k_writes (v : list (Z * list Z)) (k : ks) : ks :=
  mkKs (k_ps k) (k_sleep k) (k_bufs k) (k_disk k) v (k_log k) (k_sb k) (k_inodes k)
    (k_files k) (k_pipes k) (k_cons k) (k_uart k) (k_devsw k) (k_first k) (k_seed k)
    (k_csr k) (k_kernel_pagetable k) (k_total_syscalls k).
Definition set_k_log (v : log) (k : ks) : ks :=
  mkKs (k_ps k) (k_sleep k) (k_bufs k) (k_disk k) (k_writes k) v (k_sb k) (k_inodes k)
    (k_files k) (k_pipes k) (k_cons k) (k_uart k) (k_devsw k) (k_first k) (k_seed k)
    (k_csr k) (k_kernel_pagetable k) (k_total_syscalls k).
Definition set_k_sb (v : superblock) (k : ks) : ks :=
  mkKs (k_ps k) (k_sleep k) (k_bufs k) (k_disk k) (k_writes k) (k_log k) v (k_inodes k)
    (k_files k) (k_pipes k) (k_cons k) (k_uart k) (k_devsw k) (k_first k) (k_seed k)
    (k_csr k) (k_kernel_pagetable k) (k_total_syscalls k).
Definition set_k_inodes (v : nat -> inode) (k : ks) : ks :=
  mkKs (k_ps k) (k_sleep k) (k_bufs k) (k_disk k) (k_writes k) (k_log k) (k_sb k) v
    (k_files k) (k_pipes k) (k_cons k) (k_uart k) (k_devsw k) (k_first k) (k_seed k)
    (k_csr k) (k_kernel_pagetable k) (k_total_syscalls k).
Definition set_k_files (v : nat -> file) (k : ks) : ks :=
  mkKs (k_ps k) (k_sleep k) (k_bufs k) (k_disk k) (k_writes k) (k_log k) (k_sb k)
    (k_inodes k) v (k_pipes k) (k_cons k) (k_uart k) (k_devsw k) (k_first k) (k_seed k)
    (k_csr k) (k_kernel_pagetable k) (k_total_syscalls k).
Definition set_k_pipes (v : Z -> pipe) (k : ks) : ks :=
  mkKs (k_ps k) (k_sleep k) (k_bufs k) (k_disk k) (k_writes k) (k_log k) (k_sb k)
    (k_inodes k) (k_files k) v (k_cons k) (k_uart k) (k_devsw k) (k_first k) (k_seed k)
    (k_csr k) (k_kernel_pagetable k) (k_total_syscalls k).
Definition set_k_cons (v : cons) (k : ks) : ks :=
  mkKs (k_ps k) (k_sleep k) (k_bufs k) (k_disk k) (k_writes k) (k_log k) (k_sb k)
    (k_inodes k) (k_files k) (k_pipes k) v (k_uart k) (k_devsw k) (k_first k) (k_seed k)
    (k_csr k) (k_kernel_pagetable k) (k_total_syscalls k).
Definition set_k_uart (v : uart) (k : ks) : ks :=
  mkKs (k_ps k) (k_sleep k) (k_bufs k) (k_disk k) (k_writes k) (k_log k) (k_sb k)
    (k_inodes k) (k_files k) (k_pipes k) (k_cons k) v (k_devsw k) (k_first k) (k_seed k)
    (k_csr k) (k_kernel_pagetable k) (k_total_syscalls k).
Definition set_k_devsw (v : Z -> option device) (k : ks) : ks :=
  mkKs (k_ps k) (k_sleep k) (k_bufs k) (k_disk k) (k_writes k) (k_log k) (k_sb k)
    (k_inodes k) (k_files k) (k_pipes k) (k_cons k) (k_uart k) v (k_first k) (k_seed k)
    (k_csr k) (k_kernel_pagetable k) (k_total_syscalls k).
Definition set_k_first (v : bool) (k : ks) : ks :=
  mkKs (k_ps k) (k_sleep k) (k_bufs k) (k_disk k) (k_writes k) (k_log k) (k_sb k)
    (k_inodes k) (k_files k) (k_pipes k) (k_cons k) (k_uart k) (k_devsw k) v (k_seed k)
    (k_csr k) (k_kernel_pagetable k) (k_total_syscalls k).
Definition set_k_seed (v : Z) (k : ks) : ks :=
  mkKs (k_ps k) (k_sleep k) (k_bufs k) (k_disk k) (k_writes k) (k_log k) (k_sb k)
    (k_inodes k) (k_files k) (k_pipes k) (k_cons k) (k_uart k) (k_devsw k) (k_first k) v
    (k_csr k) (k_kernel_pagetable k) (k_total_syscalls k).
Definition set_k_csr (v : csrs) (k : ks) : ks :=
  mkKs (k_ps k) (k_sleep k) (k_bufs k) (k_disk k) (k_writes k) (k_log k) (k_sb k)
    (k_inodes k) (k_files k) (k_pipes k) (k_cons k) (k_uart k) (k_devsw k) (k_first k)
    (k_seed k) v (k_kernel_pagetable k) (k_total_syscalls k).
Definition set_k_kernel_pagetable (v : Z) (k : ks) : ks :=
  mkKs (k_ps k) (k_sleep k) (k_bufs k) (k_disk k) (k_writes k) (k_log k) (k_sb k)
    (k_inodes k) (k_files k) (k_pipes k) (k_cons k) (k_uart k) (k_devsw k) (k_first k)
    (k_seed k) (k_csr k) v (k_total_syscalls k).
Definition set_k_total_syscalls (v : Z) (k : ks) : ks :=
  mkKs (k_ps k) (k_sleep k) (k_bufs k) (k_disk k) (k_writes k) (k_log k) (k_sb k)
    (k_inodes k) (k_files k) (k_pipes k) (k_cons k) (k_uart k) (k_devsw k) (k_first k)
    (k_seed k) (k_csr k) (k_kernel_pagetable k) v.

(** * Components *)

#[export] Instance ks_ps : Lens ks pst.
Proof. by refine {| view := k_ps; put := set_k_ps |}; try intros ? []; try intros []. Defined.

#[export] Instance ks_kmem : Lens ks kmem.
Proof.
  refine {| view := fun k => ps_kmem (k_ps k);
            put := fun m k => set_k_ps (set_ps_kmem m (k_ps k)) k |};
    by try intros ? [[]]; try intros [[]].
Defined.

#[export] Instance ks_mach : Lens ks mach.
Proof.
  refine {| view := fun k => pmach (k_ps k);
            put := fun m k => set_k_ps (set_pmach m (k_ps k)) k |};
    by try intros ? [[[]]]; try intros [[[]]].
Defined.

(** * Accessors *)

(** Operations of the process layer on the whole state. *)
Definition acq (l : lockid) : M ks unit := zoom (Proc.lock l).
Definition rel (l : lockid) : M ks unit := zoom (Proc.unlock l).
Definition wake (ch : chan) : M ks unit := zoom (wakeup ch).
Definition curproc : M ks nat := zoom myproc_ref.
Definition procof (p : nat) : M ks proc := gets (fun k => ps_procs (k_ps k) p).

Definition getbuf (b : nat) : M ks buf := gets (fun k => k_bufs k b).
Definition updbuf (b : nat) (f : buf -> buf) : M ks unit :=
  modify (fun k => set_k_bufs (<[b := f (k_bufs k b)]> (k_bufs k)) k).
Definition getlog : M ks log := gets k_log.
Definition updlog (f : log -> log) : M ks unit := modify (fun k => set_k_log (f (k_log k)) k).
Definition getinode (i : nat) : M ks inode := gets (fun k => k_inodes k i).
Definition updinode (i : nat) (f : inode -> inode) : M ks unit :=
  modify (fun k => set_k_inodes (<[i := f (k_inodes k i)]> (k_inodes k)) k).
Definition getfile (f : nat) : M ks file := gets (fun k => k_files k f).
Definition updfile (f : nat) (g : file -> file) : M ks unit :=
  modify (fun k => set_k_files (<[f := g (k_files k f)]> (k_files k)) k).
Definition getpipe (a : Z) : M ks pipe := gets (fun k => k_pipes k a).
Definition updpipe (a : Z) (g : pipe -> pipe) : M ks unit :=
  modify (fun k => set_k_pipes (<[a := g (k_pipes k a)]> (k_pipes k)) k).
Definition getsl (l : slid) : M ks sleeplock := gets (fun k => k_sleep k l).
Definition setsl (l : slid) (v : sleeplock) : M ks unit :=
  modify (fun k => set_k_sleep (<[l := v]> (k_sleep k)) k).
Definition getcons : M ks cons := gets k_cons.
Definition updcons (f : cons -> cons) : M ks unit := modify (fun k => set_k_cons (f (k_cons k)) k).
Definition getuart : M ks uart := gets k_uart.
Definition upduart (f : uart -> uart) : M ks unit := modify (fun k => set_k_uart (f (k_uart k)) k).
