(* ===== verification/Bytes.v ===== *)
(** Fields of structures that overlay a block: lemmas on [splice], [slice] and
    the little-endian integers of Kstate. *)

From Stdlib Require Import ZArith Lia List Bool.
From stdpp Require Import base tactics numbers list.
From S2P Require Import Prelude.
From S2P Require Import Abi.
From S2P Require Import Kstate.

Lemma length_splice off bs l :
  (Z.to_nat off + length bs <= length l)%nat -> length (splice off bs l) = length l.
Proof. intros H. unfold splice. rewrite !length_app, length_take, length_drop. lia. Qed.

Lemma length_slice off n l :
  (Z.to_nat off + Z.to_nat n <= length l)%nat -> length (slice off n l) = Z.to_nat n.
Proof. intros H. unfold slice. rewrite length_take, length_drop. lia. Qed.

Lemma slice_splice off n bs l :
  (Z.to_nat off + length bs <= length l)%nat -> Z.to_nat n = length bs ->
  slice off n (splice off bs l) = bs.
Proof.
  intros Hl Hn. unfold slice, splice. rewrite drop_app_length' by (rewrite length_take; lia).
  by rewrite take_app_length'.
Qed.

Lemma slice_splice_ne off n off' bs l :
  (Z.to_nat off' + length bs <= length l)%nat ->
  (Z.to_nat off + Z.to_nat n <= Z.to_nat off' \/ Z.to_nat off' + length bs <= Z.to_nat off)%nat ->
  slice off n (splice off' bs l) = slice off n l.
Proof.
  intros Hl Hd. apply list_eq. intros i. unfold slice, splice.
  destruct (decide (i < Z.to_nat n)%nat) as [Hi|]; [|by rewrite !lookup_take_ge by lia].
  rewrite !lookup_take_lt by done. rewrite !lookup_drop. destruct Hd.
  - rewrite lookup_app_l by (rewrite length_take; lia). by rewrite lookup_take_lt by lia.
  - rewrite lookup_app_r by (rewrite length_take; lia). rewrite lookup_app_r by (rewrite length_take; lia).
    rewrite lookup_drop, length_take. f_equal. lia.
Qed.

(** The copy of a whole block. *)
Lemma splice_all n s l : length s = Z.to_nat n -> length l = Z.to_nat n -> splice 0 (slice 0 n s) l = s.
Proof.
  intros Hs Hl. unfold splice, slice. simpl. rewrite drop_0, take_ge by lia.
  rewrite drop_ge by lia. by rewrite app_nil_r.
Qed.

Lemma at_insert (l : list Z) i j x : (i < length l)%nat -> 0 <= j ->
  at_Z (<[i := x]> l) j = if decide (Z.to_nat j = i) then x else at_Z l j.
Proof.
  intros Hi Hj. unfold at_Z. rewrite !nth_lookup. case_decide as E.
  - subst. by rewrite list_lookup_insert_eq.
  - by rewrite list_lookup_insert_ne.
Qed.

(** ** Little-endian integers *)

Lemma length_le_bytes n v : length (le_bytes n v) = n.
Proof. revert v. induction n; intros v; simpl; auto. Qed.

Lemma le_val_bytes n v : le_val (le_bytes n v) = v mod 2 ^ (8 * Z.of_nat n).
Proof.
  revert v. induction n as [|n IH]; intros v; [by rewrite Z.mod_1_r|].
  cbn [le_bytes le_val]. rewrite IH. unfold u8.
  replace (8 * Z.of_nat (S n)) with (8 + 8 * Z.of_nat n) by lia.
  rewrite Z.pow_add_r by lia. rewrite Z.rem_mul_r; [done|lia|]. apply Z.pow_pos_nonneg; lia.
Qed.

Lemma length_le_put n off v l :
  0 <= n -> (Z.to_nat off + Z.to_nat n <= length l)%nat -> length (le_put n off v l) = length l.
Proof. intros Hn H. apply length_splice. rewrite length_le_bytes. lia. Qed.

(** Reading back a field, and the other fields. *)
Lemma le_get_put n off v l :
  0 <= n -> (Z.to_nat off + Z.to_nat n <= length l)%nat -> le_get n off (le_put n off v l) = v mod 2 ^ (8 * n).
Proof.
  intros Hn H. unfold le_get, le_put. rewrite slice_splice by (rewrite length_le_bytes; lia).
  rewrite le_val_bytes. by rewrite Z2Nat.id.
Qed.

Lemma le_get_put_ne n off n' off' v l :
  0 <= n' -> (Z.to_nat off' + Z.to_nat n' <= length l)%nat ->
  (Z.to_nat off + Z.to_nat n <= Z.to_nat off' \/ Z.to_nat off' + Z.to_nat n' <= Z.to_nat off)%nat ->
  le_get n off (le_put n' off' v l) = le_get n off l.
Proof. intros Hn H Hd. unfold le_get, le_put. rewrite slice_splice_ne; rewrite ?length_le_bytes; done. Qed.

Lemma s32_mod v : s32 (v mod 2 ^ 32) = s32 v.
Proof. unfold s32. f_equal. by rewrite Zplus_mod_idemp_l. Qed.

Lemma s16_mod v : s16 (v mod 2 ^ 16) = s16 v.
Proof. unfold s16. f_equal. by rewrite Zplus_mod_idemp_l. Qed.

(** Bytes read as an integer and stored again. *)
Definition is_bytes (l : list Z) : Prop := Forall (fun b => 0 <= b < 256) l.

Lemma le_bytes_val l : is_bytes l -> le_bytes (length l) (le_val l) = l.
Proof.
  induction 1 as [|b l Hb Hl IH]; [done|]. cbn [length le_bytes le_val].
  replace (u8 (b + 2 ^ 8 * le_val l)) with b.
  - f_equal. replace ((b + 2 ^ 8 * le_val l) / 2 ^ 8) with (le_val l); [done|].
    rewrite Z.mul_comm, Z.div_add, Z.div_small; lia.
  - unfold u8. rewrite Z.mul_comm, Z.mod_add by lia. rewrite Z.mod_small; lia.
Qed.

Lemma le_bytes_bytes n v : is_bytes (le_bytes n v).
Proof.
  revert v. induction n as [|n IH]; intros v; constructor; [|apply IH].
  unfold u8. apply Z.mod_pos_bound. lia.
Qed.
