(* ===== verification/Ring.v ===== *)
(** Rings: a buffer of [size] bytes indexed by counters that count modulo a
    power of two and are reduced modulo [size] at each access, as the pipes, the
    console and the UART driver have them. *)

From Stdlib Require Import ZArith Lia List.
From stdpp Require Import base tactics numbers list.
From S2P Require Import Prelude.
From S2P Require Import Kstate.
From S2P Require Import Bytes.

(** * Counters *)

(** How far the counter [b] is ahead of [a], modulo [M]. *)
Definition ahead (M a b : Z) : Z := (b - a) mod M.

Section ahead.
Context (M : Z) (HM : 0 < M).

Lemma ahead_range a b : 0 <= ahead M a b < M.
Proof. by apply Z.mod_pos_bound. Qed.

Lemma ahead_refl a : ahead M a a = 0.
Proof. unfold ahead. by rewrite Z.sub_diag, Z.mod_0_l by lia. Qed.

Lemma ahead_0 a b : 0 <= a < M -> 0 <= b < M -> ahead M a b = 0 <-> a = b.
Proof.
  intros Ha Hb. split; [|intros ->; apply ahead_refl]. unfold ahead. intros E.
  apply Z.mod_divide in E as [q E]; [|lia]. assert (q = 0) as -> by nia. lia.
Qed.

Lemma ahead_trans a b c : ahead M a b + ahead M b c < M -> ahead M a c = ahead M a b + ahead M b c.
Proof.
  intros H. pose proof (ahead_range a b). pose proof (ahead_range b c).
  rewrite <-(Z.mod_small (ahead M a b + ahead M b c) M) by lia.
  unfold ahead. rewrite <-Z.add_mod by lia. f_equal. lia.
Qed.

(** Moving either counter by [d]. *)
Lemma ahead_move a b d : 0 <= ahead M a b + d < M -> ahead M a ((b + d) mod M) = ahead M a b + d.
Proof.
  intros H. unfold ahead in *. rewrite Zminus_mod_idemp_l.
  rewrite <-(Z.mod_small ((b - a) mod M + d) M) by lia. rewrite Zplus_mod_idemp_l. f_equal. lia.
Qed.

Lemma ahead_follow a b d : 0 <= ahead M a b - d < M -> ahead M ((a + d) mod M) b = ahead M a b - d.
Proof.
  intros H. unfold ahead in *. rewrite Zminus_mod_idemp_r.
  rewrite <-(Z.mod_small ((b - a) mod M - d) M) by lia. rewrite Zminus_mod_idemp_l. f_equal. lia.
Qed.

(** A counter in terms of an earlier one, in a ring of [size] slots. *)
Lemma ahead_slot size a b : (size | M) -> b mod size = (a + Z.of_nat (Z.to_nat (ahead M a b))) mod size.
Proof.
  intros Hd. rewrite Z2Nat.id by apply ahead_range.
  rewrite <-(Z.mod_mod_divide (a + _) M size) by done. unfold ahead.
  rewrite Zplus_mod_idemp_r. replace (a + (b - a)) with b by lia. by rewrite Z.mod_mod_divide.
Qed.

End ahead.

(** * The bytes between two counters *)

Section ring.
Context (size : Z) (Hsize : 0 < size).

(** The [n] bytes from counter [r] on. *)
Definition slots (buf : list Z) (r : Z) (n : nat) : list Z :=
  map (fun i => at_Z buf ((r + Z.of_nat i) mod size)) (seq 0 n).

Lemma slots_length buf r n : length (slots buf r n) = n.
Proof. unfold slots. by rewrite length_map, length_seq. Qed.

Lemma slots_cons buf r n : slots buf r (S n) = at_Z buf (r mod size) :: slots buf (r + 1) n.
Proof.
  unfold slots. cbn [seq map]. rewrite Z.add_0_r. f_equal.
  rewrite <-seq_shift, map_map. apply map_ext. intros i. do 2 f_equal. lia.
Qed.

Lemma slots_add buf m : forall n r, slots buf r (n + m) = slots buf r n ++ slots buf (r + Z.of_nat n) m.
Proof.
  induction n as [|n IH]; intros r; [by rewrite Z.add_0_r|].
  rewrite Nat.add_succ_l, !slots_cons, IH. simpl. do 3 f_equal. lia.
Qed.

Lemma slots_snoc buf r n : slots buf r (S n) = slots buf r n ++ [at_Z buf ((r + Z.of_nat n) mod size)].
Proof. rewrite <-Nat.add_1_r, slots_add. f_equal. unfold slots. simpl. by rewrite Z.add_0_r. Qed.

Lemma slots_congr buf r r' n : r mod size = r' mod size -> slots buf r n = slots buf r' n.
Proof.
  intros E. unfold slots. apply map_ext. intros i.
  by rewrite <-(Zplus_mod_idemp_l r), <-(Zplus_mod_idemp_l r'), E.
Qed.

(** A counter reduced modulo a multiple of the size is as good. *)
Lemma slots_wrap M buf r n : (size | M) -> slots buf (r mod M) n = slots buf r n.
Proof. intros Hd. apply slots_congr. by apply Z.mod_mod_divide. Qed.

(** A store in the slot that follows the [n] bytes, or a later one. *)
Lemma slots_put ch buf r n e : length buf = Z.to_nat size -> Z.of_nat n < size ->
  e mod size = (r + Z.of_nat n) mod size -> forall j, (j <= n)%nat ->
  slots (<[Z.to_nat (e mod size) := ch]> buf) r j = slots buf r j.
Proof.
  intros Hb Hn He j Hj. unfold slots. apply map_ext_in. intros i [_ Hi]%in_seq.
  pose proof (Z.mod_pos_bound e size Hsize). pose proof (Z.mod_pos_bound (r + Z.of_nat i) size Hsize).
  rewrite at_insert by lia. rewrite decide_False; [done|]. intros Eq.
  assert ((size | Z.of_nat n - Z.of_nat i)) as [q Hq].
  { apply Z.mod_divide; [lia|]. replace (Z.of_nat n - Z.of_nat i) with (r + Z.of_nat n - (r + Z.of_nat i)) by lia.
    apply Z2Nat.inj in Eq; [|lia|lia]. rewrite Zminus_mod, Eq, He, Z.sub_diag. by apply Z.mod_0_l; lia. }
  clear - Hq Hn Hj Hi Hsize. destruct (Z.le_gt_cases q 0); nia.
Qed.

Lemma slots_put_snoc ch buf r n e : length buf = Z.to_nat size -> Z.of_nat n < size ->
  e mod size = (r + Z.of_nat n) mod size ->
  slots (<[Z.to_nat (e mod size) := ch]> buf) r (S n) = slots buf r n ++ [ch].
Proof.
  intros Hb Hn He. rewrite slots_snoc, (slots_put ch buf r n e Hb Hn He n) by lia. do 2 f_equal.
  pose proof (Z.mod_pos_bound e size Hsize). rewrite <-He, at_insert by lia. by rewrite decide_True.
Qed.

End ring.
