(* ===== verification/Bio.v ===== *)
(** Sleep locks (kernel/sleeplock.c) and the buffer cache (kernel/bio.c).

    The cache talks to the disk through the interface [BlockDev], whose law
    [BlockDevOk] is what kernel/virtio_disk.c promises: when
    [virtio_disk_rw] returns, the block has been transferred.  The LRU list is
    the doubly linked ring of the code, with [bcache.head] at index [NBUF]. *)

From Stdlib Require Import ZArith Lia List String Bool.
From stdpp Require Import base tactics numbers list functions sets.
From S2P Require Import Prelude.
From S2P Require Import Spinlock.
From S2P Require Import Cstring.
From S2P Require Import Kalloc.
From S2P Require Import Vm.
From S2P Require Import Proc.
From S2P Require Import Sched.
From S2P Require Import Abi.
From S2P Require Import Kstate.

(** * Sleep locks *)

Section sleeplock.
Context `{Swtch ks}.

Definition initsleeplock (l : slid) (name : string) : M ks unit :=
  zoom (initlock (slid_lock l) "sleep lock") ;;;
  setsl l (mkSleeplock false name 0).

(** [while (lk->locked) sleep(lk, &lk->lk);] *)
Fixpoint acquiresleep_loop (fuel : nat) (l : slid) : M ks unit :=
  match fuel with
  | O => asleep
  | S f =>
      lk <- getsl l ;;
      if sl_locked lk then sleep (slid_chan l) (slid_lock l) ;;; acquiresleep_loop f l
      else ret tt
  end.
Definition acquiresleep (l : slid) : M ks unit :=
  acq (slid_lock l) ;;;
  acquiresleep_loop (S swtch_wakeups) l ;;;
  lk <- getsl l ;;
  p <- curproc ;;
  pr <- procof p ;;
  setsl l (mkSleeplock true (sl_name lk) (p_pid pr)) ;;;
  rel (slid_lock l).

Definition releasesleep (l : slid) : M ks unit :=
  acq (slid_lock l) ;;;
  lk <- getsl l ;;
  setsl l (mkSleeplock false (sl_name lk) 0) ;;;
  wake (slid_chan l) ;;;
  rel (slid_lock l).

Definition holdingsleep (l : slid) : M ks bool :=
  acq (slid_lock l) ;;;
  lk <- getsl l ;;
  r <- (if sl_locked lk
        then p <- curproc ;; pr <- procof p ;; ret (sl_pid lk =? p_pid pr)
        else ret false) ;;
  rel (slid_lock l) ;;;
  ret r.

End sleeplock.

(** * The disk *)

Class BlockDev := {
  virtio_disk_rw : nat -> bool -> M ks unit;
  virtio_disk_intr : M ks unit;
  virtio_disk_init : M ks unit
}.

(** The transfer between a buffer and its block. *)
Definition transfer (b : nat) (write : bool) (k : ks) : ks :=
  let bp := k_bufs k b in
  if write
  then set_k_writes (k_writes k ++ [(b_blockno bp, b_data bp)])
         (set_k_disk (<[b_blockno bp := b_data bp]> (k_disk k)) k)
  else set_k_bufs (<[b := set_b_data (k_disk k (b_blockno bp)) bp]> (k_bufs k)) k.

(** The machine as the caller finds it after a call that takes and drops locks. *)
Definition kmach (k : ks) : mach := pmach (k_ps k).
Definition set_kmach (m : mach) (k : ks) : ks := set_k_ps (set_pmach m (k_ps k)) k.

Class BlockDevOk (D : BlockDev) : Prop := {
  disk_rw_ok : forall b write k,
    noff_ok (kmach k) -> lock_free (kmach k) vdisk_lock ->
    virtio_disk_rw b write k = Ok tt (set_kmach (tidy (kmach k)) (transfer b write k))
}.

(** A disk that answers at once. *)
Definition disk_now : BlockDev := {|
  virtio_disk_rw := fun b write => acq vdisk_lock ;;; modify (transfer b write) ;;; rel vdisk_lock;
  virtio_disk_intr := ret tt;
  virtio_disk_init := zoom (initlock vdisk_lock "virtio_disk")
|}.

(** * The buffer cache *)

Section bio.
Context `{Swtch ks} `{BlockDev}.

(** Link [b] in front of the ring, as [brelse] does. *)
Definition link_front (b : nat) : M ks unit :=
  h <- getbuf NBUF ;;
  updbuf b (set_b_next (b_next h)) ;;;
  updbuf b (set_b_prev NBUF) ;;;
  h <- getbuf NBUF ;;
  updbuf (b_next h) (set_b_prev b) ;;;
  updbuf NBUF (set_b_next b).

Definition binit : M ks unit :=
  zoom (initlock bcache_lock "bcache") ;;;
  updbuf NBUF (set_b_prev NBUF) ;;;
  updbuf NBUF (set_b_next NBUF) ;;;
  for_each (seq 0 NBUF) (fun b =>
    h <- getbuf NBUF ;;
    updbuf b (set_b_next (b_next h)) ;;;
    updbuf b (set_b_prev NBUF) ;;;
    initsleeplock (sl_buf b) "buffer" ;;;
    h <- getbuf NBUF ;;
    updbuf (b_next h) (set_b_prev b) ;;;
    updbuf NBUF (set_b_next b)).

(** [for(b = head.next; b != &head; b = b->next)] up to a buffer that
    satisfies [c]; the ring has NBUF buffers. *)
Fixpoint ring_find (fuel : nat) (step : buf -> nat) (c : buf -> bool) (b : nat) : M ks (option nat) :=
  match fuel with
  | O => spin
  | S f =>
      if (b =? NBUF)%nat then ret None else
      bp <- getbuf b ;;
      if c bp then ret (Some b) else ring_find f step c (step bp)
  end.

Definition bget (dev blockno : Z) : M ks nat :=
  acq bcache_lock ;;;
  h <- getbuf NBUF ;;
  found <- ring_find (S NBUF) b_next
             (fun bp => (b_dev bp =? dev) && (b_blockno bp =? blockno)) (b_next h) ;;
  match found with
  | Some b =>
      updbuf b (fun bp => set_b_refcnt (u32 (b_refcnt bp + 1)) bp) ;;;
      rel bcache_lock ;;;
      acquiresleep (sl_buf b) ;;;
      ret b
  | None =>
      h <- getbuf NBUF ;;
      found <- ring_find (S NBUF) b_prev (fun bp => b_refcnt bp =? 0) (b_prev h) ;;
      match found with
      | Some b =>
          updbuf b (set_b_dev dev) ;;;
          updbuf b (set_b_blockno blockno) ;;;
          updbuf b (set_b_valid false) ;;;
          updbuf b (set_b_refcnt 1) ;;;
          rel bcache_lock ;;;
          acquiresleep (sl_buf b) ;;;
          ret b
      | None => panic "bget: no buffers"
      end
  end.

Definition bread (dev blockno : Z) : M ks nat :=
  b <- bget dev blockno ;;
  bp <- getbuf b ;;
  (if negb (b_valid bp)
   then virtio_disk_rw b false ;;; updbuf b (set_b_valid true)
   else ret tt) ;;;
  ret b.

Definition bwrite (b : nat) : M ks unit :=
  h <- holdingsleep (sl_buf b) ;;
  if negb h then panic "bwrite" else
  virtio_disk_rw b true.

Definition brelse (b : nat) : M ks unit :=
  h <- holdingsleep (sl_buf b) ;;
  if negb h then panic "brelse" else
  releasesleep (sl_buf b) ;;;
  acq bcache_lock ;;;
  updbuf b (fun bp => set_b_refcnt (u32 (b_refcnt bp - 1)) bp) ;;;
  bp <- getbuf b ;;
  (if b_refcnt bp =? 0 then
     updbuf (b_next bp) (set_b_prev (b_prev bp)) ;;;
     bp <- getbuf b ;;
     updbuf (b_prev bp) (set_b_next (b_next bp)) ;;;
     link_front b
   else ret tt) ;;;
  rel bcache_lock.

Definition bpin (b : nat) : M ks unit :=
  acq bcache_lock ;;;
  updbuf b (fun bp => set_b_refcnt (u32 (b_refcnt bp + 1)) bp) ;;;
  rel bcache_lock.

Definition bunpin (b : nat) : M ks unit :=
  acq bcache_lock ;;;
  updbuf b (fun bp => set_b_refcnt (u32 (b_refcnt bp - 1)) bp) ;;;
  rel bcache_lock.

End bio.
