(* ===== verification/Ksection.v ===== *)
(** Critical sections of a process that runs in the kernel and holds no
    spinlock: what [acquire], [release], [myproc] and [wakeup] do to the
    kernel's state there, and the sleep locks of kernel/sleeplock.c when they
    are free. *)

From Stdlib Require Import ZArith Lia List String Bool FunctionalExtensionality.
From stdpp Require Import base tactics numbers list functions sets.
From S2P Require Import Prelude.
From S2P Require Import Spinlock.
From S2P Require Import Cstring.
From S2P Require Import Kalloc.
From S2P Require Import Vm.
From S2P Require Import Proc.
From S2P Require Import Sched.
From S2P Require Import Abi.
From S2P Require Import Kstate.
From S2P Require Import Bio.

(** No spinlock is held, and the saved interrupt state is the current one, as
    every release leaves it. *)
Definition settled (m : mach) : Prop :=
  c_noff (this_cpu m) = 0 /\ tidy m = m /\ forall l, lock_free m l.

(** Process [p] runs on this CPU, with pid [pid], outside critical sections. *)
Record running (k : ks) (p : nat) (pid : Z) : Prop := {
  run_settled : settled (kmach k);
  run_proc : c_proc (this_cpu (kmach k)) = Some p;
  run_pid : p_pid (ps_procs (k_ps k) p) = pid
}.

Lemma settled_noff m : settled m -> noff_ok m.
Proof. intros (H & _ & _). unfold noff_ok. rewrite H. lia. Qed.

Lemma set_kmach_id k : set_kmach (kmach k) k = k.
Proof. by destruct k as [[[]]]. Qed.

Lemma set_kmach_back m k : set_kmach (kmach k) (set_kmach m k) = k.
Proof. by destruct k as [[[]]]. Qed.

Lemma kmach_set m k : kmach (set_kmach m k) = m.
Proof. done. Qed.

Lemma acq_eq l k :
  settled (kmach k) -> acq l k = Ok tt (set_kmach (acquired l (kmach k)) k).
Proof.
  intros Hs. unfold acq. erewrite zoom_Ok; [done|].
  apply lock_eq; [by apply settled_noff|]. apply Hs.
Qed.

Lemma rel_eq l m k :
  settled m -> kmach k = acquired l m -> rel l k = Ok tt (set_kmach m k).
Proof.
  intros Hs E. pose proof (settled_noff m Hs) as Hn. destruct Hs as (_ & Ht & Hf).
  unfold rel. erewrite zoom_Ok; [|by eapply unlock_eq]. by rewrite Ht.
Qed.

Lemma section_tidy l m : settled m -> tidy (acquired l m) = acquired l m.
Proof.
  intros (H & _). unfold tidy, acquired, this_cpu; simpl. rewrite fn_lookup_insert; simpl.
  unfold this_cpu in H. by rewrite H.
Qed.

Lemma noff_ok_section l m : settled m -> noff_ok (acquired l m).
Proof.
  intros Hs. apply noff_ok_acquired; [by apply settled_noff|]. destruct Hs as (-> & _). lia.
Qed.

Lemma acquired_proc l m : c_proc (this_cpu (acquired l m)) = c_proc (this_cpu m).
Proof. unfold this_cpu at 1. by rewrite acquired_c_proc. Qed.

Lemma curproc_eq k p :
  noff_ok (kmach k) -> tidy (kmach k) = kmach k -> c_proc (this_cpu (kmach k)) = Some p ->
  curproc k = Ok p k.
Proof.
  intros Hn Ht Hp. unfold curproc, zoom, myproc_ref, bind.
  change (view k) with (k_ps k). rewrite (myproc_eq (k_ps k) Hn).
  change (pmach (k_ps k)) with (kmach k). rewrite Hp, Ht. unfold ret.
  change (put (set_pmach (kmach k) (k_ps k)) k) with (set_kmach (kmach k) k).
  by rewrite set_kmach_id.
Qed.

Lemma curproc_section l m k p :
  settled m -> kmach k = acquired l m -> c_proc (this_cpu m) = Some p -> curproc k = Ok p k.
Proof.
  intros Hs E Hp. apply curproc_eq; rewrite E.
  - by apply noff_ok_section.
  - by apply section_tidy.
  - by rewrite acquired_proc.
Qed.

Lemma curproc_running k p pid : running k p pid -> curproc k = Ok p k.
Proof.
  intros [Hs Hp _]. apply curproc_eq; [by apply settled_noff|apply Hs|done].
Qed.

Lemma acq_section l l' m k :
  settled m -> kmach k = acquired l m -> l' <> l ->
  acq l' k = Ok tt (set_kmach (acquired l' (acquired l m)) k).
Proof.
  intros Hs E Hl.
  assert (Hn : noff_ok (pmach (k_ps k))) by (change (noff_ok (kmach k)); rewrite E; by apply noff_ok_section).
  assert (Hf : lock_free (pmach (k_ps k)) l').
  { change (lock_free (kmach k) l'). rewrite E. apply lock_free_acquired; [congruence|]. apply Hs. }
  unfold acq. rewrite (zoom_Ok _ k _ _ (lock_eq l' (k_ps k) Hn Hf)).
  change (pmach (k_ps k)) with (kmach k). by rewrite E.
Qed.

Lemma rel_section l l' m k :
  settled m -> kmach k = acquired l' (acquired l m) -> l' <> l ->
  rel l' k = Ok tt (set_kmach (acquired l m) k).
Proof.
  intros Hs E Hl. unfold rel. erewrite zoom_Ok; [|eapply (unlock_eq _ _ (acquired l m))].
  - by rewrite section_tidy.
  - by apply noff_ok_section.
  - apply lock_free_acquired; [congruence|]. apply Hs.
  - done.
Qed.

(** [killed] of a process whose lock is free, inside a critical section. *)
Lemma killed_section l m p k :
  settled m -> kmach k = acquired l m -> proc_lock p <> l ->
  (zoom (killed p) : M ks Z) k = Ok (p_killed (ps_procs (k_ps k) p)) k.
Proof.
  intros Hs E Hl.
  assert (Hn : noff_ok (pmach (k_ps k))) by (change (noff_ok (kmach k)); rewrite E; by apply noff_ok_section).
  assert (Hf : lock_free (pmach (k_ps k)) (proc_lock p)).
  { change (lock_free (kmach k) (proc_lock p)). rewrite E. apply lock_free_acquired; [congruence|]. apply Hs. }
  unfold zoom, killed. change (view k) with (k_ps k).
  rewrite (bind_Ok _ _ _ _ _ (lock_eq _ _ Hn Hf)). unfold getp, gets, bind, ret.
  erewrite (unlock_eq _ _ (pmach (k_ps k))) by done.
  change (pmach (k_ps k)) with (kmach k). rewrite E, section_tidy, <-E by done.
  f_equal. by destruct k as [[[]]].
Qed.

(** ** [wakeup] *)

Definition wake_procs (ch : chan) (s : pst) (j : nat) : proc :=
  if decide (j < NPROC /\ c_proc (this_cpu (pmach s)) <> Some j)%nat
  then (if asleep_on ch (ps_procs s j) then woken (ps_ticks s) (ps_procs s j) else ps_procs s j)
  else ps_procs s j.

(** Everybody who sleeps on [ch] is made RUNNABLE. *)
Definition wake_all (ch : chan) (k : ks) : ks :=
  set_k_ps (set_ps_procs (wake_procs ch (k_ps k)) (k_ps k)) k.

Lemma wake_section ch l m k :
  settled m -> kmach k = acquired l m -> (forall i, l <> proc_lock i) ->
  wake ch k = Ok tt (wake_all ch k).
Proof.
  intros Hs E Hl. unfold wake, zoom. change (view k) with (k_ps k).
  assert (Hn : noff_ok (pmach (k_ps k))) by (change (noff_ok (kmach k)); rewrite E; by apply noff_ok_section).
  assert (Ht : table_unlocked (pmach (k_ps k))).
  { change (table_unlocked (kmach k)). rewrite E. intros i _. apply lock_free_acquired; [done|]. apply Hs. }
  destruct (wakeup_eq ch (k_ps k) Hn Ht) as (f & -> & Hf).
  change (pmach (k_ps k)) with (kmach k) at 1. rewrite E, section_tidy by done. rewrite <-E.
  replace f with (wake_procs ch (k_ps k)) by (apply functional_extensionality; intros j; by rewrite Hf).
  unfold wake_all. f_equal. by destruct k as [[[]]].
Qed.

Lemma wake_all_idem ch k : wake_all ch (wake_all ch k) = wake_all ch k.
Proof.
  unfold wake_all. destruct k as [s]. simpl. unfold set_k_ps. simpl. f_equal.
  destruct s. unfold set_ps_procs. simpl. f_equal. apply functional_extensionality. intros j.
  unfold wake_procs at 1. simpl. unfold pmach. simpl. case_decide as Hd; [|done].
  unfold wake_procs. simpl. unfold pmach. simpl. rewrite decide_True by done.
  destruct (asleep_on ch (ps_procs j)) eqn:E; [done|]. by rewrite E.
Qed.

Lemma wake_all_running ch k p pid : running k p pid -> running (wake_all ch k) p pid.
Proof.
  intros [Hs Hp Hpid]. split; [done|done|]. simpl. unfold wake_procs.
  rewrite decide_False; [done|]. intros [_ H]. by apply H.
Qed.

(** * Sleep locks *)

Section sleeplocks.
Context `{Swtch ks}.

Lemma slid_lock_ne l i : slid_lock l <> proc_lock i.
Proof. by destruct l. Qed.

Lemma holdingsleep_eq l k p pid :
  running k p pid ->
  holdingsleep l k = Ok (sl_locked (k_sleep k l) && (sl_pid (k_sleep k l) =? pid)) k.
Proof.
  intros [Hs Hp Hpid]. unfold holdingsleep. rewrite (bind_Ok _ _ _ _ _ (acq_eq _ _ Hs)).
  unfold getsl, gets, bind at 1. simpl k_sleep.
  destruct (sl_locked (k_sleep k l)) eqn:El; simpl andb.
  - rewrite bind_assoc. rewrite (bind_Ok _ _ _ _ _ (curproc_section _ _ _ _ Hs (kmach_set _ _) Hp)).
    unfold procof, gets, bind, ret. simpl ps_procs.
    rewrite (rel_eq _ (kmach k)) by done. rewrite Hpid. f_equal. apply set_kmach_back.
  - unfold bind, ret. rewrite (rel_eq _ (kmach k)) by done. f_equal. apply set_kmach_back.
Qed.

(** A free sleep lock is taken without sleeping. *)
Definition sleep_taken (l : slid) (pid : Z) (k : ks) : ks :=
  set_k_sleep (<[l := mkSleeplock true (sl_name (k_sleep k l)) pid]> (k_sleep k)) k.

Lemma acquiresleep_eq l k p pid :
  running k p pid -> sl_locked (k_sleep k l) = false ->
  acquiresleep l k = Ok tt (sleep_taken l pid k).
Proof.
  intros [Hs Hp Hpid] Hl. unfold acquiresleep. rewrite (bind_Ok _ _ _ _ _ (acq_eq _ _ Hs)).
  cbn [acquiresleep_loop]. unfold getsl. mrun. rewrite Hl.
  rewrite (curproc_section _ _ _ _ Hs (kmach_set _ _) Hp). unfold procof, setsl. mrun. rewrite (rel_eq _ (kmach k)) by done.
  unfold sleep_taken. simpl ps_procs. rewrite Hpid. f_equal. by destruct k as [[[]]].
Qed.

Definition sleep_dropped (l : slid) (k : ks) : ks :=
  wake_all (slid_chan l) (set_k_sleep (<[l := mkSleeplock false (sl_name (k_sleep k l)) 0]> (k_sleep k)) k).

Lemma wake_all_mach ch m k : c_proc (this_cpu m) = c_proc (this_cpu (kmach k)) ->
  wake_all ch (set_kmach m k) = set_kmach m (wake_all ch k).
Proof.
  intros E. assert (Hw : wake_procs ch (set_pmach m (k_ps k)) = wake_procs ch (k_ps k)).
  { apply functional_extensionality. intros j. unfold wake_procs.
    change (pmach (set_pmach m (k_ps k))) with m. change (pmach (k_ps k)) with (kmach k).
    by rewrite E. }
  unfold wake_all. change (k_ps (set_kmach m k)) with (set_pmach m (k_ps k)). by rewrite Hw.
Qed.

Lemma releasesleep_eq l k :
  settled (kmach k) -> releasesleep l k = Ok tt (sleep_dropped l k).
Proof.
  intros Hs. unfold releasesleep. rewrite (bind_Ok _ _ _ _ _ (acq_eq _ _ Hs)).
  unfold getsl, gets, bind, setsl, modify. simpl k_sleep.
  rewrite (wake_section _ (slid_lock l) (kmach k)) by (auto using slid_lock_ne).
  rewrite (rel_eq _ (kmach k)) by done. unfold sleep_dropped. f_equal.
  set (k' := set_k_sleep _ k).
  change (set_k_sleep _ (set_kmach (acquired (slid_lock l) (kmach k)) k))
    with (set_kmach (acquired (slid_lock l) (kmach k)) k').
  rewrite wake_all_mach by apply acquired_proc.
  change (set_kmach (kmach k) (set_kmach _ (wake_all (slid_chan l) k')))
    with (set_kmach (kmach (wake_all (slid_chan l) k')) (wake_all (slid_chan l) k')).
  apply set_kmach_id.
Qed.

Lemma sleep_taken_running l k p pid pid' : running k p pid -> running (sleep_taken l pid' k) p pid.
Proof. by intros [? ? ?]. Qed.
Lemma sleep_dropped_running l k p pid : running k p pid -> running (sleep_dropped l k) p pid.
Proof. intros [? ? ?]. apply wake_all_running. by split. Qed.

End sleeplocks.

(** * A concrete state

    Process 2 of the table, with pid 5, runs on CPU 0 of a kernel whose disk is
    zero. *)

Definition mach1 : mach :=
  mkMach 0 (fun _ => mkCpu (Some 2%nat) 0 true true) (fun _ => mkSpinlock 0 "lock" None).

Definition log0 : log := mkLog 2 30 0 false 1 0 (replicate 30 0).
Definition sb0 : superblock := mkSuperblock FSMAGIC 2000 1953 200 30 2 32 45.
Definition inode0 : inode := mkInode 0 0 0 false 0 0 0 0 0 (replicate 13 0).
Definition file0 : file := mkFile FD_NONE 0 false false 0 None 0 0.
Definition pipe0 : pipe := mkPipe (replicate 512 0) 0 0 true true.
Definition cons0 : cons := mkCons (replicate 128 0) 0 0 0 0.
Definition uart0 : uart := mkUart (replicate 32 0) 0 0 [] [] [].
Definition csrs0 : csrs := mkCsrs 0 0 0 false false 0 0 0 0 [] (fun _ => 0).

Definition ks0 : ks :=
  mkKs (pst0 mach1 SCHED_ROUND_ROBIN) (fun _ => mkSleeplock false "" 0)
    (fun _ => mkBuf false 0 0 0 0 0 (replicate 1024 0)) (fun _ => replicate 1024 0) [] log0 sb0
    (fun _ => inode0) (fun _ => file0) (fun _ => pipe0) cons0 uart0 (fun _ => None) true 1 csrs0 0 0.

(** Processes that switch come back at once. *)
Definition swtch_ks : Swtch ks := {| swtch_out := ret tt; swtch_in := fun _ => ret tt; swtch_wakeups := 0 |}.

Lemma mach1_settled : settled mach1.
Proof.
  split; [done|]. split; [|done]. unfold tidy. simpl. unfold set_cpu, mach1. simpl. f_equal.
  by apply fn_insert_id.
Qed.

Lemma ks0_running : running ks0 2 5.
Proof. split; [apply mach1_settled|done|done]. Qed.

Lemma disk_now_ok : BlockDevOk disk_now.
Proof.
  split. intros b write k Hn Hl. simpl. unfold acq, rel, bind, modify.
  rewrite (zoom_Ok _ k _ _ (lock_eq vdisk_lock (k_ps k) Hn Hl)).
  erewrite zoom_Ok; [|by eapply (unlock_eq vdisk_lock _ (kmach k)); destruct write].
  f_equal. destruct write; by destruct k as [[[]]].
Qed.
