(* ===== verification/Usersec.v ===== *)
(** Kernel code that moves bytes between a user's memory and the kernel inside
    a critical section: a live process with its page table, copyin and copyout
    of one byte, and the end of the section. *)

From Stdlib Require Import ZArith Lia List String Bool.
From stdpp Require Import base tactics numbers list functions sets.
From S2P Require Import Prelude.
From S2P Require Import Spinlock.
From S2P Require Import Cstring.
From S2P Require Import Kalloc.
From S2P Require Import Vm.
From S2P Require Import Pagetable.
From S2P Require Import Usermem.
From S2P Require Import Proc.
From S2P Require Import Sched.
From S2P Require Import Abi.
From S2P Require Import Kstate.
From S2P Require Import Bytes.
From S2P Require Import Bio.
From S2P Require Import Ksection.

Section user.
Context {img : Image} {imgok : ImageOk img} `{Swtch ks}.

(** Process [p] runs in the kernel, alive, and [T] is its page table. *)
Record user_running (k : ks) (p : nat) (pid : Z) (l : list Z) (T : list Z -> option Z) : Prop := {
  ur_running : running k p pid;
  ur_uinv : uinv (ps_kmem (k_ps k)) l T;
  ur_root : T [] = Some (p_pagetable (ps_procs (k_ps k) p));
  ur_killed : p_killed (ps_procs (k_ps k) p) = 0
}.

(** The same with the lock [lk] held. *)
Record in_section (k : ks) (lk : lockid) (m : mach) (p : nat) (l : list Z) (T : list Z -> option Z) : Prop := {
  ip_settled : settled m;
  ip_mach : kmach k = acquired lk m;
  ip_proc : c_proc (this_cpu m) = Some p;
  ip_uinv : uinv (ps_kmem (k_ps k)) l T;
  ip_root : T [] = Some (p_pagetable (ps_procs (k_ps k) p));
  ip_killed : p_killed (ps_procs (k_ps k) p) = 0
}.

Lemma uinv_mach s l T m : uinv s l T -> noff_ok m -> lock_free m kmem_lock ->
  uinv (mkKmem m (km_mem s) (km_freelist s)) l T.
Proof. intros [[Hk _ Hp Hi Hc Hl] Hpg Hinj] Hn Hf. split; [|done|done]. split; try done. by destruct Hk. Qed.

Lemma user_enters k p pid l T lk : lk <> kmem_lock -> user_running k p pid l T ->
  in_section (set_kmach (acquired lk (kmach k)) k) lk (kmach k) p l T.
Proof.
  intros Hlk [[Hs Hp Hpid] Hu Hr Hk]. split; try done. simpl. apply uinv_mach; [done|by apply noff_ok_section|].
  apply lock_free_acquired; [congruence|]. apply Hs.
Qed.

(** copyin of the one byte at [a]. *)
Lemma copyin_byte k lk m p l T a : in_section k lk m p l T -> 0 <= a ->
  exists r, (zoom (copyin (p_pagetable (ps_procs (k_ps k) p)) a 1) : M ks _) k = Ok r k /\
    match r with
    | Some bs => readable T (km_mem (ps_kmem (k_ps k))) a /\ hd 0 bs = user_byte T (km_mem (ps_kmem (k_ps k))) a
    | None => ~ readable T (km_mem (ps_kmem (k_ps k))) a
    end.
Proof.
  intros [_ _ _ Hu Hr _] Ha.
  destruct (copyin_ok _ a 1 _ l T Hu Hr Ha ltac:(lia)) as (r & E & Hres). exists r. split.
  - unfold zoom. change (view k) with (ps_kmem (k_ps k)). rewrite E. f_equal. by destruct k as [[]].
  - destruct r as [bs|].
    + destruct Hres as [Hrd ->]. split; [apply Hrd; lia|]. simpl. f_equal. lia.
    + destruct Hres as (a' & Ha' & Hn). by replace a with a' by lia.
Qed.

(** either_copyin of one byte outside critical sections. *)
Lemma either_copyin_byte k p pid l T a : user_running k p pid l T -> 0 <= a ->
  exists r, (zoom (either_copyin true a 1) : M ks _) k = Ok r k /\
    match r with
    | Some bs => readable T (km_mem (ps_kmem (k_ps k))) a /\ hd 0 bs = user_byte T (km_mem (ps_kmem (k_ps k))) a
    | None => ~ readable T (km_mem (ps_kmem (k_ps k))) a
    end.
Proof.
  intros [Hrun Hu Hr _] Ha. pose proof (curproc_running k p pid Hrun) as Ec.
  destruct (copyin_ok _ a 1 _ l T Hu Hr Ha ltac:(lia)) as (r & E & Hres). exists r. split.
  - revert Ec. unfold curproc, zoom. change (view k) with (k_ps k). unfold either_copyin, bind at 1.
    destruct (myproc_ref (k_ps k)) as [q s| | | |]; try done. intros Ec. injection Ec as -> Es.
    assert (s = k_ps k) as -> by (apply (f_equal k_ps) in Es; done).
    unfold getp, gets, bind, zoom. change (view (k_ps k)) with (ps_kmem (k_ps k)). rewrite E. f_equal. by destruct k as [[]].
  - destruct r as [bs|].
    + destruct Hres as [Hrd ->]. split; [apply Hrd; lia|]. simpl. f_equal. lia.
    + destruct Hres as (a' & Ha' & Hn). by replace a with a' by lia.
Qed.

Lemma user_running_wake ch k p pid l T : user_running k p pid l T -> user_running (wake_all ch k) p pid l T.
Proof.
  intros [Hrun Hu Hr Hk].
  assert (Ep : wake_procs ch (k_ps k) p = ps_procs (k_ps k) p).
  { unfold wake_procs. rewrite decide_False; [done|]. intros [_ Hne]. apply Hne, Hrun. }
  split; [by apply wake_all_running|done| |]; simpl; by rewrite Ep.
Qed.

Definition with_kmem (s : kmem) (k : ks) : ks := set_k_ps (set_ps_kmem s (k_ps k)) k.

Lemma in_section_kmem k lk m p l T s' : in_section k lk m p l T -> uinv s' l T ->
  km_mach s' = km_mach (ps_kmem (k_ps k)) -> in_section (with_kmem s' k) lk m p l T.
Proof. intros [Hs Hm Hc Hu Hr Hk] Hu' Hm'. split; try done. etransitivity; [exact Hm'|exact Hm]. Qed.

(** copyout of one byte to [a]. *)
Lemma copyout_byte k lk m p l T a ch : in_section k lk m p l T -> 0 <= a ->
  exists r s', (zoom (copyout (p_pagetable (ps_procs (k_ps k) p)) a [ch]) : M ks _) k = Ok r (with_kmem s' k) /\
    ((r = 0 /\ storable T (km_mem (ps_kmem (k_ps k))) a /\ written (ps_kmem (k_ps k)) l T a [ch] s') \/
     (r = -1 /\ ~ storable T (km_mem (ps_kmem (k_ps k))) a /\ written (ps_kmem (k_ps k)) l T a [] s')).
Proof.
  intros [_ _ _ Hu Hr _] Ha.
  destruct (copyout_ok _ a [ch] _ l T Hu Hr Ha) as (r & n & s' & E & Hn & Hw & Hst & Hc).
  exists r, s'. split.
  - unfold zoom. change (view k) with (ps_kmem (k_ps k)). by rewrite E.
  - destruct Hc as [[-> ->]|(-> & Hlt & Hno)]; [left|right]; (split; [done|]).
    + split; [|done]. apply Hst. simpl. lia.
    + simpl in Hlt. replace n with 0%nat in * by lia. by rewrite Z.add_0_r in Hno.
Qed.

(** The same through either_copyout, which finds the process itself. *)
Lemma either_copyout_byte k lk m p l T a ch : in_section k lk m p l T -> 0 <= a ->
  exists r s', (zoom (either_copyout true a [ch]) : M ks _) k = Ok r (with_kmem s' k) /\
    ((r = 0 /\ storable T (km_mem (ps_kmem (k_ps k))) a /\ written (ps_kmem (k_ps k)) l T a [ch] s') \/
     (r = -1 /\ ~ storable T (km_mem (ps_kmem (k_ps k))) a /\ written (ps_kmem (k_ps k)) l T a [] s')).
Proof.
  intros Hk Ha. destruct (copyout_byte k lk m p l T a ch Hk Ha) as (r & s' & E & Hr). exists r, s'. split; [|done].
  assert (Hp : myproc_ref (k_ps k) = Ok p (k_ps k)).
  { pose proof (curproc_section lk m k p (ip_settled _ _ _ _ _ _ Hk) (ip_mach _ _ _ _ _ _ Hk) (ip_proc _ _ _ _ _ _ Hk)) as Ec.
    unfold curproc, zoom in Ec. change (view k) with (k_ps k) in Ec.
    destruct (myproc_ref (k_ps k)) as [q s| | | |]; try done. injection Ec as -> Es.
    apply (f_equal k_ps) in Es. simpl in Es. by rewrite Es. }
  revert E. unfold zoom at 1 2. change (view k) with (ps_kmem (k_ps k)) at 1. change (view k) with (k_ps k).
  unfold either_copyout. rewrite (bind_Ok _ _ _ _ _ Hp). unfold getp, gets, bind, zoom.
  change (view (k_ps k)) with (ps_kmem (k_ps k)).
  destruct (copyout _ _ _ _) as [r' s1| | | |]; intros E; done.
Qed.

Lemma written_mach s l T a bs s' m m' :
  written (mkKmem m' (km_mem s) (km_freelist s)) l T a bs s' -> noff_ok m -> lock_free m kmem_lock -> km_mach s = m ->
  written s l T a bs (mkKmem m (km_mem s') (km_freelist s')).
Proof. intros [Hu _ Hp Hb] Hn Hf Hm. split; [by apply uinv_mach|done|done|done]. Qed.

(** The end of a call that wakes who waits for it. *)
Lemma leave_section ch lk (c : Z) k : (forall i, lk <> proc_lock i) -> settled (kmach k) ->
  (wake ch ;;; rel lk ;;; ret c) (set_kmach (acquired lk (kmach k)) k) = Ok c (wake_all ch k).
Proof.
  intros Hlk Hs.
  rewrite (bind_Ok _ _ _ _ _ (wake_section ch lk (kmach k) _ Hs (kmach_set _ k) Hlk)).
  rewrite wake_all_mach by apply acquired_proc.
  unfold bind. rewrite (rel_eq _ (kmach k)) by done. unfold ret. f_equal.
  change (kmach k) with (kmach (wake_all ch k)) at 1. apply set_kmach_back.
Qed.

End user.

(** The running process of [ks0] with one page of user memory. *)

Definition user_pst : pst :=
  let s := pst0 mach1 SCHED_ROUND_ROBIN in
  set_ps_kmem (mkKmem mach1 (km_mem pt_kmem0) (km_freelist pt_kmem0))
    (set_ps_procs (<[2%nat := set_p_pagetable pt_root0 (ps_procs s 2)]> (ps_procs s)) s).

Lemma user_pst_running k : k_ps k = user_pst -> user_running (img := image1) k 2 5 [] pt_tables0.
Proof.
  intros E. split; [split; unfold kmach; rewrite E; [apply mach1_settled|done|done]|rewrite E| |]; try (by rewrite E).
  apply (uinv_mach pt_kmem0 [] pt_tables0 mach1); [apply uinv0|apply settled_noff, mach1_settled|done].
Qed.
