(* ===== verification/Cache.v ===== *)
(** What the buffer cache promises (kernel/bio.c, kernel/sleeplock.c).

    The linked ring of buffers is a list in order of use, and the operations
    on buffers refine operations on that list: [bstate] relates the kernel
    state of a process that holds no spinlock to an abstract cache, and every
    operation of bio.c is shown to return and to perform its abstract
    counterpart. *)

From Stdlib Require Import ZArith Lia List String Bool FunctionalExtensionality.
From stdpp Require Import base tactics numbers list functions sets.
From S2P Require Import Prelude.
From S2P Require Import Spinlock.
From S2P Require Import Cstring.
From S2P Require Import Kalloc.
From S2P Require Import Vm.
From S2P Require Import Proc.
From S2P Require Import Sched.
From S2P Require Import Abi.
From S2P Require Import Kstate.
From S2P Require Import Bio.
From S2P Require Import Ksection.

(** * Doubly linked rings

    [nx] and [pv] are the next and prev pointers. *)

Section links.
Implicit Types nx pv : nat -> nat.

(** Consecutive nodes of the path point to each other. *)
Fixpoint links nx pv (path : list nat) : Prop :=
  match path with
  | x :: (y :: _) as rest => nx x = y /\ pv y = x /\ links nx pv rest
  | _ => True
  end.

Lemma links_cons nx pv x y l :
  links nx pv (x :: y :: l) <-> nx x = y /\ pv y = x /\ links nx pv (y :: l).
Proof. done. Qed.

Lemma links_app nx pv l x r :
  links nx pv (l ++ x :: r) <-> links nx pv (l ++ [x]) /\ links nx pv (x :: r).
Proof.
  induction l as [|a [|b l] IH].
  - simpl. tauto.
  - simpl app. rewrite !links_cons. simpl. tauto.
  - change ((a :: b :: l) ++ x :: r) with (a :: b :: (l ++ x :: r)).
    change ((a :: b :: l) ++ [x]) with (a :: b :: (l ++ [x])).
    rewrite !links_cons. simpl app in IH. rewrite IH. tauto.
Qed.

Lemma links_rev nx pv l : links nx pv l -> links pv nx (rev l).
Proof.
  induction l as [|x [|y l] IH]; [done|done|].
  intros (Hn & Hp & Hl). change (rev (x :: y :: l)) with ((rev l ++ [y]) ++ [x]).
  rewrite <-app_assoc. simpl. apply links_app. split; [exact (IH Hl)|]. by rewrite !links_cons.
Qed.

(** Pointers of nodes outside the path do not matter: [nx] of its last node
    and [pv] of its first one included. *)
Lemma links_ext nx pv nx' pv' l :
  (forall x, x ∈ removelast l -> nx' x = nx x) -> (forall x, x ∈ tail l -> pv' x = pv x) ->
  links nx pv l -> links nx' pv' l.
Proof.
  induction l as [|x [|y l] IH]; intros Hn Hp; [done|done|].
  rewrite !links_cons. intros (<- & Hpy & Hl). split; [|split].
  - apply Hn. left.
  - rewrite Hp; [done|]. left.
  - apply IH; [| |done].
    + intros z Hz. apply Hn. cbn [removelast]. by right.
    + intros z Hz. apply Hp. by right.
Qed.

End links.

(** The ring of the buffers [l], in order from [head.next]. *)
Definition ring (f : nat -> buf) (l : list nat) : Prop :=
  NoDup l /\ (forall b, b ∈ l -> (b < NBUF)%nat) /\
  links (fun b => b_next (f b)) (fun b => b_prev (f b)) (NBUF :: l ++ [NBUF]).

Lemma ring_head f l : ring f l -> b_next (f NBUF) = hd NBUF l /\ b_prev (f NBUF) = List.last l NBUF.
Proof.
  intros (_ & _ & Hl). split.
  - destruct l; simpl in Hl; apply Hl.
  - apply links_rev in Hl. change (NBUF :: l ++ [NBUF]) with ((NBUF :: l) ++ [NBUF]) in Hl.
    rewrite rev_app_distr in Hl. destruct l as [|b l _] using rev_ind; [apply Hl|].
    change (NBUF :: l ++ [b]) with ((NBUF :: l) ++ [b]) in Hl. rewrite rev_app_distr in Hl.
    simpl in Hl. rewrite last_last. apply Hl.
Qed.

(** The scan of [bget] in either direction is a search of the list. *)
Lemma ring_find_links step c k l x fuel :
  (forall b, b ∈ l -> (b < NBUF)%nat) -> (length l < fuel)%nat ->
  (exists pv, links (fun b => step (k_bufs k b)) pv (x :: l ++ [NBUF])) ->
  ring_find fuel step c (step (k_bufs k x)) k = Ok (find (fun b => c (k_bufs k b)) l) k.
Proof.
  revert x fuel. induction l as [|b l IH]; intros x [|fuel] Hlt Hf [pv Hl]; try (simpl in Hf; lia).
  - destruct Hl as (-> & _). done.
  - simpl in Hl. destruct Hl as (-> & _ & Hl). cbn [ring_find find].
    assert (Hb : (b < NBUF)%nat) by (apply Hlt; left).
    destruct (Nat.eqb_spec b NBUF); [lia|]. unfold bind, getbuf, gets.
    destruct (c (k_bufs k b)) eqn:E; [done|]. apply IH.
    + intros z Hz. apply Hlt. by right.
    + simpl in Hf. lia.
    + by exists pv.
Qed.

Lemma ring_find_next k l c :
  ring (k_bufs k) l -> (length l <= NBUF)%nat ->
  ring_find (S NBUF) b_next c (b_next (k_bufs k NBUF)) k = Ok (find (fun b => c (k_bufs k b)) l) k.
Proof.
  intros (_ & Hlt & Hl) Hlen. apply ring_find_links; [done|lia|].
  by exists (fun b => b_prev (k_bufs k b)).
Qed.

Lemma ring_find_prev k l c :
  ring (k_bufs k) l -> (length l <= NBUF)%nat ->
  ring_find (S NBUF) b_prev c (b_prev (k_bufs k NBUF)) k = Ok (find (fun b => c (k_bufs k b)) (rev l)) k.
Proof.
  intros (_ & Hlt & Hl) Hlen. apply ring_find_links.
  - intros b Hb. apply Hlt. by apply list_elem_of_In, in_rev, list_elem_of_In.
  - rewrite length_rev. lia.
  - exists (fun b => b_next (k_bufs k b)). apply links_rev in Hl.
    change (NBUF :: l ++ [NBUF]) with ((NBUF :: l) ++ [NBUF]) in Hl. rewrite rev_app_distr in Hl.
    simpl in Hl. exact Hl.
Qed.

(** ** Linking and unlinking *)

(** Pointer updates, without the rest of the buffers. *)
Lemma links_insert_front nx pv l b :
  NoDup l -> (forall x, x ∈ l -> (x < NBUF)%nat) -> b ∉ l -> (b < NBUF)%nat ->
  links nx pv (NBUF :: l ++ [NBUF]) ->
  links (<[NBUF := b]> (<[b := nx NBUF]> nx)) (<[nx NBUF := b]> (<[b := NBUF]> pv)) (NBUF :: b :: l ++ [NBUF]).
Proof.
  intros Hnd Hlt Hb HbN Hl. assert (Hne : NBUF <> b) by lia.
  assert (Hhd : nx NBUF = hd NBUF (l ++ [NBUF])) by (destruct l; simpl in *; apply Hl).
  assert (HhdB : nx NBUF <> b).
  { rewrite Hhd. destruct l as [|c l]; simpl; [done|]. intros ->. apply Hb. left. }
  rewrite links_cons. split; [by rewrite fn_lookup_insert|]. split.
  { rewrite fn_lookup_insert_ne by done. by rewrite fn_lookup_insert. }
  destruct l as [|c l].
  - simpl in *. rewrite Hhd. rewrite fn_lookup_insert_ne, !fn_lookup_insert by done. done.
  - simpl app in *. rewrite links_cons in Hl. destruct Hl as (Hc & _ & Hl).
    apply NoDup_cons in Hnd as [Hcl Hnd].
    rewrite links_cons. split; [by rewrite fn_lookup_insert_ne, fn_lookup_insert by done|].
    split; [by rewrite Hc, fn_lookup_insert|]. eapply links_ext; [| |exact Hl].
    + intros x Hx. change (c :: l ++ [NBUF]) with ((c :: l) ++ [NBUF]) in Hx.
      rewrite removelast_last in Hx. assert ((x < NBUF)%nat) by (by apply Hlt).
      rewrite fn_lookup_insert_ne by lia. rewrite fn_lookup_insert_ne; [done|]. by intros ->.
    + intros x Hx. simpl in Hx. apply elem_of_app in Hx as [Hx|Hx%list_elem_of_singleton].
      * rewrite fn_lookup_insert_ne by (rewrite Hc; by intros ->).
        rewrite fn_lookup_insert_ne; [done|]. intros ->. apply Hb. by right.
      * subst x. assert ((c < NBUF)%nat) by (apply Hlt; left).
        rewrite fn_lookup_insert_ne by lia. rewrite fn_lookup_insert_ne by lia. done.
Qed.

(** [b->next->prev = b->prev; b->prev->next = b->next;] *)
Lemma links_remove nx pv l1 b l2 :
  NoDup (l1 ++ b :: l2) -> (forall x, x ∈ l1 ++ b :: l2 -> (x < NBUF)%nat) ->
  links nx pv (NBUF :: (l1 ++ b :: l2) ++ [NBUF]) ->
  links (<[pv b := nx b]> nx) (<[nx b := pv b]> pv) (NBUF :: (l1 ++ l2) ++ [NBUF]).
Proof.
  intros Hnd Hlt Hl. set (N := NBUF) in *.
  assert (HN : N ∉ l1 ++ b :: l2) by (intros H%Hlt; lia).
  apply NoDup_app in Hnd as (Hnd1 & Hd & [Hb2 Hnd2]%NoDup_cons).
  assert (HN1 : N ∉ l1) by set_solver. assert (HN2 : N ∉ l2) by set_solver.
  assert (HF : NoDup (N :: l1)) by (by apply NoDup_cons).
  assert (HT : NoDup (l2 ++ [N])).
  { apply NoDup_app. split; [done|]. split; [set_solver|apply NoDup_singleton]. }
  assert (HD : forall z, z ∈ N :: l1 -> z ∉ l2) by set_solver.
  assert (HD' : forall z, z ∈ l1 -> z ∉ l2 ++ [N]) by set_solver.
  rewrite <-app_assoc in Hl |- *. simpl app in Hl.
  change (N :: l1 ++ b :: l2 ++ [N]) with ((N :: l1) ++ b :: (l2 ++ [N])) in Hl.
  change (N :: l1 ++ l2 ++ [N]) with ((N :: l1) ++ (l2 ++ [N])).
  assert (Etl : tail (N :: l1) = l1) by done. assert (Erl : removelast (l2 ++ [N]) = l2) by apply removelast_last.
  assert (Hx : exists A x, N :: l1 = A ++ [x]).
  { destruct (exists_last (l := N :: l1)) as (A & x & E); [done|]. by exists A, x. }
  assert (Hy : exists y B, l2 ++ [N] = y :: B) by (destruct l2; eexists _, _; done).
  clearbody N. destruct Hx as (A & x & EA), Hy as (y & B & EB). rewrite EA, EB in *.
  rewrite links_app in Hl. destruct Hl as [Hl1 Hl2]. rewrite <-app_assoc in Hl1. simpl app in Hl1.
  rewrite links_app in Hl1. destruct Hl1 as (Hl1 & Hxb & Hbx & _).
  rewrite links_cons in Hl2. destruct Hl2 as (Hby & Hyb & Hl2).
  rewrite <-app_assoc. simpl app. rewrite Hbx, Hby. apply links_app. rewrite links_cons.
  apply NoDup_app in HF as (_ & HxA & _). apply NoDup_cons in HT as [HyB _].
  split; [|split; [by rewrite fn_lookup_insert|split; [by rewrite fn_lookup_insert|]]].
  - eapply links_ext; [| |exact Hl1].
    + intros z Hz. rewrite removelast_last in Hz. rewrite fn_lookup_insert_ne; [done|]. intros ->. set_solver.
    + intros z Hz. rewrite Etl in Hz. rewrite fn_lookup_insert_ne; [done|]. intros ->.
      apply (HD' z); [done|left].
  - eapply links_ext; [| |exact Hl2].
    + intros z Hz. rewrite Erl in Hz. rewrite fn_lookup_insert_ne; [done|]. intros ->.
      apply (HD z); [set_solver|done].
    + intros z Hz. simpl in Hz. rewrite fn_lookup_insert_ne; [done|]. by intros ->.
Qed.

(** A buffer without its links. *)
Record cbuf := mkCbuf {
  cb_valid : bool;
  cb_dev : Z;
  cb_blockno : Z;
  cb_refcnt : Z;
  cb_data : list Z
}.
Definition core (b : buf) : cbuf := mkCbuf (b_valid b) (b_dev b) (b_blockno b) (b_refcnt b) (b_data b).

(** Pointer updates on the buffers themselves. *)
Definition nexts (f : nat -> buf) (b : nat) : nat := b_next (f b).
Definition prevs (f : nat -> buf) (b : nat) : nat := b_prev (f b).

Lemma nexts_set_next f i v : nexts (<[i := set_b_next v (f i)]> f) = <[i := v]> (nexts f).
Proof.
  apply functional_extensionality. intros x. unfold nexts. destruct (decide (i = x)) as [->|].
  - by rewrite !fn_lookup_insert.
  - by rewrite !fn_lookup_insert_ne.
Qed.
Lemma prevs_set_prev f i v : prevs (<[i := set_b_prev v (f i)]> f) = <[i := v]> (prevs f).
Proof.
  apply functional_extensionality. intros x. unfold prevs. destruct (decide (i = x)) as [->|].
  - by rewrite !fn_lookup_insert.
  - by rewrite !fn_lookup_insert_ne.
Qed.
Lemma nexts_same f i x : b_next x = b_next (f i) -> nexts (<[i := x]> f) = nexts f.
Proof.
  intros E. apply functional_extensionality. intros y. unfold nexts. destruct (decide (i = y)) as [->|].
  - by rewrite !fn_lookup_insert.
  - by rewrite !fn_lookup_insert_ne.
Qed.
Lemma prevs_same f i x : b_prev x = b_prev (f i) -> prevs (<[i := x]> f) = prevs f.
Proof.
  intros E. apply functional_extensionality. intros y. unfold prevs. destruct (decide (i = y)) as [->|].
  - by rewrite !fn_lookup_insert.
  - by rewrite !fn_lookup_insert_ne.
Qed.
Definition cores (f : nat -> buf) (b : nat) : cbuf := core (f b).
Lemma cores_same f i x : core x = core (f i) -> cores (<[i := x]> f) = cores f.
Proof.
  intros E. apply functional_extensionality. intros y. unfold cores. destruct (decide (i = y)) as [->|].
  - by rewrite !fn_lookup_insert.
  - by rewrite !fn_lookup_insert_ne.
Qed.

(** [b->next->prev = b->prev; b->prev->next = b->next;] *)
Definition unlink (b : nat) (f : nat -> buf) : nat -> buf :=
  let f1 := <[b_next (f b) := set_b_prev (b_prev (f b)) (f (b_next (f b)))]> f in
  <[b_prev (f1 b) := set_b_next (b_next (f1 b)) (f1 (b_prev (f1 b)))]> f1.

Lemma filter_ne_id (b : nat) (l : list nat) : b ∉ l -> filter (fun x => x <> b) l = l.
Proof.
  induction l as [|x l IH]; intros Hb; [done|]. rewrite filter_cons_True by set_solver.
  f_equal. apply IH. set_solver.
Qed.

Lemma filter_ne_middle (b : nat) l1 l2 :
  NoDup (l1 ++ b :: l2) -> filter (fun x => x <> b) (l1 ++ b :: l2) = l1 ++ l2.
Proof.
  intros (_ & H1 & [H2 _]%NoDup_cons)%NoDup_app.
  rewrite filter_app, filter_cons_False by (intros H; by apply H).
  rewrite !filter_ne_id; [done|done|]. intros Hx. apply (H1 b Hx). left.
Qed.

Lemma unlink_ring f l b :
  ring f l -> b ∈ l ->
  ring (unlink b f) (filter (fun x => x <> b) l) /\ cores (unlink b f) = cores f.
Proof.
  intros (Hnd & Hlt & Hl) Hb. change (links (nexts f) (prevs f) (NBUF :: l ++ [NBUF])) in Hl.
  apply list_elem_of_split in Hb as (l1 & l2 & ->).
  assert (Hb : b_next (f b) <> b).
  { rewrite <-app_assoc in Hl. change (NBUF :: l1 ++ ?r) with ((NBUF :: l1) ++ r) in Hl.
    apply (links_app _ _ (NBUF :: l1) b (l2 ++ [NBUF])) in Hl as [_ Hl].
    apply NoDup_app in Hnd as (_ & _ & [Hb2 _]%NoDup_cons).
    assert ((b < NBUF)%nat) by (apply Hlt; set_solver).
    destruct l2 as [|c l2]; simpl in Hl; destruct Hl as (Hn & _); unfold nexts in Hn; [lia|set_solver]. }
  unfold unlink. rewrite !(fn_lookup_insert_ne f _ _ _ Hb). set (f1 := <[b_next (f b) := _]> f).
  split; [|rewrite cores_same by done; unfold f1; by rewrite cores_same].
  pose proof (links_remove _ _ _ _ _ Hnd Hlt Hl) as Hl'.
  rewrite (filter_ne_middle _ _ _ Hnd). split; [|split].
  - apply NoDup_app in Hnd as (? & H1 & [H2 ?]%NoDup_cons). apply NoDup_app.
    split; [done|]. split; [set_solver|done].
  - intros x Hx. apply Hlt. set_solver.
  - change (links (nexts (<[b_prev (f b) := set_b_next (b_next (f b)) (f1 (b_prev (f b)))]> f1))
                  (prevs (<[b_prev (f b) := set_b_next (b_next (f b)) (f1 (b_prev (f b)))]> f1))
                  (NBUF :: (l1 ++ l2) ++ [NBUF])).
    rewrite nexts_set_next, prevs_same by done. unfold f1. rewrite prevs_set_prev, nexts_same by done. exact Hl'.
Qed.

(** The links that put [b] first. *)
Definition relink (b : nat) (f : nat -> buf) : nat -> buf :=
  let f1 := <[b := set_b_next (b_next (f NBUF)) (f b)]> f in
  let f2 := <[b := set_b_prev NBUF (f1 b)]> f1 in
  let f3 := <[b_next (f2 NBUF) := set_b_prev b (f2 (b_next (f2 NBUF)))]> f2 in
  <[NBUF := set_b_next b (f3 NBUF)]> f3.

Lemma relink_ring f l b :
  ring f l -> b ∉ l -> (b < NBUF)%nat -> ring (relink b f) (b :: l) /\ cores (relink b f) = cores f.
Proof.
  intros (Hnd & Hlt & Hl) Hb HbN. unfold relink.
  set (f1 := <[b := set_b_next _ _]> f). set (f2 := <[b := set_b_prev _ _]> f1).
  assert (Hn : b_next (f2 NBUF) = nexts f NBUF).
  { unfold f2. rewrite fn_lookup_insert_ne by lia. unfold f1. by rewrite fn_lookup_insert_ne by lia. }
  rewrite Hn. set (f3 := <[nexts f NBUF := set_b_prev _ _]> f2). split.
  - pose proof (links_insert_front _ _ _ _ Hnd Hlt Hb HbN Hl) as Hl'.
    split; [by apply NoDup_cons|]. split; [intros x [->|]%elem_of_cons; [done|by apply Hlt]|].
    change (links (nexts (<[NBUF := set_b_next b (f3 NBUF)]> f3)) (prevs (<[NBUF := set_b_next b (f3 NBUF)]> f3))
              (NBUF :: b :: l ++ [NBUF])).
    rewrite nexts_set_next, prevs_same by done. unfold f3. rewrite prevs_set_prev, nexts_same by done.
    unfold f2. rewrite prevs_set_prev, nexts_same by done.
    unfold f1. rewrite prevs_same, nexts_set_next by done. exact Hl'.
  - rewrite cores_same by done. unfold f3. rewrite cores_same by done. unfold f2. rewrite cores_same by done.
    unfold f1. by rewrite cores_same.
Qed.

(** * The abstract cache *)

(** The buffers in order of use, most recent first; their contents; and the
    pids of the processes that have them locked. *)
Record acache := mkAcache {
  ca_ring : list nat;
  ca_buf : nat -> cbuf;
  ca_own : nat -> option Z
}.

Definition lock_owner (l : sleeplock) : option Z := if sl_locked l then Some (sl_pid l) else None.

(** The abstract operations. *)
Definition ca_find (dev n : Z) (a : acache) : option nat :=
  find (fun b => (cb_dev (ca_buf a b) =? dev) && (cb_blockno (ca_buf a b) =? n)) (ca_ring a).

(** The least recently used buffer that nobody refers to. *)
Definition ca_victim (a : acache) : option nat :=
  find (fun b => cb_refcnt (ca_buf a b) =? 0) (rev (ca_ring a)).

Definition ca_set (b : nat) (c : cbuf) (a : acache) : acache :=
  mkAcache (ca_ring a) (<[b := c]> (ca_buf a)) (ca_own a).
Definition ca_lock (b : nat) (o : option Z) (a : acache) : acache :=
  mkAcache (ca_ring a) (ca_buf a) (<[b := o]> (ca_own a)).
Definition ca_front (b : nat) (a : acache) : acache :=
  mkAcache (b :: filter (fun x => x <> b) (ca_ring a)) (ca_buf a) (ca_own a).

Definition cb_ref (f : Z -> Z) (c : cbuf) : cbuf :=
  mkCbuf (cb_valid c) (cb_dev c) (cb_blockno c) (u32 (f (cb_refcnt c))) (cb_data c).
Definition cb_fill (data : list Z) (c : cbuf) : cbuf :=
  mkCbuf true (cb_dev c) (cb_blockno c) (cb_refcnt c) data.

Definition ca_ref (f : Z -> Z) (b : nat) (a : acache) : acache := ca_set b (cb_ref f (ca_buf a b)) a.

(** The buffer that [bget] returns, referenced once more. *)
Definition ca_get (dev n : Z) (a : acache) : option (nat * acache) :=
  match ca_find dev n a with
  | Some b => Some (b, ca_ref Z.succ b a)
  | None =>
      match ca_victim a with
      | Some b => Some (b, ca_set b (mkCbuf false dev n 1 (cb_data (ca_buf a b))) a)
      | None => None
      end
  end.

(** A locked buffer has the block's contents. *)
Definition ca_load (disk : Z -> list Z) (b : nat) (a : acache) : acache :=
  let c := ca_buf a b in
  if cb_valid c then a else ca_set b (cb_fill (disk (cb_blockno c)) c) a.

Definition ca_release (b : nat) (a : acache) : acache :=
  let a' := ca_lock b None (ca_ref Z.pred b a) in
  if cb_refcnt (ca_buf a' b) =? 0 then ca_front b a' else a'.

(** The kernel of process [p] has the cache [a]. *)
Record bstate (k : ks) (p : nat) (pid : Z) (a : acache) : Prop := {
  bs_run : running k p pid;
  bs_ring : ring (k_bufs k) (ca_ring a);
  bs_all : Permutation (ca_ring a) (seq 0 NBUF);
  bs_core : forall b, (b < NBUF)%nat -> core (k_bufs k b) = ca_buf a b;
  bs_own : forall b, (b < NBUF)%nat -> lock_owner (k_sleep k (sl_buf b)) = ca_own a b
}.

(** What the cache leaves alone. *)
Definition frame (k k' : ks) : Prop :=
  k_log k' = k_log k /\ k_sb k' = k_sb k /\ k_inodes k' = k_inodes k /\
  (forall i, k_sleep k' (sl_inode i) = k_sleep k (sl_inode i)).

#[export] Instance frame_preorder : PreOrder frame.
Proof.
  split; [by repeat split|]. intros k1 k2 k3 (H1 & H2 & H3 & H4) (H5 & H6 & H7 & H8).
  split; [congruence|]. split; [congruence|]. split; [congruence|]. intros i. by rewrite H8, H4.
Qed.

Section cache.
Context `{Swtch ks} {BD : BlockDev} `{!BlockDevOk BD}.
Context (p : nat) (pid : Z).

Lemma bs_length k a : bstate k p pid a -> length (ca_ring a) = NBUF.
Proof. intros Hb. by rewrite (bs_all _ _ _ _ Hb), length_seq. Qed.

Lemma bs_mem k a b : bstate k p pid a -> b ∈ ca_ring a <-> (b < NBUF)%nat.
Proof. intros Hb. rewrite (bs_all _ _ _ _ Hb), elem_of_seq. lia. Qed.

(** Updates of a buffer that keep its links. *)
Lemma ring_set f l b x :
  b_next x = b_next (f b) -> b_prev x = b_prev (f b) -> ring f l -> ring (<[b := x]> f) l.
Proof.
  intros Hn Hp (Hnd & Hlt & Hl). split; [done|]. split; [done|].
  eapply links_ext; [| |exact Hl]; intros y _; simpl;
    destruct (decide (b = y)) as [->|]; rewrite ?fn_lookup_insert, ?fn_lookup_insert_ne; done.
Qed.

Lemma bstate_set k a b x :
  bstate k p pid a -> b_next x = b_next (k_bufs k b) -> b_prev x = b_prev (k_bufs k b) ->
  bstate (set_k_bufs (<[b := x]> (k_bufs k)) k) p pid (ca_set b (core x) a).
Proof.
  intros [Hr Hrg Hal Hc Ho] Hn Hp. split; try done.
  - destruct Hr. by split.
  - by apply ring_set.
  - intros y Hy. simpl. destruct (decide (b = y)) as [->|].
    + by rewrite !fn_lookup_insert.
    + by rewrite !fn_lookup_insert_ne; auto.
Qed.

Definition quietly (k k' : ks) : Prop :=
  frame k k' /\ k_disk k' = k_disk k /\ k_writes k' = k_writes k.

Lemma find_cong {A} (f g : A -> bool) l :
  (forall x, x ∈ l -> f x = g x) -> find f l = find g l.
Proof.
  induction l as [|x l IH]; intros Hx; simpl; [done|].
  rewrite (Hx x) by left. rewrite IH; [done|]. intros y Hy. apply Hx. by right.
Qed.

Lemma find_core k a (c : cbuf -> bool) l :
  bstate k p pid a -> (forall b, b ∈ l -> b ∈ ca_ring a) ->
  find (fun b => c (core (k_bufs k b))) l = find (fun b => c (ca_buf a b)) l.
Proof.
  intros Hb Hl. apply find_cong. intros x Hx%Hl. rewrite (bs_mem k) in Hx by done.
  by rewrite (bs_core _ _ _ _ Hb x Hx).
Qed.

(** The two scans of [bget], inside its critical section. *)
Lemma scan_hit k m a dev n :
  bstate k p pid a ->
  ring_find (S NBUF) b_next (fun bp => (b_dev bp =? dev) && (b_blockno bp =? n))
    (b_next (k_bufs k NBUF)) (set_kmach m k) = Ok (ca_find dev n a) (set_kmach m k).
Proof.
  intros Hb. rewrite (ring_find_next (set_kmach m k) (ca_ring a)).
  - f_equal. by apply (find_core k a (fun c => (cb_dev c =? dev) && (cb_blockno c =? n))).
  - apply Hb.
  - by rewrite (bs_length k).
Qed.

Lemma scan_free k m a :
  bstate k p pid a ->
  ring_find (S NBUF) b_prev (fun bp => b_refcnt bp =? 0)
    (b_prev (k_bufs k NBUF)) (set_kmach m k) = Ok (ca_victim a) (set_kmach m k).
Proof.
  intros Hb. rewrite (ring_find_prev (set_kmach m k) (ca_ring a)).
  - f_equal. apply (find_core k a (fun c => cb_refcnt c =? 0)); [done|].
    intros b. by rewrite !list_elem_of_In, <-in_rev.
  - apply Hb.
  - by rewrite (bs_length k).
Qed.

Lemma bstate_mach k a m : bstate k p pid a -> running (set_kmach m k) p pid -> bstate (set_kmach m k) p pid a.
Proof. intros [? ? ? ? ?] ?. by split. Qed.

Lemma bstate_taken k a b :
  bstate k p pid a -> bstate (sleep_taken (sl_buf b) pid k) p pid (ca_lock b (Some pid) a).
Proof.
  intros [? ? ? ? Ho]. split; try done; [by apply sleep_taken_running|].
  intros y Hy. simpl. destruct (decide (b = y)) as [->|].
  - by rewrite !fn_lookup_insert.
  - rewrite !fn_lookup_insert_ne; auto. congruence.
Qed.

(** The end of [bget]: drop the cache's lock, take the buffer's. *)
Lemma bget_tail k a b m :
  bstate k p pid a -> (b < NBUF)%nat -> ca_own a b = None -> kmach k = m ->
  (rel bcache_lock ;;; acquiresleep (sl_buf b) ;;; ret b) (set_kmach (acquired bcache_lock m) k) =
  Ok b (sleep_taken (sl_buf b) pid k).
Proof.
  intros Hb Hlt Ho <-. pose proof (bs_run _ _ _ _ Hb) as Hr. unfold bind at 1.
  rewrite (rel_eq _ (kmach k)) by (done || apply Hr).
  change (set_kmach (kmach k) (set_kmach _ k)) with (set_kmach (kmach k) k). rewrite set_kmach_id.
  unfold bind. rewrite (acquiresleep_eq _ _ p pid Hr); [done|].
  rewrite <-(bs_own _ _ _ _ Hb b Hlt) in Ho. unfold lock_owner in Ho. by destruct (sl_locked _).
Qed.

Lemma ca_get_mem k a dev n b a' : bstate k p pid a -> ca_get dev n a = Some (b, a') -> (b < NBUF)%nat.
Proof.
  intros Hb. unfold ca_get. rewrite <-(bs_mem k a) by done.
  destruct (ca_find dev n a) eqn:E; [intros [= <- _]|destruct (ca_victim a) eqn:E'; [intros [= <- _]|done]].
  - apply find_some in E as [E _]. by apply list_elem_of_In.
  - apply find_some in E' as [E' _]. apply in_rev in E'. by apply list_elem_of_In.
Qed.

Lemma bget_eq k a dev n b a' :
  bstate k p pid a -> ca_get dev n a = Some (b, a') -> ca_own a b = None ->
  exists k', bget dev n k = Ok b k' /\ bstate k' p pid (ca_lock b (Some pid) a') /\ quietly k k'.
Proof.
  intros Hb Hg Ho. pose proof (ca_get_mem _ _ _ _ _ _ Hb Hg) as Hlt.
  pose proof (run_settled _ _ _ (bs_run _ _ _ _ Hb)) as Hs. unfold bget.
  rewrite (bind_Ok _ _ _ _ _ (acq_eq _ _ Hs)). unfold getbuf at 1, gets, bind at 1.
  change (k_bufs (set_kmach _ k)) with (k_bufs k).
  rewrite (bind_Ok _ _ _ _ _ (scan_hit _ _ _ dev n Hb)). unfold ca_get in Hg.
  destruct (ca_find dev n a) as [b'|] eqn:Ef.
  - injection Hg as -> <-.
    set (x := set_b_refcnt (u32 (b_refcnt (k_bufs k b) + 1)) (k_bufs k b)).
    pose proof (bstate_set _ _ b x Hb eq_refl eq_refl) as Hb'.
    exists (sleep_taken (sl_buf b) pid (set_k_bufs (<[b := x]> (k_bufs k)) k)). split; [|split; [|done]].
    + unfold updbuf, modify, bind at 1.
      exact (bget_tail _ _ b (kmach k) Hb' Hlt Ho eq_refl).
    + apply bstate_taken. unfold ca_ref. rewrite <-(bs_core _ _ _ _ Hb b Hlt). exact Hb'.
  - unfold getbuf at 1, gets, bind at 1. change (k_bufs (set_kmach _ k)) with (k_bufs k).
    rewrite (bind_Ok _ _ _ _ _ (scan_free _ _ _ Hb)).
    destruct (ca_victim a) as [b'|] eqn:Ev; [|done]. injection Hg as -> <-.
    set (x := mkBuf false dev n 1 (b_prev (k_bufs k b)) (b_next (k_bufs k b)) (b_data (k_bufs k b))).
    pose proof (bstate_set _ _ b x Hb eq_refl eq_refl) as Hb'.
    exists (sleep_taken (sl_buf b) pid (set_k_bufs (<[b := x]> (k_bufs k)) k)). split; [|split; [|done]].
    + rewrite <-(bget_tail _ _ b (kmach k) Hb' Hlt Ho eq_refl).
      unfold updbuf, modify. unfold bind at 1 2 3 4. cbn [set_kmach set_k_bufs k_bufs set_k_ps].
      rewrite !fn_lookup_insert, !fn_insert_insert. done.
    + apply bstate_taken. by rewrite <-(bs_core _ _ _ _ Hb b Hlt).
Qed.

(** [bget] panics when every buffer is referenced and none has the block. *)
Lemma bget_full k a dev n :
  bstate k p pid a -> ca_get dev n a = None -> bget dev n k = Panic "bget: no buffers".
Proof.
  intros Hb Hg. pose proof (run_settled _ _ _ (bs_run _ _ _ _ Hb)) as Hs. unfold bget.
  rewrite (bind_Ok _ _ _ _ _ (acq_eq _ _ Hs)). unfold getbuf at 1, gets, bind at 1.
  change (k_bufs (set_kmach _ k)) with (k_bufs k).
  rewrite (bind_Ok _ _ _ _ _ (scan_hit _ _ _ dev n Hb)). unfold ca_get in Hg.
  destruct (ca_find dev n a); [done|].
  unfold getbuf at 1, gets, bind at 1. change (k_bufs (set_kmach _ k)) with (k_bufs k).
  rewrite (bind_Ok _ _ _ _ _ (scan_free _ _ _ Hb)). by destruct (ca_victim a).
Qed.

Lemma disk_rw_running b write k :
  running k p pid -> virtio_disk_rw b write k = Ok tt (transfer b write k).
Proof.
  intros [Hs _ _]. rewrite disk_rw_ok by (by apply settled_noff || apply Hs).
  destruct Hs as (_ & -> & _). unfold transfer. destruct write; by destruct k as [[[]]].
Qed.

Lemma bread_eq k a dev n b a' :
  bstate k p pid a -> ca_get dev n a = Some (b, a') -> ca_own a b = None ->
  exists k', bread dev n k = Ok b k' /\
    bstate k' p pid (ca_lock b (Some pid) (ca_load (k_disk k) b a')) /\ quietly k k'.
Proof.
  intros Hb Hg Ho. pose proof (ca_get_mem _ _ _ _ _ _ Hb Hg) as Hlt.
  destruct (bget_eq _ _ _ _ _ _ Hb Hg Ho) as (k1 & E1 & Hb1 & Hq1).
  pose proof (bs_core _ _ _ _ Hb1 b Hlt) as Hc. unfold bread. rewrite (bind_Ok _ _ _ _ _ E1).
  unfold getbuf, gets, bind at 1. unfold ca_load. simpl in Hc.
  replace (b_valid (k_bufs k1 b)) with (cb_valid (ca_buf a' b)) by (by rewrite <-Hc).
  destruct (cb_valid (ca_buf a' b)) eqn:Ev; simpl negb; cbv iota.
  - exists k1. done.
  - pose proof (bs_run _ _ _ _ Hb1) as Hr. unfold bind at 1 2.
    rewrite (disk_rw_running b false k1 Hr). unfold updbuf, modify, bind, ret, transfer.
    set (x := set_b_valid true (set_b_data (k_disk k1 (b_blockno (k_bufs k1 b))) (k_bufs k1 b))).
    exists (set_k_bufs (<[b := x]> (k_bufs k1)) k1). destruct Hq1 as (? & Hd & ?).
    split; [|split; [|done]].
    + f_equal. simpl. by rewrite fn_lookup_insert, fn_insert_insert.
    + pose proof (bstate_set _ _ b x Hb1 eq_refl eq_refl) as Hb2.
      replace (core x) with (cb_fill (k_disk k (cb_blockno (ca_buf a' b))) (ca_buf a' b)) in Hb2; [exact Hb2|].
      rewrite <-Hc, <-Hd. done.
Qed.

Lemma bwrite_eq k a b :
  bstate k p pid a -> (b < NBUF)%nat -> ca_own a b = Some pid ->
  bwrite b k = Ok tt (transfer b true k) /\ bstate (transfer b true k) p pid a /\ frame k (transfer b true k).
Proof.
  intros Hb Hlt Ho. pose proof (bs_run _ _ _ _ Hb) as Hr. unfold bwrite.
  rewrite (bind_Ok _ _ _ _ _ (holdingsleep_eq _ _ _ _ Hr)).
  rewrite <-(bs_own _ _ _ _ Hb b Hlt) in Ho. unfold lock_owner in Ho.
  destruct (sl_locked _); [|done]. injection Ho as ->. rewrite Z.eqb_refl. simpl.
  split; [by apply disk_rw_running|]. split; [|done].
  destruct Hb as [[? ? ?] ? ? ? ?]. by split.
Qed.

Lemma bstate_dropped k a b :
  bstate k p pid a -> bstate (sleep_dropped (sl_buf b) k) p pid (ca_lock b None a).
Proof.
  intros [? ? ? ? Ho]. split; try done; [by apply sleep_dropped_running|].
  intros y Hy. simpl. destruct (decide (b = y)) as [->|].
  - by rewrite !fn_lookup_insert.
  - rewrite !fn_lookup_insert_ne; auto. congruence.
Qed.

Lemma quietly_dropped k b : quietly k (sleep_dropped (sl_buf b) k).
Proof. by repeat split. Qed.

(** An update of the reference count in its own critical section. *)
Lemma refcnt_section k a b f :
  bstate k p pid a -> (b < NBUF)%nat ->
  exists k', (acq bcache_lock ;;; updbuf b (fun bp => set_b_refcnt (u32 (f (b_refcnt bp))) bp) ;;;
              rel bcache_lock) k = Ok tt k' /\ bstate k' p pid (ca_ref f b a) /\ quietly k k'.
Proof.
  intros Hb Hlt. pose proof (run_settled _ _ _ (bs_run _ _ _ _ Hb)) as Hs.
  rewrite (bind_Ok _ _ _ _ _ (acq_eq _ _ Hs)). unfold updbuf, modify, bind.
  rewrite (rel_eq _ (kmach k)) by done.
  set (x := set_b_refcnt (u32 (f (b_refcnt (k_bufs k b)))) (k_bufs k b)).
  exists (set_k_bufs (<[b := x]> (k_bufs k)) k). split; [|split; [|done]].
  - f_equal. by destruct k as [[[]]].
  - unfold ca_ref. rewrite <-(bs_core _ _ _ _ Hb b Hlt). by apply (bstate_set _ _ b x Hb).
Qed.

Lemma bpin_eq k a b :
  bstate k p pid a -> (b < NBUF)%nat ->
  exists k', bpin b k = Ok tt k' /\ bstate k' p pid (ca_ref Z.succ b a) /\ quietly k k'.
Proof. apply (refcnt_section k a b Z.succ). Qed.

Lemma bunpin_eq k a b :
  bstate k p pid a -> (b < NBUF)%nat ->
  exists k', bunpin b k = Ok tt k' /\ bstate k' p pid (ca_ref Z.pred b a) /\ quietly k k'.
Proof. apply (refcnt_section k a b Z.pred). Qed.

Lemma bstate_front k a b :
  bstate k p pid a -> (b < NBUF)%nat ->
  bstate (set_k_bufs (relink b (unlink b (k_bufs k))) k) p pid (ca_front b a).
Proof.
  intros Hb Hlt. pose proof (bs_mem _ _ b Hb) as Hm. destruct Hb as [[? ? ?] Hrg Hal Hc Ho].
  destruct (unlink_ring _ _ _ Hrg (proj2 Hm Hlt)) as [Hr1 Hc1].
  destruct (relink_ring _ _ b Hr1) as [Hr2 Hc2]; [by intros [? _]%list_elem_of_filter|done|].
  split; try done.
  - simpl. rewrite <-Hal. destruct Hrg as (Hnd & _).
    destruct (list_elem_of_split _ _ (proj2 Hm Hlt)) as (l1 & l2 & E). rewrite E in *.
    rewrite filter_ne_middle by done. apply Permutation_middle.
  - intros y Hy. simpl. change (cores (relink b (unlink b (k_bufs k))) y = ca_buf a y).
    rewrite Hc2, Hc1. by apply Hc.
Qed.

Lemma brelse_eq k a b :
  bstate k p pid a -> (b < NBUF)%nat -> ca_own a b = Some pid ->
  exists k', brelse b k = Ok tt k' /\ bstate k' p pid (ca_release b a) /\ quietly k k'.
Proof.
  intros Hb Hlt Ho. pose proof (bs_run _ _ _ _ Hb) as Hr. unfold brelse.
  rewrite (bind_Ok _ _ _ _ _ (holdingsleep_eq _ _ _ _ Hr)).
  rewrite <-(bs_own _ _ _ _ Hb b Hlt) in Ho. unfold lock_owner in Ho.
  destruct (sl_locked _); [|done]. injection Ho as ->. rewrite Z.eqb_refl. simpl.
  unfold bind at 1. rewrite releasesleep_eq by apply Hr.
  pose proof (bstate_dropped _ _ b Hb) as Hb1. pose proof (quietly_dropped k b) as Hq1.
  set (k1 := sleep_dropped _ k) in *. pose proof (run_settled _ _ _ (bs_run _ _ _ _ Hb1)) as Hs1.
  rewrite (bind_Ok _ _ _ _ _ (acq_eq _ _ Hs1)).
  set (x := set_b_refcnt (u32 (b_refcnt (k_bufs k1 b) - 1)) (k_bufs k1 b)).
  pose proof (bstate_set _ _ b x Hb1 eq_refl eq_refl) as Hb2.
  assert (Ea : ca_set b (core x) (ca_lock b None a) = ca_lock b None (ca_ref Z.pred b a)).
  { unfold ca_ref. rewrite <-(bs_core _ _ _ _ Hb b Hlt). done. }
  rewrite Ea in Hb2. set (k2 := set_k_bufs _ k1) in *. pose proof (bs_core _ _ _ _ Hb2 b Hlt) as Hc2.
  unfold ca_release. cbv zeta. rewrite <-Hc2. unfold updbuf at 1, modify, bind at 1.
  change (set_k_bufs _ (set_kmach ?m k1)) with (set_kmach m k2).
  unfold getbuf at 1, gets, bind at 1. change (k_bufs (set_kmach _ k2)) with (k_bufs k2).
  change (cb_refcnt (core (k_bufs k2 b))) with (b_refcnt (k_bufs k2 b)).
  destruct (b_refcnt (k_bufs k2 b) =? 0).
  - exists (set_k_bufs (relink b (unlink b (k_bufs k2))) k2). split; [|split; [|done]].
    + unfold link_front, getbuf, updbuf, modify, gets, bind.
      rewrite (rel_eq _ (kmach k1)) by done. f_equal.
      exact (f_equal (set_k_bufs (relink b (unlink b (k_bufs k2)))) (set_kmach_back _ k2)).
    + by apply bstate_front.
  - exists k2. split; [|done]. unfold bind, ret. rewrite (rel_eq _ (kmach k1)) by done.
    f_equal. apply (set_kmach_back _ k2).
Qed.

(** * Blocks as the file system sees them

    Device [d] has the blocks [D] on the disk; through the cache its blocks
    are [V]. *)

Definition rf (a : acache) (b : nat) : Z := cb_refcnt (ca_buf a b).
Definition caches (d : Z) (a : acache) (b : nat) (n : Z) : Prop :=
  (b < NBUF)%nat /\ cb_dev (ca_buf a b) = d /\ cb_blockno (ca_buf a b) = n.
Definition has_block (d : Z) (a : acache) (b : nat) (n : Z) : Prop :=
  caches d a b n /\ cb_valid (ca_buf a b) = true.

#[global] Instance has_block_dec d a b n : Decision (has_block d a b n).
Proof. unfold has_block, caches. apply _. Defined.

Record cinv (d : Z) (D V : Z -> list Z) (a : acache) : Prop := {
  (** a block is in one buffer at most *)
  ci_uniq : forall b b' n, caches d a b n -> caches d a b' n -> b = b';
  ci_view : forall b n, has_block d a b n -> cb_data (ca_buf a b) = V n;
  ci_miss : forall n, (forall b, ~ has_block d a b n) -> V n = D n;
  (** only referenced buffers differ from the disk *)
  ci_clean : forall b n, has_block d a b n -> rf a b = 0 -> V n = D n;
  ci_ref : forall b, (b < NBUF)%nat -> 0 <= rf a b;
  ci_idle : forall b, (b < NBUF)%nat -> rf a b = 0 -> ca_own a b = None
}.

Lemma ca_find_Some k a d n b :
  bstate k p pid a -> ca_find d n a = Some b -> caches d a b n.
Proof.
  intros Hb [Hin He]%find_some. apply list_elem_of_In in Hin. rewrite (bs_mem k) in Hin by done.
  apply andb_true_iff in He as [?%Z.eqb_eq ?%Z.eqb_eq]. done.
Qed.

Lemma ca_find_None k a d n b : bstate k p pid a -> ca_find d n a = None -> ~ caches d a b n.
Proof.
  intros Hb Hn (Hlt & Hd & Hbn). apply (bs_mem k a) in Hlt; [|done].
  apply list_elem_of_In in Hlt. pose proof (find_none _ _ Hn b Hlt) as He. simpl in He. rewrite Hd, Hbn, !Z.eqb_refl in He. done.
Qed.

Lemma ca_victim_Some k a b :
  bstate k p pid a -> ca_victim a = Some b -> (b < NBUF)%nat /\ rf a b = 0.
Proof.
  intros Hb [Hin He]%find_some. apply in_rev, list_elem_of_In in Hin. rewrite (bs_mem k) in Hin by done.
  by apply Z.eqb_eq in He.
Qed.

Lemma ca_victim_None k a b :
  bstate k p pid a -> ca_victim a = None -> (b < NBUF)%nat -> rf a b <> 0.
Proof.
  intros Hb Hn Hlt Hz. apply (bs_mem k a) in Hlt; [|done].
  assert (Hin : In b (rev (ca_ring a))) by (apply in_rev; rewrite rev_involutive; by apply list_elem_of_In).
  pose proof (find_none _ _ Hn b Hin) as He. unfold rf in Hz. simpl in He. by rewrite Hz in He.
Qed.

Definition has_room (a : acache) : Prop := exists b, (b < NBUF)%nat /\ rf a b = 0.

(** What a successful [bread] of block [n] makes of the cache. *)
Record got (d n : Z) (a : acache) (b : nat) (a' : acache) : Prop := {
  got_has : has_block d a' b n;
  got_free : ca_own a b = None;
  got_own : ca_own a' = <[b := Some pid]> (ca_own a);
  got_ref : forall x, rf a' x = if decide (x = b) then rf a b + 1 else rf a x;
  got_keep : forall x m, 1 <= rf a x -> has_block d a x m -> has_block d a' x m
}.

Ltac bcase b x :=
  simpl in *; destruct (decide (b = x)) as [<-|];
  rewrite ?fn_lookup_insert, ?fn_lookup_insert_ne in * by done; simpl in *.

(** A buffer that has just been given to a block is filled from the disk. *)
Lemma cinv_fill k d D V n a b c :
  bstate k p pid a -> cinv d D V a -> (b < NBUF)%nat ->
  (forall x, caches d a x n -> x = b) -> (forall m, has_block d a b m -> V m = D m) -> (has_block d a b n -> False) ->
  c = mkCbuf true d n (rf a b + 1) (D n) ->
  cinv d D V (ca_lock b (Some pid) (ca_set b c a)).
Proof.
  intros Hb [Hu Hv Hm Hc Hr Hi] Hlt Hx Hcl Hno ->.
  assert (HVD : V n = D n).
  { apply Hm. intros x Hh. pose proof (Hx x (proj1 Hh)) as ->. by apply Hno. }
  unfold has_block, caches, rf in *. split; simpl; unfold has_block, caches, rf; simpl.
  - intros x y m (? & Hdx & Hbx) (? & Hdy & Hby). bcase b x; bcase b y; try done; subst.
    + symmetry. by apply Hx.
    + by apply Hx.
    + by apply (Hu x y (cb_blockno (ca_buf a x))).
  - intros x m ((? & Hdx & Hbx) & Hvx). bcase b x; [congruence|]. by apply Hv.
  - intros m Hno'. destruct (decide (m = n)) as [->|Hne]; [done|]. destruct (decide (has_block d a b m)) as [Hh|Hh].
    + by apply Hcl.
    + apply Hm. intros x Hhx. bcase b x; [by apply Hh|]. apply (Hno' x). by rewrite fn_lookup_insert_ne.
  - intros x m ((? & Hdx & Hbx) & Hvx). bcase b x; [congruence|]. intros. by apply (Hc x).
  - intros x ?. bcase b x; [|by apply Hr]. specialize (Hr b Hlt). lia.
  - intros x ?. bcase b x; [|by apply Hi]. specialize (Hr b Hlt). lia.
Qed.

(** Reference counts, owners and order may change as long as what becomes
    unreferenced is clean and unlocked. *)
Lemma cinv_meta d D V a a' :
  (forall x, cb_valid (ca_buf a' x) = cb_valid (ca_buf a x) /\ cb_dev (ca_buf a' x) = cb_dev (ca_buf a x) /\
             cb_blockno (ca_buf a' x) = cb_blockno (ca_buf a x) /\ cb_data (ca_buf a' x) = cb_data (ca_buf a x)) ->
  cinv d D V a -> (forall x, (x < NBUF)%nat -> 0 <= rf a' x) ->
  (forall x n, has_block d a x n -> rf a' x = 0 -> V n = D n) ->
  (forall x, (x < NBUF)%nat -> rf a' x = 0 -> ca_own a' x = None) ->
  cinv d D V a'.
Proof.
  intros Hs [Hu Hv Hm Hc Hr Hi] Hr' Hc' Hi'.
  assert (Hca : forall x n, caches d a' x n <-> caches d a x n).
  { intros x n. unfold caches. by destruct (Hs x) as (_ & -> & -> & _). }
  assert (Hha : forall x n, has_block d a' x n <-> has_block d a x n).
  { intros x n. unfold has_block. by rewrite Hca; destruct (Hs x) as (-> & _). }
  split; try done.
  - intros x y n Hx%Hca Hy%Hca. by apply (Hu x y n).
  - intros x n Hx%Hha. destruct (Hs x) as (_ & _ & _ & ->). by apply Hv.
  - intros n Hn. apply Hm. intros x Hx%Hha. by apply (Hn x).
  - intros x n Hx%Hha. by apply Hc'.
Qed.

Lemma rf_ref f a b x :
  rf (ca_ref f b a) x = if decide (x = b) then u32 (f (rf a b)) else rf a x.
Proof.
  unfold ca_ref, rf; simpl. case_decide as Hd; [subst; by rewrite fn_lookup_insert|].
  by rewrite fn_lookup_insert_ne by congruence.
Qed.

Lemma ca_ref_same f b a x :
  cb_valid (ca_buf (ca_ref f b a) x) = cb_valid (ca_buf a x) /\ cb_dev (ca_buf (ca_ref f b a) x) = cb_dev (ca_buf a x) /\
  cb_blockno (ca_buf (ca_ref f b a) x) = cb_blockno (ca_buf a x) /\ cb_data (ca_buf (ca_ref f b a) x) = cb_data (ca_buf a x).
Proof. unfold ca_ref; simpl. destruct (decide (b = x)) as [<-|]; by rewrite ?fn_lookup_insert, ?fn_lookup_insert_ne. Qed.

Lemma has_block_same d a a' x n :
  cb_valid (ca_buf a' x) = cb_valid (ca_buf a x) /\ cb_dev (ca_buf a' x) = cb_dev (ca_buf a x) /\
  cb_blockno (ca_buf a' x) = cb_blockno (ca_buf a x) /\ cb_data (ca_buf a' x) = cb_data (ca_buf a x) ->
  has_block d a x n -> has_block d a' x n.
Proof. intros (E1 & E2 & E3 & _). unfold has_block, caches. by rewrite E1, E2, E3. Qed.

(** A hit on a buffer that has its contents. *)
Lemma got_hit d D V n a b :
  cinv d D V a -> has_block d a b n -> ca_own a b = None -> rf a b < 2 ^ 32 - 1 ->
  let a' := ca_lock b (Some pid) (ca_ref Z.succ b a) in
  cinv d D V a' /\ got d n a b a'.
Proof.
  intros Hc Hh Ho Hlt a'. pose proof (ci_ref _ _ _ _ Hc b (proj1 (proj1 Hh))) as Hb.
  assert (Hrf : forall x, rf a' x = if decide (x = b) then rf a b + 1 else rf a x).
  { intros x. unfold a'. change (rf (ca_lock _ _ ?z)) with (rf z). rewrite rf_ref.
    case_decide; [rewrite u32_small; lia|done]. }
  split.
  - apply (cinv_meta _ _ _ a); [apply ca_ref_same|done| | |]; intros x; rewrite ?Hrf.
    + intros Hx. pose proof (ci_ref _ _ _ _ Hc x Hx). case_decide; lia.
    + intros m Hm. case_decide; [lia|]. by apply (ci_clean _ _ _ _ Hc).
    + intros Hx. simpl. case_decide; [lia|]. intros Hz. rewrite fn_lookup_insert_ne by congruence.
      by apply (ci_idle _ _ _ _ Hc).
  - split; try done.
    + by apply (has_block_same d a), Hh; apply ca_ref_same.
    + intros x m _. apply has_block_same, ca_ref_same.
Qed.

(** A hit on an empty buffer, or a recycled one. *)
Lemma got_fill k d D V n a b c :
  bstate k p pid a -> cinv d D V a -> (b < NBUF)%nat ->
  (forall x, caches d a x n -> x = b) -> (forall m, has_block d a b m -> V m = D m /\ rf a b = 0) -> (has_block d a b n -> False) ->
  ca_own a b = None -> c = mkCbuf true d n (rf a b + 1) (D n) ->
  let a' := ca_lock b (Some pid) (ca_set b c a) in
  cinv d D V a' /\ got d n a b a'.
Proof.
  intros Hb Hc Hlt Hx Hm Hno Ho Ec a'. split.
  - apply (cinv_fill k d D V n a b c); try done. intros m Hh. by apply Hm.
  - subst c a'. split; try done; simpl.
    + unfold has_block, caches; simpl. by rewrite fn_lookup_insert.
    + intros x. unfold rf; simpl. case_decide as Hd; [subst; by rewrite fn_lookup_insert|].
      by rewrite fn_lookup_insert_ne by congruence.
    + intros x m Hr Hh. destruct (decide (b = x)) as [<-|]; [destruct (Hm m Hh); lia|].
      unfold has_block, caches in *; simpl. by rewrite fn_lookup_insert_ne by done.
Qed.

Lemma fill_ref b a data :
  0 <= rf a b < 2 ^ 32 - 1 ->
  ca_set b (cb_fill data (ca_buf (ca_ref Z.succ b a) b)) (ca_ref Z.succ b a) =
  ca_set b (mkCbuf true (cb_dev (ca_buf a b)) (cb_blockno (ca_buf a b)) (rf a b + 1) data) a.
Proof.
  intros Hr. unfold ca_ref, ca_set; simpl. rewrite fn_lookup_insert, fn_insert_insert.
  unfold cb_fill, cb_ref; simpl. change (cb_refcnt (ca_buf a b)) with (rf a b).
  unfold Z.succ. by rewrite u32_small by lia.
Qed.

Lemma bread_ok k a d D V n :
  bstate k p pid a -> k_disk k = D -> cinv d D V a ->
  (forall b, caches d a b n -> ca_own a b = None) ->
  (exists b, caches d a b n) \/ has_room a -> (forall b, rf a b < 2 ^ 32 - 1) ->
  exists b a' k', bread d n k = Ok b k' /\ bstate k' p pid a' /\ quietly k k' /\
    cinv d D V a' /\ got d n a b a'.
Proof.
  intros Hb HD Hc Hfree Hroom Hlt.
  destruct (ca_find d n a) as [b|] eqn:Ef.
  - pose proof (ca_find_Some _ _ _ _ _ Hb Ef) as Hca.
    assert (Hg : ca_get d n a = Some (b, ca_ref Z.succ b a)) by (unfold ca_get; by rewrite Ef).
    destruct (bread_eq _ _ _ _ _ _ Hb Hg (Hfree b Hca)) as (k' & E & Hb' & Hq).
    eexists b, _, k'. split; [exact E|]. split; [exact Hb'|]. split; [done|].
    unfold ca_load. destruct (ca_ref_same Z.succ b a b) as (-> & _ & -> & _).
    destruct (cb_valid (ca_buf a b)) eqn:Ev; [by apply got_hit; auto|].
    assert (Hno : forall m, has_block d a b m -> False) by (intros m [_ Hv]; congruence).
    pose proof (ci_ref _ _ _ _ Hc b (proj1 Hca)) as Hb0. specialize (Hlt b).
    rewrite fill_ref by done. pose proof Hca as (Hbl & Ed & En). rewrite Ed, En, HD.
    apply (got_fill k); try done.
    + intros x Hx. by apply (ci_uniq _ _ _ _ Hc x b n).
    + by intros m ?%Hno.
    + by intros ?%Hno.
    + by apply Hfree.
  - destruct (ca_victim a) as [b|] eqn:Ev.
    + pose proof (ca_victim_Some _ _ _ Hb Ev) as [Hbl Hz].
      pose proof (ci_idle _ _ _ _ Hc b Hbl Hz) as Ho.
      assert (Hg : ca_get d n a = Some (b, ca_set b (mkCbuf false d n 1 (cb_data (ca_buf a b))) a))
        by (unfold ca_get; by rewrite Ef, Ev).
      destruct (bread_eq _ _ _ _ _ _ Hb Hg Ho) as (k' & E & Hb' & Hq).
      eexists b, _, k'. split; [exact E|]. split; [exact Hb'|]. split; [done|].
      unfold ca_load; simpl. rewrite fn_lookup_insert; simpl. rewrite HD.
      unfold ca_set at 2; simpl. unfold ca_set; simpl. rewrite fn_insert_insert.
      apply (got_fill k d D V n a b (cb_fill (D n) (mkCbuf false d n 1 (cb_data (ca_buf a b))))); try done.
      * intros x Hx. by apply (ca_find_None k a d n x) in Hx.
      * intros m Hm. split; [by apply (ci_clean _ _ _ _ Hc b)|done].
      * intros [Hx _]. by apply (ca_find_None k a d n b) in Hx.
      * unfold cb_fill; simpl. by rewrite Hz.
    + exfalso. destruct Hroom as [[b Hca]|(b & Hbl & Hz)].
      * by apply (ca_find_None k a d n b) in Hca.
      * by apply (ca_victim_None k a b) in Hz.
Qed.

Lemma bwrite_ok k a d D V b n :
  bstate k p pid a -> k_disk k = D -> cinv d D V a -> has_block d a b n -> ca_own a b = Some pid ->
  exists k', bwrite b k = Ok tt k' /\ bstate k' p pid a /\ frame k k' /\
    k_disk k' = <[n := V n]> D /\ k_writes k' = k_writes k ++ [(n, V n)] /\ cinv d (<[n := V n]> D) V a.
Proof.
  intros Hb <- Hc Hh Ho. pose proof Hh as [(Hlt & Hd & Hn) Hv].
  destruct (bwrite_eq _ _ _ Hb Hlt Ho) as (E & Hb' & Hf).
  exists (transfer b true k). split; [done|]. split; [done|]. split; [done|].
  pose proof (bs_core _ _ _ _ Hb b Hlt) as Hcore. rewrite <-Hcore in Hn. simpl in Hn.
  pose proof (ci_view _ _ _ _ Hc _ _ Hh) as Hdat. rewrite <-Hcore in Hdat. simpl in Hdat.
  unfold transfer; simpl. rewrite Hn, Hdat. split; [done|]. split; [done|].
  destruct Hc as [Hu Hvw Hm Hcl Hr Hi]. split; try done.
  - intros m Hno. rewrite fn_lookup_insert_ne; [by apply Hm|]. intros <-. by apply (Hno b).
  - intros x m Hx Hz. destruct (decide (n = m)) as [<-|].
    + by rewrite fn_lookup_insert.
    + rewrite fn_lookup_insert_ne by done. by apply (Hcl x).
Qed.

(** The contents of a referenced buffer are edited in place. *)
Lemma edit_ok k a d D V b n g :
  bstate k p pid a -> cinv d D V a -> has_block d a b n -> 1 <= rf a b ->
  exists k' a', updbuf b (fun bp => set_b_data (g (b_data bp)) bp) k = Ok tt k' /\
    bstate k' p pid a' /\ quietly k k' /\ cinv d D (<[n := g (V n)]> V) a' /\
    ca_own a' = ca_own a /\ (forall x, rf a' x = rf a x) /\ (forall x m, has_block d a x m -> has_block d a' x m).
Proof.
  intros Hb Hc Hh Hr. pose proof Hh as [(Hlt & Hd & Hn) Hv].
  pose proof (bs_core _ _ _ _ Hb b Hlt) as Hcore.
  pose proof (ci_view _ _ _ _ Hc _ _ Hh) as Hdat. rewrite <-Hcore in Hdat, Hd, Hn, Hv. simpl in Hdat, Hd, Hn, Hv.
  unfold updbuf, modify. rewrite Hdat.
  set (x := set_b_data (g (V n)) (k_bufs k b)).
  pose proof (bstate_set _ _ b x Hb eq_refl eq_refl) as Hb'. eexists _, _. split; [done|].
  split; [exact Hb'|]. split; [done|].
  assert (Hrf : forall y, rf (ca_set b (core x) a) y = rf a y).
  { intros y. unfold rf; simpl. destruct (decide (b = y)) as [<-|].
    - rewrite fn_lookup_insert, <-Hcore. done.
    - by rewrite fn_lookup_insert_ne. }
  assert (Hca : forall y m, caches d (ca_set b (core x) a) y m <-> caches d a y m).
  { intros y m. unfold caches; simpl. destruct (decide (b = y)) as [<-|].
    - rewrite fn_lookup_insert, <-Hcore. done.
    - by rewrite fn_lookup_insert_ne. }
  assert (Hha : forall y m, has_block d (ca_set b (core x) a) y m <-> has_block d a y m).
  { intros y m. unfold has_block. rewrite Hca. simpl. destruct (decide (b = y)) as [<-|].
    - rewrite fn_lookup_insert, <-Hcore. done.
    - by rewrite fn_lookup_insert_ne. }
  split; [|split; [done|split; [done|intros y m; apply Hha]]]. destruct Hc as [Hu Hvw Hm Hcl Hr' Hi].
  assert (Hne : forall y m, has_block d a y m -> y <> b -> n <> m).
  { intros y m Hy Hyb <-. apply Hyb. apply (Hu y b n); [apply Hy|apply Hh]. }
  split; try (intros *; rewrite ?Hrf); eauto.
  - intros ?%Hca ?%Hca. eauto.
  - rename b0 into y. intros Hy%Hha. simpl. destruct (decide (b = y)) as [<-|Hyb].
    + rewrite fn_lookup_insert. destruct Hy as [(_ & _ & Hm') _].
      rewrite <-Hcore in Hm'. simpl in Hm'. rewrite <-Hm', Hn, fn_lookup_insert. done.
    + rewrite !fn_lookup_insert_ne; [by apply Hvw|by apply (Hne y)|done].
  - intros Hno. rewrite fn_lookup_insert_ne; [apply Hm|].
    + intros y ?%Hha. by apply (Hno y).
    + intros <-. apply (Hno b), Hha, Hh.
  - rename b0 into y. intros Hy%Hha Hz. assert (y <> b) by (intros ->; lia).
    rewrite fn_lookup_insert_ne by (by apply (Hne y)). by apply (Hcl y).
Qed.

(** A change of reference count alone. *)
Record counted (d : Z) (a : acache) (b : nat) (delta : Z) (own : nat -> option Z) (a' : acache) : Prop := {
  cn_own : ca_own a' = own;
  cn_ref : forall x, rf a' x = if decide (x = b) then rf a b + delta else rf a x;
  cn_has : forall x m, has_block d a x m -> has_block d a' x m
}.

Lemma release_same b a x :
  cb_valid (ca_buf (ca_release b a) x) = cb_valid (ca_buf a x) /\ cb_dev (ca_buf (ca_release b a) x) = cb_dev (ca_buf a x) /\
  cb_blockno (ca_buf (ca_release b a) x) = cb_blockno (ca_buf a x) /\ cb_data (ca_buf (ca_release b a) x) = cb_data (ca_buf a x).
Proof. unfold ca_release. destruct (_ =? 0); apply (ca_ref_same Z.pred b a x). Qed.

Lemma release_rf b a x :
  1 <= rf a b < 2 ^ 32 -> rf (ca_release b a) x = if decide (x = b) then rf a b - 1 else rf a x.
Proof.
  intros Hr. transitivity (rf (ca_ref Z.pred b a) x); [unfold ca_release; by destruct (_ =? 0)|].
  rewrite rf_ref. unfold Z.pred. case_decide; [|done]. rewrite u32_small; lia.
Qed.

Lemma release_own b a : ca_own (ca_release b a) = <[b := None]> (ca_own a).
Proof. unfold ca_release. by destruct (_ =? 0). Qed.

Lemma brelse_ok k a d D V b n :
  bstate k p pid a -> cinv d D V a -> has_block d a b n -> ca_own a b = Some pid ->
  1 <= rf a b < 2 ^ 32 -> 2 <= rf a b \/ V n = D n ->
  exists k' a', brelse b k = Ok tt k' /\ bstate k' p pid a' /\ quietly k k' /\ cinv d D V a' /\
    counted d a b (-1) (<[b := None]> (ca_own a)) a'.
Proof.
  intros Hb Hc Hh Ho Hr Hcl. destruct (brelse_eq _ _ b Hb) as (k' & E & Hb' & Hq); [apply Hh|done|].
  exists k', (ca_release b a). split; [done|]. split; [done|]. split; [done|]. split.
  - apply (cinv_meta _ _ _ a); [apply release_same|done| | |]; intros x; rewrite release_rf, ?release_own by done.
    + intros Hx. pose proof (ci_ref _ _ _ _ Hc x Hx). case_decide; lia.
    + intros m Hm. case_decide as Hd; [|by apply (ci_clean _ _ _ _ Hc)]. subst x. intros Hz.
      destruct Hcl as [|Hcl]; [lia|]. destruct Hh as [(_ & _ & Hn) _], Hm as [(_ & _ & Hm) _]. congruence.
    + intros Hx. case_decide as Hd; [subst; by rewrite fn_lookup_insert|]. intros Hz.
      rewrite fn_lookup_insert_ne by congruence. by apply (ci_idle _ _ _ _ Hc).
  - split; [apply release_own|intros x; by apply release_rf|]. intros x m. apply has_block_same, release_same.
Qed.

Lemma recount d D V a b f delta :
  cinv d D V a -> (b < NBUF)%nat -> (forall r, f r = r + delta) -> 1 <= rf a b + delta < 2 ^ 32 ->
  cinv d D V (ca_ref f b a) /\ counted d a b delta (ca_own a) (ca_ref f b a).
Proof.
  intros Hc Hlt Hf Hr.
  assert (Hrf : forall x, rf (ca_ref f b a) x = if decide (x = b) then rf a b + delta else rf a x).
  { intros x. rewrite rf_ref, Hf. case_decide; [|done]. rewrite u32_small; lia. }
  split.
  - apply (cinv_meta _ _ _ a); [apply ca_ref_same|done| | |]; intros x; rewrite Hrf.
    + intros Hx. pose proof (ci_ref _ _ _ _ Hc x Hx). case_decide; lia.
    + intros m Hm. case_decide; [lia|]. by apply (ci_clean _ _ _ _ Hc).
    + intros Hx. case_decide; [lia|]. by apply (ci_idle _ _ _ _ Hc).
  - split; [done|done|]. intros x m. apply has_block_same, ca_ref_same.
Qed.

Lemma bunpin_ok k a d D V b :
  bstate k p pid a -> cinv d D V a -> (b < NBUF)%nat -> 2 <= rf a b < 2 ^ 32 ->
  exists k' a', bunpin b k = Ok tt k' /\ bstate k' p pid a' /\ quietly k k' /\ cinv d D V a' /\
    counted d a b (-1) (ca_own a) a'.
Proof.
  intros Hb Hc Hlt Hr. destruct (bunpin_eq _ _ _ Hb Hlt) as (k' & E & Hb' & Hq).
  eexists k', _. split; [done|]. split; [done|]. split; [done|]. by apply recount; [| | |lia].
Qed.

Lemma bpin_ok k a d D V b :
  bstate k p pid a -> cinv d D V a -> (b < NBUF)%nat -> 1 <= rf a b < 2 ^ 32 - 1 ->
  exists k' a', bpin b k = Ok tt k' /\ bstate k' p pid a' /\ quietly k k' /\ cinv d D V a' /\
    counted d a b 1 (ca_own a) a'.
Proof.
  intros Hb Hc Hlt Hr. destruct (bpin_eq _ _ _ Hb Hlt) as (k' & E & Hb' & Hq).
  eexists k', _. split; [done|]. split; [done|]. split; [done|]. by apply recount; [| | |lia].
Qed.

End cache.

(** * Initialisation *)

Definition buffer_lock : sleeplock := mkSleeplock false "buffer" 0.

(** What an iteration of [binit] does. *)
Definition binit_step (b : nat) (k : ks) : ks :=
  set_k_bufs (relink b (k_bufs k))
    (set_k_sleep (<[sl_buf b := buffer_lock]> (k_sleep k))
      (set_kmach (set_lock (buf_sleep_lk b) (mkSpinlock 0 "sleep lock" None) (kmach k)) k)).

Lemma settled_set_lock l name m : settled m -> settled (set_lock l (mkSpinlock 0 name None) m).
Proof.
  intros (Hn & Ht & Hf). split; [done|]. split.
  - transitivity (set_lock l (mkSpinlock 0 name None) (tidy m)); [|by rewrite Ht].
    unfold tidy, set_lock, this_cpu; simpl. by case_match.
  - intros l'. unfold lock_free, set_lock; simpl. destruct (decide (l = l')) as [<-|].
    + by rewrite fn_lookup_insert.
    + rewrite fn_lookup_insert_ne by done. apply Hf.
Qed.

Lemma binit_loop k l s n :
  ring (k_bufs k) l -> (forall b, b ∈ l -> (b < s)%nat) -> (s + n <= NBUF)%nat -> settled (kmach k) ->
  exists k', for_each (seq s n) (fun b =>
      h <- getbuf NBUF ;;
      updbuf b (set_b_next (b_next h)) ;;;
      updbuf b (set_b_prev NBUF) ;;;
      initsleeplock (sl_buf b) "buffer" ;;;
      h <- getbuf NBUF ;;
      updbuf (b_next h) (set_b_prev b) ;;;
      updbuf NBUF (set_b_next b)) k = Ok tt k' /\
    ring (k_bufs k') (rev (seq s n) ++ l) /\ cores (k_bufs k') = cores (k_bufs k) /\
    (forall b, k_sleep k' (sl_buf b) = if decide (s <= b < s + n)%nat then buffer_lock else k_sleep k (sl_buf b)) /\
    quietly k k' /\ settled (kmach k') /\ c_proc (this_cpu (kmach k')) = c_proc (this_cpu (kmach k)) /\
    ps_procs (k_ps k') = ps_procs (k_ps k).
Proof.
  revert k l s. induction n as [|n IH]; intros k l s Hr Hl Hlt Hs.
  - exists k. split; [done|]. split; [done|]. split; [done|]. split; [|done].
    intros b. by rewrite decide_False by lia.
  - destruct (relink_ring _ _ s Hr) as [Hr' Hc']; [intros ?%Hl; lia|lia|].
    destruct (IH (binit_step s k) (s :: l) (S s)) as (k' & E & Hr2 & Hc2 & Hs2 & Hq & Hst & Hp & Hpr);
      [done| |lia|by apply settled_set_lock|].
    { intros b [->|Hb%Hl]%elem_of_cons; lia. }
    exists k'. split; [exact E|]. cbn [seq rev]. rewrite <-app_assoc. split; [exact Hr2|].
    split; [by rewrite Hc2|]. split; [|split; [|by rewrite Hp, Hpr]].
    + intros b. rewrite Hs2. cbn [binit_step k_sleep set_k_bufs set_k_sleep]. destruct (decide (s = b)) as [<-|].
      * rewrite decide_False by lia. rewrite decide_True by lia. by rewrite fn_lookup_insert.
      * rewrite fn_lookup_insert_ne by congruence.
        repeat case_decide; done || (exfalso; lia).
    + destruct Hq as ((? & ? & ? & Hi) & ? & ?). repeat split; done.
Qed.

(** The cache that [binit] makes of the buffers [f]. *)
Definition cache0 (f : nat -> buf) : acache :=
  mkAcache (rev (seq 0 NBUF)) (cores f) (fun _ => None).

Lemma binit_ok k :
  settled (kmach k) ->
  exists k', binit k = Ok tt k' /\ quietly k k' /\ (forall p pid, running k p pid -> bstate k' p pid (cache0 (k_bufs k))).
Proof.
  intros Hs. set (f0 := <[NBUF := set_b_next NBUF (set_b_prev NBUF (k_bufs k NBUF))]> (k_bufs k)).
  set (k1 := set_k_bufs f0 (set_kmach (set_lock bcache_lock (mkSpinlock 0 "bcache" None) (kmach k)) k)).
  destruct (binit_loop k1 [] 0 NBUF) as (k' & E & Hr & Hc & Hsl & Hq & Hst & Hp & Hpr).
  - split; [constructor|]. split; [by intros b ?%not_elem_of_nil|].
    change (links (nexts f0) (prevs f0) [NBUF; NBUF]). rewrite links_cons. unfold nexts, prevs, f0.
    by rewrite fn_lookup_insert.
  - by intros b ?%not_elem_of_nil.
  - lia.
  - by apply settled_set_lock.
  - exists k'. split; [|split].
    + unfold binit. rewrite <-E. do 3 (erewrite bind_Ok by reflexivity).
      match goal with |- _ ?s = _ => assert (Es : s = k1); [|by rewrite Es] end.
      unfold k1, f0. cbn [put ks_mach set_k_ps set_k_bufs k_bufs]. by rewrite fn_lookup_insert, fn_insert_insert.
    + exact Hq.
    + intros p pid [_ Hpp Hpid]. split; simpl.
      * split; [done|by rewrite Hp|by rewrite Hpr].
      * by rewrite app_nil_r in Hr.
      * symmetry. apply Permutation_rev.
      * intros b Hb. change (cores (k_bufs k') b = cores (k_bufs k) b). rewrite Hc. simpl.
        unfold f0, cores. by rewrite fn_lookup_insert_ne by lia.
      * intros b Hb. rewrite Hsl, decide_True by lia. done.
Qed.

Lemma cache0_cinv f d D :
  (forall b, b_dev (f b) <> d) -> (forall b, (b < NBUF)%nat -> 0 <= rf (cache0 f) b) ->
  cinv d D D (cache0 f).
Proof.
  intros Hd Hr. assert (Hno : forall b n, ~ caches d (cache0 f) b n) by (intros b n (_ & Hx & _); by apply (Hd b)).
  split.
  - intros b b' n Hx. by apply Hno in Hx.
  - intros b n [Hx _]. by apply Hno in Hx.
  - intros n _. reflexivity.
  - intros b n _ _. reflexivity.
  - exact Hr.
  - intros b _ _. reflexivity.
Qed.

(** * What the cache promises *)

Section promises.
Context `{Swtch ks} {BD : BlockDev} `{!BlockDevOk BD}.

(** C10: the buffer cache is a least-recently-used cache.  [bget] returns the
    buffer of the block, referenced once more, or recycles the unreferenced
    buffer that was released longest ago, locks it for the caller and changes
    nothing else; when the block is not cached and every buffer is referenced
    it panics.  [ca_get] says so on the list of buffers; the code does it on
    the linked ring. *)
Theorem bget_refines_lru k p pid a dev n :
  bstate k p pid a ->
  match ca_get dev n a with
  | Some (b, a') =>
      ca_own a b = None ->
      exists k', bget dev n k = Ok b k' /\ bstate k' p pid (ca_lock b (Some pid) a') /\ quietly k k'
  | None => bget dev n k = Panic "bget: no buffers"
  end.
Proof.
  intros Hb. destruct (ca_get dev n a) as [[b a']|] eqn:E; [intros Ho|].
  - by apply (bget_eq p pid k a).
  - by apply (bget_full p pid k a).
Qed.

(** C20: [brelse] unlocks the caller's buffer, drops one reference and, with
    the last one, makes the buffer the most recently used; the ring stays a
    ring of all buffers.  It panics for a buffer that the caller has not
    locked. *)
Theorem brelse_refines_lru k p pid a b :
  bstate k p pid a -> (b < NBUF)%nat ->
  if decide (ca_own a b = Some pid)
  then exists k', brelse b k = Ok tt k' /\ bstate k' p pid (ca_release b a) /\ quietly k k'
  else brelse b k = Panic "brelse".
Proof.
  intros Hb Hlt. case_decide as Ho; [by apply brelse_eq|]. unfold brelse.
  rewrite (bind_Ok _ _ _ _ _ (holdingsleep_eq _ _ _ _ (bs_run _ _ _ _ Hb))).
  rewrite <-(bs_own _ _ _ _ Hb b Hlt) in Ho. unfold lock_owner in Ho.
  destruct (sl_locked _); [|done]. simpl. destruct (Z.eqb_spec (sl_pid (k_sleep k (sl_buf b))) pid); [congruence|done].
Qed.

(** C19: a block is in one buffer at most, and reading through the cache
    returns what was last written to the block.  With [V] the blocks as the
    cache shows them, a [bread] that finds the buffer unlocked or room in the
    cache returns a buffer locked by the caller that has the contents [V n],
    and keeps the invariant: one buffer per block, every valid buffer has the
    contents of [V], and [V] differs from the disk only in referenced
    buffers. *)
Theorem bread_spec k p pid a d V n :
  bstate k p pid a -> cinv d (k_disk k) V a ->
  (forall b, caches d a b n -> ca_own a b = None) ->
  (exists b, caches d a b n) \/ has_room a -> (forall b, rf a b < 2 ^ 32 - 1) ->
  exists b a' k', bread d n k = Ok b k' /\ bstate k' p pid a' /\ quietly k k' /\
    b_data (k_bufs k' b) = V n /\ ca_own a' b = Some pid /\ cinv d (k_disk k') V a'.
Proof.
  intros Hb Hc Hf Hr Hlt.
  destruct (bread_ok p pid k a d (k_disk k) V n Hb eq_refl Hc Hf Hr Hlt) as (b & a' & k' & E & Hb' & Hq & Hc' & Hg).
  exists b, a', k'. split; [done|]. split; [done|]. split; [done|]. pose proof (got_has _ _ _ _ _ _ Hg) as Hh.
  split; [|split].
  - rewrite <-(ci_view _ _ _ _ Hc' _ _ Hh), <-(bs_core _ _ _ _ Hb' b); [done|apply Hh].
  - rewrite (got_own _ _ _ _ _ _ Hg). by rewrite fn_lookup_insert.
  - destruct Hq as (_ & -> & _). done.
Qed.

(** [binit] links all the buffers into the ring and unlocks them, without
    touching their contents, and makes the invariant of the cache true for
    every device whose blocks are in no buffer. *)
Theorem binit_spec k d :
  settled (kmach k) -> (forall b, b_dev (k_bufs k b) <> d) -> (forall b, b_refcnt (k_bufs k b) = 0) ->
  exists k', binit k = Ok tt k' /\ quietly k k' /\
    cinv d (k_disk k') (k_disk k') (cache0 (k_bufs k)) /\
    (forall p pid, running k p pid -> bstate k' p pid (cache0 (k_bufs k))).
Proof.
  intros Hs Hd Hr. destruct (binit_ok k Hs) as (k' & E & Hq & Hb). exists k'. split; [done|].
  split; [done|]. split; [|done].
  apply cache0_cinv; [done|]. intros b _. unfold rf, cache0; simpl. unfold cores; simpl. rewrite Hr. lia.
Qed.

End promises.

(** ** On a concrete cache *)

Lemma ks0_binit :
  exists k, binit ks0 = Ok tt k /\ quietly ks0 k /\ bstate k 2 5 (cache0 (k_bufs ks0)).
Proof.
  destruct (binit_ok ks0 mach1_settled) as (k & E & Hq & Hb). exists k. eauto using ks0_running.
Qed.

Lemma bget_refines_lru_witness :
  exists k k', binit ks0 = Ok tt k /\ @bget swtch_ks 1 7 k = Ok 0%nat k'.
Proof.
  destruct ks0_binit as (k & E & Hq & Hb).
  destruct (bget_refines_lru (H := swtch_ks) k 2 5 (cache0 (k_bufs ks0)) 1 7 Hb) as (k' & E' & _); [reflexivity|].
  exists k, k'. split; [exact E|exact E'].
Defined.

Lemma brelse_refines_lru_witness :
  exists k, binit ks0 = Ok tt k /\ brelse 4 k = Panic "brelse".
Proof.
  destruct ks0_binit as (k & E & Hq & Hb). exists k. split; [exact E|].
  apply (brelse_refines_lru k 2 5 (cache0 (k_bufs ks0)) 4 Hb). unfold NBUF. lia.
Defined.

Lemma bread_spec_witness :
  exists k b k', binit ks0 = Ok tt k /\ @bread swtch_ks disk_now 1 7 k = Ok b k' /\
                 b_data (k_bufs k' b) = replicate 1024 0.
Proof.
  destruct ks0_binit as (k & E & Hq & Hb).
  destruct (bread_spec (H := swtch_ks) (BD := disk_now) (BlockDevOk0 := disk_now_ok)
              k 2 5 (cache0 (k_bufs ks0)) 1 (k_disk ks0) 7 Hb) as (b & a' & k' & E' & _ & _ & Hd & _).
  - destruct Hq as (_ & -> & _). apply cache0_cinv; [intros b; simpl; lia|]. intros b _. unfold rf; simpl. lia.
  - reflexivity.
  - right. exists 0%nat. split; [unfold NBUF; lia|reflexivity].
  - intros b. unfold rf. simpl. lia.
  - exists k, b, k'. split; [exact E|]. split; [exact E'|exact Hd].
Defined.

Lemma binit_spec_witness : exists k, binit ks0 = Ok tt k /\ bstate k 2 5 (cache0 (k_bufs ks0)).
Proof.
  destruct (binit_spec ks0 1 mach1_settled) as (k & E & _ & _ & Hb).
  - intros b. simpl. lia.
  - intros b. reflexivity.
  - exists k. split; [exact E|]. apply Hb, ks0_running.
Defined.
