(* ===== verification/Log.v ===== *)
(** The write-ahead log of the file system (kernel/log.c). *)

From Stdlib Require Import ZArith Lia List String Bool.
From stdpp Require Import base tactics numbers list functions sets.
From S2P Require Import Prelude.
From S2P Require Import Spinlock.
From S2P Require Import Cstring.
From S2P Require Import Kalloc.
From S2P Require Import Vm.
From S2P Require Import Proc.
From S2P Require Import Sched.
From S2P Require Import Abi.
From S2P Require Import Kstate.
From S2P Require Import Bio.

(** sizeof(struct logheader) *)
Definition LOGHEADER_SIZE : Z := 4 + 4 * LOGSIZE.

(** [hb->n] and [hb->block[i]] in the bytes of a header block. *)
Definition head_n (data : list Z) : Z := s32 (le_get 4 0 data).
Definition head_block (data : list Z) (i : Z) : Z := s32 (le_get 4 (4 + 4 * i) data).
Definition put_head_n (n : Z) (data : list Z) : list Z := le_put 4 0 n data.
Definition put_head_block (i v : Z) (data : list Z) : list Z := le_put 4 (4 + 4 * i) v data.

Section log.
Context `{Swtch ks} `{BlockDev}.

(** [memmove(dst->data, src->data, BSIZE)] *)
Definition copy_block (dst src : nat) : M ks unit :=
  s <- getbuf src ;;
  updbuf dst (fun d => set_b_data (splice 0 (slice 0 BSIZE (b_data s)) (b_data d)) d).

Definition install_trans (recovering : bool) : M ks unit :=
  lg <- getlog ;;
  for_each (seq 0 (Z.to_nat (lg_n lg))) (fun tail =>
    lg <- getlog ;;
    lbuf <- bread (u32 (lg_dev lg)) (u32 (lg_start lg + Z.of_nat tail + 1)) ;;
    dbuf <- bread (u32 (lg_dev lg)) (u32 (at_Z (lg_block lg) (Z.of_nat tail))) ;;
    copy_block dbuf lbuf ;;;
    bwrite dbuf ;;;
    (if negb recovering then bunpin dbuf else ret tt) ;;;
    brelse lbuf ;;;
    brelse dbuf).

Definition read_head : M ks unit :=
  lg <- getlog ;;
  buf <- bread (u32 (lg_dev lg)) (u32 (lg_start lg)) ;;
  bp <- getbuf buf ;;
  updlog (set_lg_n (head_n (b_data bp))) ;;;
  for_each (seq 0 (Z.to_nat (head_n (b_data bp)))) (fun i =>
    if (length (lg_block lg) <=? i)%nat then undef else
    updlog (fun lg => set_lg_block (<[i := head_block (b_data bp) (Z.of_nat i)]> (lg_block lg)) lg)) ;;;
  brelse buf.

Definition write_head : M ks unit :=
  lg <- getlog ;;
  buf <- bread (u32 (lg_dev lg)) (u32 (lg_start lg)) ;;
  updbuf buf (fun bp => set_b_data (put_head_n (lg_n lg) (b_data bp)) bp) ;;;
  for_each (seq 0 (Z.to_nat (lg_n lg))) (fun i =>
    updbuf buf (fun bp => set_b_data
      (put_head_block (Z.of_nat i) (at_Z (lg_block lg) (Z.of_nat i)) (b_data bp)) bp)) ;;;
  bwrite buf ;;;
  brelse buf.

Definition recover_from_log : M ks unit :=
  read_head ;;;
  install_trans true ;;;
  updlog (set_lg_n 0) ;;;
  write_head.

Definition initlog (dev : Z) (sb : superblock) : M ks unit :=
  if BSIZE <=? LOGHEADER_SIZE then panic "initlog: too big logheader" else
  zoom (initlock log_lock "log") ;;;
  updlog (set_lg_start (s32 (sb_logstart sb))) ;;;
  updlog (set_lg_size (s32 (sb_nlog sb))) ;;;
  updlog (set_lg_dev dev) ;;;
  recover_from_log.

(** [log.committing], or this op might exhaust the log: begin_op has to wait. *)
Definition log_waits (lg : log) : bool :=
  lg_committing lg || (LOGSIZE <? lg_n lg + (lg_outstanding lg + 1) * MAXOPBLOCKS).
Definition log_enter (lg : log) : log := set_lg_outstanding (s32 (lg_outstanding lg + 1)) lg.
Definition log_leave (lg : log) : log := set_lg_outstanding (s32 (lg_outstanding lg - 1)) lg.

(** The [while(1)] of begin_op; both of its first branches sleep. *)
Fixpoint begin_op_loop (fuel : nat) : M ks unit :=
  match fuel with
  | O => asleep
  | S f =>
      lg <- getlog ;;
      if log_waits lg then sleep ch_log log_lock ;;; begin_op_loop f
      else
        updlog log_enter ;;;
        rel log_lock
  end.
Definition begin_op : M ks unit :=
  acq log_lock ;;;
  begin_op_loop (S swtch_wakeups).

Definition write_log : M ks unit :=
  lg <- getlog ;;
  for_each (seq 0 (Z.to_nat (lg_n lg))) (fun tail =>
    lg <- getlog ;;
    to <- bread (u32 (lg_dev lg)) (u32 (lg_start lg + Z.of_nat tail + 1)) ;;
    from <- bread (u32 (lg_dev lg)) (u32 (at_Z (lg_block lg) (Z.of_nat tail))) ;;
    copy_block to from ;;;
    bwrite to ;;;
    brelse from ;;;
    brelse to).

Definition commit : M ks unit :=
  lg <- getlog ;;
  if 0 <? lg_n lg then
    write_log ;;;
    write_head ;;;
    install_trans false ;;;
    updlog (set_lg_n 0) ;;;
    write_head
  else ret tt.

Definition end_op : M ks unit :=
  acq log_lock ;;;
  updlog log_leave ;;;
  lg <- getlog ;;
  if lg_committing lg then panic "log.committing" else
  do_commit <- (if lg_outstanding lg =? 0
                then updlog (set_lg_committing true) ;;; ret true
                else wake ch_log ;;; ret false) ;;
  rel log_lock ;;;
  if (do_commit : bool) then
    commit ;;;
    acq log_lock ;;;
    updlog (set_lg_committing false) ;;;
    wake ch_log ;;;
    rel log_lock
  else ret tt.

(** The first position of [blockno] among the [n] logged blocks, or [n]. *)
Fixpoint absorb (i : nat) (blocks : list Z) (blockno : Z) : nat :=
  match blocks with
  | [] => i
  | b :: bs => if u32 b =? blockno then i else absorb (S i) bs blockno
  end.

(** The space test of log_write, and the slot the block number goes to. *)
Definition log_full (lg : log) : bool :=
  (LOGSIZE <=? lg_n lg) || (lg_size lg - 1 <=? lg_n lg).
Definition log_slot (blockno : Z) (lg : log) : nat :=
  absorb 0 (take (Z.to_nat (lg_n lg)) (lg_block lg)) blockno.
Definition log_store (blockno : Z) (lg : log) : log :=
  set_lg_block (<[log_slot blockno lg := s32 blockno]> (lg_block lg)) lg.
Definition log_grow (lg : log) : log := set_lg_n (lg_n lg + 1) lg.

Definition log_write (b : nat) : M ks unit :=
  acq log_lock ;;;
  lg <- getlog ;;
  if log_full lg then panic "too big a transaction" else
  if lg_outstanding lg <? 1 then panic "log_write outside of trans" else
  bp <- getbuf b ;;
  let i := log_slot (b_blockno bp) lg in
  updlog (log_store (b_blockno bp)) ;;;
  (if Z.of_nat i =? lg_n lg then bpin b ;;; updlog log_grow else ret tt) ;;;
  rel log_lock.

End log.
