(* ===== verification/Logspace.v ===== *)
(** The space of the write-ahead log (kernel/log.c): what begin_op, log_write
    and end_op do to [log], as equations of their runs, and the reservation
    protocol that they follow when any number of file system calls interleave.
    The theorems say how many blocks an operation may write without log_write
    panicking, and that the limit begin_op enforces is one block too generous
    for the log that mkfs/mkfs.c lays out. *)

From Stdlib Require Import ZArith Lia List String Bool.
From stdpp Require Import base tactics numbers list functions sets gmap.
From S2P Require Import Prelude.
From S2P Require Import Abi.
From S2P Require Import Spinlock.
From S2P Require Import Kalloc.
From S2P Require Import Proc.
From S2P Require Import Sched.
From S2P Require Import Kstate.
From S2P Require Import Bio.
From S2P Require Import Ksection.
From S2P Require Import Log.

(** What log_write leaves in [log] for a block [blockno]. *)
Definition log_put (blockno : Z) (lg : log) : log :=
  if Z.of_nat (log_slot blockno lg) =? lg_n lg
  then log_grow (log_store blockno lg) else log_store blockno lg.

(** What the first critical section of end_op leaves there. *)
Definition log_end (lg : log) : log :=
  if lg_outstanding (log_leave lg) =? 0
  then set_lg_committing true (log_leave lg) else log_leave lg.

(** * The operations run *)

Section runs.
Context `{Swtch ks}.

Definition pinned (b : nat) (k : ks) : ks :=
  set_k_bufs (<[b := set_b_refcnt (u32 (b_refcnt (k_bufs k b) + 1)) (k_bufs k b)]> (k_bufs k)) k.

Lemma bpin_section m b k :
  settled m -> kmach k = acquired log_lock m -> bpin b k = Ok tt (pinned b k).
Proof.
  intros Hs E. unfold bpin. rewrite (bind_Ok _ _ _ _ _ (acq_section log_lock bcache_lock m k Hs E ltac:(done))).
  unfold updbuf, bind, modify. rewrite (rel_section log_lock _ m) by done.
  rewrite <-E. unfold pinned. f_equal. by destruct k as [[[]]].
Qed.

(** log_write: a panic when the log is full or nobody is in a transaction, and
    otherwise exactly [log_put], with the buffer pinned when its block is new. *)
Lemma log_write_eq b k p pid :
  running k p pid ->
  log_write b k =
    if log_full (k_log k) then Panic "too big a transaction"
    else if lg_outstanding (k_log k) <? 1 then Panic "log_write outside of trans"
    else Ok tt (set_k_log (log_put (b_blockno (k_bufs k b)) (k_log k))
           (if Z.of_nat (log_slot (b_blockno (k_bufs k b)) (k_log k)) =? lg_n (k_log k)
            then pinned b k else k)).
Proof.
  intros [Hs _ _]. unfold log_write. rewrite (bind_Ok _ _ _ _ _ (acq_eq _ _ Hs)).
  unfold getlog, getbuf, updlog, gets, bind, modify, panic, ret. cbn [k_log set_kmach set_k_ps].
  destruct (log_full _); [done|]. destruct (_ <? 1); [done|].
  cbn [k_bufs k_log set_k_log]. unfold log_put. destruct (_ =? _).
  - rewrite (bpin_section (kmach k)) by done. rewrite (rel_eq _ (kmach k)) by done.
    f_equal. by destruct k as [[[]]].
  - rewrite (rel_eq _ (kmach k)) by done. f_equal. by destruct k as [[[]]].
Qed.

Lemma begin_op_eq k p pid :
  running k p pid -> log_waits (k_log k) = false ->
  begin_op k = Ok tt (set_k_log (log_enter (k_log k)) k).
Proof.
  intros [Hs _ _] Hw. unfold begin_op. rewrite (bind_Ok _ _ _ _ _ (acq_eq _ _ Hs)).
  cbn [begin_op_loop]. unfold getlog, updlog, gets, bind, modify. cbn [k_log set_kmach set_k_ps].
  rewrite Hw. rewrite (rel_eq _ (kmach k)) by done. f_equal. by destruct k as [[[]]].
Qed.

(** end_op while other calls are in their transactions. *)
Lemma end_op_eq `{BlockDev} k p pid :
  running k p pid -> lg_committing (k_log k) = false -> lg_outstanding (log_leave (k_log k)) <> 0 ->
  end_op k = Ok tt (wake_all ch_log (set_k_log (log_end (k_log k)) k)).
Proof.
  intros [Hs _ _] Hc Ho. unfold end_op. rewrite (bind_Ok _ _ _ _ _ (acq_eq _ _ Hs)).
  unfold getlog, updlog, gets, bind, modify, ret. cbn [k_log set_kmach set_k_ps set_k_log].
  change (lg_committing (log_leave (k_log k))) with (lg_committing (k_log k)). rewrite Hc.
  unfold log_end. apply Z.eqb_neq in Ho. rewrite Ho.
  rewrite (wake_section _ log_lock (kmach k)) by done. rewrite (rel_eq _ (kmach k)) by done. f_equal.
  set (k' := set_k_log _ k).
  change (set_k_log _ (set_kmach (acquired log_lock (kmach k)) k))
    with (set_kmach (acquired log_lock (kmach k)) k').
  rewrite wake_all_mach by apply acquired_proc.
  change (set_kmach (kmach k) (set_kmach _ (wake_all ch_log k')))
    with (set_kmach (kmach (wake_all ch_log k')) (wake_all ch_log k')).
  apply set_kmach_id.
Qed.

Lemma end_op_committing `{BlockDev} k p pid :
  running k p pid -> lg_committing (k_log k) = true -> end_op k = Panic "log.committing".
Proof.
  intros [Hs _ _] Hc. unfold end_op. rewrite (bind_Ok _ _ _ _ _ (acq_eq _ _ Hs)).
  unfold getlog, updlog, gets, bind, modify, panic. cbn [k_log set_kmach set_k_ps set_k_log].
  change (lg_committing (log_leave (k_log k))) with (lg_committing (k_log k)). by rewrite Hc.
Qed.

End runs.

(** * The logged blocks *)

(** The block numbers in the header, as log_write compares them. *)
Definition logged (lg : log) : list Z := u32 <$> take (Z.to_nat (lg_n lg)) (lg_block lg).

Definition log_wf (lg : log) : Prop :=
  0 <= lg_n lg <= LOGSIZE /\ length (lg_block lg) = Z.to_nat LOGSIZE.

Lemma absorb_spec v bs : forall i,
  ((v ∉ (u32 <$> bs)) /\ absorb i bs v = (i + length bs)%nat) \/
  (exists j, (u32 <$> bs) !! j = Some v /\ absorb i bs v = (i + j)%nat).
Proof.
  induction bs as [|b bs IH]; intros i; simpl.
  - left. split; [apply not_elem_of_nil|lia].
  - destruct (Z.eqb_spec (u32 b) v) as [->|Hb].
    + right. exists 0%nat. simpl. split; [done|lia].
    + destruct (IH (S i)) as [[Hn ->]|(j & Hj & ->)].
      * left. split; [|lia]. rewrite not_elem_of_cons. naive_solver.
      * right. exists (S j). simpl. split; [done|lia].
Qed.

Lemma log_slot_new v lg : log_wf lg -> v ∉ logged lg -> log_slot v lg = Z.to_nat (lg_n lg).
Proof.
  intros [Hn Hl] Hv. unfold log_slot.
  destruct (absorb_spec v (take (Z.to_nat (lg_n lg)) (lg_block lg)) 0) as [[_ ->]|(j & Hj & _)].
  - rewrite length_take. lia.
  - destruct Hv. by eapply list_elem_of_lookup_2.
Qed.

Lemma log_slot_old v lg : log_wf lg -> v ∈ logged lg ->
  (log_slot v lg < Z.to_nat (lg_n lg))%nat /\ logged lg !! log_slot v lg = Some v.
Proof.
  intros [Hn Hl] Hv. unfold log_slot.
  destruct (absorb_spec v (take (Z.to_nat (lg_n lg)) (lg_block lg)) 0) as [[Hv' _]|(j & Hj & ->)]; [done|].
  split; [|done]. apply lookup_lt_Some in Hj. rewrite length_fmap, length_take in Hj. lia.
Qed.

Lemma logged_put_old v lg : 0 <= v < 2 ^ 32 -> log_wf lg -> v ∈ logged lg ->
  log_put v lg = log_store v lg /\ logged (log_put v lg) = logged lg /\ lg_n (log_put v lg) = lg_n lg.
Proof.
  intros Hr Hw Hv. destruct (log_slot_old v lg Hw Hv) as [Hlt Hs]. unfold log_put.
  rewrite (proj2 (Z.eqb_neq _ _)) by lia. split; [done|]. split; [|done].
  unfold logged, log_store. cbn [lg_n lg_block set_lg_block].
  rewrite take_insert_lt by done. rewrite list_fmap_insert, u32_s32, u32_small by done.
  by apply list_insert_id.
Qed.

Lemma logged_put_new v lg : 0 <= v < 2 ^ 32 -> log_wf lg -> lg_n lg < LOGSIZE -> v ∉ logged lg ->
  logged (log_put v lg) = logged lg ++ [v] /\ lg_n (log_put v lg) = lg_n lg + 1.
Proof.
  intros Hr Hw Hn Hv. pose proof (log_slot_new v lg Hw Hv) as Hs. destruct Hw as [Hb Hl].
  unfold log_put. rewrite (proj2 (Z.eqb_eq _ _)) by lia. split; [|done].
  unfold logged, log_grow, log_store. cbn [lg_n lg_block set_lg_block set_lg_n]. rewrite Hs.
  replace (Z.to_nat (lg_n lg + 1)) with (S (Z.to_nat (lg_n lg))) by lia.
  rewrite (take_S_r _ _ (s32 v)) by (apply list_lookup_insert_eq; lia).
  rewrite take_insert_ge by lia. rewrite fmap_app. simpl. by rewrite u32_s32, u32_small.
Qed.

Lemma log_put_wf v lg : log_wf lg -> lg_n lg < LOGSIZE -> log_wf (log_put v lg).
Proof.
  intros [Hb Hl] Hn. unfold log_put, log_wf. destruct (_ =? _); simpl; rewrite length_insert; lia.
Qed.

Lemma log_put_rest v lg :
  lg_size (log_put v lg) = lg_size lg /\ lg_outstanding (log_put v lg) = lg_outstanding lg /\
  lg_committing (log_put v lg) = lg_committing lg.
Proof. unfold log_put. by destruct (_ =? _). Qed.

(** * The protocol *)

(** What a call has written since its begin_op. *)
Record op := mkOp { op_calls : Z; op_blocks : gset Z }.

Definition op_new : op := mkOp 0 ∅.
Definition op_add (v : Z) (o : op) : op := mkOp (op_calls o + 1) ({[v]} ∪ op_blocks o).

(** A promise that calls make about what they write: [cost] counts either the
    calls of log_write or the different blocks, and stays at most [limit]. *)
Class Budget := { cost : op -> Z; limit : Z }.
Class BudgetOk `(Budget) : Prop := {
  cost_new : cost op_new = 0;
  cost_add v o : cost o + (if decide (v ∈ op_blocks o) then 0 else 1) <= cost (op_add v o);
  limit_max : 1 <= limit <= MAXOPBLOCKS
}.

Definition per_call : Budget := {| cost := op_calls; limit := MAXOPBLOCKS |}.
Definition per_block : Budget :=
  {| cost := fun o => Z.of_nat (size (op_blocks o)); limit := MAXOPBLOCKS - 1 |}.

(** The log, the calls that are between begin_op and end_op, and whether the
    commit in progress has already erased the transaction. *)
Record logsys := mkLogsys { y_log : log; y_ops : list op; y_cleared : bool }.

Definition y_start (size : Z) (lg : log) : Prop :=
  lg_size lg = size /\ lg_outstanding lg = 0 /\ lg_committing lg = false /\ lg_n lg = 0 /\
  length (lg_block lg) = Z.to_nat LOGSIZE.

(** The critical sections of [log.lock], and the two stores that commit makes
    to [log] without it. *)
Inductive lstep `{Budget} : logsys -> logsys -> Prop :=
| L_begin lg ops cl :
    log_waits lg = false ->
    lstep (mkLogsys lg ops cl) (mkLogsys (log_enter lg) (op_new :: ops) cl)
| L_write lg ops cl i o v :
    ops !! i = Some o -> cost (op_add v o) <= limit -> 0 <= v < 2 ^ 32 ->
    log_full lg = false -> 1 <= lg_outstanding lg ->
    lstep (mkLogsys lg ops cl) (mkLogsys (log_put v lg) (<[i := op_add v o]> ops) cl)
| L_end lg ops cl i o :
    ops !! i = Some o -> lg_committing lg = false ->
    lstep (mkLogsys lg ops cl) (mkLogsys (log_end lg) (delete i ops) cl)
| L_clear lg ops :
    lg_committing lg = true ->
    lstep (mkLogsys lg ops false) (mkLogsys (set_lg_n 0 lg) ops true)
| L_done lg ops :
    lg_committing lg = true ->
    lstep (mkLogsys lg ops true) (mkLogsys (set_lg_committing false lg) ops false).

Inductive lreach `{Budget} (size : Z) : logsys -> Prop :=
| L_start lg : y_start size lg -> lreach size (mkLogsys lg [] false)
| L_next s s' : lreach size s -> lstep s s' -> lreach size s'.

Section protocol.
Context `{BudgetOk}.

(** The blocks that the outstanding calls may still add. *)
Definition reserved (ops : list op) : Z :=
  foldr (fun o z => MAXOPBLOCKS - cost o + z) 0 ops.

Definition op_ok (lg : log) (o : op) : Prop :=
  0 <= cost o <= limit /\ forall v, v ∈ op_blocks o -> v ∈ logged lg.

(** A single call may follow others that used up their share. *)
Definition alone (lg : log) (ops : list op) : Prop :=
  match ops with [o] => lg_n lg - cost o <= MAXOPBLOCKS + limit | _ => True end.

Record linv (size : Z) (s : logsys) : Prop := {
  li_size : lg_size (y_log s) = size;
  li_wf : log_wf (y_log s);
  li_ops : Forall (op_ok (y_log s)) (y_ops s);
  li_out : lg_outstanding (y_log s) = Z.of_nat (length (y_ops s));
  li_room : lg_n (y_log s) + reserved (y_ops s) <= LOGSIZE;
  li_max : Z.of_nat (length (y_ops s)) <= 3;
  li_alone : alone (y_log s) (y_ops s);
  li_commit : lg_committing (y_log s) = true -> y_ops s = [];
  li_idle : lg_committing (y_log s) = false -> y_ops s = [] -> lg_n (y_log s) = 0;
  li_clear : y_cleared s = true -> lg_committing (y_log s) = true /\ lg_n (y_log s) = 0
}.

Lemma reserved_insert i o o' ops : ops !! i = Some o ->
  reserved (<[i := o']> ops) = reserved ops + cost o - cost o'.
Proof.
  revert i. induction ops as [|x ops IH]; intros [|i] E; simplify_eq/=; [lia|].
  rewrite (IH _ E). lia.
Qed.

Lemma reserved_delete i o ops : ops !! i = Some o ->
  reserved (delete i ops) = reserved ops - (MAXOPBLOCKS - cost o).
Proof.
  revert i. induction ops as [|x ops IH]; intros [|i] E; simplify_eq/=; [lia|].
  rewrite (IH _ E). lia.
Qed.

Lemma reserved_nonneg lg ops : Forall (op_ok lg) ops ->
  (MAXOPBLOCKS - limit) * Z.of_nat (length ops) <= reserved ops.
Proof. induction 1 as [|o ops [Hc _] _ IH]; simpl; lia. Qed.

Lemma reserved_most lg ops : Forall (op_ok lg) ops ->
  reserved ops <= MAXOPBLOCKS * Z.of_nat (length ops).
Proof. induction 1 as [|o ops [Hc _] _ IH]; simpl; lia. Qed.

Lemma op_ok_mono lg lg' o : (forall v, v ∈ logged lg -> v ∈ logged lg') -> op_ok lg o -> op_ok lg' o.
Proof. intros Hl [Hc Hb]. split; [done|]. auto. Qed.

Lemma linv_start size lg : y_start size lg -> linv size (mkLogsys lg [] false).
Proof.
  intros (Hz & Ho & Hc & Hn & Hl). split; simpl; try done.
  - split; [by rewrite Hn|done].
  - by rewrite Hn.
Qed.

Lemma linv_begin size lg ops cl :
  linv size (mkLogsys lg ops cl) -> log_waits lg = false ->
  linv size (mkLogsys (log_enter lg) (op_new :: ops) cl).
Proof.
  intros [Hz Hw Ho Hout Hroom Hmax Ha Hc Hi Hcl] E. simpl in *.
  apply orb_false_iff in E as [Ec Ew]. apply Z.ltb_ge in Ew. rewrite Hout in Ew.
  pose proof (reserved_most _ _ Ho) as Hm. pose proof limit_max as HL.
  pose proof cost_new as Hnew. destruct Hw as [Hn Hl].
  unfold LOGSIZE, MAXOPBLOCKS in *.
  split; simpl; try done.
  - constructor; [|done]. split; [lia|]. intros v Hv. by apply elem_of_empty in Hv.
  - rewrite s32_small by lia. lia.
  - unfold LOGSIZE, MAXOPBLOCKS. lia.
  - lia.
  - destruct ops; [|done]. rewrite (Hi Ec eq_refl), Hnew. unfold MAXOPBLOCKS. lia.
  - by rewrite Ec.
Qed.

Lemma log_full_false lg : log_full lg = false <-> lg_n lg < LOGSIZE /\ lg_n lg < lg_size lg - 1.
Proof. unfold log_full. rewrite orb_false_iff, !Z.leb_gt. done. Qed.

(** log_write grows the log only by a block that is new to its caller too. *)
Lemma put_cost v o lg : 0 <= v < 2 ^ 32 -> log_wf lg -> lg_n lg < LOGSIZE -> op_ok lg o ->
  lg_n (log_put v lg) - lg_n lg <= cost (op_add v o) - cost o /\
  (forall x, x ∈ logged lg -> x ∈ logged (log_put v lg)) /\ v ∈ logged (log_put v lg) /\
  0 <= cost o <= cost (op_add v o).
Proof.
  intros Hv Hw Hn [Hc Hb]. pose proof (cost_add v o) as Ha.
  destruct (decide (v ∈ logged lg)) as [Hin|Hin].
  - destruct (logged_put_old v lg Hv Hw Hin) as (_ & -> & ->).
    destruct (decide _); split_and!; try done; lia.
  - destruct (logged_put_new v lg Hv Hw Hn Hin) as (-> & ->).
    rewrite decide_False in Ha by auto. split_and!; [lia| | |lia|lia].
    + intros x Hx. apply elem_of_app. by left.
    + apply elem_of_app. right. by apply list_elem_of_singleton.
Qed.

Lemma linv_write size lg ops cl i o v :
  linv size (mkLogsys lg ops cl) -> ops !! i = Some o -> cost (op_add v o) <= limit ->
  0 <= v < 2 ^ 32 -> log_full lg = false ->
  linv size (mkLogsys (log_put v lg) (<[i := op_add v o]> ops) cl).
Proof.
  intros [Hz Hw Ho Hout Hroom Hmax Ha Hc Hi Hcl] E Hb Hv Hf. simpl in *.
  apply log_full_false in Hf as [Hn _].
  pose proof (Forall_lookup_1 _ _ _ _ Ho E) as Hok.
  destruct (put_cost v o lg Hv Hw Hn Hok) as (Hgrow & Hmono & Hin & Hcost).
  destruct (log_put_rest v lg) as (Es & Eo & Ec).
  split; simpl; rewrite ?Es, ?Eo, ?Ec, ?length_insert; try done.
  - by apply log_put_wf.
  - apply Forall_insert; [by eapply Forall_impl; [|intros ? ?; eapply op_ok_mono]|].
    split; [lia|]. intros x [->%elem_of_singleton|Hx]%elem_of_union; [done|]. apply Hmono. by apply Hok.
  - rewrite (reserved_insert _ _ _ _ E). lia.
  - destruct ops as [|o1 [|]], i as [|[]]; simplify_eq/=; try done. lia.
  - intros Ht. by rewrite (Hc Ht) in E.
  - intros _ En. destruct ops; [done|]. by destruct i.
  - intros Ht. destruct (Hcl Ht) as [Hcc _]. by rewrite (Hc Hcc) in E.
Qed.

Lemma log_end_rest lg :
  lg_size (log_end lg) = lg_size lg /\ lg_n (log_end lg) = lg_n lg /\ lg_block (log_end lg) = lg_block lg /\
  lg_outstanding (log_end lg) = s32 (lg_outstanding lg - 1).
Proof. unfold log_end. by destruct (_ =? 0). Qed.

Lemma alone_end lg ops i o : Forall (op_ok lg) ops -> ops !! i = Some o ->
  lg_n lg + reserved ops <= LOGSIZE -> alone (log_end lg) (delete i ops).
Proof.
  intros Ho E Hr. destruct (log_end_rest lg) as (_ & En & _).
  pose proof (Forall_lookup_1 _ _ _ _ Ho E) as [Hc _].
  pose proof (reserved_delete _ _ _ E) as Hd.
  destruct (delete i ops) as [|x [|]]; simpl in *; try done.
  rewrite En. unfold LOGSIZE in Hr. unfold MAXOPBLOCKS in *. lia.
Qed.

Lemma linv_end size lg ops cl i o :
  linv size (mkLogsys lg ops cl) -> ops !! i = Some o -> lg_committing lg = false ->
  linv size (mkLogsys (log_end lg) (delete i ops) cl).
Proof.
  intros [Hz Hw Ho Hout Hroom Hmax Ha Hc Hi Hcl] E Ec. simpl in *.
  destruct (log_end_rest lg) as (Es & En & Eb & Eo).
  pose proof (length_delete _ _ (mk_is_Some _ _ E)) as Hlen.
  pose proof (lookup_lt_Some _ _ _ E) as Hlt.
  assert (Hl : logged (log_end lg) = logged lg) by (unfold logged; by rewrite En, Eb).
  rewrite Hout, s32_small in Eo by lia.
  assert (Hcm : lg_committing (log_end lg) = true <-> delete i ops = []).
  { unfold log_end. replace (lg_outstanding (log_leave lg)) with (Z.of_nat (length (delete i ops)))
      by (cbn [log_leave lg_outstanding set_lg_outstanding]; rewrite Hout, s32_small; lia).
    destruct (delete i ops); simpl; [done|]. rewrite Ec. split; done. }
  split; simpl; rewrite ?Es, ?En.
  - done.
  - unfold log_wf. by rewrite En, Eb.
  - apply Forall_delete. eapply Forall_impl; [done|]. intros x. apply op_ok_mono. by rewrite Hl.
  - lia.
  - rewrite (reserved_delete _ _ _ E). pose proof (Forall_lookup_1 _ _ _ _ Ho E) as [? _].
    pose proof limit_max. lia.
  - lia.
  - by eapply alone_end.
  - apply Hcm.
  - intros Hf Hd. apply Hcm in Hd. congruence.
  - intros Ht. destruct (Hcl Ht). congruence.
Qed.

Lemma linv_step size s s' : linv size s -> lstep s s' -> linv size s'.
Proof.
  intros Hi Hs. destruct Hs; [by apply linv_begin|by eapply linv_write|by eapply linv_end| |];
    destruct Hi as [Hz Hw Ho Hout Hroom Hmax Ha Hc Hid Hcl]; simpl in *;
    specialize (Hc ltac:(done)) as ->; split; simpl; try done.
  - split; [done|]. apply Hw.
  - intros _ _. by apply Hcl.
Qed.

Lemma linv_reach size s : lreach size s -> linv size s.
Proof. induction 1; [by apply linv_start|by eapply linv_step]. Qed.

(** However the calls interleave, the log holds at most what the last two of
    them and one earlier share add up to. *)
Lemma linv_bound size s : linv size s -> lg_n (y_log s) <= MAXOPBLOCKS + 2 * limit \/ y_ops s = [].
Proof.
  intros [Hz Hw Ho Hout Hroom Hmax Ha Hc Hid Hcl].
  pose proof limit_max as HL. pose proof (reserved_nonneg _ _ Ho) as Hr.
  destruct (y_ops s) as [|o [|o2 ops]] eqn:Eo; [by right|left|left]; simpl in *.
  - apply Forall_singleton in Ho as [? _]. lia.
  - unfold LOGSIZE, MAXOPBLOCKS in *. nia.
Qed.

(** A call that waits in begin_op waits for a commit or for another call,
    whose end_op wakes it. *)
Lemma linv_waits size s : linv size s -> log_waits (y_log s) = true ->
  lg_committing (y_log s) = true \/ y_ops s <> [].
Proof.
  intros [Hz Hw Ho Hout Hroom Hmax Ha Hc Hid Hcl] E. destruct (lg_committing (y_log s)) eqn:Ec; [by left|].
  right. intros En. unfold log_waits in E. rewrite Ec, (Hid eq_refl En), Hout, En in E. done.
Qed.

End protocol.

#[export] Instance per_call_ok : BudgetOk per_call.
Proof. split; [done| |done]. intros v o. simpl. destruct (decide _); lia. Qed.

#[export] Instance per_block_ok : BudgetOk per_block.
Proof.
  split; [done| |done]. intros v o. simpl. destruct (decide (v ∈ op_blocks o)) as [Hv|Hv].
  - pose proof (subseteq_size (op_blocks o) ({[v]} ∪ op_blocks o) ltac:(apply union_subseteq_r)). lia.
  - rewrite size_union by (apply disjoint_singleton_l; done). rewrite size_singleton. lia.
Qed.

(** In a state [k] of the kernel, log_write of buffer [b] returns, and records
    its block in a slot that [log.lh.block] has. *)
Definition log_write_safe `{Swtch ks} (b : nat) (k : ks) : Prop :=
  (log_slot (b_blockno (k_bufs k b)) (k_log k) < Z.to_nat LOGSIZE)%nat /\
  exists k', log_write b k = Ok tt k' /\ k_log k' = log_put (b_blockno (k_bufs k b)) (k_log k).

(** Runs of the protocol, as commands. *)
Inductive lcmd := LBegin | LWrite (i : nat) (v : Z).

Definition lcmd_run (c : lcmd) (s : logsys) : option logsys :=
  let 'mkLogsys lg ops cl := s in
  match c with
  | LBegin => if log_waits lg then None else Some (mkLogsys (log_enter lg) (op_new :: ops) cl)
  | LWrite i v =>
      ops !! i ≫= fun o =>
      if (op_calls o + 1 <=? MAXOPBLOCKS) && (0 <=? v) && (v <? 2 ^ 32) && negb (log_full lg)
         && (1 <=? lg_outstanding lg)
      then Some (mkLogsys (log_put v lg) (<[i := op_add v o]> ops) cl) else None
  end.

Fixpoint lexec (cs : list lcmd) (s : logsys) : option logsys :=
  match cs with [] => Some s | c :: cs => lcmd_run c s ≫= lexec cs end.

Lemma lcmd_step c s s' : lcmd_run c s = Some s' -> lstep (H := per_call) s s'.
Proof.
  destruct s as [lg ops cl], c as [|i v]; simpl; intros E.
  - destruct (log_waits lg) eqn:?; simplify_eq. by constructor.
  - destruct (ops !! i) as [o|] eqn:Eo; simpl in E; [|done].
    destruct (_ && _) eqn:Eb; simplify_eq.
    rewrite !andb_true_iff, !Z.leb_le, Z.ltb_lt, negb_true_iff in Eb. constructor; simpl; tauto.
Qed.

Lemma lexec_reach size cs : forall s s',
  lreach (H := per_call) size s -> lexec cs s = Some s' -> lreach (H := per_call) size s'.
Proof.
  induction cs as [|c cs IH]; simpl; intros s s' Hr E; simplify_eq; [done|].
  destruct (lcmd_run c s) as [s1|] eqn:E1; simpl in E; [|done].
  eapply IH; [|done]. eapply L_next; [done|]. by eapply lcmd_step.
Qed.

(** Three calls, and twenty-nine blocks that they write in turn. *)
Definition overrun : list lcmd :=
  [LBegin; LBegin; LBegin] ++
  map (fun j => LWrite (j `div` 10) (100 + Z.of_nat j)) (seq 0 29).

Lemma log0_start size : y_start size (set_lg_size size log0).
Proof. unfold y_start. by split_and!. Qed.

Definition overrun_check (r : option logsys) : bool :=
  match r with
  | Some s => log_full (y_log s) && bool_decide (op_calls <$> y_ops s = [10; 10; 9])
  | None => false
  end.

Lemma overrun_run : exists s,
  lreach (H := per_call) LOGSIZE s /\ log_full (y_log s) = true /\ op_calls <$> y_ops s = [10; 10; 9].
Proof.
  assert (Hc : overrun_check (lexec overrun (mkLogsys log0 [] false)) = true) by (vm_compute; reflexivity).
  assert (Hr : lreach (H := per_call) LOGSIZE (mkLogsys log0 [] false)) by exact (L_start _ _ (log0_start LOGSIZE)).
  revert Hc Hr. generalize (mkLogsys log0 [] false). generalize overrun. intros cs s0 Hc Hr.
  destruct (lexec cs s0) as [s|] eqn:E; [|done]. apply andb_prop in Hc as [Hf Ho].
  exists s. split_and!; [by eapply lexec_reach|done|]. by apply bool_decide_eq_true in Ho.
Qed.

Section theorems.
Context `{Swtch ks}.

Lemma log_slot_le v lg : log_wf lg -> (log_slot v lg <= Z.to_nat (lg_n lg))%nat.
Proof.
  intros Hw. destruct (decide (v ∈ logged lg)) as [Hv|Hv].
  - destruct (log_slot_old v lg Hw Hv). lia.
  - by rewrite (log_slot_new v lg Hw Hv).
Qed.

Lemma write_safe `{BudgetOk} size s i o k p pid b :
  lreach size s -> y_ops s !! i = Some o -> running k p pid -> k_log k = y_log s ->
  lg_n (y_log s) < LOGSIZE -> lg_n (y_log s) < size - 1 -> log_write_safe b k.
Proof.
  intros Hr E Hk El Hn Hz. apply linv_reach in Hr as [Es Hw _ Hout _ _ _ _ _ _].
  rewrite <-El in *. pose proof (log_slot_le (b_blockno (k_bufs k b)) _ Hw) as Hs. split.
  - destruct Hw as [[? ?] ?]. lia.
  - rewrite (log_write_eq b k p pid Hk). apply lookup_lt_Some in E.
    rewrite (proj2 (log_full_false _)) by lia. rewrite (proj2 (Z.ltb_ge _ _)) by lia.
    eexists. by split.
Qed.

(** C3: calls that make at most MAXOPBLOCKS calls of log_write never find the log
    full, if it has LOGSIZE blocks besides its header; whoever waits for space
    waits for somebody who will make some. *)
Theorem log_space size s :
  LOGSIZE + 1 <= size -> lreach (H := per_call) size s ->
  (forall i o k p pid b, y_ops s !! i = Some o -> op_calls o + 1 <= MAXOPBLOCKS ->
     running k p pid -> k_log k = y_log s -> log_write_safe b k) /\
  (y_ops s <> [] -> lg_committing (y_log s) = false) /\
  (log_waits (y_log s) = true -> lg_committing (y_log s) = true \/ y_ops s <> []).
Proof.
  intros Hz Hr. pose proof (linv_reach (H := per_call) size s Hr) as Hi. split_and!.
  - intros i o k p pid b E Hc Hk El.
    assert (lg_n (y_log s) < LOGSIZE).
    { destruct Hi as [_ _ Ho _ Hroom _ _ _ _ _].
      pose proof (reserved_delete (H := per_call) _ _ _ E) as Hd.
      pose proof (reserved_nonneg (H := per_call) _ _ (Forall_delete _ _ i Ho)) as Hm.
      simpl in *. unfold MAXOPBLOCKS in *. lia. }
    eapply (write_safe (H0 := per_call)); [done|done|done|done|done|lia].
  - intros Hne. destruct (lg_committing (y_log s)) eqn:Ec; [|done].
    by destruct (Hne (li_commit _ _ Hi Ec)).
  - by apply (linv_waits (H := per_call) size).
Qed.

(** C40: with a log of LOGSIZE blocks in all, as mkfs makes it, the same holds of
    calls that write at most MAXOPBLOCKS - 1 different blocks, each as often as
    they like. *)
Theorem log_space_mkfs s :
  lreach (H := per_block) LOGSIZE s ->
  forall i o k p pid b, y_ops s !! i = Some o -> running k p pid -> k_log k = y_log s ->
    log_write_safe b k.
Proof.
  intros Hr i o k p pid b E Hk El.
  destruct (linv_bound (H := per_block) _ s (linv_reach _ s Hr)) as [Hb|Hb]; [|by rewrite Hb in E].
  eapply (write_safe (H0 := per_block)); [done|done|done|done| |]; simpl in Hb; unfold LOGSIZE, MAXOPBLOCKS in *; lia.
Qed.

(** C25: without the spare block there is a run in which every call keeps to
    MAXOPBLOCKS calls of log_write and one of them panics: begin_op admits
    three calls, which write LOGSIZE different blocks, and the last of these
    does not fit. *)
Theorem mkfs_log_too_small :
  exists s i o, lreach (H := per_call) LOGSIZE s /\ y_ops s !! i = Some o /\
    op_calls o + 1 <= MAXOPBLOCKS /\ length (y_ops s) = 3%nat /\
    forall k p pid b, running k p pid -> k_log k = y_log s ->
      log_write b k = Panic "too big a transaction".
Proof.
  destruct overrun_run as (s & Hr & Hf & Ho).
  assert (length (y_ops s) = 3%nat) by (rewrite <-(length_fmap op_calls), Ho; done).
  destruct (y_ops s !! 2%nat) as [o|] eqn:Eo; [|apply lookup_ge_None in Eo; lia].
  assert (op_calls o = 9).
  { pose proof (f_equal (lookup 2%nat) Ho) as H9. rewrite list_lookup_fmap, Eo in H9. by simplify_eq/=. }
  exists s, 2%nat, o. split_and!; [done|done|unfold MAXOPBLOCKS; lia|done|].
  intros k p pid b Hk El. rewrite (log_write_eq b k p pid Hk), El, Hf. done.
Qed.

End theorems.

(** * Witnesses *)

Definition log31 : log := set_lg_size 31 log0.
Definition entered (lg : log) : logsys := mkLogsys (log_enter lg) [op_new] false.

Lemma entered_reach `{Budget} size lg : y_start size lg -> lreach size (entered lg).
Proof.
  intros Hs. eapply L_next; [by apply L_start|]. constructor.
  destruct Hs as (_ & Ho & Hc & Hn & _). unfold log_waits. by rewrite Ho, Hc, Hn.
Qed.

Lemma set_log_running lg : running (set_k_log lg ks0) 2 5.
Proof. split; [apply mach1_settled|done|done]. Qed.

Lemma log_space_witness :
  let k := set_k_log (log_enter log31) ks0 in log_write_safe (H := swtch_ks) 0 k.
Proof.
  intros k.
  destruct (log_space (H := swtch_ks) 31 (entered log31) ltac:(done)
    (entered_reach (H := per_call) 31 log31 (log0_start 31))) as (Hw & _).
  exact (Hw 0%nat op_new k 2%nat 5 0%nat eq_refl ltac:(done) (set_log_running _) eq_refl).
Defined.

Lemma log_space_mkfs_witness :
  let k := set_k_log (log_enter log0) ks0 in log_write_safe (H := swtch_ks) 0 k.
Proof.
  intros k.
  exact (log_space_mkfs (H := swtch_ks) (entered log0) (entered_reach (H := per_block) LOGSIZE log0 (log0_start LOGSIZE))
    0%nat op_new k 2%nat 5 0%nat eq_refl (set_log_running _) eq_refl).
Defined.
