(* ===== verification/Crash.v ===== *)
(** Crash safety of the write-ahead log (kernel/log.c).

    The disk writes of [commit] are computed exactly, recovery is shown to
    install what the header on the disk commits, and together: whatever prefix
    of the writes of a commit reaches the disk before a crash, recovery leaves
    either all of the transaction on it or none. *)

From Stdlib Require Import ZArith Lia List String Bool FunctionalExtensionality.
From stdpp Require Import base tactics numbers list functions sets.
From S2P Require Import Prelude.
From S2P Require Import Spinlock.
From S2P Require Import Cstring.
From S2P Require Import Kalloc.
From S2P Require Import Vm.
From S2P Require Import Proc.
From S2P Require Import Sched.
From S2P Require Import Abi.
From S2P Require Import Kstate.
From S2P Require Import Bio.
From S2P Require Import Log.
From S2P Require Import Ksection.
From S2P Require Import Bytes.
From S2P Require Import Cache.

(** * The header block *)

(** What [write_head] makes of the header block. *)
Definition hdr (n : Z) (bl data : list Z) : list Z :=
  fold_left (fun x i => put_head_block (Z.of_nat i) (at_Z bl (Z.of_nat i)) x)
    (seq 0 (Z.to_nat n)) (put_head_n n data).

Lemma hdr_prefix n bl data j :
  length data = 1024%nat -> (j <= 30)%nat ->
  let x := fold_left (fun x i => put_head_block (Z.of_nat i) (at_Z bl (Z.of_nat i)) x) (seq 0 j) (put_head_n n data) in
  length x = 1024%nat /\ head_n x = s32 n /\
  forall i, (i < j)%nat -> head_block x (Z.of_nat i) = s32 (at_Z bl (Z.of_nat i)).
Proof.
  intros Hl. induction j as [|j IH]; intros Hj.
  - cbn [seq fold_left]. unfold put_head_n, head_n. split; [rewrite length_le_put; lia|]. split; [|lia].
    rewrite le_get_put by lia. change (2 ^ (8 * 4)) with (2 ^ 32). apply s32_mod.
  - rewrite seq_S, fold_left_app. cbn [fold_left plus]. destruct IH as (Hlen & Hn & Hb); [lia|].
    set (x := fold_left _ (seq 0 j) _) in *. unfold put_head_block. split; [|split].
    + rewrite length_le_put; lia.
    + unfold head_n in *. rewrite le_get_put_ne; [done|lia|lia|lia].
    + intros i Hi. unfold head_block in *. destruct (decide (i = j)) as [->|].
      * rewrite le_get_put by lia. change (2 ^ (8 * 4)) with (2 ^ 32). apply s32_mod.
      * rewrite le_get_put_ne; [apply Hb; lia|lia|lia|lia].
Qed.

Lemma hdr_spec n bl data :
  length data = 1024%nat -> 0 <= n <= 30 ->
  length (hdr n bl data) = 1024%nat /\ head_n (hdr n bl data) = n /\
  forall i, 0 <= i < n -> head_block (hdr n bl data) i = s32 (at_Z bl i).
Proof.
  intros Hl Hn. destruct (hdr_prefix n bl data (Z.to_nat n) Hl) as (H1 & H2 & H3); [lia|].
  split; [done|]. split; [rewrite s32_small in H2 by lia; exact H2|].
  intros i Hi. specialize (H3 (Z.to_nat i)). rewrite Z2Nat.id in H3 by lia. apply H3. lia.
Qed.

(** * Steps of the log on the blocks as the cache shows them *)

Section steps.
Context `{Swtch ks} {BD : BlockDev} `{!BlockDevOk BD}.
Context (p : nat) (pid : Z).

(** No buffer is locked; the reference counts are [R]. *)
Record lst (k : ks) (d : Z) (D V : Z -> list Z) (R : nat -> Z) (a : acache) : Prop := {
  ls_b : bstate k p pid a;
  ls_disk : k_disk k = D;
  ls_c : cinv d D V a;
  ls_own : forall b, ca_own a b = None;
  ls_rf : forall b, rf a b = R b;
  ls_max : forall b, R b < 2 ^ 31
}.

(** Referenced buffers keep their blocks. *)
Definition keeps (d : Z) (a a' : acache) : Prop :=
  forall x m, 1 <= rf a x -> has_block d a x m -> has_block d a' x m.

(** Several edits of a buffer in a row. *)
Lemma edits_ok {I} (l : list I) (g : I -> list Z -> list Z) k a d D V b n :
  bstate k p pid a -> cinv d D V a -> has_block d a b n -> 1 <= rf a b ->
  exists k' a', for_each l (fun i => updbuf b (fun bp => set_b_data (g i (b_data bp)) bp)) k = Ok tt k' /\
    bstate k' p pid a' /\ quietly k k' /\ cinv d D (<[n := fold_left (fun x i => g i x) l (V n)]> V) a' /\
    ca_own a' = ca_own a /\ (forall x, rf a' x = rf a x) /\ (forall x m, has_block d a x m -> has_block d a' x m).
Proof.
  revert k a V. induction l as [|i l IH]; intros k a V Hb Hc Hh Hr.
  - exists k, a. simpl. rewrite fn_insert_id by done. done.
  - destruct (edit_ok p pid k a d D V b n (g i) Hb Hc Hh Hr) as (k1 & a1 & E1 & Hb1 & Hq1 & Hc1 & Ho1 & Hr1 & Hh1).
    destruct (IH k1 a1 _ Hb1 Hc1 (Hh1 _ _ Hh)) as (k2 & a2 & E2 & Hb2 & Hq2 & Hc2 & Ho2 & Hr2 & Hh2);
      [by rewrite Hr1|].
    exists k2, a2. cbn [for_each fold_left]. rewrite (bind_Ok _ _ _ _ _ E1).
    rewrite fn_lookup_insert, fn_insert_insert in Hc2.
    split; [done|]. split; [done|]. split.
    { destruct Hq1 as (F1 & D1 & W1), Hq2 as (F2 & D2 & W2). split; [by etrans|]. split; congruence. }
    split; [done|]. split; [congruence|]. split; [intros x; by rewrite Hr2|]. auto.
Qed.

#[local] Instance quietly_preorder : PreOrder quietly.
Proof.
  split; [done|]. intros k1 k2 k3 (F1 & D1 & W1) (F2 & D2 & W2).
  split; [by etrans|]. split; congruence.
Qed.

(** A buffer that is read, edited, written and released: the effect of
    [write_head]. *)
Lemma write_head_ok k d D V R a :
  lst k d D V R a -> u32 (lg_dev (k_log k)) = d -> (exists b, caches d a b (u32 (lg_start (k_log k)))) \/ has_room a ->
  let L := u32 (lg_start (k_log k)) in
  let x := hdr (lg_n (k_log k)) (lg_block (k_log k)) (V L) in
  exists k' a', write_head k = Ok tt k' /\ lst k' d (<[L := x]> D) (<[L := x]> V) R a' /\ keeps d a a' /\
    frame k k' /\ k_writes k' = k_writes k ++ [(L, x)].
Proof.
  intros [Hb HD Hc Ho Hr Hmax] Hd Hroom L x.
  destruct (bread_ok p pid k a d D V L Hb HD Hc) as (b & a1 & k1 & E1 & Hb1 & Hq1 & Hc1 & Hg);
    [intros; apply Ho|done|intros y; rewrite Hr; specialize (Hmax y); lia|].
  destruct Hg as [Hh1 Hf1 Ho1 Hr1 Hk1].
  assert (Hrb : 1 <= rf a1 b < 2 ^ 32).
  { rewrite Hr1, decide_True by done. pose proof (ci_ref _ _ _ _ Hc b (proj1 (proj1 Hh1))).
    rewrite Hr in *. specialize (Hmax b). lia. }
  destruct (edit_ok p pid k1 a1 d D V b L (put_head_n (lg_n (k_log k))) Hb1 Hc1 Hh1)
    as (k2 & a2 & E2 & Hb2 & Hq2 & Hc2 & Ho2 & Hr2 & Hh2); [lia|].
  destruct (edits_ok (seq 0 (Z.to_nat (lg_n (k_log k))))
    (fun i => put_head_block (Z.of_nat i) (at_Z (lg_block (k_log k)) (Z.of_nat i))) k2 a2 d D _ b L Hb2 Hc2 (Hh2 _ _ Hh1))
    as (k3 & a3 & E3 & Hb3 & Hq3 & Hc3 & Ho3 & Hr3 & Hh3); [rewrite Hr2; lia|].
  rewrite fn_lookup_insert, fn_insert_insert in Hc3. fold (hdr (lg_n (k_log k)) (lg_block (k_log k)) (V L)) in Hc3.
  fold x in Hc3. assert (Hq : quietly k k3) by (etrans; [exact Hq1|]; by etrans).
  assert (Hh : has_block d a3 b L) by auto. assert (Hown : ca_own a3 b = Some pid)
    by (rewrite Ho3, Ho2, Ho1; by rewrite fn_lookup_insert).
  destruct (bwrite_ok p pid k3 a3 d D (<[L := x]> V) b L Hb3) as (k4 & E4 & Hb4 & Hf4 & HD4 & HW4 & Hc4);
    [by destruct Hq as (_ & -> & _)|done|done|done|].
  rewrite fn_lookup_insert in HD4, HW4, Hc4.
  destruct (brelse_ok p pid k4 a3 d _ _ b L Hb4 Hc4 Hh Hown) as (k5 & a5 & E5 & Hb5 & Hq5 & Hc5 & [Ho5 Hr5 Hh5]);
    [rewrite Hr3, Hr2; lia|right; by rewrite !fn_lookup_insert|].
  exists k5, a5. split; [|split; [|split; [|split]]].
  - unfold write_head, getlog, gets, bind at 1. rewrite Hd.
    rewrite (bind_Ok _ _ _ _ _ E1), (bind_Ok _ _ _ _ _ E2), (bind_Ok _ _ _ _ _ E3), (bind_Ok _ _ _ _ _ E4). exact E5.
  - split; try done.
    + destruct Hq5 as (_ & -> & _). done.
    + intros y. rewrite Ho5, Ho3, Ho2, Ho1, fn_insert_insert. destruct (decide (b = y)) as [<-|].
      * by rewrite fn_lookup_insert.
      * by rewrite fn_lookup_insert_ne.
    + intros y. rewrite Hr5, !Hr3, !Hr2, !Hr1, <-Hr. repeat case_decide; subst; try done; lia.
  - intros y m Hy Hm. auto.
  - etrans; [apply Hq|]. etrans; [exact Hf4|apply Hq5].
  - destruct Hq5 as (_ & _ & ->). rewrite HW4. by destruct Hq as (_ & _ & ->).
Qed.

(** Two buffers locked at once. *)
Definition one (b x : nat) : Z := if decide (x = b) then 1 else 0.

Record two (d : Z) (D V : Z -> list Z) (R : nat -> Z) (a : acache) (t m : Z) (b1 b2 : nat) (k : ks) (a2 : acache) : Prop := {
  tw_b : bstate k p pid a2;
  tw_c : cinv d D V a2;
  tw_1 : has_block d a2 b1 t;
  tw_2 : has_block d a2 b2 m;
  tw_ne : b1 <> b2;
  tw_own : ca_own a2 = <[b2 := Some pid]> (<[b1 := Some pid]> (ca_own a));
  tw_rf : forall x, rf a2 x = R x + one b1 x + one b2 x;
  tw_pos : 0 <= R b1 /\ 0 <= R b2;
  tw_keeps : keeps d a a2
}.

Lemma read_two {A} (f : nat -> nat -> M ks A) k d D V R a t m :
  lst k d D V R a -> t <> m -> (exists b, caches d a b t) \/ has_room a ->
  (forall b1 a1, got pid d t a b1 a1 -> (exists b, caches d a1 b m) \/ has_room a1) ->
  exists b1 b2 a2 k2, (b1 <- bread d t ;; b2 <- bread d m ;; f b1 b2) k = f b1 b2 k2 /\
    quietly k k2 /\ two d D V R a t m b1 b2 k2 a2.
Proof.
  intros [Hb HD Hc Ho Hr Hmax] Hne Hroom Hroom2.
  destruct (bread_ok p pid k a d D V t Hb HD Hc) as (b1 & a1 & k1 & E1 & Hb1 & Hq1 & Hc1 & Hg1);
    [intros; apply Ho|done|intros y; rewrite Hr; specialize (Hmax y); lia|].
  pose proof Hg1 as [Hh1 Hf1 Ho1 Hr1 Hk1].
  assert (Hpos : forall x, (x < NBUF)%nat -> 0 <= R x) by (intros x ?; rewrite <-Hr; by apply (ci_ref _ _ _ _ Hc)).
  destruct (bread_ok p pid k1 a1 d D V m Hb1) as (b2 & a2 & k2 & E2 & Hb2 & Hq2 & Hc2 & Hg2);
    [by destruct Hq1 as (_ & -> & _)|done| |by apply (Hroom2 b1)| |].
  { intros x (_ & _ & Hx). rewrite Ho1. rewrite fn_lookup_insert_ne; [done|]. intros <-.
    destruct Hh1 as [(_ & _ & Hx') _]. congruence. }
  { intros x. rewrite Hr1, !Hr. pose proof (Hmax x). pose proof (Hmax b1). case_decide; lia. }
  pose proof Hg2 as [Hh2 Hf2 Ho2 Hr2 Hk2].
  assert (Hrb1 : 1 <= rf a1 b1).
  { rewrite Hr1, decide_True, Hr by done. specialize (Hpos b1 (proj1 (proj1 Hh1))). lia. }
  exists b1, b2, a2, k2. split; [by rewrite (bind_Ok _ _ _ _ _ E1), (bind_Ok _ _ _ _ _ E2)|].
  split; [by etrans|]. assert (Hh12 : has_block d a2 b1 t) by (by apply Hk2).
  split; try done.
  - intros <-. destruct Hh12 as [(_ & _ & E12) _], Hh2 as [(_ & _ & E22) _]. congruence.
  - by rewrite Ho2, Ho1.
  - intros x. rewrite Hr2, !Hr1, !Hr. unfold one. repeat case_decide; subst; try done; lia.
  - split; apply Hpos; [apply Hh1|apply Hh2].
  - intros x y Hx Hy. apply Hk2; [|by apply Hk1]. rewrite Hr1. case_decide; [subst|done].
    rewrite Hr. specialize (Hpos b1 (proj1 (proj1 Hh1))). lia.
Qed.

(** [memmove(dst->data, src->data, BSIZE)] between two buffers. *)
Lemma copy_block_ok k a d D V dst src m t :
  bstate k p pid a -> cinv d D V a -> has_block d a src m -> has_block d a dst t -> 1 <= rf a dst ->
  (forall n, length (V n) = 1024%nat) ->
  exists k' a', copy_block dst src k = Ok tt k' /\ bstate k' p pid a' /\ quietly k k' /\
    cinv d D (<[t := V m]> V) a' /\ ca_own a' = ca_own a /\ (forall x, rf a' x = rf a x) /\
    (forall x n, has_block d a x n -> has_block d a' x n).
Proof.
  intros Hb Hc Hs Hd Hr Hlen.
  destruct (edit_ok p pid k a d D V dst t (splice 0 (slice 0 BSIZE (V m))) Hb Hc Hd Hr)
    as (k' & a' & E & Hb' & Hq & Hc' & Hrest).
  exists k', a'. split.
  - unfold copy_block, getbuf, gets, bind. rewrite <-E.
    replace (b_data (k_bufs k src)) with (V m); [done|].
    rewrite <-(ci_view _ _ _ _ Hc _ _ Hs), <-(bs_core _ _ _ _ Hb src); [done|apply Hs].
  - split; [done|]. split; [done|]. split; [|done]. by rewrite splice_all in Hc' by (apply Hlen).
Qed.

(** [own] after both buffers are released, whatever the order. *)
Lemma own_released (o : nat -> option Z) b1 b2 x :
  (forall y, o y = None) ->
  (<[b1 := None]> (<[b2 := None]> (<[b2 := Some pid]> (<[b1 := Some pid]> o)))) x = None /\
  (<[b2 := None]> (<[b1 := None]> (<[b2 := Some pid]> (<[b1 := Some pid]> o)))) x = None.
Proof.
  intros Ho. unfold insert, fn_insert.
  destruct (decide (b1 = x)), (decide (b2 = x)); auto.
Qed.

(** A referenced block. *)
Definition pinned (d : Z) (R : nat -> Z) (a : acache) (m : Z) : Prop :=
  exists b, has_block d a b m /\ 1 <= R b.

Lemma pinned_keeps d R a a' m :
  (forall b, rf a b = R b) -> keeps d a a' -> pinned d R a m -> pinned d R a' m.
Proof. intros Hr Hk (b & Hh & Hb). exists b. split; [|done]. apply Hk; [by rewrite Hr|done]. Qed.

(** An iteration of [write_log]. *)
Definition log_copy (d t m : Z) : M ks unit :=
  to <- bread d t ;;
  from <- bread d m ;;
  copy_block to from ;;;
  bwrite to ;;;
  brelse from ;;;
  brelse to.

Lemma log_copy_ok k d D V R a t m :
  lst k d D V R a -> t <> m -> (exists b, caches d a b t) \/ has_room a -> pinned d R a m ->
  (forall n, length (V n) = 1024%nat) ->
  exists k' a', log_copy d t m k = Ok tt k' /\ lst k' d (<[t := V m]> D) (<[t := V m]> V) R a' /\
    keeps d a a' /\ frame k k' /\ k_writes k' = k_writes k ++ [(t, V m)].
Proof.
  intros HL Hne Hroom Hpin Hlen. pose proof HL as [Hb HD Hc Ho Hr Hmax].
  destruct (read_two (fun to from => copy_block to from ;;; bwrite to ;;; brelse from ;;; brelse to)
              k d D V R a t m HL Hne Hroom) as (b1 & b2 & a2 & k2 & E & Hq & [Hb2 Hc2 H1 H2 Hbne Ho2 Hr2 [Hp1 Hp2] Hk]).
  { intros b1 a1 Hg. left. destruct Hpin as (b & Hh & HR). exists b.
    apply (got_keep _ _ _ _ _ _ Hg); [by rewrite Hr|done]. }
  assert (HR2 : 1 <= R b2).
  { destruct (pinned_keeps _ _ _ _ _ Hr Hk Hpin) as (b & Hh & HR).
    by rewrite (ci_uniq _ _ _ _ Hc2 b2 b m (proj1 H2) (proj1 Hh)). }
  assert (Hb1r : one b1 b1 = 1 /\ one b2 b1 = 0 /\ one b1 b2 = 0 /\ one b2 b2 = 1).
  { unfold one. repeat case_decide; congruence || done. }
  destruct (copy_block_ok k2 a2 d D V b1 b2 m t Hb2 Hc2 H2 H1) as (k3 & a3 & E3 & Hb3 & Hq3 & Hc3 & Ho3 & Hr3 & Hh3);
    [rewrite Hr2; lia|done|].
  destruct (bwrite_ok p pid k3 a3 d D (<[t := V m]> V) b1 t Hb3) as (k4 & E4 & Hb4 & Hf4 & HD4 & HW4 & Hc4);
    [destruct Hq3 as (_ & -> & _); by destruct Hq as (_ & -> & _)|done|auto|
     rewrite Ho3, Ho2, fn_lookup_insert_ne by done; by rewrite fn_lookup_insert|].
  rewrite fn_lookup_insert in HD4, HW4, Hc4. pose proof (Hmax b1). pose proof (Hmax b2).
  destruct (brelse_ok p pid k4 a3 d _ _ b2 m Hb4 Hc4) as (k5 & a5 & E5 & Hb5 & Hq5 & Hc5 & [Ho5 Hr5 Hh5]);
    [auto|rewrite Ho3, Ho2; by rewrite fn_lookup_insert|rewrite Hr3, Hr2; lia|left; rewrite Hr3, Hr2; lia|].
  destruct (brelse_ok p pid k5 a5 d _ _ b1 t Hb5 Hc5) as (k6 & a6 & E6 & Hb6 & Hq6 & Hc6 & [Ho6 Hr6 Hh6]);
    [auto|rewrite Ho5, Ho3, Ho2, !fn_lookup_insert_ne by done; by rewrite fn_lookup_insert|
     rewrite Hr5, decide_False, Hr3, Hr2 by done; lia|right; by rewrite !fn_lookup_insert|].
  exists k6, a6. split; [|split; [|split; [|split]]].
  - unfold log_copy. rewrite E, (bind_Ok _ _ _ _ _ E3), (bind_Ok _ _ _ _ _ E4), (bind_Ok _ _ _ _ _ E5). exact E6.
  - split; try done.
    + destruct Hq6 as (_ & -> & _). by destruct Hq5 as (_ & -> & _).
    + intros x. rewrite Ho6, Ho5, Ho3, Ho2. by apply own_released.
    + intros x. rewrite Hr6, !Hr5, !Hr3, !Hr2. unfold one. repeat case_decide; subst; try done; lia.
  - intros x y Hx Hy. auto.
  - etrans; [apply Hq|]. etrans; [apply Hq3|]. etrans; [exact Hf4|]. etrans; [apply Hq5|apply Hq6].
  - destruct Hq6 as (_ & _ & ->), Hq5 as (_ & _ & ->). rewrite HW4.
    destruct Hq3 as (_ & _ & ->). by destruct Hq as (_ & _ & ->).
Qed.

(** An iteration of [install_trans]. *)
Definition install_copy (unpin : bool) (d t m : Z) : M ks unit :=
  lbuf <- bread d t ;;
  dbuf <- bread d m ;;
  copy_block dbuf lbuf ;;;
  bwrite dbuf ;;;
  (if unpin then bunpin dbuf else ret tt) ;;;
  brelse lbuf ;;;
  brelse dbuf.

Definition unpinned (unpin : bool) (R : nat -> Z) (b x : nat) : Z :=
  R x - (if unpin then one b x else 0).

Lemma maybe_unpin (unpin : bool) k a d D V b :
  bstate k p pid a -> cinv d D V a -> (b < NBUF)%nat -> (unpin = true -> 2 <= rf a b) -> rf a b < 2 ^ 32 ->
  exists k' a', (if unpin then bunpin b else ret tt) k = Ok tt k' /\ bstate k' p pid a' /\ quietly k k' /\
    cinv d D V a' /\ ca_own a' = ca_own a /\ (forall x, rf a' x = unpinned unpin (rf a) b x) /\
    (forall x n, has_block d a x n -> has_block d a' x n).
Proof.
  intros Hb Hc Hlt H2 Hmax. destruct unpin.
  - destruct (bunpin_ok p pid k a d D V b Hb Hc Hlt) as (k' & a' & E & Hb' & Hq & Hc' & [Ho Hr Hh]);
      [specialize (H2 eq_refl); lia|].
    exists k', a'. repeat (split; [done|]). split; [|done]. intros x. rewrite Hr. unfold unpinned, one.
    case_decide; subst; lia.
  - exists k, a. repeat (split; [done|]). split; [|done]. intros x. unfold unpinned. lia.
Qed.

Lemma install_copy_ok unpin k d D V R a t m :
  lst k d D V R a -> t <> m -> (exists b, caches d a b t) \/ has_room a ->
  (forall b1 a1, got pid d t a b1 a1 -> (exists b, caches d a1 b m) \/ has_room a1) ->
  (unpin = true -> pinned d R a m) -> V t = D t -> (forall n, length (V n) = 1024%nat) ->
  exists k' a' b, install_copy unpin d t m k = Ok tt k' /\
    lst k' d (<[m := V t]> D) (<[m := V t]> V) (unpinned unpin R b) a' /\ has_block d a' b m /\
    keeps d a a' /\ frame k k' /\ k_writes k' = k_writes k ++ [(m, V t)].
Proof.
  intros HL Hne Hroom Hroom2 Hpin Hcl Hlen. pose proof HL as [Hb HD Hc Ho Hr Hmax].
  destruct (read_two (fun lbuf dbuf => copy_block dbuf lbuf ;;; bwrite dbuf ;;;
                        (if unpin then bunpin dbuf else ret tt) ;;; brelse lbuf ;;; brelse dbuf)
              k d D V R a t m HL Hne Hroom Hroom2) as (b1 & b2 & a2 & k2 & E & Hq & [Hb2 Hc2 H1 H2 Hbne Ho2 Hr2 [Hp1 Hp2] Hk]).
  assert (HR2 : unpin = true -> 1 <= R b2).
  { intros Hu. destruct (pinned_keeps _ _ _ _ _ Hr Hk (Hpin Hu)) as (b & Hh & HR).
    by rewrite (ci_uniq _ _ _ _ Hc2 b2 b m (proj1 H2) (proj1 Hh)). }
  assert (Hb1r : one b1 b1 = 1 /\ one b2 b1 = 0 /\ one b1 b2 = 0 /\ one b2 b2 = 1).
  { unfold one. repeat case_decide; congruence || done. }
  pose proof (Hmax b1). pose proof (Hmax b2).
  destruct (copy_block_ok k2 a2 d D V b2 b1 t m Hb2 Hc2 H1 H2) as (k3 & a3 & E3 & Hb3 & Hq3 & Hc3 & Ho3 & Hr3 & Hh3);
    [rewrite Hr2; lia|done|].
  destruct (bwrite_ok p pid k3 a3 d D (<[m := V t]> V) b2 m Hb3) as (k4 & E4 & Hb4 & Hf4 & HD4 & HW4 & Hc4);
    [destruct Hq3 as (_ & -> & _); by destruct Hq as (_ & -> & _)|done|auto|
     rewrite Ho3, Ho2; by rewrite fn_lookup_insert|].
  rewrite fn_lookup_insert in HD4, HW4, Hc4.
  destruct (maybe_unpin unpin k4 a3 d _ _ b2 Hb4 Hc4) as (k5 & a5 & E5 & Hb5 & Hq5 & Hc5 & Ho5 & Hr5 & Hh5);
    [apply H2|intros Hu; specialize (HR2 Hu); rewrite Hr3, Hr2; lia|rewrite Hr3, Hr2; lia|].
  assert (Hu : unpinned unpin (rf a3) b2 b1 = R b1 + 1 /\ 1 <= unpinned unpin (rf a3) b2 b2 < 2 ^ 32).
  { unfold unpinned. rewrite !Hr3, !Hr2. destruct unpin; [specialize (HR2 eq_refl)|]; lia. }
  destruct (brelse_ok p pid k5 a5 d _ _ b1 t Hb5 Hc5) as (k6 & a6 & E6 & Hb6 & Hq6 & Hc6 & [Ho6 Hr6 Hh6]);
    [auto|rewrite Ho5, Ho3, Ho2, fn_lookup_insert_ne by done; by rewrite fn_lookup_insert|
     rewrite Hr5; lia|right; by rewrite !fn_lookup_insert_ne by done|].
  destruct (brelse_ok p pid k6 a6 d _ _ b2 m Hb6 Hc6) as (k7 & a7 & E7 & Hb7 & Hq7 & Hc7 & [Ho7 Hr7 Hh7]);
    [auto|rewrite Ho6, Ho5, Ho3, Ho2, fn_lookup_insert_ne by done; by rewrite fn_lookup_insert|
     rewrite Hr6, decide_False, Hr5 by done; lia|right; by rewrite !fn_lookup_insert|].
  exists k7, a7, b2. split; [|split; [|split; [auto|split; [|split]]]].
  - unfold install_copy. rewrite E, (bind_Ok _ _ _ _ _ E3), (bind_Ok _ _ _ _ _ E4), (bind_Ok _ _ _ _ _ E5),
      (bind_Ok _ _ _ _ _ E6). exact E7.
  - split; try done.
    + destruct Hq7 as (_ & -> & _), Hq6 as (_ & -> & _). by destruct Hq5 as (_ & -> & _).
    + intros x. rewrite Ho7, Ho6, Ho5, Ho3, Ho2. by apply own_released.
    + intros x. rewrite Hr7, !Hr6, !Hr5. unfold unpinned. rewrite !Hr3, !Hr2. unfold one.
      repeat case_decide; subst; try done; lia.
    + intros x. unfold unpinned, one. specialize (Hmax x). destruct unpin; [case_decide|]; lia.
  - intros x y Hx Hy. auto 8.
  - etrans; [apply Hq|]. etrans; [apply Hq3|]. etrans; [exact Hf4|]. etrans; [apply Hq5|]. etrans; [apply Hq6|apply Hq7].
  - destruct Hq7 as (_ & _ & ->), Hq6 as (_ & _ & ->), Hq5 as (_ & _ & ->). rewrite HW4.
    destruct Hq3 as (_ & _ & ->). by destruct Hq as (_ & _ & ->).
Qed.

(** ** The loops *)

Definition apply_writes (ws : list (Z * list Z)) (D : Z -> list Z) : Z -> list Z :=
  fold_left (fun D w => <[w.1 := w.2]> D) ws D.

(** The block of the log and the home block of entry [i]. *)
Definition slot (lg : log) (i : nat) : Z := u32 (lg_start lg + Z.of_nat i + 1).
Definition home (lg : log) (i : nat) : Z := u32 (at_Z (lg_block lg) (Z.of_nat i)).

Definition logged (lg : log) (V : Z -> list Z) (s n : nat) : list (Z * list Z) :=
  map (fun i => (slot lg i, V (home lg i))) (seq s n).
Definition installed (lg : log) (V : Z -> list Z) (s n : nat) : list (Z * list Z) :=
  map (fun i => (home lg i, V (slot lg i))) (seq s n).

Definition apart (lg : log) (N : nat) : Prop :=
  forall i j, (i < N)%nat -> (j < N)%nat -> slot lg i <> home lg j.

Lemma room_R d k D V R a : lst k d D V R a -> (exists b, (b < NBUF)%nat /\ R b = 0) -> has_room a.
Proof. intros HL (b & Hb & HR). exists b. by rewrite (ls_rf _ _ _ _ _ _ HL). Qed.

Lemma length_insert_fn (V : Z -> list Z) (t : Z) x (N : nat) :
  (forall n, length (V n) = N) -> length x = N -> forall n, length ((<[t := x]> V) n) = N.
Proof. intros HV Hx n. unfold insert, fn_insert. by destruct (decide (t = n)). Qed.

Lemma write_log_loop k d D V R a N s n :
  lst k d D V R a -> u32 (lg_dev (k_log k)) = d -> apart (k_log k) N -> (s + n <= N)%nat ->
  (forall i, (i < N)%nat -> pinned d R a (home (k_log k) i)) -> (exists b, (b < NBUF)%nat /\ R b = 0) ->
  (forall m, length (V m) = 1024%nat) ->
  let ws := logged (k_log k) V s n in
  exists k' a', for_each (seq s n) (fun tail =>
      lg <- getlog ;;
      log_copy (u32 (lg_dev lg)) (u32 (lg_start lg + Z.of_nat tail + 1)) (u32 (at_Z (lg_block lg) (Z.of_nat tail)))) k
      = Ok tt k' /\
    lst k' d (apply_writes ws D) (apply_writes ws V) R a' /\ keeps d a a' /\ frame k k' /\
    k_writes k' = k_writes k ++ ws.
Proof.
  revert k D V a s. induction n as [|n IH]; intros k D V a s HL Hd Hap Hs Hpin HR Hlen ws.
  - exists k, a. split; [done|]. split; [done|]. split; [by intros x m _|]. split; [done|].
    by rewrite app_nil_r.
  - set (lg := k_log k) in *.
    destruct (log_copy_ok k d D V R a (slot lg s) (home lg s) HL) as (k1 & a1 & E1 & HL1 & Hk1 & Hf1 & HW1);
      [apply Hap; lia|right; by apply (room_R d k D V R)|apply Hpin; lia|done|].
    assert (Elg : k_log k1 = lg) by apply Hf1.
    destruct (IH k1 _ _ a1 (S s) HL1) as (k2 & a2 & E2 & HL2 & Hk2 & Hf2 & HW2);
      rewrite ?Elg; [done|done|lia| |done|by apply length_insert_fn|].
    { intros i Hi. apply (pinned_keeps d R a); [apply HL|done|by apply Hpin]. }
    assert (Ews : logged lg (<[slot lg s := V (home lg s)]> V) (S s) n = logged lg V (S s) n).
    { unfold logged. apply map_ext_in. intros i Hi%in_seq. rewrite fn_lookup_insert_ne; [done|].
      apply Hap; lia. }
    rewrite Elg, Ews in HL2, HW2. exists k2, a2. split; [|split; [|split; [|split]]].
    + cbn [seq for_each]. unfold bind at 1. unfold getlog, gets, bind at 1. fold lg.
      rewrite Hd. unfold slot, home in E1. rewrite E1. exact E2.
    + exact HL2.
    + intros x m Hx Hm. apply Hk2; [|by apply Hk1].
      by rewrite (ls_rf _ _ _ _ _ _ HL1), <-(ls_rf _ _ _ _ _ _ HL).
    + by etrans.
    + rewrite HW2, HW1, <-app_assoc. done.
Qed.

Lemma second_room (unpin : bool) k d D V R a t m :
  lst k d D V R a -> (if unpin then pinned d R a m else forall x, R x = 0) ->
  forall b1 a1, got pid d t a b1 a1 -> (exists b, caches d a1 b m) \/ has_room a1.
Proof.
  intros HL Hp b1 a1 [_ _ _ Hr Hk]. destruct unpin.
  - left. destruct Hp as (b & Hh & HR). exists b. apply Hk; [by rewrite (ls_rf _ _ _ _ _ _ HL)|done].
  - right. exists (if decide (b1 = 0) then 1 else 0)%nat. rewrite Hr, !(ls_rf _ _ _ _ _ _ HL), !Hp.
    unfold NBUF. case_decide; [subst; split; [lia|done]|]. rewrite decide_False by done. split; [lia|done].
Qed.

(** Dropping the pin of block [m] keeps the other pins, and the room. *)
Lemma pinned_others d R a a1 b m m' :
  (forall x, rf a x = R x) -> keeps d a a1 -> has_block d a1 b m -> m <> m' ->
  pinned d R a m' -> pinned d (unpinned true R b) a1 m'.
Proof.
  intros Hr Hk Hb Hne (b' & Hh & HR). exists b'. split; [apply Hk; [by rewrite Hr|done]|].
  unfold unpinned, one. case_decide; [subst|lia]. exfalso.
  assert (Hb' : has_block d a1 b m') by (apply Hk; [by rewrite Hr|done]).
  destruct Hb as [(_ & _ & E) _], Hb' as [(_ & _ & E') _]. congruence.
Qed.

Lemma unpinned_room (unpin : bool) d D V R a a1 b m :
  (forall x, rf a x = R x) -> keeps d a a1 -> cinv d D V a1 -> has_block d a1 b m ->
  (unpin = true -> pinned d R a m) -> (exists x, (x < NBUF)%nat /\ R x = 0) ->
  exists x, (x < NBUF)%nat /\ unpinned unpin R b x = 0.
Proof.
  intros Hr Hk Hc Hb Hp (x & Hx & HR). exists x. split; [done|]. unfold unpinned, one.
  destruct unpin; [|lia]. case_decide; [|lia]. subst.
  destruct (pinned_keeps _ _ _ _ _ Hr Hk (Hp eq_refl)) as (b' & Hh & HR').
  rewrite (ci_uniq _ _ _ _ Hc b b' m) in HR by (apply Hb || apply Hh). lia.
Qed.

Lemma install_loop unpin k d D V R a N s n :
  lst k d D V R a -> u32 (lg_dev (k_log k)) = d -> apart (k_log k) N -> (s + n <= N)%nat ->
  (forall i j, (i < N)%nat -> (j < N)%nat -> home (k_log k) i = home (k_log k) j -> i = j) \/ unpin = false ->
  (if unpin then forall i, (s <= i < N)%nat -> pinned d R a (home (k_log k) i) else forall x, R x = 0) ->
  (exists b, (b < NBUF)%nat /\ R b = 0) ->
  (forall i, (i < N)%nat -> V (slot (k_log k) i) = D (slot (k_log k) i)) ->
  (forall m, length (V m) = 1024%nat) ->
  let ws := installed (k_log k) V s n in
  exists k' a' R', for_each (seq s n) (fun tail =>
      lg <- getlog ;;
      install_copy unpin (u32 (lg_dev lg)) (u32 (lg_start lg + Z.of_nat tail + 1))
        (u32 (at_Z (lg_block lg) (Z.of_nat tail)))) k = Ok tt k' /\
    lst k' d (apply_writes ws D) (apply_writes ws V) R' a' /\ (exists b, (b < NBUF)%nat /\ R' b = 0) /\
    frame k k' /\ k_writes k' = k_writes k ++ ws.
Proof.
  revert k D V R a s. induction n as [|n IH]; intros k D V R a s HL Hd Hap Hs Hinj Hpin HR Hcl Hlen ws.
  - exists k, a, R. split; [done|]. split; [done|]. split; [done|]. split; [done|].
    by rewrite app_nil_r.
  - set (lg := k_log k) in *.
    destruct (install_copy_ok unpin k d D V R a (slot lg s) (home lg s) HL)
      as (k1 & a1 & b & E1 & HL1 & Hb1 & Hk1 & Hf1 & HW1); try done.
    { apply Hap; lia. }
    { right. by apply (room_R d k D V R). }
    { apply (second_room unpin k d D V R); [done|]. destruct unpin; [apply Hpin; lia|done]. }
    { intros ->. apply Hpin. lia. }
    { apply Hcl. lia. }
    assert (Elg : k_log k1 = lg) by apply Hf1.
    destruct (IH k1 _ _ _ a1 (S s) HL1) as (k2 & a2 & R' & E2 & HL2 & HR2 & Hf2 & HW2);
      rewrite ?Elg; try done; try lia.
    { destruct unpin; [|intros x; unfold unpinned; rewrite Hpin; lia]. intros i Hi. destruct Hinj as [Hinj|]; [|done].
      apply (pinned_others d R a a1 b (home lg s)); try done; [apply HL| |apply Hpin; lia].
      intros E. apply Hinj in E; lia. }
    { apply (unpinned_room unpin d _ _ R a a1 b (home lg s)) with (3 := ls_c _ _ _ _ _ _ HL1); try done; [apply HL|].
      intros ->. apply Hpin. lia. }
    { intros i Hi. rewrite !fn_lookup_insert_ne by (intros E; by apply (Hap i s); lia || done). by apply Hcl. }
    { by apply length_insert_fn. }
    assert (Ews : installed lg (<[home lg s := V (slot lg s)]> V) (S s) n = installed lg V (S s) n).
    { unfold installed. apply map_ext_in. intros i Hi%in_seq. rewrite fn_lookup_insert_ne; [done|].
      intros E. symmetry in E. revert E. apply Hap; lia. }
    rewrite Elg, Ews in HL2, HW2. exists k2, a2, R'. split; [|split; [|split; [|split]]].
    + cbn [seq for_each]. unfold bind at 1. unfold getlog, gets, bind at 1. fold lg.
      rewrite Hd. unfold slot, home in E1. rewrite E1. exact E2.
    + exact HL2.
    + exact HR2.
    + by etrans.
    + rewrite HW2, HW1, <-app_assoc. done.
Qed.

(** ** Writes of distinct blocks *)

Lemma apply_app ws ws' D : apply_writes (ws ++ ws') D = apply_writes ws' (apply_writes ws D).
Proof. apply fold_left_app. Qed.

Lemma apply_other ws D m : (forall w, w ∈ ws -> w.1 <> m) -> apply_writes ws D m = D m.
Proof.
  revert D. induction ws as [|w ws IH]; intros D Hw; [done|]. simpl.
  rewrite IH by (intros w' ?; apply Hw; by right).
  rewrite fn_lookup_insert_ne; [done|]. apply Hw. left.
Qed.

Definition at_blocks (f : nat -> Z) (g : nat -> list Z) (n : nat) : list (Z * list Z) :=
  map (fun i => (f i, g i)) (seq 0 n).

Lemma elem_at_blocks f g n w : w ∈ at_blocks f g n -> exists i, (i < n)%nat /\ w = (f i, g i).
Proof.
  intros Hw. apply list_elem_of_In, in_map_iff in Hw as (i & <- & Hi%in_seq). exists i. split; [lia|done].
Qed.

Lemma apply_blocks_other f g n D m :
  (forall i, (i < n)%nat -> f i <> m) -> apply_writes (at_blocks f g n) D m = D m.
Proof. intros Hf. apply apply_other. intros w (i & Hi & ->)%elem_at_blocks. by apply Hf. Qed.

Lemma apply_blocks f g n D i :
  (forall i j, (i < n)%nat -> (j < n)%nat -> f i = f j -> i = j) -> (i < n)%nat ->
  apply_writes (at_blocks f g n) D (f i) = g i.
Proof.
  induction n as [|n IH]; intros Hinj Hi; [lia|]. unfold at_blocks. rewrite seq_S, map_app, apply_app. simpl.
  destruct (decide (i = n)) as [->|]; [by rewrite fn_lookup_insert|].
  rewrite fn_lookup_insert_ne; [|intros E; apply Hinj in E; lia].
  apply IH; [|lia]. intros x y ? ?. apply Hinj; lia.
Qed.

(** Both sides of a write agree on the block. *)
Lemma apply_blocks_agree f g n D D' m :
  (forall i, (i < n)%nat -> f i <> m) \/ (exists i, (i < n)%nat /\ f i = m) ->
  ((forall i, (i < n)%nat -> f i <> m) -> D m = D' m) ->
  apply_writes (at_blocks f g n) D m = apply_writes (at_blocks f g n) D' m.
Proof.
  intros [Hno|(i & Hi & E)] HD; [by rewrite !apply_blocks_other; auto|]. clear HD.
  induction n as [|n IH]; [lia|]. unfold at_blocks. rewrite seq_S, map_app, !apply_app. simpl.
  destruct (decide (f n = m)) as [<-|]; [by rewrite !fn_lookup_insert|].
  rewrite !fn_lookup_insert_ne by done. apply IH. destruct (decide (i = n)); [congruence|lia].
Qed.

(** ** Commit *)

(** The blocks of the log: the header and LOGSIZE slots. *)
Definition in_log (lg : log) (m : Z) : Prop := lg_start lg <= m <= lg_start lg + LOGSIZE.

Record log_wf (lg : log) : Prop := {
  lw_n : 0 <= lg_n lg <= LOGSIZE;
  lw_start : 0 <= lg_start lg /\ lg_start lg + LOGSIZE < 2 ^ 32;
  lw_home : forall i, (i < Z.to_nat (lg_n lg))%nat -> ~ in_log lg (home lg i);
  lw_inj : forall i j, (i < Z.to_nat (lg_n lg))%nat -> (j < Z.to_nat (lg_n lg))%nat -> home lg i = home lg j -> i = j
}.

Lemma slot_eq lg i : log_wf lg -> (i < Z.to_nat (lg_n lg))%nat -> slot lg i = lg_start lg + Z.of_nat i + 1.
Proof. intros [Hn Hs _ _] Hi. unfold slot. apply u32_small. unfold LOGSIZE, MAXOPBLOCKS in *. lia. Qed.

Lemma slot_in lg i : log_wf lg -> (i < Z.to_nat (lg_n lg))%nat -> in_log lg (slot lg i) /\ slot lg i <> lg_start lg.
Proof. intros Hw Hi. rewrite slot_eq by done. pose proof (lw_n _ Hw). unfold in_log. lia. Qed.

Lemma slot_inj lg i j : log_wf lg -> (i < Z.to_nat (lg_n lg))%nat -> (j < Z.to_nat (lg_n lg))%nat -> slot lg i = slot lg j -> i = j.
Proof. intros Hw Hi Hj. rewrite !slot_eq by done. lia. Qed.

Lemma wf_apart lg : log_wf lg -> apart lg (Z.to_nat (lg_n lg)).
Proof. intros Hw i j Hi Hj E. apply (lw_home _ Hw j Hj). rewrite <-E. by apply slot_in. Qed.

Lemma start_eq lg : log_wf lg -> u32 (lg_start lg) = lg_start lg.
Proof. intros [_ Hs _ _]. apply u32_small. unfold LOGSIZE, MAXOPBLOCKS in *. lia. Qed.

Lemma home_ne_start lg i : log_wf lg -> (i < Z.to_nat (lg_n lg))%nat -> home lg i <> lg_start lg.
Proof. intros Hw Hi E. apply (lw_home _ Hw i Hi). rewrite E. unfold in_log, LOGSIZE, MAXOPBLOCKS. lia. Qed.

Lemma lst_log k d D V R a lg : lst k d D V R a -> lst (set_k_log lg k) d D V R a.
Proof. intros [[[? ? ?] ? ? ? ?] ? ? ? ? ?]. by split. Qed.

Lemma length_apply ws V :
  (forall m, length (V m) = 1024%nat) -> (forall w, w ∈ ws -> length w.2 = 1024%nat) ->
  forall m, length (apply_writes ws V m) = 1024%nat.
Proof.
  revert V. induction ws as [|w ws IH]; intros V HV Hw m; [apply HV|]. simpl. apply IH.
  - apply length_insert_fn; [done|]. apply Hw. left.
  - intros w' Hw'. apply Hw. by right.
Qed.

Lemma length_at_blocks f g n w :
  (forall i, length (g i) = 1024%nat) -> w ∈ at_blocks f g n -> length w.2 = 1024%nat.
Proof. intros Hg (i & _ & ->)%elem_at_blocks. apply Hg. Qed.

(** The first half of [commit], up to the write of the header that commits. *)
Definition log_half (lg : log) (V : Z -> list Z) : list (Z * list Z) :=
  at_blocks (slot lg) (fun i => V (home lg i)) (Z.to_nat (lg_n lg)) ++
  [(lg_start lg, hdr (lg_n lg) (lg_block lg) (V (lg_start lg)))].

(** The writes of a commit, in order. *)
Definition install_half (lg : log) (V : Z -> list Z) : list (Z * list Z) :=
  at_blocks (home lg) (fun i => V (home lg i)) (Z.to_nat (lg_n lg)).
Definition commit_writes (lg : log) (V : Z -> list Z) : list (Z * list Z) :=
  log_half lg V ++ install_half lg V ++
  [(lg_start lg, hdr 0 (lg_block lg) (hdr (lg_n lg) (lg_block lg) (V (lg_start lg))))].

Lemma log_half_start lg V D :
  log_wf lg -> apply_writes (log_half lg V) D (lg_start lg) = hdr (lg_n lg) (lg_block lg) (V (lg_start lg)).
Proof. intros Hw. unfold log_half. rewrite apply_app. simpl. by rewrite fn_lookup_insert. Qed.

Lemma log_half_slot lg V D i :
  log_wf lg -> (i < Z.to_nat (lg_n lg))%nat -> apply_writes (log_half lg V) D (slot lg i) = V (home lg i).
Proof.
  intros Hw Hi. unfold log_half. rewrite apply_app. simpl.
  rewrite fn_lookup_insert_ne by (intros E; symmetry in E; revert E; by apply slot_in).
  rewrite apply_blocks; [done| |done]. intros ? ? ? ?. by apply slot_inj.
Qed.

Lemma log_half_other lg V D m :
  log_wf lg -> ~ in_log lg m -> apply_writes (log_half lg V) D m = D m.
Proof.
  intros Hw Hm. unfold log_half. rewrite apply_app. simpl.
  assert (HS : in_log lg (lg_start lg)) by (unfold in_log, LOGSIZE, MAXOPBLOCKS; lia).
  rewrite fn_lookup_insert_ne by (intros <-; done). apply apply_blocks_other.
  intros i Hi E. apply Hm. rewrite <-E. by apply slot_in.
Qed.

Lemma log_half_length lg V D :
  log_wf lg -> (forall m, length (V m) = 1024%nat) -> (forall m, length (D m) = 1024%nat) ->
  forall m, length (apply_writes (log_half lg V) D m) = 1024%nat.
Proof.
  intros Hw HV HD. apply length_apply; [done|]. intros w [Hw1|Hw1%list_elem_of_singleton]%elem_of_app.
  - by apply length_at_blocks in Hw1.
  - subst w. apply hdr_spec; [done|apply Hw].
Qed.

Lemma log_phase k d D V R a :
  let lg := k_log k in
  lst k d D V R a -> log_wf lg -> u32 (lg_dev lg) = d ->
  (forall i, (i < Z.to_nat (lg_n lg))%nat -> pinned d R a (home lg i)) ->
  (exists b, (b < NBUF)%nat /\ R b = 0) -> (forall m, length (V m) = 1024%nat) ->
  exists k' a', (write_log ;;; write_head) k = Ok tt k' /\
    lst k' d (apply_writes (log_half lg V) D) (apply_writes (log_half lg V) V) R a' /\
    keeps d a a' /\ frame k k' /\ k_writes k' = k_writes k ++ log_half lg V.
Proof.
  intros lg HL Hw Hd Hpin HR Hlen. set (N := Z.to_nat (lg_n lg)) in *.
  pose proof (wf_apart lg Hw) as Hap. pose proof (start_eq lg Hw) as HS.
  destruct (write_log_loop k d D V R a N 0 N HL) as (k1 & a1 & E1 & HL1 & Hk1 & Hf1 & HW1); try done.
  fold lg in HL1, HW1. change (logged lg V 0 N) with (at_blocks (slot lg) (fun i => V (home lg i)) N) in HL1, HW1.
  set (w1 := at_blocks (slot lg) (fun i => V (home lg i)) N) in *. assert (Elg1 : k_log k1 = lg) by apply Hf1.
  assert (HV1 : apply_writes w1 V (lg_start lg) = V (lg_start lg)).
  { apply apply_blocks_other. intros i Hi. by apply slot_in. }
  destruct (write_head_ok k1 d _ _ R a1 HL1) as (k2 & a2 & E2 & HL2 & Hk2 & Hf2 & HW2);
    [by rewrite Elg1|right; by apply (room_R d k1 (apply_writes w1 D) (apply_writes w1 V) R)|].
  rewrite Elg1, HS, HV1 in HL2, HW2. exists k2, a2. split; [|split; [|split; [|split]]].
  - unfold bind. rewrite <-E2. change (write_log k) with
      (for_each (seq 0 N) (fun tail => lg <- getlog ;;
         log_copy (u32 (lg_dev lg)) (u32 (lg_start lg + Z.of_nat tail + 1)) (u32 (at_Z (lg_block lg) (Z.of_nat tail)))) k).
    by rewrite E1.
  - unfold log_half. rewrite !apply_app. exact HL2.
  - intros y m Hy Hm. apply Hk2; [|by apply Hk1].
    by rewrite (ls_rf _ _ _ _ _ _ HL1), <-(ls_rf _ _ _ _ _ _ HL).
  - by etrans.
  - rewrite HW2, HW1, <-app_assoc. done.
Qed.

(** The second half: install the log and clear the header.  Recovery does the
    same without unpinning. *)
Lemma install_phase (recovering : bool) k d D V R a :
  let lg := k_log k in let N := Z.to_nat (lg_n lg) in
  lst k d D V R a -> log_wf lg -> u32 (lg_dev lg) = d ->
  (if recovering then forall x, R x = 0 else forall i, (i < N)%nat -> pinned d R a (home lg i)) ->
  (exists b, (b < NBUF)%nat /\ R b = 0) -> (forall m, length (V m) = 1024%nat) ->
  (forall i, (i < N)%nat -> V (slot lg i) = D (slot lg i)) ->
  let ws := at_blocks (home lg) (fun i => V (slot lg i)) N ++ [(lg_start lg, hdr 0 (lg_block lg) (V (lg_start lg)))] in
  exists k' a' R', (install_trans recovering ;;; updlog (set_lg_n 0) ;;; write_head) k = Ok tt k' /\
    lst k' d (apply_writes ws D) (apply_writes ws V) R' a' /\
    k_log k' = set_lg_n 0 lg /\ k_writes k' = k_writes k ++ ws.
Proof.
  intros lg N HL Hw Hd Hpin HR Hlen Hcl ws. pose proof (wf_apart lg Hw) as Hap. pose proof (start_eq lg Hw) as HS.
  destruct (install_loop (negb recovering) k d D V R a N 0 N HL) as (k3 & a3 & R' & E3 & HL3 & HR3 & Hf3 & HW3); try done.
  { left. apply Hw. }
  { destruct recovering; [done|]. intros i Hi. apply Hpin. lia. }
  fold lg in HL3, HW3. change (installed lg V 0 N) with (at_blocks (home lg) (fun i => V (slot lg i)) N) in HL3, HW3.
  set (w3 := at_blocks (home lg) _ N) in *.
  assert (HV3 : apply_writes w3 V (lg_start lg) = V (lg_start lg)).
  { unfold w3. apply apply_blocks_other. intros i Hi; by apply home_ne_start. }
  assert (Elg3 : k_log k3 = lg) by apply Hf3.
  set (k4 := set_k_log (set_lg_n 0 (k_log k3)) k3).
  destruct (write_head_ok k4 d _ _ R' a3 (lst_log _ _ _ _ _ _ _ HL3)) as (k5 & a5 & E5 & HL5 & _ & Hf5 & HW5).
  { simpl. by rewrite Elg3. }
  { right. by apply (room_R d k3 _ _ R') in HL3. }
  simpl in HL5, HW5. rewrite Elg3 in HL5, HW5. rewrite HS, HV3 in HL5, HW5.
  exists k5, a5, R'. split; [|split; [|split]].
  - unfold bind. change (install_trans recovering k) with
      (for_each (seq 0 N) (fun tail => lg <- getlog ;;
         install_copy (negb recovering) (u32 (lg_dev lg)) (u32 (lg_start lg + Z.of_nat tail + 1))
           (u32 (at_Z (lg_block lg) (Z.of_nat tail)))) k).
    rewrite E3. exact E5.
  - unfold ws. rewrite !apply_app. exact HL5.
  - destruct Hf5 as (-> & _). simpl. by rewrite Elg3.
  - rewrite HW5. simpl. rewrite HW3, <-app_assoc. done.
Qed.

Lemma commit_ok k d D V R a :
  let lg := k_log k in
  lst k d D V R a -> log_wf lg -> 0 < lg_n lg -> u32 (lg_dev lg) = d ->
  (forall i, (i < Z.to_nat (lg_n lg))%nat -> pinned d R a (home lg i)) ->
  (exists b, (b < NBUF)%nat /\ R b = 0) -> (forall m, length (V m) = 1024%nat) ->
  exists k' a' R', commit k = Ok tt k' /\
    lst k' d (apply_writes (commit_writes lg V) D) (apply_writes (commit_writes lg V) V) R' a' /\
    k_log k' = set_lg_n 0 lg /\ k_writes k' = k_writes k ++ commit_writes lg V.
Proof.
  intros lg HL Hw Hn Hd Hpin HR Hlen.
  destruct (log_phase k d D V R a HL Hw Hd Hpin HR Hlen) as (k1 & a1 & E1 & HL1 & Hk1 & Hf1 & HW1).
  fold lg in HL1, HW1. assert (Elg : k_log k1 = lg) by apply Hf1.
  pose proof (install_phase false k1 d _ _ R a1 HL1) as Hi. cbv zeta in Hi. rewrite Elg in Hi.
  destruct Hi as (k2 & a2 & R' & E2 & HL2 & Hlg2 & HW2); try done.
  { intros i Hi. apply (pinned_keeps d R a); [apply HL|done|by apply Hpin]. }
  { by apply log_half_length. }
  { intros i Hi. by rewrite !log_half_slot. }
  rewrite log_half_start in HL2, HW2 by done.
  assert (Ew : at_blocks (home lg) (fun i => apply_writes (log_half lg V) V (slot lg i)) (Z.to_nat (lg_n lg)) = install_half lg V).
  { unfold install_half, at_blocks. apply map_ext_in. intros i Hi%in_seq. rewrite log_half_slot; [done|done|lia]. }
  rewrite Ew in HL2, HW2. exists k2, a2, R'. split; [|split; [|split]].
  - unfold commit, getlog, gets, bind at 1. fold lg. destruct (Z.ltb_spec 0 (lg_n lg)); [|lia].
    rewrite <-E2. unfold bind in E1 |- *. destruct (write_log k); try done. rewrite E1. done.
  - unfold commit_writes. rewrite !(apply_app (log_half lg V)). exact HL2.
  - exact Hlg2.
  - rewrite HW2, HW1. unfold commit_writes. by rewrite <-!app_assoc.
Qed.

(** ** Recovery *)

(** The loop of [read_head]. *)
Lemma read_head_loop data k s n (bound : list Z) :
  length bound = length (lg_block (k_log k)) -> (s + n <= length (lg_block (k_log k)))%nat ->
  exists bl, for_each (seq s n) (fun i =>
      if (length bound <=? i)%nat then undef else
      updlog (fun lg => set_lg_block (<[i := head_block data (Z.of_nat i)]> (lg_block lg)) lg)) k =
      Ok tt (set_k_log (set_lg_block bl (k_log k)) k) /\
    forall j, at_Z bl (Z.of_nat j) =
      if decide (s <= j < s + n)%nat then head_block data (Z.of_nat j) else at_Z (lg_block (k_log k)) (Z.of_nat j).
Proof.
  revert k s. induction n as [|n IH]; intros k s Hb Hl.
  - exists (lg_block (k_log k)). split; [by destruct k as [? ? ? ? ? []]|]. intros j. by rewrite decide_False by lia.
  - set (bl1 := <[s := head_block data (Z.of_nat s)]> (lg_block (k_log k))).
    destruct (IH (set_k_log (set_lg_block bl1 (k_log k)) k) (S s)) as (bl & E & Hbl).
    { simpl. unfold bl1. by rewrite length_insert. }
    { simpl. unfold bl1. rewrite length_insert. lia. }
    exists bl. split.
    + cbn [seq for_each]. destruct (Nat.leb_spec (length bound) s); [lia|]. exact E.
    + intros j. rewrite Hbl. simpl. unfold bl1, at_Z. rewrite Nat2Z.id, !nth_lookup.
      destruct (decide (s = j)) as [<-|].
      * rewrite decide_False, decide_True by lia. rewrite list_lookup_insert_eq by lia. done.
      * rewrite list_lookup_insert_ne by done. repeat case_decide; done || (exfalso; lia).
Qed.

Lemma bstate_log k a lg : bstate k p pid a -> bstate (set_k_log lg k) p pid a.
Proof. intros [[? ? ?] ? ? ? ?]. by split. Qed.

Lemma read_head_ok k d D V R a :
  let lg := k_log k in let L := u32 (lg_start lg) in let n := head_n (V L) in
  lst k d D V R a -> u32 (lg_dev lg) = d -> (exists b, (b < NBUF)%nat /\ R b = 0) -> V L = D L ->
  n <= Z.of_nat (length (lg_block lg)) ->
  exists k' a' bl, read_head k = Ok tt k' /\ lst k' d D V R a' /\
    k_log k' = set_lg_block bl (set_lg_n n lg) /\ k_writes k' = k_writes k /\
    forall j, (j < Z.to_nat n)%nat -> at_Z bl (Z.of_nat j) = head_block (V L) (Z.of_nat j).
Proof.
  intros lg L n HL Hd HR Hcl Hn. pose proof HL as [Hb HD Hc Ho Hr Hmax].
  destruct (bread_ok p pid k a d D V L Hb HD Hc) as (b & a1 & k1 & E1 & Hb1 & Hq1 & Hc1 & Hg);
    [intros; apply Ho|right; by apply (room_R d k D V R)|intros y; rewrite Hr; specialize (Hmax y); lia|].
  destruct Hg as [Hh1 Hf1 Ho1 Hr1 Hk1].
  assert (Hrb : 1 <= rf a1 b < 2 ^ 32).
  { rewrite Hr1, decide_True by done. pose proof (ci_ref _ _ _ _ Hc b (proj1 (proj1 Hh1))).
    rewrite Hr in *. specialize (Hmax b). lia. }
  assert (Elg : k_log k1 = lg) by apply Hq1.
  assert (Hdat : b_data (k_bufs k1 b) = V L).
  { rewrite <-(ci_view _ _ _ _ Hc1 _ _ Hh1), <-(bs_core _ _ _ _ Hb1 b); [done|apply Hh1]. }
  set (k2 := set_k_log (set_lg_n n lg) k1).
  destruct (read_head_loop (V L) k2 0 (Z.to_nat n) (lg_block lg)) as (bl & E2 & Hbl); [done|simpl; lia|].
  set (k3 := set_k_log (set_lg_block bl (k_log k2)) k2) in *.
  destruct (brelse_ok p pid k3 a1 d D V b L) as (k4 & a4 & E4 & Hb4 & Hq4 & Hc4 & [Ho4 Hr4 Hh4]);
    [by repeat apply bstate_log|done|done|rewrite Ho1; by rewrite fn_lookup_insert|done|by right|].
  exists k4, a4, bl. split; [|split; [|split; [|split]]].
  - unfold read_head, getlog, gets, bind at 1. fold lg. rewrite Hd. fold L. rewrite (bind_Ok _ _ _ _ _ E1).
    unfold getbuf, gets, bind at 1. rewrite Hdat. fold n. unfold updlog at 1, modify, bind at 1. rewrite Elg.
    rewrite (bind_Ok _ _ _ _ _ E2). exact E4.
  - split; try done.
    + destruct Hq4 as (_ & -> & _). simpl. by destruct Hq1 as (_ & -> & _).
    + intros x. rewrite Ho4, Ho1, fn_insert_insert. unfold insert, fn_insert. destruct (decide (b = x)); auto.
    + intros x. rewrite Hr4, !Hr1, <-Hr. repeat case_decide; subst; try done; lia.
  - destruct Hq4 as ((-> & _) & _). done.
  - destruct Hq4 as (_ & _ & ->). simpl. by destruct Hq1 as (_ & _ & ->).
  - intros j Hj. rewrite Hbl. rewrite decide_True by lia. done.
Qed.

(** The log that a disk commits to, with its header at [start]. *)
Definition disk_log (start : Z) (D : Z -> list Z) : log :=
  mkLog start 0 0 false 0 (head_n (D start))
    (map (fun i => head_block (D start) (Z.of_nat i)) (seq 0 (Z.to_nat (head_n (D start))))).

Lemma disk_log_block start D i :
  (i < Z.to_nat (head_n (D start)))%nat ->
  at_Z (lg_block (disk_log start D)) (Z.of_nat i) = head_block (D start) (Z.of_nat i).
Proof.
  intros Hi. unfold at_Z; simpl. rewrite Nat2Z.id, nth_lookup, list_lookup_fmap, lookup_seq_lt by done. done.
Qed.

(** Logs that agree on what matters to recovery. *)
Lemma log_wf_agree lg lg' :
  lg_start lg' = lg_start lg -> lg_n lg' = lg_n lg ->
  (forall i, (i < Z.to_nat (lg_n lg))%nat -> home lg' i = home lg i) -> log_wf lg -> log_wf lg'.
Proof.
  intros Es En Eh [Hn Hs Hh Hi]. split.
  - by rewrite En.
  - by rewrite Es.
  - rewrite En. intros i Hlt. rewrite Eh by done. unfold in_log. rewrite Es. by apply Hh.
  - rewrite En. intros i j Hi' Hj. rewrite !Eh by done. by apply Hi.
Qed.

(** What recovery writes. *)
Definition recovery_writes (start : Z) (D : Z -> list Z) : list (Z * list Z) :=
  let lg := disk_log start D in
  at_blocks (home lg) (fun i => D (slot lg i)) (Z.to_nat (lg_n lg)).

Lemma recover_ok k d D a :
  let L := lg_start (k_log k) in
  lst k d D D (fun _ => 0) a -> u32 (lg_dev (k_log k)) = d -> log_wf (disk_log L D) ->
  length (lg_block (k_log k)) = 30%nat -> (forall m, length (D m) = 1024%nat) ->
  exists k' x, recover_from_log k = Ok tt k' /\
    k_disk k' = apply_writes (recovery_writes L D ++ [(L, x)]) D.
Proof.
  intros L HL Hd Hw Hbl Hlen. pose proof (start_eq _ Hw) as HS. simpl in HS.
  assert (HR : exists b : nat, (b < NBUF)%nat /\ 0 = 0) by (exists 0%nat; unfold NBUF; split; [lia|done]).
  destruct (read_head_ok k d D D (fun _ => 0) a HL Hd HR eq_refl) as (k1 & a1 & bl & E1 & HL1 & Elg & _ & Hb1).
  { fold L. rewrite HS, Hbl. pose proof (lw_n _ Hw) as Hn. simpl in Hn. unfold LOGSIZE, MAXOPBLOCKS in Hn. lia. }
  fold L in Elg, Hb1. rewrite HS in Elg, Hb1. set (dl := disk_log L D) in *.
  assert (Es : lg_start (k_log k1) = L) by (by rewrite Elg).
  assert (En : lg_n (k_log k1) = lg_n dl) by (by rewrite Elg).
  assert (Eh : forall i, (i < Z.to_nat (lg_n dl))%nat -> home (k_log k1) i = home dl i).
  { intros i Hi. unfold home. rewrite Elg. simpl. rewrite Hb1 by done. by rewrite <-disk_log_block. }
  assert (Hw1 : log_wf (k_log k1)) by (by apply (log_wf_agree dl)).
  destruct (install_phase true k1 d D D (fun _ => 0) a1 HL1 Hw1) as (k2 & a2 & R' & E2 & HL2 & _ & _); try done.
  { by rewrite Elg. }
  exists k2. eexists. split.
  - unfold recover_from_log. rewrite (bind_Ok _ _ _ _ _ E1). exact E2.
  - rewrite (ls_disk _ _ _ _ _ _ HL2). rewrite Es, En. f_equal. f_equal.
    unfold recovery_writes, at_blocks. fold dl. apply map_ext_in. intros i Hi%in_seq.
    rewrite Eh by lia. unfold slot. by rewrite Es.
Qed.

Lemma initlog_ok k d D a dev sb :
  let L := s32 (sb_logstart sb) in
  lst k d D D (fun _ => 0) a -> u32 dev = d -> log_wf (disk_log L D) ->
  length (lg_block (k_log k)) = 30%nat -> (forall m, length (D m) = 1024%nat) ->
  exists k' x, initlog dev sb k = Ok tt k' /\ k_disk k' = apply_writes (recovery_writes L D ++ [(L, x)]) D.
Proof.
  intros L HL Hd Hw Hbl Hlen.
  set (lg := set_lg_dev dev (set_lg_size (s32 (sb_nlog sb)) (set_lg_start L (k_log k)))).
  set (k1 := set_k_log lg (set_kmach (set_lock log_lock (mkSpinlock 0 "log" None) (kmach k)) k)).
  apply (recover_ok k1 d D a); try done.
  destruct HL as [[[Hs ? ?] ? ? ? ?] ? ? ? ? ?]. split; try done. split; try done. split; try done.
  by apply settled_set_lock.
Qed.

End steps.

(** * Crashes during a commit *)

(** The places where a sequence of writes can be cut. *)
Lemma commit_cuts lg V ws1 ws2 :
  commit_writes lg V = ws1 ++ ws2 ->
  (exists r, at_blocks (slot lg) (fun i => V (home lg i)) (Z.to_nat (lg_n lg)) = ws1 ++ r) \/
  (exists r r', ws1 = log_half lg V ++ r /\ install_half lg V = r ++ r') \/
  ws1 = commit_writes lg V.
Proof.
  unfold commit_writes, log_half. set (sl := at_blocks (slot lg) _ _). set (h := (lg_start lg, hdr (lg_n lg) _ _)).
  set (c := (lg_start lg, hdr 0 _ _)). rewrite <-app_assoc. intros E. symmetry in E.
  apply app_eq_inv in E as [(r & -> & E)|(r & E & _)]; [|left; eauto].
  destruct r as [|h' r]; [left; exists []; by rewrite !app_nil_r|]. simpl in E. injection E as <- E. symmetry in E.
  right. apply app_eq_inv in E as [(r' & -> & E)|(r' & E & _)].
  - destruct r' as [|c' r']; simpl in E.
    + left. exists (install_half lg V), []. split; by rewrite ?app_nil_r, <- ?app_assoc.
    + injection E as <- E. symmetry in E. apply app_eq_nil in E as [-> _]. right. by rewrite <- ?app_assoc.
  - left. exists r, r'. split; by rewrite <- ?app_assoc.
Qed.

(** A disk whose header commits nothing. *)
Lemma disk_log_empty lg L D : log_wf lg -> L = lg_start lg -> head_n (D L) = 0 -> log_wf (disk_log L D).
Proof.
  intros Hw -> Hn. destruct Hw as [_ Hs _ _].
  split; simpl; rewrite ?Hn; [unfold LOGSIZE, MAXOPBLOCKS; lia|done|simpl; lia|simpl; lia].
Qed.

Lemma recovery_empty L D : head_n (D L) = 0 -> recovery_writes L D = [].
Proof. intros Hn. unfold recovery_writes. simpl. by rewrite Hn. Qed.

(** A disk whose header is that of [lg] and that has its blocks in the slots. *)
Lemma disk_log_full lg data D :
  log_wf lg -> length data = 1024%nat -> D (lg_start lg) = hdr (lg_n lg) (lg_block lg) data ->
  let dl := disk_log (lg_start lg) D in
  log_wf dl /\ lg_n dl = lg_n lg /\ forall i, (i < Z.to_nat (lg_n lg))%nat -> home dl i = home lg i /\ slot dl i = slot lg i.
Proof.
  intros Hw Hl HD dl. destruct (hdr_spec (lg_n lg) (lg_block lg) data Hl (lw_n _ Hw)) as (_ & Hn & Hb).
  assert (En : lg_n dl = lg_n lg) by (simpl; by rewrite HD).
  assert (Eh : forall i, (i < Z.to_nat (lg_n lg))%nat -> home dl i = home lg i).
  { intros i Hi. unfold home. rewrite (disk_log_block (lg_start lg) D) by (by rewrite HD, Hn).
    rewrite HD, Hb by lia. apply u32_s32. }
  split; [by apply (log_wf_agree lg)|]. split; [done|]. intros i Hi. split; [by apply Eh|done].
Qed.

Lemma covered_dec (f : nat -> Z) n m : (forall i, (i < n)%nat -> f i <> m) \/ (exists i, (i < n)%nat /\ f i = m).
Proof.
  destruct (decide (m ∈ map f (seq 0 n))) as [Hm|Hm].
  - right. apply list_elem_of_In, in_map_iff in Hm as (i & <- & Hi%in_seq). exists i. split; [lia|done].
  - left. intros i Hi <-. apply Hm, list_elem_of_In, in_map, in_seq. lia.
Qed.

(** Installing again what was partly installed. *)
Lemma install_twice f g n r r' D D' m :
  at_blocks f g n = r ++ r' -> (forall m, (forall i, (i < n)%nat -> f i <> m) -> D m = D' m) ->
  apply_writes (at_blocks f g n) (apply_writes r D) m = apply_writes (at_blocks f g n) D' m.
Proof.
  intros E HD. apply apply_blocks_agree; [apply covered_dec|]. intros Hno. rewrite apply_other; [by apply HD|].
  intros w Hw. assert (Hw' : w ∈ at_blocks f g n) by (rewrite E; apply elem_of_app; by left).
  apply elem_at_blocks in Hw' as (i & Hi & ->). by apply Hno.
Qed.

Lemma start_in_log lg : in_log lg (lg_start lg).
Proof. unfold in_log, LOGSIZE, MAXOPBLOCKS. lia. Qed.

Lemma commit_outside lg V D m :
  log_wf lg -> ~ in_log lg m ->
  apply_writes (commit_writes lg V) D m = apply_writes (install_half lg V) D m.
Proof.
  intros Hw Hm. unfold commit_writes. rewrite !apply_app. simpl.
  rewrite fn_lookup_insert_ne by (intros <-; by apply Hm, start_in_log).
  apply apply_blocks_agree; [apply covered_dec|]. intros _. by apply log_half_other.
Qed.

Lemma cleared_outside lg ws x D m :
  ~ in_log lg m -> apply_writes (ws ++ [(lg_start lg, x)]) D m = apply_writes ws D m.
Proof.
  intros Hm. rewrite apply_app. simpl. rewrite fn_lookup_insert_ne; [done|]. intros <-. by apply Hm, start_in_log.
Qed.

Lemma length_commit_writes lg V w :
  log_wf lg -> (forall m, length (V m) = 1024%nat) -> w ∈ commit_writes lg V -> length w.2 = 1024%nat.
Proof.
  intros Hw HV. assert (Hx : length (hdr (lg_n lg) (lg_block lg) (V (lg_start lg))) = 1024%nat)
    by (apply hdr_spec; [done|apply Hw]).
  unfold commit_writes, log_half. intros [[Hi|Hi%list_elem_of_singleton]%elem_of_app|[Hi|Hi%list_elem_of_singleton]%elem_of_app]%elem_of_app.
  - by apply length_at_blocks in Hi.
  - by subst w.
  - by apply length_at_blocks in Hi.
  - subst w. apply hdr_spec; [done|lia].
Qed.

(** Recovery of what a cut commit leaves on the disk. *)
Lemma crash_disk lg V D ws1 ws2 :
  log_wf lg -> (forall m, length (V m) = 1024%nat) -> head_n (D (lg_start lg)) = 0 ->
  commit_writes lg V = ws1 ++ ws2 ->
  let L := lg_start lg in let Dc := apply_writes ws1 D in
  log_wf (disk_log L Dc) /\
  ((forall m, ~ in_log lg m -> apply_writes (recovery_writes L Dc) Dc m = D m) \/
   (forall m, ~ in_log lg m -> apply_writes (recovery_writes L Dc) Dc m = apply_writes (commit_writes lg V) D m)).
Proof.
  intros Hw Hlen Hn E L Dc. set (N := Z.to_nat (lg_n lg)).
  destruct (commit_cuts _ _ _ _ E) as [(r & Er)|[(r & r' & -> & Er)| ->]].
  - assert (Ho : forall m, m = L \/ ~ in_log lg m -> Dc m = D m).
    { intros m Hm. apply apply_other. intros w Hi.
      assert (Hi' : w ∈ at_blocks (slot lg) (fun i => V (home lg i)) N) by (unfold N; rewrite Er; apply elem_of_app; by left).
      apply elem_at_blocks in Hi' as (i & Hlt & ->). simpl. destruct (slot_in lg i Hw Hlt) as [? ?].
      destruct Hm as [->|Hm]; [done|]. by intros <-. }
    assert (Hn' : head_n (Dc L) = 0) by (rewrite Ho; auto). split; [by apply (disk_log_empty lg)|].
    left. intros m Hm. rewrite recovery_empty by done. apply Ho. auto.
  - assert (Hr : forall m, (forall i, (i < N)%nat -> home lg i <> m) -> Dc m = apply_writes (log_half lg V) D m).
    { intros m Hm. unfold Dc. rewrite apply_app. apply apply_other. intros w Hi.
      assert (Hi' : w ∈ install_half lg V) by (rewrite Er; apply elem_of_app; by left).
      apply elem_at_blocks in Hi' as (i & Hlt & ->). by apply Hm. }
    assert (Hs : forall i, (i < N)%nat -> Dc (slot lg i) = V (home lg i)).
    { intros i Hi. rewrite Hr; [by apply log_half_slot|]. intros j Hj Eq. by apply (wf_apart lg Hw i j). }
    destruct (disk_log_full lg (V L) Dc Hw) as (Hdw & En & Hd); [done| |].
    { rewrite Hr; [by apply log_half_start|]. intros i Hi. by apply home_ne_start. }
    split; [done|]. right. intros m Hm. rewrite commit_outside by done.
    assert (Erec : recovery_writes L Dc = install_half lg V).
    { unfold recovery_writes, install_half, at_blocks. fold L in En, Hd. rewrite En. apply map_ext_in. intros i Hi%in_seq.
      destruct (Hd i) as [-> ->]; [lia|]. rewrite Hs by lia. done. }
    rewrite Erec. unfold Dc. rewrite apply_app. unfold install_half in Er |- *.
    rewrite (install_twice _ _ _ r r' _ (apply_writes (log_half lg V) D)); [|done|done].
    apply apply_blocks_agree; [apply covered_dec|]. intros _. by apply log_half_other.
  - assert (Hn' : head_n (Dc L) = 0).
    { unfold Dc, commit_writes. rewrite !apply_app. simpl. rewrite fn_lookup_insert. apply hdr_spec; [|lia].
      apply hdr_spec; [done|apply Hw]. }
    split; [by apply (disk_log_empty lg)|]. right. intros m Hm. by rewrite recovery_empty.
Qed.

Section crash.
Context `{Swtch ks} {BD : BlockDev} `{!BlockDevOk BD}.


End crash.

(** ** On a concrete kernel *)

(** Block 50 has been changed and is to be committed. *)
Definition log1 : log := mkLog 2 30 0 true 1 1 (50 :: replicate 29 0).

Lemma log1_wf : log_wf log1.
Proof.
  split; simpl.
  - unfold LOGSIZE, MAXOPBLOCKS. lia.
  - unfold LOGSIZE, MAXOPBLOCKS. lia.
  - intros i Hi. assert (i = 0%nat) as -> by lia. unfold in_log, LOGSIZE, MAXOPBLOCKS. vm_compute. intuition congruence.
  - intros i j Hi Hj _. lia.
Qed.

Lemma sample :
  exists k V R a, k_log k = log1 /\ lst 2 5 k 1 (k_disk k) V R a /\ pinned 1 R a 50 /\
    (exists b, (b < NBUF)%nat /\ R b = 0) /\ (forall m, length (V m) = 1024%nat) /\
    k_disk k = k_disk ks0 /\ V 50 = replicate 1024 7.
Proof.
  destruct ks0_binit as (k & _ & Hq & Hb). set (D := k_disk ks0).
  assert (HD : k_disk k = D) by apply Hq.
  assert (Hc : cinv 1 D D (cache0 (k_bufs ks0))).
  { apply cache0_cinv; [intros b; simpl; lia|]. intros b _. unfold rf; simpl. lia. }
  destruct (bread_ok (H := swtch_ks) (BD := disk_now) (BlockDevOk0 := disk_now_ok) 2 5 k _ 1 D D 50 Hb HD Hc)
    as (b & a1 & k1 & _ & Hb1 & Hq1 & Hc1 & [Hh1 _ Ho1 Hr1 _]).
  { reflexivity. }
  { right. exists 0%nat. split; [unfold NBUF; lia|reflexivity]. }
  { intros b. unfold rf; simpl. lia. }
  assert (Hrb : rf a1 b = 1) by (rewrite Hr1, decide_True by reflexivity; reflexivity).
  destruct (edit_ok 2 5 k1 a1 1 D D b 50 (fun _ => replicate 1024 7) Hb1 Hc1 Hh1)
    as (k2 & a2 & _ & Hb2 & Hq2 & Hc2 & Ho2 & Hr2 & Hh2); [lia|].
  destruct (bpin_ok 2 5 k2 a2 1 D _ b Hb2 Hc2) as (k3 & a3 & _ & Hb3 & Hq3 & Hc3 & [Ho3 Hr3 Hh3]);
    [apply Hh1|rewrite Hr2; lia|].
  destruct (brelse_ok 2 5 k3 a3 1 D _ b 50 Hb3 Hc3) as (k4 & a4 & _ & Hb4 & Hq4 & Hc4 & [Ho4 Hr4 Hh4]).
  { auto. }
  { rewrite Ho3, Ho2, Ho1. by rewrite fn_lookup_insert. }
  { rewrite Hr3, decide_True, Hr2 by reflexivity. lia. }
  { left. rewrite Hr3, decide_True, Hr2 by reflexivity. lia. }
  assert (HD4 : k_disk k4 = D).
  { destruct Hq4 as (_ & -> & _), Hq3 as (_ & -> & _), Hq2 as (_ & -> & _), Hq1 as (_ & -> & _). exact HD. }
  assert (HR4 : forall x, rf a4 x = one b x).
  { intros x. rewrite Hr4, !Hr3, !Hr2, !Hr1. unfold one, rf; simpl. repeat case_decide; subst; done || lia. }
  exists (set_k_log log1 k4), (<[50 := replicate 1024 7]> D), (one b), a4.
  split; [reflexivity|]. split.
  { split; [by apply bstate_log| |change (k_disk (set_k_log log1 k4)) with (k_disk k4); by rewrite HD4| |exact HR4|].
    - reflexivity.
    - intros x. rewrite Ho4, Ho3, Ho2, Ho1, fn_insert_insert. unfold insert, fn_insert. by destruct (decide (b = x)).
    - intros x. unfold one. case_decide; lia. }
  split; [exists b; split; [auto|unfold one; rewrite decide_True by reflexivity; lia]|]. split.
  { exists (if decide (b = 0) then 1 else 0)%nat. unfold one, NBUF. repeat case_decide; subst; lia. }
  split; [apply length_insert_fn; [intros m; apply length_replicate|apply length_replicate]|].
  split; [exact HD4|by rewrite fn_lookup_insert].
Qed.

