(* ===== verification/Fs.v ===== *)
(** The file system layers of kernel/fs.c: superblock, block allocator,
    inodes, file contents, directories and path names.

    A buffer of the caller that [readi] fills or [writei] reads is a user
    address, a kernel address, or a local variable given by its bytes. *)

From Stdlib Require Import ZArith Lia List String Bool.
From stdpp Require Import base tactics numbers list functions sets.
From S2P Require Import Prelude.
From S2P Require Import Spinlock.
From S2P Require Import Cstring.
From S2P Require Import Kalloc.
From S2P Require Import Vm.
From S2P Require Import Printf.
From S2P Require Import Proc.
From S2P Require Import Sched.
From S2P Require Import Abi.
From S2P Require Import Kstate.
From S2P Require Import Bio.
From S2P Require Import Log.
From S2P Require Import Bytes.

(** * Layout *)

Definition IBLOCK (i : Z) (sb : superblock) : Z := u32 (i / IPB + sb_inodestart sb).
Definition BBLOCK (b : Z) (sb : superblock) : Z := u32 (b / BPB + sb_bmapstart sb).

(** The superblock in the bytes of block 1. *)
Definition sb_of (data : list Z) : superblock :=
  let f i := le_get 4 (4 * i) data in
  mkSuperblock (f 0) (f 1) (f 2) (f 3) (f 4) (f 5) (f 6) (f 7).

(** The bit of block [bi] in a bitmap block. *)
Definition bit_mask (bi : Z) : Z := Z.shiftl 1 (bi mod 8).
Definition bit_free (data : list Z) (bi : Z) : bool :=
  Z.land (at_Z data (bi / 8)) (bit_mask bi) =? 0.
Definition bit_set (bi : Z) (data : list Z) : list Z :=
  <[Z.to_nat (bi / 8) := Z.lor (at_Z data (bi / 8)) (bit_mask bi)]> data.
Definition bit_clear (bi : Z) (data : list Z) : list Z :=
  <[Z.to_nat (bi / 8) := Z.land (at_Z data (bi / 8)) (u8 (Z.lnot (bit_mask bi)))]> data.

(** [for(bi = 0; bi < BPB && b + bi < sb.size; bi++)], [k] bits from [bi] on. *)
Fixpoint free_bit (k : nat) (bi : Z) (data : list Z) : option Z :=
  match k with
  | O => None
  | S k' => if bit_free data bi then Some bi else free_bit k' (bi + 1) data
  end.

(** The fields of [struct dinode] number [inum] in its block. *)
Definition DI_OFF (inum : Z) : Z := (inum mod IPB) * DINODE_SIZE.
Definition di_type (data : list Z) (inum : Z) : Z := s16 (le_get 2 (DI_OFF inum) data).
Definition di_addr (data : list Z) (inum : Z) (i : nat) : Z :=
  le_get 4 (DI_OFF inum + 12 + 4 * Z.of_nat i) data.

(** The fields of [struct dinode] from and to an in-memory inode. *)
Definition dinode_load (data : list Z) (ip : inode) : inode :=
  let o := DI_OFF (i_inum ip) in
  mkInode (i_dev ip) (i_inum ip) (i_ref ip) (i_valid ip)
    (s16 (le_get 2 o data)) (s16 (le_get 2 (o + 2) data)) (s16 (le_get 2 (o + 4) data))
    (s16 (le_get 2 (o + 6) data)) (le_get 4 (o + 8) data)
    (map (di_addr data (i_inum ip)) (seq 0 13)).
Definition dinode_store (ip : inode) (data : list Z) : list Z :=
  splice (DI_OFF (i_inum ip))
    (le_bytes 2 (i_type ip) ++ le_bytes 2 (i_major ip) ++ le_bytes 2 (i_minor ip) ++
     le_bytes 2 (i_nlink ip) ++ le_bytes 4 (i_size ip) ++ concat (map (le_bytes 4) (i_addrs ip))) data.
(** [memset(dip, 0, sizeof( *dip)); dip->type = type;] *)
Definition dinode_claim (inum type : Z) (data : list Z) : list Z :=
  splice (DI_OFF inum) (le_bytes 2 type ++ repeat 0 62) data.

(** * Paths *)

Definition c_slash : Z := 47.
Definition c_dot : Z := 46.

Fixpoint skip_slashes (path : list Z) : list Z :=
  match path with
  | [] => []
  | c :: p => if c =? c_slash then skip_slashes p else path
  end.
(** The element at the front of [path] and what follows it. *)
Fixpoint path_elem (path : list Z) : list Z * list Z :=
  match path with
  | [] => ([], [])
  | c :: p => if c =? c_slash then ([], path)
              else let r := path_elem p in (c :: fst r, snd r)
  end.
(** [skipelem]: the name (at most DIRSIZ bytes of it) and the rest of the path. *)
Definition skipelem (path : list Z) : option (list Z * list Z) :=
  match skip_slashes path with
  | [] => None
  | p => let r := path_elem p in
         Some (take (Z.to_nat DIRSIZ) (fst r), skip_slashes (snd r))
  end.

(** [namecmp] and the name field that [strncpy] makes, on names without their
    NUL; run by the string library on a scratch memory. *)
Definition namecmp (s t : list Z) : Z :=
  strncmp 0 4096 DIRSIZ (store_bytes 0 s (store_bytes 4096 t (fun _ => 0))).
Definition dirent_name (name : list Z) : list Z :=
  load_bytes (Z.to_nat DIRSIZ) 0
    (strncpy 0 4096 DIRSIZ (store_bytes 4096 name (fun _ => 0))).

(** * Operations *)

(** Where [readi] puts bytes and where [writei] gets them. *)
Inductive dest := to_user (va : Z) | to_kernel (pa : Z) | to_local.
Inductive source := from_user (va : Z) | from_local (bs : list Z).

Section fs.
Context {img : Image} `{Swtch ks} `{BlockDev}.

Definition kprintf (s : string) : M ks unit := zoom (printf s []).

Definition readsb (dev : Z) : M ks superblock :=
  b <- bread (u32 dev) 1 ;;
  bp <- getbuf b ;;
  brelse b ;;;
  ret (sb_of (b_data bp)).

Definition fsinit (dev : Z) : M ks unit :=
  sb <- readsb dev ;;
  modify (set_k_sb sb) ;;;
  if negb (sb_magic sb =? FSMAGIC) then panic "invalid file system" else
  initlog dev sb.

Definition bzero (dev bno : Z) : M ks unit :=
  b <- bread (u32 dev) (u32 bno) ;;
  updbuf b (fun bp => set_b_data (splice 0 (repeat 0 (Z.to_nat BSIZE)) (b_data bp)) bp) ;;;
  log_write b ;;;
  brelse b.

Definition balloc (dev : Z) : M ks Z :=
  sb <- gets k_sb ;;
  r <- for_find (seq 0 (Z.to_nat ((sb_size sb + BPB - 1) / BPB))) (fun g =>
    let b := Z.of_nat g * BPB in
    bb <- bread dev (BBLOCK b sb) ;;
    bp <- getbuf bb ;;
    match free_bit (Z.to_nat (Z.min BPB (sb_size sb - b))) 0 (b_data bp) with
    | Some bi =>
        updbuf bb (fun bp => set_b_data (bit_set bi (b_data bp)) bp) ;;;
        log_write bb ;;;
        brelse bb ;;;
        bzero dev (b + bi) ;;;
        ret (Some (b + bi))
    | None => brelse bb ;;; ret None
    end) ;;
  match r with
  | Some b => ret b
  | None => kprintf ("balloc: out of blocks" ++ newline)%string ;;; ret 0
  end.

Definition bfree (dev b : Z) : M ks unit :=
  sb <- gets k_sb ;;
  bb <- bread (u32 dev) (BBLOCK b sb) ;;
  bp <- getbuf bb ;;
  let bi := b mod BPB in
  if bit_free (b_data bp) bi then panic "freeing free block" else
  updbuf bb (fun bp => set_b_data (bit_clear bi (b_data bp)) bp) ;;;
  log_write bb ;;;
  brelse bb.

Definition iinit : M ks unit :=
  zoom (initlock itable_lock "itable") ;;;
  for_each (seq 0 NINODE) (fun i => initsleeplock (sl_inode i) "inode").

(** The scan of iget: the entry for the inode, and the first empty one. *)
Definition iget_scan (dev inum : Z) : M ks (option nat * option nat) :=
  for_fold (seq 0 NINODE) (None, None) (fun acc ip =>
    match fst acc with
    | Some _ => ret acc
    | None =>
        i <- getinode ip ;;
        if (0 <? i_ref i) && (i_dev i =? dev) && (i_inum i =? inum) then ret (Some ip, snd acc)
        else match snd acc with
             | None => if i_ref i =? 0 then ret (None, Some ip) else ret acc
             | Some _ => ret acc
             end
    end).
Definition iget (dev inum : Z) : M ks nat :=
  acq itable_lock ;;;
  r <- iget_scan dev inum ;;
  match r with
  | (Some ip, _) =>
      updinode ip (fun i => set_i_ref (s32 (i_ref i + 1)) i) ;;;
      rel itable_lock ;;;
      ret ip
  | (None, None) => panic "iget: no inodes"
  | (None, Some ip) =>
      updinode ip (set_i_dev dev) ;;;
      updinode ip (set_i_inum inum) ;;;
      updinode ip (set_i_ref 1) ;;;
      updinode ip (set_i_valid false) ;;;
      rel itable_lock ;;;
      ret ip
  end.

Definition ialloc (dev type : Z) : M ks (option nat) :=
  sb <- gets k_sb ;;
  r <- for_find (seq 1 (Z.to_nat (sb_ninodes sb) - 1)) (fun n =>
    let inum := Z.of_nat n in
    b <- bread dev (IBLOCK inum sb) ;;
    bp <- getbuf b ;;
    if di_type (b_data bp) inum =? 0 then
      updbuf b (fun bp => set_b_data (dinode_claim inum type (b_data bp)) bp) ;;;
      log_write b ;;;
      brelse b ;;;
      ip <- iget dev inum ;;
      ret (Some ip)
    else brelse b ;;; ret None) ;;
  match r with
  | Some ip => ret (Some ip)
  | None => kprintf ("ialloc: no inodes" ++ newline)%string ;;; ret None
  end.

Definition iupdate (ip : nat) : M ks unit :=
  sb <- gets k_sb ;;
  i <- getinode ip ;;
  b <- bread (i_dev i) (IBLOCK (i_inum i) sb) ;;
  i <- getinode ip ;;
  updbuf b (fun bp => set_b_data (dinode_store i (b_data bp)) bp) ;;;
  log_write b ;;;
  brelse b.

Definition idup (ip : nat) : M ks nat :=
  acq itable_lock ;;;
  updinode ip (fun i => set_i_ref (s32 (i_ref i + 1)) i) ;;;
  rel itable_lock ;;;
  ret ip.

Definition ilock (ip : nat) : M ks unit :=
  i <- getinode ip ;;
  if i_ref i <? 1 then panic "ilock" else
  acquiresleep (sl_inode ip) ;;;
  i <- getinode ip ;;
  if negb (i_valid i) then
    sb <- gets k_sb ;;
    b <- bread (i_dev i) (IBLOCK (i_inum i) sb) ;;
    bp <- getbuf b ;;
    updinode ip (dinode_load (b_data bp)) ;;;
    brelse b ;;;
    updinode ip (set_i_valid true) ;;;
    i <- getinode ip ;;
    if i_type i =? 0 then panic "ilock: no type" else ret tt
  else ret tt.

Definition iunlock (ip : nat) : M ks unit :=
  h <- holdingsleep (sl_inode ip) ;;
  i <- getinode ip ;;
  if negb h || (i_ref i <? 1) then panic "iunlock" else
  releasesleep (sl_inode ip).

(** The locking calls on a pointer that may be null. *)
Definition ilock_ptr (o : option nat) : M ks unit :=
  match o with Some ip => ilock ip | None => panic "ilock" end.
Definition iunlock_ptr (o : option nat) : M ks unit :=
  match o with Some ip => iunlock ip | None => panic "iunlock" end.

Definition itrunc (ip : nat) : M ks unit :=
  for_each (seq 0 (Z.to_nat NDIRECT)) (fun n =>
    i <- getinode ip ;;
    let a := at_Z (i_addrs i) (Z.of_nat n) in
    if negb (a =? 0) then
      bfree (i_dev i) a ;;;
      updinode ip (fun i => set_i_addrs (<[n := 0]> (i_addrs i)) i)
    else ret tt) ;;;
  i <- getinode ip ;;
  let ind := at_Z (i_addrs i) NDIRECT in
  (if negb (ind =? 0) then
     b <- bread (i_dev i) ind ;;
     for_each (seq 0 (Z.to_nat NINDIRECT)) (fun j =>
       bp <- getbuf b ;;
       let a := le_get 4 (4 * Z.of_nat j) (b_data bp) in
       if negb (a =? 0) then bfree (i_dev i) a else ret tt) ;;;
     brelse b ;;;
     bfree (i_dev i) ind ;;;
     updinode ip (fun i => set_i_addrs (<[Z.to_nat NDIRECT := 0]> (i_addrs i)) i)
   else ret tt) ;;;
  updinode ip (set_i_size 0) ;;;
  iupdate ip.

Definition iput (ip : nat) : M ks unit :=
  acq itable_lock ;;;
  i <- getinode ip ;;
  (if (i_ref i =? 1) && i_valid i && (i_nlink i =? 0) then
     acquiresleep (sl_inode ip) ;;;
     rel itable_lock ;;;
     itrunc ip ;;;
     updinode ip (set_i_type 0) ;;;
     iupdate ip ;;;
     updinode ip (set_i_valid false) ;;;
     releasesleep (sl_inode ip) ;;;
     acq itable_lock
   else ret tt) ;;;
  updinode ip (fun i => set_i_ref (s32 (i_ref i - 1)) i) ;;;
  rel itable_lock.

Definition iunlockput (ip : nat) : M ks unit := iunlock ip ;;; iput ip.

Definition bmap (ip : nat) (bn : Z) : M ks Z :=
  i <- getinode ip ;;
  if bn <? NDIRECT then
    let addr := at_Z (i_addrs i) bn in
    if addr =? 0 then
      addr <- balloc (i_dev i) ;;
      if addr =? 0 then ret 0 else
      updinode ip (fun i => set_i_addrs (<[Z.to_nat bn := addr]> (i_addrs i)) i) ;;;
      ret addr
    else ret addr
  else
  let bn := bn - NDIRECT in
  if bn <? NINDIRECT then
    addr <- (let addr := at_Z (i_addrs i) NDIRECT in
             if addr =? 0 then
               addr <- balloc (i_dev i) ;;
               (if addr =? 0 then ret tt
                else updinode ip (fun i => set_i_addrs (<[Z.to_nat NDIRECT := addr]> (i_addrs i)) i)) ;;;
               ret addr
             else ret addr) ;;
    if addr =? 0 then ret 0 else
    b <- bread (i_dev i) addr ;;
    bp <- getbuf b ;;
    addr <- (let addr := le_get 4 (4 * bn) (b_data bp) in
             if addr =? 0 then
               addr <- balloc (i_dev i) ;;
               (if negb (addr =? 0)
                then updbuf b (fun bp => set_b_data (le_put 4 (4 * bn) addr (b_data bp)) bp) ;;;
                     log_write b
                else ret tt) ;;;
               ret addr
             else ret addr) ;;
    brelse b ;;;
    ret addr
  else panic "bmap: out of range".

(** The fields of [struct stat]. *)
Definition stati (ip : nat) : M ks (list Z) :=
  i <- getinode ip ;;
  ret (le_bytes 4 (i_dev i) ++ le_bytes 4 (i_inum i) ++ le_bytes 2 (i_type i) ++
       le_bytes 2 (i_nlink i) ++ repeat 0 4 ++ le_bytes 8 (i_size i)).

(** [either_copyout] and [either_copyin] with a local buffer of the caller. *)
Definition copy_to (d : dest) (tot : Z) (bs : list Z) : M ks Z :=
  match d with
  | to_user va => zoom (either_copyout true (u64 (va + tot)) bs)
  | to_kernel pa => zoom (either_copyout false (u64 (pa + tot)) bs)
  | to_local => zoom myproc_ref ;;; ret 0
  end.
Definition copy_from (s : source) (tot n : Z) : M ks (option (list Z)) :=
  match s with
  | from_user va => zoom (either_copyin true (u64 (va + tot)) n)
  | from_local bs => zoom myproc_ref ;;; ret (Some (slice tot n bs))
  end.

(** The loop of readi: the bytes read so far and the result.  Every iteration
    but the first starts at a block boundary. *)
Fixpoint readi_loop (fuel : nat) (ip : nat) (d : dest) (off n tot : Z) (acc : list Z)
  : M ks (Z * list Z) :=
  match fuel with
  | O => spin
  | S f =>
      if negb (tot <? n) then ret (tot, acc) else
      addr <- bmap ip (off / BSIZE) ;;
      if addr =? 0 then ret (tot, acc) else
      i <- getinode ip ;;
      b <- bread (i_dev i) addr ;;
      let m := Z.min (n - tot) (BSIZE - off mod BSIZE) in
      bp <- getbuf b ;;
      let bs := slice (off mod BSIZE) m (b_data bp) in
      r <- copy_to d tot bs ;;
      if r =? -1 then brelse b ;;; ret (-1, acc) else
      brelse b ;;;
      readi_loop f ip d (u32 (off + m)) n (tot + m) (acc ++ bs)
  end.
Definition readi (ip : nat) (d : dest) (off n : Z) : M ks (Z * list Z) :=
  i <- getinode ip ;;
  if (i_size i <? off) || (u32 (off + n) <? off) then ret (0, []) else
  let n := if i_size i <? u32 (off + n) then i_size i - off else n in
  readi_loop (Z.to_nat (n / BSIZE) + 3) ip d off n 0 [].

(** The loop of writei: the bytes written and the offset reached. *)
Fixpoint writei_loop (fuel : nat) (ip : nat) (s : source) (off n tot : Z) : M ks (Z * Z) :=
  match fuel with
  | O => spin
  | S f =>
      if negb (tot <? n) then ret (tot, off) else
      addr <- bmap ip (off / BSIZE) ;;
      if addr =? 0 then ret (tot, off) else
      i <- getinode ip ;;
      b <- bread (i_dev i) addr ;;
      let m := Z.min (n - tot) (BSIZE - off mod BSIZE) in
      r <- copy_from s tot m ;;
      match r with
      | None => brelse b ;;; ret (tot, off)
      | Some bs =>
          updbuf b (fun bp => set_b_data (splice (off mod BSIZE) bs (b_data bp)) bp) ;;;
          log_write b ;;;
          brelse b ;;;
          writei_loop f ip s (u32 (off + m)) n (tot + m)
      end
  end.
Definition writei (ip : nat) (s : source) (off n : Z) : M ks Z :=
  i <- getinode ip ;;
  if (i_size i <? off) || (u32 (off + n) <? off) then ret (-1) else
  if MAXFILE * BSIZE <? u32 (off + n) then ret (-1) else
  r <- writei_loop (Z.to_nat (n / BSIZE) + 3) ip s off n 0 ;;
  i <- getinode ip ;;
  (if i_size i <? snd r then updinode ip (set_i_size (snd r)) else ret tt) ;;;
  iupdate ip ;;;
  ret (fst r).

(** The fields of a directory entry. *)
Definition de_inum (de : list Z) : Z := le_get 2 0 de.
Definition de_name (de : list Z) : list Z := until_nul (slice 2 DIRSIZ de).

(** [for(off = 0; off < dp->size; off += sizeof(de))]: the entry named
    [name], with its offset. *)
Fixpoint dirlookup_loop (fuel : nat) (dp : nat) (name : list Z) (off : Z) : M ks (option (nat * Z)) :=
  match fuel with
  | O => spin
  | S f =>
      i <- getinode dp ;;
      if negb (off <? i_size i) then ret None else
      r <- readi dp to_local off DIRENT_SIZE ;;
      if negb (fst r =? DIRENT_SIZE) then panic "dirlookup read" else
      if de_inum (snd r) =? 0 then dirlookup_loop f dp name (u32 (off + DIRENT_SIZE)) else
      if namecmp name (de_name (snd r)) =? 0
      then ip <- iget (i_dev i) (de_inum (snd r)) ;; ret (Some (ip, off))
      else dirlookup_loop f dp name (u32 (off + DIRENT_SIZE))
  end.
Definition dirlookup (dp : nat) (name : list Z) : M ks (option (nat * Z)) :=
  i <- getinode dp ;;
  if negb (i_type i =? T_DIR) then panic "dirlookup not DIR" else
  dirlookup_loop (Z.to_nat (i_size i / DIRENT_SIZE) + 2) dp name 0.

(** The offset of the first empty entry, or the end of the directory. *)
Fixpoint dirlink_loop (fuel : nat) (dp : nat) (off : Z) : M ks Z :=
  match fuel with
  | O => spin
  | S f =>
      i <- getinode dp ;;
      if negb (off <? i_size i) then ret off else
      r <- readi dp to_local off DIRENT_SIZE ;;
      if negb (fst r =? DIRENT_SIZE) then panic "dirlink read" else
      if de_inum (snd r) =? 0 then ret off else dirlink_loop f dp (off + DIRENT_SIZE)
  end.
Definition dirlink (dp : nat) (name : list Z) (inum : Z) : M ks Z :=
  r <- dirlookup dp name ;;
  match r with
  | Some (ip, _) => iput ip ;;; ret (-1)
  | None =>
      i <- getinode dp ;;
      off <- dirlink_loop (Z.to_nat (i_size i / DIRENT_SIZE) + 2) dp 0 ;;
      r <- writei dp (from_local (le_bytes 2 inum ++ dirent_name name)) off DIRENT_SIZE ;;
      if negb (r =? DIRENT_SIZE) then ret (-1) else ret 0
  end.

(** The [while] of namex; each iteration consumes an element of the path. *)
Fixpoint namex_loop (fuel : nat) (ip : nat) (path : list Z) (nameiparent : bool) (name : list Z)
  : M ks (option (nat * list Z)) :=
  match fuel with
  | O => spin
  | S f =>
      match skipelem path with
      | None => if nameiparent then iput ip ;;; ret None else ret (Some (ip, name))
      | Some (name, path) =>
          ilock ip ;;;
          i <- getinode ip ;;
          if negb (i_type i =? T_DIR) then iunlockput ip ;;; ret None else
          if nameiparent && (length path =? 0)%nat then iunlock ip ;;; ret (Some (ip, name)) else
          next <- dirlookup ip name ;;
          match next with
          | None => iunlockput ip ;;; ret None
          | Some (next, _) => iunlockput ip ;;; namex_loop f next path nameiparent name
          end
      end
  end.
Definition namex (path : list Z) (nameiparent : bool) : M ks (option (nat * list Z)) :=
  ip <- (if hd 0 path =? c_slash then iget ROOTDEV ROOTINO
         else p <- curproc ;; pr <- procof p ;;
              match p_cwd pr with Some c => idup c | None => undef end) ;;
  namex_loop (S (length path)) ip path nameiparent [].

Definition namei (path : list Z) : M ks (option nat) :=
  r <- namex path false ;; ret (option_map fst r).
Definition nameiparent (path : list Z) : M ks (option (nat * list Z)) := namex path true.

End fs.

(** * Properties of paths *)

(** The elements that [namex] walks: [skipelem] until it returns 0. *)
Fixpoint elems (fuel : nat) (path : list Z) : list (list Z) :=
  match fuel with
  | O => []
  | S f => match skipelem path with
           | None => []
           | Some (name, rest) => name :: elems f rest
           end
  end.

(** The parts of a path between slashes, empty ones dropped; [cur] is the part
    being read. *)
Fixpoint parts (cur path : list Z) : list (list Z) :=
  let done := match cur with [] => [] | _ => [cur] end in
  match path with
  | [] => done
  | c :: p => if c =? c_slash then done ++ parts [] p else parts (cur ++ [c]) p
  end.

Lemma skip_slashes_length path : (length (skip_slashes path) <= length path)%nat.
Proof. induction path as [|c p IH]; simpl; [lia|]. destruct (c =? c_slash); simpl; lia. Qed.

Lemma skip_slashes_parts path : parts [] (skip_slashes path) = parts [] path.
Proof. induction path as [|c p IH]; [done|]. cbn [skip_slashes parts]. destruct (c =? c_slash) eqn:E; [done|]. cbn [parts]. by rewrite E. Qed.

Lemma skip_slashes_head path c p : skip_slashes path = c :: p -> (c =? c_slash) = false.
Proof.
  induction path as [|c' p' IH]; [done|]. cbn [skip_slashes]. destruct (c' =? c_slash) eqn:E; [done|].
  by intros [= <- <-].
Qed.

Lemma path_elem_length path : (length (snd (path_elem path)) <= length path)%nat.
Proof. induction path as [|c p IH]; simpl; [lia|]. destruct (c =? c_slash); simpl; lia. Qed.

Lemma path_elem_parts path cur :
  parts cur path = match cur ++ fst (path_elem path) with
                   | [] => parts [] (snd (path_elem path))
                   | n => n :: parts [] (snd (path_elem path))
                   end.
Proof.
  revert cur. induction path as [|c p IH]; intros cur; cbn [path_elem parts].
  - simpl. rewrite app_nil_r. by destruct cur.
  - destruct (c =? c_slash) eqn:E; cbn [fst snd].
    + rewrite app_nil_r. cbn [parts]. rewrite E. by destruct cur.
    + rewrite IH, <-app_assoc. done.
Qed.

(** Each call consumes at least a byte. *)
Lemma skipelem_shrinks path name rest : skipelem path = Some (name, rest) -> (length rest < length path)%nat.
Proof.
  unfold skipelem. pose proof (skip_slashes_length path) as H1.
  destruct (skip_slashes path) as [|c p] eqn:E; [done|]. intros [= _ <-].
  apply skip_slashes_head in E as Hc. cbn [path_elem]. rewrite Hc. cbn [snd].
  pose proof (skip_slashes_length (snd (path_elem p))). pose proof (path_elem_length p). simpl in H1. lia.
Qed.

Lemma skipelem_parts path :
  map (take 14) (parts [] path) =
  match skipelem path with
  | None => []
  | Some (name, rest) => name :: map (take 14) (parts [] rest)
  end.
Proof.
  rewrite <-skip_slashes_parts. unfold skipelem. destruct (skip_slashes path) as [|c p] eqn:E; [done|].
  apply skip_slashes_head in E as Hc. rewrite path_elem_parts. rewrite skip_slashes_parts.
  cbn [path_elem]. rewrite Hc. cbn [app fst snd]. done.
Qed.

Lemma elems_parts fuel path : (length path < fuel)%nat -> elems fuel path = map (take 14) (parts [] path).
Proof.
  revert path. induction fuel as [|f IH]; intros path Hf; [lia|]. cbn [elems]. rewrite skipelem_parts.
  destruct (skipelem path) as [[name rest]|] eqn:E; [|done]. apply skipelem_shrinks in E. rewrite IH by lia. done.
Qed.

(** An absolute path with the given elements. *)
Definition render (names : list (list Z)) : list Z := concat (map (fun n => c_slash :: n) names).

Lemma parts_noslash cur name p :
  Forall (fun c => c <> c_slash) name -> parts cur (name ++ p) = parts (cur ++ name) p.
Proof.
  intros Hn. revert cur. induction Hn as [|c name Hc Hn IH]; intros cur; [by rewrite app_nil_r|].
  cbn [app parts]. destruct (Z.eqb_spec c c_slash); [done|]. rewrite IH, <-app_assoc. done.
Qed.

Lemma parts_render names cur :
  Forall (fun n => n <> [] /\ Forall (fun c => c <> c_slash) n) names ->
  parts cur (render names) = match cur with [] => names | _ => cur :: names end.
Proof.
  intros Hn. revert cur. induction Hn as [|n names [Hne Hs] Hn IH]; intros cur; [by destruct cur|].
  unfold render in *. cbn [map concat app parts]. change (c_slash =? c_slash) with true. cbn iota.
  rewrite parts_noslash by done. cbn [app]. rewrite IH. destruct n; [done|]. by destruct cur.
Qed.

(** C33: path names.  The elements that [namex] takes from a path with its
    bound on the number of iterations are the nonempty parts between slashes,
    each cut to DIRSIZ bytes, in order; so a path written from names of at most
    DIRSIZ bytes without slashes is read back as these names. *)
Theorem path_elements path names :
  elems (S (length path)) path = map (take (Z.to_nat DIRSIZ)) (parts [] path) /\
  (Forall (fun n => n <> [] /\ Forall (fun c => c <> c_slash) n /\ (length n <= 14)%nat) names ->
   elems (S (length (render names))) (render names) = names).
Proof.
  split; [apply elems_parts; lia|]. intros Hn. rewrite elems_parts by lia. rewrite parts_render.
  - clear path. induction Hn as [|n names (_ & _ & Hl) Hn IH]; [done|]. cbn [map]. by rewrite take_ge, IH by lia.
  - eapply Forall_impl; [exact Hn|]. by intros n (? & ? & _).
Qed.

Lemma path_elements_witness :
  elems 12 [47; 97; 47; 47; 98; 99; 47; 100; 101; 102; 47] = [[97]; [98; 99]; [100; 101; 102]] /\
  elems (S (length (render [[97]; [98; 99]]))) (render [[97]; [98; 99]]) = [[97]; [98; 99]].
Proof.
  destruct (path_elements [47; 97; 47; 47; 98; 99; 47; 100; 101; 102; 47] [[97]; [98; 99]]) as [H1 H2].
  split; [exact H1|]. apply H2. repeat constructor; discriminate || (unfold c_slash; lia) || (simpl; lia).
Defined.

(** * Inodes on the disk *)

Record inode_ok (ip : inode) : Prop := {
  io_type : - 2 ^ 15 <= i_type ip < 2 ^ 15;
  io_major : - 2 ^ 15 <= i_major ip < 2 ^ 15;
  io_minor : - 2 ^ 15 <= i_minor ip < 2 ^ 15;
  io_nlink : - 2 ^ 15 <= i_nlink ip < 2 ^ 15;
  io_size : 0 <= i_size ip < 2 ^ 32;
  io_addrs : length (i_addrs ip) = 13%nat /\ Forall (fun a => 0 <= a < 2 ^ 32) (i_addrs ip)
}.

(** The bytes of a dinode. *)
Definition dinode_bytes (ip : inode) : list Z :=
  le_bytes 2 (i_type ip) ++ le_bytes 2 (i_major ip) ++ le_bytes 2 (i_minor ip) ++
  le_bytes 2 (i_nlink ip) ++ le_bytes 4 (i_size ip) ++ concat (map (le_bytes 4) (i_addrs ip)).

Lemma length_addr_bytes l : length (concat (map (le_bytes 4) l)) = (4 * length l)%nat.
Proof. induction l as [|a l IH]; [done|]. cbn [map concat length]. rewrite length_app, IH, length_le_bytes. lia. Qed.

Lemma length_dinode_bytes ip : inode_ok ip -> length (dinode_bytes ip) = 64%nat.
Proof.
  intros [_ _ _ _ _ [Hl _]]. unfold dinode_bytes. rewrite !length_app, !length_le_bytes, length_addr_bytes, Hl. done.
Qed.

(** A field inside what was stored. *)
Lemma slice_in off j n bs l :
  0 <= off -> 0 <= j -> 0 <= n -> (Z.to_nat j + Z.to_nat n <= length bs)%nat -> (Z.to_nat off + length bs <= length l)%nat ->
  slice (off + j) n (splice off bs l) = slice j n bs.
Proof.
  intros Ho Hj Hn Hb Hl. unfold slice, splice. rewrite Z2Nat.inj_add by lia.
  rewrite <-drop_drop, drop_app_length' by (rewrite length_take; lia).
  rewrite drop_app_le by lia. rewrite take_app_le; [done|]. rewrite length_drop. lia.
Qed.

Lemma slice_app_mid a b c j n :
  Z.to_nat j = length a -> Z.to_nat n = length b -> slice j n (a ++ b ++ c) = b.
Proof. intros Hj Hn. unfold slice. rewrite drop_app_length' by done. by rewrite take_app_length'. Qed.

Lemma slice_addr l i :
  (i < length l)%nat -> slice (4 * Z.of_nat i) 4 (concat (map (le_bytes 4) l)) = le_bytes 4 (nth i l 0).
Proof.
  intros Hi. rewrite <-(take_drop i l) at 1. rewrite (drop_S l (nth i l 0) i).
  - rewrite map_app, concat_app. cbn [map concat]. apply slice_app_mid; [|by rewrite length_le_bytes].
    rewrite length_addr_bytes, length_take. lia.
  - destruct (nth_lookup_or_length l i 0); [done|lia].
Qed.

Lemma DI_OFF_range inum : 0 <= DI_OFF inum <= 960.
Proof. unfold DI_OFF. change IPB with 16. change DINODE_SIZE with 64. pose proof (Z.mod_pos_bound inum 16). lia. Qed.

(** The integers of a stored dinode, read at offset [j] of it. *)
Lemma dinode_get ip data j n pre post v :
  inode_ok ip -> length data = 1024%nat -> 0 <= i_inum ip ->
  dinode_bytes ip = pre ++ le_bytes (Z.to_nat n) v ++ post -> Z.to_nat j = length pre -> 0 <= j -> 0 <= n ->
  le_get n (DI_OFF (i_inum ip) + j) (dinode_store ip data) = v mod 2 ^ (8 * n).
Proof.
  intros Hok Hl Hi E Hj Hj0 Hn. pose proof (length_dinode_bytes ip Hok) as Hlen.
  pose proof (DI_OFF_range (i_inum ip)) as Ho.
  assert (Hb : (length pre + Z.to_nat n <= 64)%nat).
  { rewrite <-Hlen, E, !length_app, length_le_bytes. lia. }
  unfold le_get, dinode_store. fold (dinode_bytes ip).
  rewrite slice_in by lia. rewrite E. rewrite slice_app_mid by (rewrite ?length_le_bytes; lia).
  rewrite le_val_bytes. by rewrite Z2Nat.id by lia.
Qed.

Lemma dinode_get_addr ip data i :
  inode_ok ip -> length data = 1024%nat -> 0 <= i_inum ip -> (i < 13)%nat ->
  di_addr (dinode_store ip data) (i_inum ip) i = nth i (i_addrs ip) 0.
Proof.
  intros Hok Hl Hi Hlt. pose proof (length_dinode_bytes ip Hok) as Hlen.
  destruct (io_addrs _ Hok) as [Hal Hau].
  pose proof (DI_OFF_range (i_inum ip)) as Ho.
  unfold di_addr, le_get, dinode_store. fold (dinode_bytes ip). rewrite <-Z.add_assoc, slice_in by lia.
  unfold dinode_bytes. rewrite !app_assoc. unfold slice.
  rewrite Z2Nat.inj_add by lia. rewrite <-drop_drop, drop_app_length' by done.
  fold (slice (4 * Z.of_nat i) 4 (concat (map (le_bytes 4) (i_addrs ip)))). rewrite slice_addr by lia.
  rewrite le_val_bytes. apply Z.mod_small. rewrite Forall_nth in Hau. apply Hau. lia.
Qed.

Lemma nth_seq_id (l : list Z) : map (fun i => nth i l 0) (seq 0 (length l)) = l.
Proof.
  apply list_eq. intros i. rewrite list_lookup_fmap. destruct (decide (i < length l)%nat) as [Hi|Hi].
  - rewrite lookup_seq_lt by done. simpl. destruct (nth_lookup_or_length l i 0) as [->|]; [done|lia].
  - rewrite lookup_seq_ge, lookup_ge_None_2 by lia. done.
Qed.

Lemma s16_small z : - 2 ^ 15 <= z < 2 ^ 15 -> s16 z = z.
Proof. intros H. unfold s16. rewrite Z.mod_small; lia. Qed.

Lemma inode_stored ip data :
  inode_ok ip -> 0 <= i_inum ip -> length data = 1024%nat ->
  dinode_load (dinode_store ip data) ip = ip /\ length (dinode_store ip data) = 1024%nat /\
  forall jp, 0 <= i_inum jp -> i_inum jp mod IPB <> i_inum ip mod IPB ->
    dinode_load (dinode_store ip data) jp = dinode_load data jp.
Proof.
  intros Hok Hi Hl. pose proof (DI_OFF_range (i_inum ip)) as Ho. pose proof (length_dinode_bytes ip Hok) as Hlen.
  split; [|split].
  - pose proof (dinode_get ip data 0 2 [] _ (i_type ip) Hok Hl Hi eq_refl eq_refl) as E1.
    pose proof (dinode_get ip data 2 2 (le_bytes 2 (i_type ip)) _ (i_major ip) Hok Hl Hi eq_refl eq_refl) as E2.
    pose proof (dinode_get ip data 4 2 (le_bytes 2 (i_type ip) ++ le_bytes 2 (i_major ip)) _ (i_minor ip) Hok Hl Hi eq_refl eq_refl) as E3.
    pose proof (dinode_get ip data 6 2 (le_bytes 2 (i_type ip) ++ le_bytes 2 (i_major ip) ++ le_bytes 2 (i_minor ip)) _
                  (i_nlink ip) Hok Hl Hi eq_refl eq_refl) as E4.
    pose proof (dinode_get ip data 8 4 (le_bytes 2 (i_type ip) ++ le_bytes 2 (i_major ip) ++ le_bytes 2 (i_minor ip) ++
                  le_bytes 2 (i_nlink ip)) _ (i_size ip) Hok Hl Hi eq_refl eq_refl) as E5.
    rewrite Z.add_0_r in E1. unfold dinode_load. rewrite E1, E2, E3, E4, E5 by lia.
    change (8 * 2) with 16. change (8 * 4) with 32. rewrite !s16_mod.
    destruct Hok as [? ? ? ? ? [Hal Hau]] eqn:Ek. rewrite !s16_small by done. rewrite (Z.mod_small (i_size ip)) by done.
    rewrite (map_ext_in _ (fun i => nth i (i_addrs ip) 0)).
    + rewrite <-Hal, nth_seq_id. by destruct ip.
    + intros i Hin%in_seq. apply dinode_get_addr; try done. lia.
  - unfold dinode_store. fold (dinode_bytes ip). rewrite length_splice; [done|]. lia.
  - intros jp Hj Hne. unfold dinode_load, di_addr, le_get, dinode_store. fold (dinode_bytes ip).
    pose proof (DI_OFF_range (i_inum jp)) as Hoj.
    assert (Hd : DI_OFF (i_inum jp) + 64 <= DI_OFF (i_inum ip) \/ DI_OFF (i_inum ip) + 64 <= DI_OFF (i_inum jp)).
    { unfold DI_OFF. change DINODE_SIZE with 64. nia. }
    rewrite !slice_splice_ne by lia. f_equal. apply map_ext_in. intros i Hin%in_seq.
    by rewrite slice_splice_ne by lia.
Qed.

(** C34: inodes survive on the disk.  What [iupdate] stores in an inode's place
    in its block is what [ilock] loads, every field with its width, and the
    other inodes of the block do not change. *)
Theorem inode_round_trip ip data :
  inode_ok ip -> 0 <= i_inum ip -> length data = 1024%nat ->
  dinode_load (dinode_store ip data) ip = ip /\ length (dinode_store ip data) = 1024%nat /\
  forall jp, 0 <= i_inum jp -> i_inum jp mod IPB <> i_inum ip mod IPB ->
    dinode_load (dinode_store ip data) jp = dinode_load data jp.
Proof. apply inode_stored. Qed.

Lemma inode_round_trip_witness :
  let ip := mkInode 1 18 1 true T_FILE 0 0 1 2048 [100; 101; 0; 0; 0; 0; 0; 0; 0; 0; 0; 0; 0] in
  dinode_load (dinode_store ip (repeat 0 1024)) ip = ip.
Proof.
  apply inode_round_trip; [|simpl; lia|reflexivity].
  split; simpl; try (unfold T_FILE; lia). split; [reflexivity|]. repeat constructor; lia.
Defined.

(** * The free bitmap *)

Definition bit (data : list Z) (bi : Z) : bool := Z.testbit (at_Z data (bi / 8)) (bi mod 8).

Lemma bit_free_spec data bi : bit_free data bi = negb (bit data bi).
Proof.
  pose proof (Z.mod_pos_bound bi 8) as Hm. unfold bit_free, bit, bit_mask. rewrite Z.shiftl_1_l.
  destruct (Z.testbit (at_Z data (bi / 8)) (bi mod 8)) eqn:E; simpl.
  - apply Z.eqb_neq. intros H0. apply (f_equal (fun z => Z.testbit z (bi mod 8))) in H0.
    rewrite Z.land_spec, Z.pow2_bits_true, E, Z.bits_0 in H0 by lia. done.
  - apply Z.eqb_eq, Z.bits_inj'. intros n Hn. rewrite Z.land_spec, Z.bits_0.
    destruct (decide (n = bi mod 8)) as [->|]; [by rewrite E|]. rewrite Z.pow2_bits_false by lia. apply andb_false_r.
Qed.

Lemma at_Z_insert (data : list Z) i j x :
  0 <= i -> 0 <= j -> j < Z.of_nat (length data) ->
  at_Z (<[Z.to_nat j := x]> data) i = if i =? j then x else at_Z data i.
Proof.
  intros Hi Hj Hl. unfold at_Z. rewrite !nth_lookup. destruct (Z.eqb_spec i j) as [->|].
  - rewrite list_lookup_insert_eq by lia. done.
  - rewrite list_lookup_insert_ne by lia. done.
Qed.

Lemma split_index bi bj : 0 <= bi -> 0 <= bj -> bi / 8 = bj / 8 -> bi mod 8 = bj mod 8 -> bi = bj.
Proof. intros. rewrite (Z.div_mod bi 8), (Z.div_mod bj 8) by lia. lia. Qed.

Lemma bit_set_bit data bi bj :
  0 <= bi < 8 * Z.of_nat (length data) -> 0 <= bj ->
  bit (bit_set bi data) bj = if bi =? bj then true else bit data bj.
Proof.
  intros Hi Hj. unfold bit, bit_set, bit_mask. rewrite Z.shiftl_1_l.
  rewrite at_Z_insert; [|apply Z.div_pos; lia|apply Z.div_pos; lia|apply Z.div_lt_upper_bound; lia].
  pose proof (Z.mod_pos_bound bi 8). pose proof (Z.mod_pos_bound bj 8).
  destruct (Z.eqb_spec (bj / 8) (bi / 8)) as [E|E].
  - rewrite Z.lor_spec, <-E. destruct (Z.eqb_spec bi bj) as [->|Hne].
    + rewrite Z.pow2_bits_true by lia. apply orb_true_r.
    + rewrite Z.pow2_bits_false; [apply orb_false_r|]. intros E'. apply Hne, split_index; lia.
  - destruct (Z.eqb_spec bi bj) as [->|]; done.
Qed.

Lemma testbit_mask_clear n i : 0 <= n < 8 -> 0 <= i < 8 -> Z.testbit (u8 (Z.lnot (2 ^ n))) i = negb (i =? n).
Proof.
  intros Hn Hi. unfold u8. rewrite Z.mod_pow2_bits_low, Z.lnot_spec by lia.
  destruct (Z.eqb_spec i n) as [->|]; [by rewrite Z.pow2_bits_true by lia|by rewrite Z.pow2_bits_false by lia].
Qed.

Lemma bit_clear_bit data bi bj :
  0 <= bi < 8 * Z.of_nat (length data) -> 0 <= bj ->
  bit (bit_clear bi data) bj = if bi =? bj then false else bit data bj.
Proof.
  intros Hi Hj. unfold bit, bit_clear, bit_mask. rewrite Z.shiftl_1_l.
  rewrite at_Z_insert; [|apply Z.div_pos; lia|apply Z.div_pos; lia|apply Z.div_lt_upper_bound; lia].
  pose proof (Z.mod_pos_bound bi 8). pose proof (Z.mod_pos_bound bj 8).
  destruct (Z.eqb_spec (bj / 8) (bi / 8)) as [E|E].
  - rewrite Z.land_spec, testbit_mask_clear, <-E by lia. destruct (Z.eqb_spec bi bj) as [->|Hne].
    + rewrite Z.eqb_refl. apply andb_false_r.
    + destruct (Z.eqb_spec (bj mod 8) (bi mod 8)); [exfalso; apply Hne, split_index; lia|]. apply andb_true_r.
  - destruct (Z.eqb_spec bi bj) as [->|]; done.
Qed.

Lemma free_bit_spec k b data :
  0 <= b ->
  match free_bit k b data with
  | Some bi => b <= bi < b + Z.of_nat k /\ bit data bi = false /\ forall bj, b <= bj < bi -> bit data bj = true
  | None => forall bj, b <= bj < b + Z.of_nat k -> bit data bj = true
  end.
Proof.
  revert b. induction k as [|k IH]; intros b Hb; cbn [free_bit]; [lia|]. rewrite bit_free_spec.
  destruct (bit data b) eqn:E; simpl.
  - specialize (IH (b + 1)). destruct (free_bit k (b + 1) data) as [bi|].
    + destruct IH as (H1 & H2 & H3); [lia|]. split; [lia|]. split; [done|]. intros bj Hj.
      destruct (decide (bj = b)) as [->|]; [done|]. apply H3. lia.
    + intros bj Hj. destruct (decide (bj = b)) as [->|]; [done|]. apply IH; lia.
  - split; [lia|]. split; [done|]. lia.
Qed.

(** The free bitmap.  The scan of [balloc] over the first [n] bits of a
    bitmap block finds the lowest clear bit or reports that all are set;
    marking a bit and clearing it change that bit only. *)
Theorem bitmap_spec data n :
  0 <= n <= 8 * Z.of_nat (length data) ->
  match free_bit (Z.to_nat n) 0 data with
  | Some bi =>
      0 <= bi < n /\ bit data bi = false /\ (forall bj, 0 <= bj < bi -> bit data bj = true) /\
      (forall bj, 0 <= bj -> bit (bit_set bi data) bj = if bi =? bj then true else bit data bj) /\
      (forall bj, 0 <= bj -> bit (bit_clear bi (bit_set bi data)) bj = bit data bj)
  | None => forall bj, 0 <= bj < n -> bit data bj = true
  end.
Proof.
  intros Hn. pose proof (free_bit_spec (Z.to_nat n) 0 data) as H.
  destruct (free_bit (Z.to_nat n) 0 data) as [bi|]; [|intros bj Hj; apply H; lia].
  destruct H as (H1 & H2 & H3); [lia|]. split; [lia|]. split; [done|]. split; [done|]. split.
  - intros bj Hj. apply bit_set_bit; lia.
  - intros bj Hj. rewrite bit_clear_bit; [|unfold bit_set; rewrite length_insert; lia|done].
    rewrite bit_set_bit by lia. destruct (Z.eqb_spec bi bj) as [->|]; done.
Qed.

Lemma bitmap_spec_witness : exists bi, free_bit 16 0 [255; 5] = Some bi /\ bit (bit_set bi [255; 5]) bi = true.
Proof.
  exists 9. split; [reflexivity|].
  pose proof (bitmap_spec [255; 5] 16) as H. destruct H as (_ & _ & _ & H & _); [simpl; lia|].
  apply (H 9). lia.
Defined.
