(* ===== verification/Mkfs.v ===== *)
(** mkfs/mkfs.c, the host program that builds the disk image.

    The image file is a list of blocks; a write past its end leaves zero blocks
    in between, as a file with a hole reads.  [die] and a failed [assert] stop
    the program, like the kernel's panic.  What it prints is left out.  The byte
    order of the host is the parameter [big]: structures are in memory as the
    host lays them out, and xshort and xint convert to the order of the disk. *)

From Stdlib Require Import ZArith Lia List String Bool.
From stdpp Require Import base tactics numbers list.
From S2P Require Import Prelude.
From S2P Require Import Abi.
From S2P Require Import Kstate.
From S2P Require Import Fs.

Definition FSSIZE : Z := 2000.
Definition NINODES : Z := 200.

Definition nbitmap : Z := FSSIZE / BPB + 1.
Definition ninodeblocks : Z := NINODES / IPB + 1.
Definition nlog : Z := LOGSIZE.
Definition nmeta : Z := 2 + nlog + ninodeblocks + nbitmap.
Definition nblocks : Z := FSSIZE - nmeta.

Definition zeroes : list Z := repeat 0 (Z.to_nat BSIZE).

(** [struct dinode] in the host's memory. *)
Record dinode := mkDinode {
  din_type : Z; din_major : Z; din_minor : Z; din_nlink : Z; din_size : Z; din_addrs : list Z
}.

(** The globals [fsfd] (as the file it is open on), [sb], [freeinode] and
    [freeblock]. *)
Record mkst := mkMkst {
  mk_img : list (list Z);
  mk_sb : superblock;
  mk_freeinode : Z;
  mk_freeblock : Z
}.

(** A file named on the command line: its path and, if it opens, what the calls
    of read deliver before the end of the file. *)
Record host_file := mkHostFile { hf_path : list Z; hf_reads : option (list (list Z)) }.

Definition set_mk_img (v : list (list Z)) (s : mkst) : mkst :=
  mkMkst v (mk_sb s) (mk_freeinode s) (mk_freeblock s).
Definition set_mk_sb (v : superblock) (s : mkst) : mkst :=
  mkMkst (mk_img s) v (mk_freeinode s) (mk_freeblock s).
Definition set_mk_freeinode (v : Z) (s : mkst) : mkst :=
  mkMkst (mk_img s) (mk_sb s) v (mk_freeblock s).
Definition set_mk_freeblock (v : Z) (s : mkst) : mkst :=
  mkMkst (mk_img s) (mk_sb s) (mk_freeinode s) v.

Definition set_din_size (v : Z) (d : dinode) : dinode :=
  mkDinode (din_type d) (din_major d) (din_minor d) (din_nlink d) v (din_addrs d).
Definition set_din_addr (i v : Z) (d : dinode) : dinode :=
  mkDinode (din_type d) (din_major d) (din_minor d) (din_nlink d) (din_size d)
    (<[Z.to_nat i := v]> (din_addrs d)).

Definition die {A} (s : string) : M mkst A := panic s.
Definition assert_ (b : bool) : M mkst unit := if b then ret tt else panic "assert".

(** * The image file *)

(** The block at byte [u32 (sec * BSIZE)] of the file. *)
Definition sect_pos (sec : Z) : nat := Z.to_nat (u32 (sec * BSIZE) / BSIZE).

Definition put_block (i : nat) (buf : list Z) (img : list (list Z)) : list (list Z) :=
  if (i <? length img)%nat then <[i := buf]> img
  else img ++ repeat zeroes (i - length img) ++ [buf].

Definition wsect (sec : Z) (buf : list Z) : M mkst unit :=
  modify (fun s => set_mk_img (put_block (sect_pos sec) buf (mk_img s)) s).

Definition rsect (sec : Z) : M mkst (list Z) :=
  s <- get ;;
  match mk_img s !! sect_pos sec with
  | Some buf => ret buf
  | None => die "read"
  end.

Section host.
Variable big : bool.

(** ** Integers in the host's memory *)

Definition host_bytes (n : nat) (v : Z) : list Z :=
  if big then rev (le_bytes n v) else le_bytes n v.
Definition host_val (bs : list Z) : Z := le_val (if big then rev bs else bs).

Definition xshort (x : Z) : Z := host_val (le_bytes 2 x).
Definition xint (x : Z) : Z := host_val (le_bytes 4 x).

(** ** Structures in the host's memory *)

Definition sb_bytes (sb : superblock) : list Z :=
  concat (map (host_bytes 4)
    [sb_magic sb; sb_size sb; sb_nblocks sb; sb_ninodes sb; sb_nlog sb; sb_logstart sb;
     sb_inodestart sb; sb_bmapstart sb]).

Definition din_bytes (d : dinode) : list Z :=
  host_bytes 2 (din_type d) ++ host_bytes 2 (din_major d) ++ host_bytes 2 (din_minor d) ++
  host_bytes 2 (din_nlink d) ++ host_bytes 4 (din_size d) ++ concat (map (host_bytes 4) (din_addrs d)).

Definition din_of (bs : list Z) : dinode :=
  let f n off := host_val (slice off n bs) in
  mkDinode (s16 (f 2 0)) (s16 (f 2 2)) (s16 (f 2 4)) (s16 (f 2 6)) (f 4 8)
    (map (fun i => f 4 (12 + 4 * Z.of_nat i)) (seq 0 13)).

(** [struct dirent] with the name as strncpy and strcpy leave it in a zeroed
    structure. *)
Definition de_bytes (inum : Z) (name : list Z) : list Z :=
  host_bytes 2 inum ++ take (Z.to_nat DIRSIZ) (name ++ repeat 0 (Z.to_nat DIRSIZ)).

(** ** Inodes *)

Definition winode (inum : Z) (ip : dinode) : M mkst unit :=
  s <- get ;;
  let bn := IBLOCK inum (mk_sb s) in
  buf <- rsect bn ;;
  wsect bn (splice (DI_OFF inum) (din_bytes ip) buf).

Definition rinode (inum : Z) : M mkst dinode :=
  s <- get ;;
  buf <- rsect (IBLOCK inum (mk_sb s)) ;;
  ret (din_of (slice (DI_OFF inum) DINODE_SIZE buf)).

Definition mkfs_ialloc (type : Z) : M mkst Z :=
  s <- get ;;
  let inum := mk_freeinode s in
  modify (set_mk_freeinode (u32 (inum + 1))) ;;;
  winode inum (mkDinode (s16 (xshort type)) 0 0 (s16 (xshort 1)) (xint 0) (repeat 0 13)) ;;;
  ret inum.

(** [freeblock++] *)
Definition next_block : M mkst Z :=
  s <- get ;;
  modify (set_mk_freeblock (u32 (mk_freeblock s + 1))) ;;;
  ret (mk_freeblock s).

(** [indirect[j]] in the bytes of the array. *)
Definition ind_get (j : Z) (indirect : list Z) : Z := host_val (slice (4 * j) 4 indirect).
Definition ind_put (j v : Z) (indirect : list Z) : list Z := splice (4 * j) (host_bytes 4 v) indirect.

(** The block [x] of the file's block [fbn], and the inode with it. *)
Definition file_block (fbn : Z) (din : dinode) : M mkst (Z * dinode) :=
  if fbn <? NDIRECT then
    din <- (if xint (at_Z (din_addrs din) fbn) =? 0
            then b <- next_block ;; ret (set_din_addr fbn (xint b) din) else ret din) ;;
    ret (xint (at_Z (din_addrs din) fbn), din)
  else
    din <- (if xint (at_Z (din_addrs din) NDIRECT) =? 0
            then b <- next_block ;; ret (set_din_addr NDIRECT (xint b) din) else ret din) ;;
    indirect <- rsect (xint (at_Z (din_addrs din) NDIRECT)) ;;
    indirect <- (if ind_get (fbn - NDIRECT) indirect =? 0
                 then b <- next_block ;;
                      let indirect := ind_put (fbn - NDIRECT) (xint b) indirect in
                      wsect (xint (at_Z (din_addrs din) NDIRECT)) indirect ;;;
                      ret indirect
                 else ret indirect) ;;
    ret (xint (ind_get (fbn - NDIRECT) indirect), din).

(** [while(n > 0)]; every round copies at least one of the bytes at [p]. *)
Fixpoint iappend_loop (fuel : nat) (p : list Z) (off : Z) (din : dinode) : M mkst (Z * dinode) :=
  match fuel with
  | O => spin
  | S f =>
      let n := Z.of_nat (length p) in
      if negb (0 <? n) then ret (off, din) else
      let fbn := off / BSIZE in
      assert_ (fbn <? MAXFILE) ;;;
      r <- file_block fbn din ;;
      let '(x, din) := r in
      let n1 := Z.min n (u32 ((fbn + 1) * BSIZE - off)) in
      buf <- rsect x ;;
      wsect x (splice (off - fbn * BSIZE) (take (Z.to_nat n1) p) buf) ;;;
      iappend_loop f (drop (Z.to_nat n1) p) (u32 (off + n1)) din
  end.

Definition iappend (inum : Z) (p : list Z) : M mkst unit :=
  din <- rinode inum ;;
  r <- iappend_loop (S (length p)) p (xint (din_size din)) din ;;
  winode inum (set_din_size (xint (fst r)) (snd r)).

(** ** The bitmap *)

Definition mkfs_balloc (used : Z) : M mkst unit :=
  assert_ (used <? BPB) ;;;
  s <- get ;;
  wsect (sb_bmapstart (mk_sb s))
    (fold_left (fun buf i => bit_set (Z.of_nat i) buf) (seq 0 (Z.to_nat used)) zeroes).

(** ** main *)

Definition user_prefix : list Z := [117; 115; 101; 114; 47].   (* user/ *)

(** [shortname], before and after the leading underscore is skipped. *)
Definition strip_user (path : list Z) : list Z :=
  if bool_decide (take 5 path = user_prefix) then drop 5 path else path.
Definition strip_underscore (name : list Z) : list Z :=
  match name with c :: cs => if c =? 95 then cs else name | [] => [] end.

Definition add_file (rootino : Z) (f : host_file) : M mkst unit :=
  let shortname := strip_user (hf_path f) in
  assert_ (negb (bool_decide (c_slash ∈ shortname))) ;;;
  match hf_reads f with
  | None => die "open"
  | Some reads =>
      let shortname := strip_underscore shortname in
      assert_ (Z.of_nat (length shortname) <=? DIRSIZ) ;;;
      inum <- mkfs_ialloc T_FILE ;;
      iappend rootino (de_bytes (xshort inum) shortname) ;;;
      for_each reads (iappend inum)
  end.

(** The superblock: [magic] is stored as it is. *)
Definition main_sb : superblock :=
  mkSuperblock FSMAGIC (xint FSSIZE) (xint nblocks) (xint NINODES) (xint nlog) (xint 2)
    (xint (2 + nlog)) (xint (2 + nlog + ninodeblocks)).

(** [argv[1]] opens or not; [files] are the arguments after it. *)
Definition mkfs_main (argc : Z) (opens : bool) (files : list host_file) : M mkst unit :=
  if argc <? 2 then die "Usage: mkfs fs.img files..." else
  assert_ (BSIZE mod DINODE_SIZE =? 0) ;;;
  assert_ (BSIZE mod DIRENT_SIZE =? 0) ;;;
  if negb opens then die "open" else
  modify (set_mk_img []) ;;;
  modify (set_mk_sb main_sb) ;;;
  modify (set_mk_freeblock nmeta) ;;;
  for_each (seq 0 (Z.to_nat FSSIZE)) (fun i => wsect (Z.of_nat i) zeroes) ;;;
  wsect 1 (splice 0 (sb_bytes main_sb) zeroes) ;;;
  rootino <- mkfs_ialloc T_DIR ;;
  assert_ (rootino =? ROOTINO) ;;;
  iappend rootino (de_bytes (xshort rootino) [c_dot]) ;;;
  iappend rootino (de_bytes (xshort rootino) [c_dot; c_dot]) ;;;
  for_each files (add_file rootino) ;;;
  din <- rinode rootino ;;
  let off := u32 ((xint (din_size din) / BSIZE + 1) * BSIZE) in
  winode rootino (set_din_size (xint off) din) ;;;
  s <- get ;;
  mkfs_balloc (mk_freeblock s).

(** The program's variables before main. *)
Definition mkst0 : mkst := mkMkst [] (mkSuperblock 0 0 0 0 0 0 0 0) 1 0.

End host.
