(* ===== verification/Mkimage.v ===== *)
(** The image that mkfs/mkfs.c builds, as the kernel reads it: the blocks that
    inodes own, the effect of every step of mkfs on them, and the theorem that
    main returns and that superblock, directory, files and bitmap of the image
    are those of the command line. *)

From Stdlib Require Import ZArith Lia List String Bool.
From stdpp Require Import base tactics numbers list sets.
From S2P Require Import Prelude.
From S2P Require Import Abi.
From S2P Require Import Kstate.
From S2P Require Import Bytes.
From S2P Require Import Fs.
From S2P Require Import Mkfs.

(** * Blocks of the image *)

Definition blk (img : list (list Z)) (b : Z) : list Z := nth (Z.to_nat b) img [].

Record img_ok (img : list (list Z)) : Prop := {
  im_length : length img = Z.to_nat FSSIZE;
  im_blocks : Forall (fun b => length b = 1024%nat) img
}.

Lemma sect_pos_small b : 0 <= b < 2 ^ 22 -> sect_pos b = Z.to_nat b.
Proof.
  intros H. unfold sect_pos, BSIZE. rewrite u32_small by lia. by rewrite Z.div_mul by lia.
Qed.

Lemma blk_lookup img b : img_ok img -> 0 <= b < FSSIZE -> img !! Z.to_nat b = Some (blk img b).
Proof.
  intros [Hl _] Hb. unfold blk. destruct (nth_lookup_or_length img (Z.to_nat b) []) as [E|E]; [done|lia].
Qed.

Lemma blk_length img b : img_ok img -> 0 <= b < FSSIZE -> length (blk img b) = 1024%nat.
Proof. intros Hi Hb. eapply (Forall_lookup_1 _ _ _ _ (im_blocks _ Hi)), blk_lookup; done. Qed.

Definition set_blk (b : Z) (buf : list Z) (img : list (list Z)) : list (list Z) := <[Z.to_nat b := buf]> img.

Lemma blk_set img b buf b' : img_ok img -> 0 <= b < FSSIZE -> 0 <= b' ->
  blk (set_blk b buf img) b' = if decide (b' = b) then buf else blk img b'.
Proof.
  intros [Hl _] Hb Hb'. unfold blk, set_blk. rewrite !nth_lookup. case_decide as E.
  - subst. rewrite list_lookup_insert_eq by lia. done.
  - rewrite list_lookup_insert_ne by lia. done.
Qed.

Lemma img_ok_set img b buf : img_ok img -> length buf = 1024%nat -> img_ok (set_blk b buf img).
Proof.
  intros [Hl Hf] Hb. split; unfold set_blk; [by rewrite length_insert|]. by apply Forall_insert.
Qed.

Lemma rsect_ok b s : img_ok (mk_img s) -> 0 <= b < FSSIZE -> rsect b s = Ok (blk (mk_img s) b) s.
Proof.
  intros Hi Hb. unfold rsect, bind, get. rewrite sect_pos_small by (unfold FSSIZE in Hb; lia).
  by rewrite blk_lookup.
Qed.

Lemma wsect_ok b buf s : img_ok (mk_img s) -> 0 <= b < FSSIZE ->
  wsect b buf s = Ok tt (set_mk_img (set_blk b buf (mk_img s)) s).
Proof.
  intros Hi Hb. unfold wsect, modify, put_block. rewrite sect_pos_small by (unfold FSSIZE in Hb; lia).
  rewrite (proj2 (Nat.ltb_lt _ _)); [done|]. rewrite (im_length _ Hi). lia.
Qed.

(** * A little-endian host *)

Lemma xint_le x : xint false x = u32 x.
Proof. unfold xint, host_val. by rewrite le_val_bytes. Qed.

Lemma xshort_le x : xshort false x = x mod 2 ^ 16.
Proof. unfold xshort, host_val. by rewrite le_val_bytes. Qed.

(** ** Inodes *)

Record dinode_ok (d : dinode) : Prop := {
  dk_type : - 2 ^ 15 <= din_type d < 2 ^ 15;
  dk_major : - 2 ^ 15 <= din_major d < 2 ^ 15;
  dk_minor : - 2 ^ 15 <= din_minor d < 2 ^ 15;
  dk_nlink : - 2 ^ 15 <= din_nlink d < 2 ^ 15;
  dk_size : 0 <= din_size d < 2 ^ 32;
  dk_addrs : length (din_addrs d) = 13%nat /\ Forall (fun a => 0 <= a < 2 ^ 32) (din_addrs d)
}.

(** The inode as the kernel has it in memory. *)
Definition kernel_inode (inum : Z) (d : dinode) : inode :=
  mkInode 0 inum 0 false (din_type d) (din_major d) (din_minor d) (din_nlink d) (din_size d) (din_addrs d).

Lemma din_bytes_kernel inum d : din_bytes false d = dinode_bytes (kernel_inode inum d).
Proof. done. Qed.

Lemma kernel_inode_ok inum d : dinode_ok d -> inode_ok (kernel_inode inum d).
Proof. intros []. by split. Qed.

(** The fields of inode [inum] in a block, by the kernel's decoder. *)
Definition load_din (data : list Z) (inum : Z) : dinode :=
  let ip := dinode_load data (kernel_inode inum (mkDinode 0 0 0 0 0 [])) in
  mkDinode (i_type ip) (i_major ip) (i_minor ip) (i_nlink ip) (i_size ip) (i_addrs ip).

Lemma slice_slice o w j n (l : list Z) : 0 <= o -> 0 <= j -> 0 <= n -> j + n <= w ->
  slice j n (slice o w l) = slice (o + j) n l.
Proof.
  intros Ho Hj Hn Hw. unfold slice. rewrite skipn_firstn_comm, take_take, drop_drop.
  f_equal; [lia|]. f_equal. lia.
Qed.

(** mkfs decodes an inode like the kernel. *)
Lemma din_of_load data inum : din_of false (slice (DI_OFF inum) DINODE_SIZE data) = load_din data inum.
Proof.
  pose proof (DI_OFF_range inum). unfold din_of, load_din, dinode_load, host_val, le_get, DINODE_SIZE.
  cbn [i_type i_major i_minor i_nlink i_size i_addrs i_inum kernel_inode].
  rewrite !slice_slice by lia. rewrite !Z.add_0_r. f_equal.
  apply map_ext_in. intros i Hi%in_seq. rewrite slice_slice by lia. unfold di_addr, le_get. do 2 f_equal. lia.
Qed.

Lemma load_din_store d data inum : dinode_ok d -> 0 <= inum -> length data = 1024%nat ->
  load_din (splice (DI_OFF inum) (din_bytes false d) data) inum = d.
Proof.
  intros Hd Hi Hl. destruct (inode_stored (kernel_inode inum d) data (kernel_inode_ok inum d Hd) Hi Hl) as (E & _ & _).
  change (splice _ _ data) with (dinode_store (kernel_inode inum d) data).
  pose proof (f_equal i_type E) as E1. pose proof (f_equal i_major E) as E2. pose proof (f_equal i_minor E) as E3.
  pose proof (f_equal i_nlink E) as E4. pose proof (f_equal i_size E) as E5. pose proof (f_equal i_addrs E) as E6.
  unfold load_din. cbn [dinode_load i_type i_major i_minor i_nlink i_size i_addrs i_inum kernel_inode] in *.
  rewrite E1, E2, E3, E4, E5, E6. by destruct d.
Qed.

Lemma load_din_other d data inum inum' : dinode_ok d -> 0 <= inum -> 0 <= inum' -> length data = 1024%nat ->
  inum' mod IPB <> inum mod IPB ->
  load_din (splice (DI_OFF inum) (din_bytes false d) data) inum' = load_din data inum'.
Proof.
  intros Hd Hi Hi' Hl Hne.
  destruct (inode_stored (kernel_inode inum d) data (kernel_inode_ok inum d Hd) Hi Hl) as (_ & _ & E).
  change (splice _ _ data) with (dinode_store (kernel_inode inum d) data).
  unfold load_din. by rewrite E.
Qed.

Lemma length_store_din d data inum : dinode_ok d -> 0 <= inum -> length data = 1024%nat ->
  length (splice (DI_OFF inum) (din_bytes false d) data) = 1024%nat.
Proof. intros Hd Hi Hl. by apply (inode_stored (kernel_inode inum d) data (kernel_inode_ok inum d Hd)). Qed.

(** ** Inodes of the image *)

Definition NODES : Z := ninodeblocks * IPB.
Definition inode_block (inum : Z) : Z := 2 + nlog + inum / IPB.
Definition node_at (img : list (list Z)) (inum : Z) : dinode := load_din (blk img (inode_block inum)) inum.

Lemma inode_block_range inum : 0 <= inum < NODES -> 32 <= inode_block inum < 45.
Proof.
  intros H. change NODES with (13 * 16) in H. unfold inode_block. change nlog with 30. change IPB with 16.
  pose proof (Z.div_pos inum 16). pose proof (Z.div_lt_upper_bound inum 16 13). lia.
Qed.

Lemma IBLOCK_main inum : 0 <= inum < NODES -> IBLOCK inum (main_sb false) = inode_block inum.
Proof.
  intros H. pose proof (inode_block_range inum H). unfold IBLOCK. simpl sb_inodestart. rewrite xint_le.
  change (u32 (2 + nlog)) with 32. unfold inode_block in *. change nlog with 30 in *. rewrite u32_small; lia.
Qed.

Lemma rinode_ok inum s : img_ok (mk_img s) -> mk_sb s = main_sb false -> 0 <= inum < NODES ->
  rinode false inum s = Ok (node_at (mk_img s) inum) s.
Proof.
  intros Hi Hs Hn. pose proof (inode_block_range inum Hn). unfold rinode, bind at 1, get.
  rewrite Hs, IBLOCK_main by done. unfold bind. rewrite rsect_ok by (done || unfold FSSIZE; lia).
  unfold ret. by rewrite din_of_load.
Qed.

Definition store_node (inum : Z) (d : dinode) (img : list (list Z)) : list (list Z) :=
  set_blk (inode_block inum) (splice (DI_OFF inum) (din_bytes false d) (blk img (inode_block inum))) img.

Lemma winode_ok inum d s : img_ok (mk_img s) -> mk_sb s = main_sb false -> 0 <= inum < NODES ->
  winode false inum d s = Ok tt (set_mk_img (store_node inum d (mk_img s)) s).
Proof.
  intros Hi Hs Hn. pose proof (inode_block_range inum Hn). unfold winode, bind at 1, get.
  rewrite Hs, IBLOCK_main by done. unfold bind. rewrite rsect_ok by (done || unfold FSSIZE; lia).
  by rewrite wsect_ok by (done || unfold FSSIZE; lia).
Qed.

Lemma store_node_ok inum d img : img_ok img -> dinode_ok d -> 0 <= inum < NODES ->
  img_ok (store_node inum d img) /\
  (forall b, 0 <= b -> b <> inode_block inum -> blk (store_node inum d img) b = blk img b) /\
  (forall i, 0 <= i < NODES -> node_at (store_node inum d img) i = if decide (i = inum) then d else node_at img i).
Proof.
  intros Hi Hd Hn. pose proof (inode_block_range inum Hn) as Hr.
  assert (Hl : length (blk img (inode_block inum)) = 1024%nat) by (apply blk_length; [done|unfold FSSIZE; lia]).
  assert (Hb : 0 <= inode_block inum < FSSIZE) by (unfold FSSIZE; lia).
  split; [|split].
  - apply img_ok_set; [done|]. by apply length_store_din; [|lia|].
  - intros b Hb0 Hne. unfold store_node. rewrite blk_set by done. by rewrite decide_False.
  - intros i Hin. pose proof (inode_block_range i Hin). unfold node_at, store_node. rewrite blk_set by (done || lia).
    destruct (decide (i = inum)) as [->|Hne].
    + rewrite decide_True by done. by apply load_din_store; [|lia|].
    + destruct (decide (inode_block i = inode_block inum)) as [E|E]; [|done].
      rewrite E. apply load_din_other; [done|lia|lia|done|].
      unfold inode_block in E. pose proof (Z.div_mod i IPB). pose proof (Z.div_mod inum IPB).
      change IPB with 16 in *. lia.
Qed.

(** * Files *)

(** The block of the image that holds block [f] of a file with addresses [A]. *)
Definition fblock (img : list (list Z)) (A : list Z) (f : Z) : Z :=
  if f <? NDIRECT then at_Z A f else le_get 4 (4 * (f - NDIRECT)) (blk img (at_Z A NDIRECT)).

Definition file_byte (img : list (list Z)) (A : list Z) (i : Z) : Z :=
  at_Z (blk img (fblock img A (i / BSIZE))) (i mod BSIZE).

(** The contents of file [inum], as the kernel would read them. *)
Definition read_file (img : list (list Z)) (inum : Z) : list Z :=
  let d := node_at img inum in
  map (fun i => file_byte img (din_addrs d) (Z.of_nat i)) (seq 0 (Z.to_nat (din_size d))).

(** The blocks of a file with [nb] blocks: its data and the indirect block. *)
Definition indirect (A : list Z) (nb : nat) : list Z :=
  if (12 <? nb)%nat then [at_Z A NDIRECT] else [].
Definition owned (img : list (list Z)) (A : list Z) (nb : nat) : list Z :=
  map (fun f => fblock img A (Z.of_nat f)) (seq 0 nb) ++ indirect A nb.

(** How many that are. *)
Definition blocks_for (nb : nat) : Z := Z.of_nat nb + if (12 <? nb)%nat then 1 else 0.

Lemma length_owned img A nb : Z.of_nat (length (owned img A nb)) = blocks_for nb.
Proof.
  unfold owned, blocks_for, indirect. rewrite length_app, length_map, length_seq.
  destruct (12 <? nb)%nat; simpl; lia.
Qed.

(** A file of [nb] blocks below [hi] that holds [c] and then zeros. *)
Record file_ok (img : list (list Z)) (hi : Z) (A : list Z) (c : list Z) (nb : nat) : Prop := {
  fo_addrs : length A = 13%nat /\ Forall (fun a => 0 <= a < 2 ^ 32) A;
  fo_nb : Z.of_nat nb <= MAXFILE;
  fo_len : (length c <= nb * 1024)%nat;
  fo_free : forall f, (nb <= f < 12)%nat -> at_Z A (Z.of_nat f) = 0;
  fo_noind : (nb <= 12)%nat -> at_Z A NDIRECT = 0;
  fo_ind : (12 < nb)%nat -> forall f, Z.of_nat nb <= f < MAXFILE -> fblock img A f = 0;
  fo_own : Forall (fun b => nmeta <= b < hi) (owned img A nb);
  fo_nodup : NoDup (owned img A nb);
  fo_bytes : forall i, 0 <= i < Z.of_nat nb * BSIZE -> file_byte img A i = nth (Z.to_nat i) c 0
}.

Lemma fblock_owned img A nb f : (f < nb)%nat -> fblock img A (Z.of_nat f) ∈ owned img A nb.
Proof.
  intros Hf. apply elem_of_app. left. apply list_elem_of_In, in_map_iff. exists f. split; [done|].
  apply in_seq. lia.
Qed.

Lemma ind_owned img A nb : (12 < nb)%nat -> at_Z A NDIRECT ∈ owned img A nb.
Proof.
  intros Hn. apply elem_of_app. right. unfold indirect. rewrite (proj2 (Nat.ltb_lt _ _)) by done.
  by apply list_elem_of_singleton.
Qed.

(** Only the blocks of a file matter to it. *)
Lemma fblock_ext img img' A nb f :
  (forall b, b ∈ owned img A nb -> blk img' b = blk img b) -> (12 < nb)%nat \/ f < NDIRECT ->
  fblock img' A f = fblock img A f.
Proof.
  intros Hb Hf. unfold fblock. destruct (Z.ltb_spec f NDIRECT) as [|Hge]; [done|].
  destruct Hf as [Hf|]; [|lia]. rewrite Hb; [done|]. by apply ind_owned.
Qed.

Lemma owned_ext img img' A nb :
  (forall b, b ∈ owned img A nb -> blk img' b = blk img b) -> owned img' A nb = owned img A nb.
Proof.
  intros Hb. unfold owned at 1 2. f_equal. apply map_ext_in. intros f Hf%in_seq. eapply fblock_ext; [done|].
  unfold NDIRECT. lia.
Qed.

Lemma file_block_index nb i : 0 <= i < Z.of_nat nb * BSIZE -> exists f : nat, (f < nb)%nat /\ i / BSIZE = Z.of_nat f.
Proof.
  intros Hi. unfold BSIZE in *. exists (Z.to_nat (i / 1024)).
  pose proof (Z.div_pos i 1024). pose proof (Z.div_lt_upper_bound i 1024 (Z.of_nat nb)). lia.
Qed.

Lemma file_ok_ext img img' hi hi' A c nb :
  (forall b, b ∈ owned img A nb -> blk img' b = blk img b) -> hi <= hi' ->
  file_ok img hi A c nb -> file_ok img' hi' A c nb.
Proof.
  intros Hb Hh [Ha Hn Hl Hfr Hni Hind Hown Hnd Hby].
  pose proof (owned_ext img img' A nb Hb) as Eo. split; rewrite ?Eo; try done.
  - intros Hlt f Hf. rewrite (fblock_ext img img' A nb f Hb) by auto. by apply Hind.
  - eapply Forall_impl; [done|]. simpl. lia.
  - intros i Hi. destruct (file_block_index nb i Hi) as (f & Hf & Ef). rewrite <-Hby by done.
    unfold file_byte. rewrite Ef. rewrite (fblock_ext img img' A nb) by (done || unfold NDIRECT; lia).
    rewrite Hb; [done|]. by apply fblock_owned.
Qed.

(** ** A new block *)

(** The addresses [A'] in [img'] are those of [A] and block [x] at the end. *)
Record extends (img img' : list (list Z)) (A A' : list Z) (nb : nat) (lo hi x : Z) : Prop := {
  ex_addrs : length A' = 13%nat /\ Forall (fun a => 0 <= a < 2 ^ 32) A';
  ex_old : forall f, (f < nb)%nat -> fblock img' A' (Z.of_nat f) = fblock img A (Z.of_nat f);
  ex_new : fblock img' A' (Z.of_nat nb) = x;
  ex_range : lo <= x < hi;
  ex_ind : indirect A' (S nb) = indirect A nb \/
    (exists y, indirect A nb = [] /\ indirect A' (S nb) = [y] /\ y <> x /\ lo <= y < hi);
  ex_data : forall f, (f < nb)%nat -> blk img' (fblock img A (Z.of_nat f)) = blk img (fblock img A (Z.of_nat f));
  ex_zero : blk img' x = zeroes;
  ex_free : forall f, (S nb <= f < 12)%nat -> at_Z A' (Z.of_nat f) = 0;
  ex_noind : (S nb <= 12)%nat -> at_Z A' NDIRECT = 0;
  ex_noblock : (12 < S nb)%nat -> forall f, Z.of_nat (S nb) <= f < MAXFILE -> fblock img' A' f = 0
}.

Lemma extends_owned img img' A A' nb lo hi x : extends img img' A A' nb lo hi x ->
  owned img' A' (S nb) = map (fun f => fblock img A (Z.of_nat f)) (seq 0 nb) ++ [x] ++ indirect A' (S nb).
Proof.
  intros H. unfold owned. rewrite seq_S, map_app, <-(assoc_L (++)). simpl. rewrite (ex_new _ _ _ _ _ _ _ _ H). f_equal.
  apply map_ext_in. intros f Hf%in_seq. apply (ex_old _ _ _ _ _ _ _ _ H). lia.
Qed.

Lemma extends_mem img img' A A' nb lo hi x b : extends img img' A A' nb lo hi x ->
  b ∈ owned img' A' (S nb) -> b ∈ owned img A nb \/ lo <= b < hi.
Proof.
  intros H. rewrite (extends_owned _ _ _ _ _ _ _ _ H). unfold owned.
  rewrite !elem_of_app, list_elem_of_singleton. pose proof (ex_range _ _ _ _ _ _ _ _ H).
  intros [Hb|[->|Hb]]; [by left; left|by right|].
  destruct (ex_ind _ _ _ _ _ _ _ _ H) as [E|(y & _ & E & _ & Hy)]; rewrite E in Hb; [by left; right|].
  apply list_elem_of_singleton in Hb as ->. by right.
Qed.

Lemma extends_nodup img img' A A' nb lo hi x : extends img img' A A' nb lo hi x ->
  NoDup (owned img A nb) -> Forall (fun b => nmeta <= b < lo) (owned img A nb) -> NoDup (owned img' A' (S nb)).
Proof.
  intros H Hn Ho. rewrite (extends_owned _ _ _ _ _ _ _ _ H). pose proof (ex_range _ _ _ _ _ _ _ _ H) as Hx.
  rewrite Forall_forall in Ho.
  destruct (ex_ind _ _ _ _ _ _ _ _ H) as [E|(y & E0 & E & Hyx & Hy)]; rewrite E.
  - rewrite (Permutation_app_comm [x]), (assoc_L (++)). fold (owned img A nb).
    apply NoDup_app. split_and!; [done| |apply NoDup_singleton].
    intros b Hb ->%list_elem_of_singleton. specialize (Ho _ Hb). lia.
  - unfold owned in Hn, Ho. rewrite E0, app_nil_r in Hn, Ho.
    apply NoDup_app. split_and!; [done| |].
    + intros b Hb Hb'. specialize (Ho _ Hb). simpl in Hb'.
      apply elem_of_cons in Hb' as [->|Hb']; [lia|]. apply list_elem_of_singleton in Hb' as ->. lia.
    + simpl. apply NoDup_cons. split; [|apply NoDup_singleton]. by intros ->%list_elem_of_singleton.
Qed.

Lemma extends_file img img' A A' c nb lo hi x : extends img img' A A' nb lo hi x -> nmeta <= lo ->
  Z.of_nat (S nb) <= MAXFILE -> file_ok img lo A c nb -> file_ok img' hi A' c (S nb).
Proof.
  intros H Hlo Hmax [Ha Hn Hl Hfr Hni Hind Hown Hnd Hby].
  pose proof (ex_range _ _ _ _ _ _ _ _ H) as Hx.
  split; try done; try apply H.
  - lia.
  - apply Forall_forall. intros b [Hb|Hb]%(extends_mem _ _ _ _ _ _ _ _ b H); [|lia].
    rewrite Forall_forall in Hown. specialize (Hown _ Hb). simpl in Hown. lia.
  - by eapply extends_nodup.
  - intros i Hi. destruct (file_block_index (S nb) i Hi) as (f & Hf & Ef). unfold file_byte. rewrite Ef.
    destruct (decide (f = nb)) as [->|Hne].
    + rewrite (ex_new _ _ _ _ _ _ _ _ H), (ex_zero _ _ _ _ _ _ _ _ H).
      rewrite nth_overflow; [|pose proof (Z.div_mod i BSIZE); pose proof (Z.mod_pos_bound i BSIZE); unfold BSIZE in *; lia].
      unfold at_Z, zeroes. apply nth_repeat.
    + rewrite (ex_old _ _ _ _ _ _ _ _ H), (ex_data _ _ _ _ _ _ _ _ H) by lia. rewrite <-Ef. apply Hby.
      pose proof (Z.div_mod i BSIZE). pose proof (Z.mod_pos_bound i BSIZE). unfold BSIZE in *. lia.
Qed.

Lemma zeroes_length : length zeroes = 1024%nat.
Proof. unfold zeroes. by rewrite repeat_length. Qed.

Lemma le_val_zero l : Forall (fun b => b = 0) l -> le_val l = 0.
Proof. induction 1 as [|b l -> _ IH]; [done|]. cbn [le_val]. rewrite IH. done. Qed.

Lemma le_get_zeroes n off : le_get n off zeroes = 0.
Proof.
  apply le_val_zero. unfold slice. apply Forall_take, Forall_drop, Forall_forall.
  intros b Hb%list_elem_of_In. by apply repeat_spec in Hb.
Qed.

Lemma at_zero_beyond l i : (length l <= Z.to_nat i)%nat -> at_Z l i = 0.
Proof. intros H. unfold at_Z. by apply nth_overflow. Qed.

Section grow.
Context (img : list (list Z)) (fb : Z) (A c : list Z) (nb : nat).
Context (Hi : img_ok img) (Hf : file_ok img fb A c nb) (Hfb : nmeta <= fb).

Lemma owned_lt b : b ∈ owned img A nb -> nmeta <= b < fb.
Proof. intros Hb. apply (proj1 (Forall_forall _ _) (fo_own _ _ _ _ _ Hf) b Hb). Qed.

Lemma extends_direct : (nb < 12)%nat -> fb + 1 <= FSSIZE -> blk img fb = zeroes ->
  extends img img A (<[nb := fb]> A) nb fb (fb + 1) fb.
Proof.
  intros Hn Hmax Hz. destruct Hf as [[Hl Ha] _ _ Hfr Hni _ _ _ _]. unfold FSSIZE in *. change nmeta with 46 in *.
  assert (Hat : forall f, 0 <= f -> at_Z (<[nb := fb]> A) f = if decide (Z.to_nat f = nb) then fb else at_Z A f)
    by (intros f ?; apply at_insert; lia).
  assert (Hlow : forall f : nat, (f < 12)%nat -> fblock img (<[nb := fb]> A) (Z.of_nat f) = at_Z (<[nb := fb]> A) (Z.of_nat f)).
  { intros f ?. unfold fblock, NDIRECT. by rewrite (proj2 (Z.ltb_lt _ _)) by lia. }
  split.
  - split; [by rewrite length_insert|]. apply Forall_insert; [done|]. lia.
  - intros f Hlt. rewrite Hlow, Hat, decide_False by lia. unfold fblock, NDIRECT. by rewrite (proj2 (Z.ltb_lt _ _)) by lia.
  - rewrite Hlow, Hat, decide_True by lia. done.
  - lia.
  - left. unfold indirect. rewrite !(proj2 (Nat.ltb_ge _ _)) by lia. done.
  - done.
  - done.
  - intros f Hr. rewrite Hat, decide_False by lia. apply Hfr. lia.
  - intros _. rewrite Hat, decide_False by (unfold NDIRECT; lia). apply Hni. lia.
  - lia.
Qed.

(** The stored entry [j] of an indirect block and the others. *)
Lemma le_entry j j' v l : length l = 1024%nat -> 0 <= j < 256 -> 0 <= j' < 256 -> 0 <= v < 2 ^ 32 ->
  le_get 4 (4 * j') (le_put 4 (4 * j) v l) = if decide (j' = j) then v else le_get 4 (4 * j') l.
Proof.
  intros Hl Hj Hj' Hv. case_decide as E.
  - subst. rewrite le_get_put by lia. by rewrite Z.mod_small.
  - apply le_get_put_ne; lia.
Qed.

Lemma extends_first_indirect : nb = 12%nat -> fb + 2 <= FSSIZE -> blk img fb = zeroes -> blk img (fb + 1) = zeroes ->
  extends img (set_blk fb (le_put 4 0 (fb + 1) (blk img fb)) img) A (<[12%nat := fb]> A) nb fb (fb + 2) (fb + 1).
Proof.
  intros En Hmax Hz Hz1. pose proof owned_lt as Hlt. destruct Hf as [[Hl Ha] _ _ Hfr Hni _ _ _ _].
  rewrite En in *.
  unfold FSSIZE in Hmax. change nmeta with 46 in *.
  assert (Hb : 0 <= fb < FSSIZE) by (unfold FSSIZE; lia).
  assert (Hat : forall f, 0 <= f -> at_Z (<[12%nat := fb]> A) f = if decide (Z.to_nat f = 12%nat) then fb else at_Z A f)
    by (intros f ?; apply at_insert; lia).
  assert (H12 : at_Z (<[12%nat := fb]> A) NDIRECT = fb) by (by rewrite Hat by done).
  split.
  - split; [by rewrite length_insert|]. apply Forall_insert; [done|]. lia.
  - intros f Hf12. unfold fblock. rewrite (proj2 (Z.ltb_lt _ _)) by (unfold NDIRECT; lia).
    by rewrite Hat, decide_False by lia.
  - unfold fblock. simpl. rewrite H12, blk_set, decide_True by (done || lia). change (4 * 0) with (4 * 0).
    rewrite (le_entry 0 0), decide_True by (rewrite ?Hz, ?zeroes_length; done || lia). done.
  - lia.
  - right. exists fb. split; [done|]. split; [unfold indirect; simpl; by rewrite H12|lia].
  - intros f Hf12. specialize (Hlt _ (fblock_owned img A 12 f Hf12)). rewrite blk_set, decide_False by (done || lia). done.
  - rewrite blk_set, decide_False by (done || lia). done.
  - lia.
  - lia.
  - intros _ f Hr. unfold fblock, MAXFILE in *. change NINDIRECT with 256 in Hr.
    rewrite (proj2 (Z.ltb_ge _ _)) by (unfold NDIRECT; lia).
    rewrite H12, blk_set, decide_True by (done || lia). unfold NDIRECT in *.
    rewrite (le_entry 0), decide_False by (rewrite ?Hz, ?zeroes_length; done || lia). rewrite Hz. apply le_get_zeroes.
Qed.

Lemma extends_indirect : (12 < nb)%nat -> Z.of_nat nb < MAXFILE -> fb + 1 <= FSSIZE -> blk img fb = zeroes ->
  extends img (set_blk (at_Z A NDIRECT) (le_put 4 (4 * (Z.of_nat nb - NDIRECT)) fb (blk img (at_Z A NDIRECT))) img)
    A A nb fb (fb + 1) fb.
Proof.
  intros Hn Hm Hmax Hz. pose proof owned_lt as Hlt. pose proof (Hlt _ (ind_owned img A nb Hn)) as Hy.
  destruct Hf as [Ha _ _ Hfr Hni Hind _ Hnd _]. set (y := at_Z A NDIRECT) in *.
  unfold FSSIZE in Hmax. change nmeta with 46 in *. unfold MAXFILE in *. change NINDIRECT with 256 in *. unfold NDIRECT in *.
  assert (Hb : 0 <= y < FSSIZE) by (unfold FSSIZE; lia).
  pose proof (blk_length img y Hi Hb) as Hyl.
  set (img' := set_blk y _ img).
  assert (Hent : forall f, 12 <= f < 268 -> fblock img' A f = if decide (f = Z.of_nat nb) then fb else fblock img A f).
  { intros f Hr. unfold fblock, NDIRECT. rewrite (proj2 (Z.ltb_ge _ _)) by lia. fold y.
    unfold img'. rewrite blk_set, decide_True by (done || lia). rewrite le_entry by lia.
    destruct (decide (f = Z.of_nat nb)) as [->|]; [by rewrite decide_True|by rewrite decide_False by lia]. }
  assert (Hlow : forall f, f < 12 -> fblock img' A f = fblock img A f).
  { intros f Hr. unfold fblock, NDIRECT. by rewrite (proj2 (Z.ltb_lt _ _)). }
  split; try done.
  - intros f Hlt'. destruct (decide (Z.of_nat f < 12)); [by apply Hlow|]. rewrite Hent, decide_False by lia. done.
  - rewrite Hent, decide_True by lia. done.
  - lia.
  - left. unfold indirect. by rewrite !(proj2 (Nat.ltb_lt _ _)) by lia.
  - intros f Hlt'. unfold img'. pose proof (Hlt _ (fblock_owned img A nb f Hlt')).
    rewrite blk_set, decide_False; [done| |done|done|lia].
    intros E. unfold owned, indirect in Hnd. rewrite (proj2 (Nat.ltb_lt _ _)) in Hnd by done.
    apply NoDup_app in Hnd as (_ & Hd & _). apply (Hd (fblock img A (Z.of_nat f))).
    + apply list_elem_of_In, in_map_iff. exists f. split; [done|]. apply in_seq. lia.
    + rewrite E. by apply list_elem_of_singleton.
  - unfold img'. rewrite blk_set, decide_False by (done || lia). done.
  - lia.
  - lia.
  - intros _ f Hr. unfold MAXFILE in Hr. change (NDIRECT + NINDIRECT) with 268 in Hr. rewrite Hent, decide_False by lia. apply Hind; lia.
Qed.

End grow.

Definition with_addrs (A : list Z) (d : dinode) : dinode :=
  mkDinode (din_type d) (din_major d) (din_minor d) (din_nlink d) (din_size d) A.

(** mkfs works on a file at addresses [A] that holds [c]. *)
Record at_file (s : mkst) (A c : list Z) (nb : nat) : Prop := {
  af_img : img_ok (mk_img s);
  af_sb : mk_sb s = main_sb false;
  af_free : nmeta <= mk_freeblock s <= FSSIZE;
  af_zero : forall b, mk_freeblock s <= b < FSSIZE -> blk (mk_img s) b = zeroes;
  af_file : file_ok (mk_img s) (mk_freeblock s) A c nb
}.

(** What may have changed: blocks of the file and free blocks. *)
Record step_to (s : mkst) (A : list Z) (nb : nat) (s' : mkst) (A' : list Z) (nb' : nat) : Prop := {
  st_inode : mk_freeinode s' = mk_freeinode s;
  st_free : mk_freeblock s' = mk_freeblock s + blocks_for nb' - blocks_for nb;
  st_frame : forall b, 0 <= b < mk_freeblock s -> b ∉ owned (mk_img s) A nb -> blk (mk_img s') b = blk (mk_img s) b;
  st_owned : forall b, b ∈ owned (mk_img s') A' nb' -> b ∈ owned (mk_img s) A nb \/ mk_freeblock s <= b
}.

Lemma step_to_refl s A nb : step_to s A nb s A nb.
Proof. split; [done|lia|done|auto]. Qed.

Lemma step_to_trans s A nb s1 A1 nb1 s2 A2 nb2 : mk_freeblock s <= mk_freeblock s1 ->
  step_to s A nb s1 A1 nb1 -> step_to s1 A1 nb1 s2 A2 nb2 -> step_to s A nb s2 A2 nb2.
Proof.
  intros Hle [I1 F1 R1 O1] [I2 F2 R2 O2]. split; [congruence|lia| |].
  - intros b Hb Hn. rewrite R2; [by apply R1|lia|]. intros [?|?]%O1; [done|lia].
  - intros b [Hb|Hb]%O2; [|right; lia]. by apply O1.
Qed.

Lemma next_block_ok s : 0 <= mk_freeblock s < 2 ^ 31 ->
  next_block s = Ok (mk_freeblock s) (set_mk_freeblock (mk_freeblock s + 1) s).
Proof. intros H. unfold next_block, bind, get, modify, ret. by rewrite u32_small by lia. Qed.

Lemma file_addr_small s A c nb i : at_file s A c nb -> 0 <= at_Z A i < 2 ^ 32.
Proof.
  intros [_ _ _ _ [[_ Ha] _ _ _ _ _ _ _ _]]. unfold at_Z. rewrite nth_lookup.
  destruct (A !! Z.to_nat i) eqn:E; simpl; [|lia]. by apply (Forall_lookup_1 _ _ _ _ Ha E).
Qed.

Lemma fblock_small s A c nb f : at_file s A c nb -> (f < nb)%nat -> nmeta <= fblock (mk_img s) A (Z.of_nat f) < FSSIZE.
Proof.
  intros Ha Hf. pose proof (owned_lt _ _ _ _ _ (af_file _ _ _ _ Ha) _ (fblock_owned (mk_img s) A nb f Hf)).
  pose proof (af_free _ _ _ _ Ha). lia.
Qed.

(** [file_block] of a block that the file has. *)
Lemma file_block_old s d c nb fbn : at_file s (din_addrs d) c nb -> (fbn < nb)%nat ->
  file_block false (Z.of_nat fbn) d s = Ok (fblock (mk_img s) (din_addrs d) (Z.of_nat fbn), d) s.
Proof.
  intros Ha Hf. pose proof (fblock_small s _ c nb fbn Ha Hf) as Hb. change nmeta with 46 in Hb. unfold FSSIZE in Hb.
  unfold file_block. unfold fblock in *. destruct (Z.ltb_spec (Z.of_nat fbn) NDIRECT) as [Hlt|Hge].
  - rewrite xint_le, u32_small by lia. rewrite (proj2 (Z.eqb_neq _ _)) by lia.
    unfold bind, ret. by rewrite xint_le, u32_small by lia.
  - assert (Hn : (12 < nb)%nat) by (unfold NDIRECT in Hge; lia).
    pose proof (owned_lt _ _ _ _ _ (af_file _ _ _ _ Ha) _ (ind_owned (mk_img s) _ nb Hn)) as Hy.
    pose proof (af_free _ _ _ _ Ha). change nmeta with 46 in *. unfold FSSIZE in *.
    rewrite xint_le, u32_small by lia. rewrite (proj2 (Z.eqb_neq _ _)) by lia.
    unfold bind, ret. rewrite xint_le, u32_small by lia. rewrite rsect_ok by (apply Ha || unfold FSSIZE; lia).
    unfold ind_get, host_val. unfold le_get in Hb. rewrite (proj2 (Z.eqb_neq _ _)) by lia.
    by rewrite xint_le, u32_small by lia.
Qed.

Lemma extends_step s s' A A' c nb x :
  at_file s A c nb -> extends (mk_img s) (mk_img s') A A' nb (mk_freeblock s) (mk_freeblock s') x ->
  Z.of_nat (S nb) <= MAXFILE -> img_ok (mk_img s') -> mk_sb s' = mk_sb s -> mk_freeinode s' = mk_freeinode s ->
  mk_freeblock s' = mk_freeblock s + blocks_for (S nb) - blocks_for nb -> mk_freeblock s' <= FSSIZE ->
  (forall b, 0 <= b -> b ∉ owned (mk_img s) A nb -> ~ (mk_freeblock s <= b < mk_freeblock s') ->
     blk (mk_img s') b = blk (mk_img s) b) ->
  at_file s' A' c (S nb) /\ step_to s A nb s' A' (S nb).
Proof.
  intros [Hi Hs Hf Hz Hfile] He Hmax Hi' Hs' Hn' Hf' Hle Hfr.
  pose proof (ex_range _ _ _ _ _ _ _ _ He) as Hx. split.
  - split; [done|congruence|lia| |eapply extends_file; [done| |done|done]; lia].
    intros b Hb. rewrite Hfr; [apply Hz; lia| | |lia].
    + change nmeta with 46 in *. lia.
    + intros Hin. pose proof (owned_lt _ _ _ _ _ Hfile _ Hin). lia.
  - split; [done|done| |].
    + intros b Hb Hin. apply Hfr; [lia|done|lia].
    + intros b [Hb|Hb]%(extends_mem _ _ _ _ _ _ _ _ b He); [by left|right; lia].
Qed.

Lemma blocks_for_S nb : blocks_for (S nb) - blocks_for nb = if decide (nb = 12%nat) then 2 else 1.
Proof.
  unfold blocks_for. case_decide as E; [by subst|].
  destruct (Nat.ltb_spec 12 (S nb)), (Nat.ltb_spec 12 nb); lia.
Qed.

(** [file_block] of the block after the last. *)
Lemma file_block_direct s d c nb :
  at_file s (din_addrs d) c nb -> (nb < 12)%nat -> mk_freeblock s + 1 <= FSSIZE ->
  exists A' s', file_block false (Z.of_nat nb) d s = Ok (fblock (mk_img s') A' (Z.of_nat nb), with_addrs A' d) s' /\
    at_file s' A' c (S nb) /\ step_to s (din_addrs d) nb s' A' (S nb).
Proof.
  intros Ha Hn Hmax. pose proof (af_free _ _ _ _ Ha) as Hfb. change nmeta with 46 in Hfb. unfold FSSIZE in *.
  exists (<[nb := mk_freeblock s]> (din_addrs d)), (set_mk_freeblock (mk_freeblock s + 1) s).
  assert (He : extends (mk_img s) (mk_img s) (din_addrs d) (<[nb := mk_freeblock s]> (din_addrs d)) nb
                 (mk_freeblock s) (mk_freeblock s + 1) (mk_freeblock s)).
  { apply (extends_direct _ _ _ c); [apply Ha|apply Ha|done|done|]. apply Ha. unfold FSSIZE. lia. }
  pose proof (ex_new _ _ _ _ _ _ _ _ He) as Hx. split.
  - unfold file_block. rewrite (proj2 (Z.ltb_lt _ _)) by (unfold NDIRECT; lia).
    rewrite (fo_free _ _ _ _ _ (af_file _ _ _ _ Ha)) by lia. rewrite xint_le. change (u32 0 =? 0) with true. cbv iota.
    rewrite bind_assoc, (bind_Ok _ _ _ _ _ (next_block_ok s ltac:(lia))), bind_ret. unfold ret. do 2 f_equal.
    + simpl. rewrite Nat2Z.id, !xint_le, (u32_small (mk_freeblock s)) by lia.
      unfold fblock in Hx. rewrite (proj2 (Z.ltb_lt _ _)) in Hx by (unfold NDIRECT; lia).
      unfold fblock. rewrite (proj2 (Z.ltb_lt _ _)) by (unfold NDIRECT; lia). rewrite Hx. apply u32_small. lia.
    + unfold set_din_addr, with_addrs. by rewrite Nat2Z.id, xint_le, u32_small by lia.
  - pose proof (blocks_for_S nb) as Hbf. rewrite decide_False in Hbf by lia.
    apply (extends_step s _ _ _ c nb (mk_freeblock s)); simpl; try done; try lia;
      [unfold MAXFILE; change NINDIRECT with 256; unfold NDIRECT; lia|].
    apply Ha.
Qed.

Lemma file_block_first_indirect s d c :
  at_file s (din_addrs d) c 12 -> mk_freeblock s + 2 <= FSSIZE ->
  exists A' s', file_block false 12 d s = Ok (fblock (mk_img s') A' 12, with_addrs A' d) s' /\
    at_file s' A' c 13 /\ step_to s (din_addrs d) 12 s' A' 13.
Proof.
  intros Ha Hmax. pose proof (af_free _ _ _ _ Ha) as Hfb. change nmeta with 46 in Hfb.
  set (fb := mk_freeblock s) in *.
  assert (Hz : blk (mk_img s) fb = zeroes) by (apply (af_zero _ _ _ _ Ha); lia).
  assert (Hz1 : blk (mk_img s) (fb + 1) = zeroes) by (apply (af_zero _ _ _ _ Ha); lia).
  set (A' := <[12%nat := fb]> (din_addrs d)).
  set (img' := set_blk fb (le_put 4 0 (fb + 1) (blk (mk_img s) fb)) (mk_img s)).
  exists A', (set_mk_img img' (set_mk_freeblock (fb + 2) s)).
  assert (He : extends (mk_img s) img' (din_addrs d) A' 12 fb (fb + 2) (fb + 1)).
  { apply (extends_first_indirect _ _ _ c); try done; apply Ha. }
  assert (H12 : at_Z A' NDIRECT = fb).
  { unfold A'. rewrite at_insert; [done| |done]. rewrite (proj1 (fo_addrs _ _ _ _ _ (af_file _ _ _ _ Ha))). lia. }
  pose proof (ex_new _ _ _ _ _ _ _ _ He) as Hx. unfold FSSIZE in *. split.
  - unfold file_block. change (12 <? NDIRECT) with false. cbv iota.
    rewrite (fo_noind _ _ _ _ _ (af_file _ _ _ _ Ha)) by lia. rewrite xint_le. change (u32 0 =? 0) with true. cbv iota.
    rewrite bind_assoc, (bind_Ok _ _ _ _ _ (next_block_ok s ltac:(lia))), bind_ret.
    fold fb. rewrite (xint_le fb), (u32_small fb) by lia. change (set_din_addr NDIRECT fb d) with (with_addrs A' d).
    cbn [din_addrs with_addrs]. rewrite H12, xint_le, u32_small by lia.
    rewrite (bind_Ok _ _ _ _ _ (rsect_ok fb (set_mk_freeblock (fb + 1) s) (af_img _ _ _ _ Ha) ltac:(unfold FSSIZE; lia))).
    cbn [mk_img set_mk_freeblock]. change (12 - NDIRECT) with 0. rewrite Hz.
    change (ind_get false 0 zeroes) with (le_get 4 0 zeroes). rewrite le_get_zeroes. cbn [Z.eqb].
    rewrite bind_assoc, (bind_Ok _ _ _ _ _ (next_block_ok (set_mk_freeblock (fb + 1) s) ltac:(simpl; lia))). cbv zeta.
    cbn [mk_freeblock set_mk_freeblock]. rewrite (xint_le (fb + 1)), (u32_small (fb + 1)) by lia.
    unfold bind. rewrite wsect_ok by (apply Ha || unfold FSSIZE; lia). unfold ret.
    replace (fb + 1 + 1) with (fb + 2) by lia. rewrite <-Hz.
    change (ind_put false 0 (fb + 1) (blk (mk_img s) fb)) with (le_put 4 (4 * 0) (fb + 1) (blk (mk_img s) fb)).
    change (ind_get false 0 ?l) with (le_get 4 (4 * 0) l).
    rewrite le_entry, decide_True by (rewrite ?Hz, ?zeroes_length; done || lia).
    rewrite xint_le, u32_small by lia. do 2 f_equal. symmetry. exact Hx.
  - apply (extends_step s _ _ _ c 12 (fb + 1)); try done; simpl; try lia.
    + apply img_ok_set; [apply Ha|]. rewrite Hz, length_le_put; rewrite ?zeroes_length; simpl; lia.
    + change (blocks_for 13) with 14. change (blocks_for 12) with 12. fold fb. lia.
    + intros b Hb Hin Hr. unfold img'. rewrite blk_set by (apply Ha || unfold FSSIZE; lia). rewrite decide_False; [done|].
      intros ->. apply Hr. fold fb. lia.
Qed.

Lemma file_block_indirect s d c nb :
  at_file s (din_addrs d) c nb -> (12 < nb)%nat -> Z.of_nat nb < MAXFILE -> mk_freeblock s + 1 <= FSSIZE ->
  exists A' s', file_block false (Z.of_nat nb) d s = Ok (fblock (mk_img s') A' (Z.of_nat nb), with_addrs A' d) s' /\
    at_file s' A' c (S nb) /\ step_to s (din_addrs d) nb s' A' (S nb).
Proof.
  intros Ha Hn Hm Hmax. pose proof (af_free _ _ _ _ Ha) as Hfb. change nmeta with 46 in Hfb.
  set (fb := mk_freeblock s) in *. set (A := din_addrs d) in *. set (y := at_Z A NDIRECT).
  assert (Hz : blk (mk_img s) fb = zeroes) by (apply (af_zero _ _ _ _ Ha); lia).
  pose proof (owned_lt _ _ _ _ _ (af_file _ _ _ _ Ha) _ (ind_owned (mk_img s) _ nb Hn)) as Hy.
  change nmeta with 46 in Hy. fold y fb in Hy.
  assert (Hyr : 0 <= y < FSSIZE) by lia. pose proof (blk_length _ y (af_img _ _ _ _ Ha) Hyr) as Hyl.
  set (j := Z.of_nat nb - NDIRECT).
  assert (Hj : 0 <= j < 256).
  { unfold j, MAXFILE in *. change NINDIRECT with 256 in Hm. unfold NDIRECT in *. lia. }
  set (img' := set_blk y (le_put 4 (4 * j) fb (blk (mk_img s) y)) (mk_img s)).
  exists A, (set_mk_img img' (set_mk_freeblock (fb + 1) s)).
  assert (He : extends (mk_img s) img' A A nb fb (fb + 1) fb).
  { apply (extends_indirect _ _ _ c); try done; apply Ha. }
  pose proof (ex_new _ _ _ _ _ _ _ _ He) as Hx.
  assert (H0 : le_get 4 (4 * j) (blk (mk_img s) y) = 0).
  { pose proof (fo_ind _ _ _ _ _ (af_file _ _ _ _ Ha) Hn (Z.of_nat nb) ltac:(lia)) as E. unfold fblock in E.
    rewrite (proj2 (Z.ltb_ge _ _)) in E by (unfold NDIRECT; lia). exact E. }
  unfold FSSIZE in *. split.
  - unfold file_block. rewrite (proj2 (Z.ltb_ge _ _)) by (unfold NDIRECT; lia). fold A y j.
    rewrite xint_le, u32_small by lia. rewrite (proj2 (Z.eqb_neq y 0)) by lia. rewrite bind_ret. fold A y.
    rewrite xint_le, u32_small by lia.
    rewrite (bind_Ok _ _ _ _ _ (rsect_ok y s (af_img _ _ _ _ Ha) Hyr)).
    change (ind_get false j (blk (mk_img s) y)) with (le_get 4 (4 * j) (blk (mk_img s) y)). rewrite H0. cbn [Z.eqb].
    rewrite bind_assoc, (bind_Ok _ _ _ _ _ (next_block_ok s ltac:(lia))). cbv zeta.
    fold fb. rewrite (xint_le fb), (u32_small fb) by lia.
    unfold bind. rewrite wsect_ok by (apply Ha || unfold FSSIZE; lia). unfold ret.
    change (ind_put false j fb (blk (mk_img s) y)) with (le_put 4 (4 * j) fb (blk (mk_img s) y)).
    change (ind_get false j ?l) with (le_get 4 (4 * j) l). rewrite le_entry, decide_True by (done || lia).
    rewrite xint_le, u32_small by lia. do 2 f_equal; [symmetry; exact Hx|]. by destruct d.
  - pose proof (blocks_for_S nb) as Hbf. rewrite decide_False in Hbf by lia.
    apply (extends_step s _ _ _ c nb fb); try done; simpl; fold fb; try lia.
    + apply img_ok_set; [apply Ha|]. rewrite length_le_put; lia.
    + intros b Hb Hin Hr. unfold img'. rewrite blk_set by (apply Ha || unfold FSSIZE; lia). rewrite decide_False; [done|].
      intros ->. apply Hin. by apply ind_owned.
Qed.

Lemma file_block_ok s d c nb fbn :
  at_file s (din_addrs d) c nb -> fbn = nb \/ S fbn = nb -> Z.of_nat fbn < MAXFILE ->
  mk_freeblock s + blocks_for (S fbn) - blocks_for nb <= FSSIZE ->
  exists A' s', file_block false (Z.of_nat fbn) d s = Ok (fblock (mk_img s') A' (Z.of_nat fbn), with_addrs A' d) s' /\
    at_file s' A' c (S fbn) /\ step_to s (din_addrs d) nb s' A' (S fbn).
Proof.
  intros Ha [->|<-] Hm Hfb.
  - pose proof (blocks_for_S nb) as Hbf. destruct (decide (nb = 12%nat)) as [->|].
    + apply file_block_first_indirect; [done|lia].
    + destruct (decide (nb < 12)%nat); [apply file_block_direct|apply file_block_indirect]; (done || lia).
  - exists (din_addrs d), s. split; [|split; [done|apply step_to_refl]].
    rewrite (file_block_old s d c (S fbn)) by (done || lia). do 2 f_equal. by destruct d.
Qed.

(** ** Data *)

Lemma owned_lookup img A nb f : (f < nb)%nat -> owned img A nb !! f = Some (fblock img A (Z.of_nat f)).
Proof.
  intros Hf. unfold owned. rewrite lookup_app_l by (rewrite length_map, length_seq; lia).
  by rewrite list_lookup_fmap, lookup_seq_lt by done.
Qed.

Lemma owned_lookup_ind img A nb : (12 < nb)%nat -> owned img A nb !! nb = Some (at_Z A NDIRECT).
Proof.
  intros Hf. unfold owned, indirect. rewrite (proj2 (Nat.ltb_lt _ _)) by done.
  rewrite lookup_app_r by (rewrite length_map, length_seq; lia). by rewrite length_map, length_seq, Nat.sub_diag.
Qed.

Lemma at_splice off bs l j : (Z.to_nat off + length bs <= length l)%nat -> 0 <= off -> 0 <= j ->
  at_Z (splice off bs l) j = if decide (off <= j < off + Z.of_nat (length bs)) then at_Z bs (j - off) else at_Z l j.
Proof.
  intros Hl Ho Hj. unfold at_Z, splice. case_decide as E.
  - rewrite app_nth2; rewrite length_take; [|lia]. rewrite app_nth1 by lia. f_equal. lia.
  - destruct (decide (j < off)).
    + rewrite app_nth1 by (rewrite length_take; lia). rewrite !nth_lookup. by rewrite lookup_take_lt by lia.
    + rewrite app_nth2; rewrite length_take; [|lia]. rewrite app_nth2 by lia.
      rewrite !nth_lookup, lookup_drop. do 2 f_equal. lia.
Qed.

Section data.
Context (s : mkst) (A c : list Z) (fbn : nat) (bs : list Z).
Context (Ha : at_file s A c (S fbn)).
Context (Hlo : (fbn * 1024 <= length c)%nat) (Hhi : (length c + length bs <= S fbn * 1024)%nat).

Let x := fblock (mk_img s) A (Z.of_nat fbn).
Let img' := set_blk x (splice (Z.of_nat (length c) - Z.of_nat fbn * BSIZE) bs (blk (mk_img s) x)) (mk_img s).

Lemma data_block b : 0 <= b -> b <> x -> blk img' b = blk (mk_img s) b.
Proof.
  intros Hb Hne. pose proof (fblock_small s A c (S fbn) fbn Ha ltac:(lia)) as Hx. change nmeta with 46 in Hx.
  unfold img'. rewrite blk_set by (apply Ha || (unfold x; lia)). by rewrite decide_False.
Qed.

Lemma data_fblock f : 0 <= f -> Z.of_nat (S fbn) > 12 \/ f < 12 -> fblock img' A f = fblock (mk_img s) A f.
Proof.
  intros Hf0 Hf. unfold fblock. destruct (Z.ltb_spec f NDIRECT); [done|]. unfold NDIRECT in *.
  rewrite data_block; [done| |].
  - pose proof (file_addr_small s A c (S fbn) 12 Ha). lia.
  - intros E. pose proof (fo_nodup _ _ _ _ _ (af_file _ _ _ _ Ha)) as Hnd.
    pose proof (owned_lookup (mk_img s) A (S fbn) fbn ltac:(lia)) as L1.
    pose proof (owned_lookup_ind (mk_img s) A (S fbn) ltac:(lia)) as L2. unfold NDIRECT in L2.
    rewrite E in L2. fold x in L1. pose proof (NoDup_lookup _ _ _ _ Hnd L1 L2). lia.
Qed.

Lemma data_owned : owned img' A (S fbn) = owned (mk_img s) A (S fbn).
Proof. unfold owned at 1 2. f_equal. apply map_ext_in. intros f Hf%in_seq. apply data_fblock; lia. Qed.

Lemma data_bytes i : 0 <= i < Z.of_nat (S fbn) * BSIZE -> file_byte img' A i = nth (Z.to_nat i) (c ++ bs) 0.
Proof.
  intros Hi. destruct (file_block_index (S fbn) i Hi) as (f & Hf & Ef).
  pose proof (fblock_small s A c (S fbn) fbn Ha ltac:(lia)) as Hx. change nmeta with 46 in Hx. fold x in Hx.
  pose proof (Z.div_mod i BSIZE ltac:(done)) as Hdm. pose proof (Z.mod_pos_bound i BSIZE ltac:(done)) as Hmb.
  rewrite Ef in Hdm. pose proof (fo_bytes _ _ _ _ _ (af_file _ _ _ _ Ha) i Hi) as Hold.
  unfold file_byte in *. rewrite Ef in *. rewrite data_fblock by lia.
  destruct (decide (f = fbn)) as [->|Hne].
  - fold x in Hold |- *. unfold img'. rewrite blk_set by (apply Ha || lia). rewrite decide_True by done.
    pose proof (blk_length (mk_img s) x (af_img _ _ _ _ Ha) ltac:(lia)) as Hbl. unfold BSIZE in *.
    rewrite at_splice by lia. case_decide as E.
    + unfold at_Z. rewrite app_nth2 by lia. f_equal. lia.
    + rewrite Hold. destruct (decide (Z.to_nat i < length c)%nat).
      * by rewrite app_nth1.
      * rewrite nth_overflow by lia. rewrite nth_overflow; [done|]. rewrite length_app. lia.
  - rewrite data_block.
    + rewrite Hold, app_nth1; [done|]. unfold BSIZE in *. lia.
    + pose proof (fblock_small s A c (S fbn) f Ha Hf). change nmeta with 46 in *. lia.
    + intros E. pose proof (fo_nodup _ _ _ _ _ (af_file _ _ _ _ Ha)) as Hnd.
      pose proof (owned_lookup (mk_img s) A (S fbn) fbn ltac:(lia)) as L1.
      pose proof (owned_lookup (mk_img s) A (S fbn) f Hf) as L2. rewrite E in L2. fold x in L1.
      pose proof (NoDup_lookup _ _ _ _ Hnd L1 L2). lia.
Qed.

Lemma data_written :
  at_file (set_mk_img img' s) A (c ++ bs) (S fbn) /\ step_to s A (S fbn) (set_mk_img img' s) A (S fbn).
Proof.
  pose proof (fblock_small s A c (S fbn) fbn Ha ltac:(lia)) as Hx. change nmeta with 46 in Hx. fold x in Hx.
  pose proof data_owned as Eo. pose proof data_bytes as Hby. pose proof data_block as Hbl. pose proof data_fblock as Hfb.
  pose proof (fblock_owned (mk_img s) A (S fbn) fbn ltac:(lia)) as Hxo. fold x in Hxo.
  destruct Ha as [Hi Hs Hf Hz [Had Hn Hl Hfr Hni Hind Hown Hnd _]]. split.
  - split; simpl; [|done|done| |].
    + apply img_ok_set; [done|]. pose proof (blk_length (mk_img s) x Hi ltac:(lia)). rewrite length_splice; unfold BSIZE; lia.
    + intros b Hb. rewrite Hbl; [by apply Hz|change nmeta with 46 in *; lia|].
      rewrite Forall_forall in Hown. specialize (Hown _ Hxo). simpl in Hown. lia.
    + split; try done; rewrite ?Eo; try done.
      * rewrite length_app. lia.
      * intros H12 f Hr. rewrite Hfb by lia. by apply Hind.
  - split; simpl; [done|lia| |].
    + intros b Hb Hin. apply Hbl; [lia|]. by intros ->.
    + intros b. rewrite Eo. auto.
Qed.

End data.

(** ** iappend *)

(** The number of blocks of [n] bytes. *)
Definition nblk (n : nat) : nat := ((n + 1023) / 1024)%nat.

Lemma nblk_spec n k : nblk n = k <-> (n <= k * 1024 /\ k * 1024 < n + 1024)%nat.
Proof.
  unfold nblk. pose proof (Nat.div_mod_eq (n + 1023) 1024). pose proof (Nat.mod_upper_bound (n + 1023) 1024). lia.
Qed.

Lemma nblk_mono n m : (n <= m)%nat -> (nblk n <= nblk m)%nat.
Proof. intros H. unfold nblk. apply Nat.Div0.div_le_mono. lia. Qed.

Lemma blocks_for_mono n m : (n <= m)%nat -> blocks_for n <= blocks_for m.
Proof. intros H. unfold blocks_for. destruct (Nat.ltb_spec 12 n), (Nat.ltb_spec 12 m); lia. Qed.

Lemma MAXFILE_eq : MAXFILE = 268.
Proof. done. Qed.

Lemma iappend_loop_ok fuel : forall s p d c,
  at_file s (din_addrs d) c (nblk (length c)) -> (length p < fuel)%nat ->
  Z.of_nat (length c + length p) <= MAXFILE * BSIZE ->
  mk_freeblock s + blocks_for (nblk (length c + length p)) - blocks_for (nblk (length c)) <= FSSIZE ->
  exists A' s', iappend_loop false fuel p (Z.of_nat (length c)) d s =
      Ok (Z.of_nat (length c + length p), with_addrs A' d) s' /\
    at_file s' A' (c ++ p) (nblk (length (c ++ p))) /\
    step_to s (din_addrs d) (nblk (length c)) s' A' (nblk (length (c ++ p))).
Proof.
  induction fuel as [|fuel IH]; intros s p d c Ha Hfuel Hmax Hroom; [lia|]. cbn [iappend_loop]. cbv zeta.
  destruct (Z.ltb_spec 0 (Z.of_nat (length p))) as [Hp|Hp]; cbn [negb].
  2:{ destruct p; [|simpl in Hp; lia]. exists (din_addrs d), s. rewrite app_nil_r, Nat.add_0_r.
      split; [unfold ret; do 2 f_equal; by destruct d|]. split; [done|apply step_to_refl]. }
  set (fbn := (length c / 1024)%nat).
  pose proof (Nat.div_mod_eq (length c) 1024) as Hdm. pose proof (Nat.mod_upper_bound (length c) 1024 ltac:(lia)) as Hmb. fold fbn in Hdm.
  assert (Ef : Z.of_nat (length c) / BSIZE = Z.of_nat fbn) by (unfold fbn, BSIZE; by rewrite Nat2Z.inj_div).
  set (n1 := Nat.min (length p) (S fbn * 1024 - length c)).
  rewrite MAXFILE_eq in Hmax. unfold BSIZE in Hmax.
  assert (Hnb : fbn = nblk (length c) \/ S fbn = nblk (length c)).
  { destruct (decide (length c `mod` 1024 = 0)%nat); [left|right]; symmetry; apply nblk_spec; lia. }
  assert (Hnb1 : nblk (length c + n1) = S fbn) by (apply nblk_spec; unfold n1; lia).
  pose proof (blocks_for_mono (S fbn) (nblk (length c + length p))
    ltac:(rewrite <-Hnb1; apply nblk_mono; unfold n1; lia)) as Hbm.
  rewrite Ef. assert (Hf268 : Z.of_nat fbn < MAXFILE) by (rewrite MAXFILE_eq; lia).
  rewrite (proj2 (Z.ltb_lt _ _)) by done. unfold assert_. rewrite bind_ret.
  destruct (file_block_ok s d c _ fbn Ha Hnb Hf268 ltac:(lia)) as (A1 & s1 & E1 & Ha1 & Hs1).
  rewrite (bind_Ok _ _ _ _ _ E1). cbv beta iota.
  pose proof (fblock_small s1 A1 c (S fbn) fbn Ha1 ltac:(lia)) as Hx. change nmeta with 46 in Hx.
  rewrite (bind_Ok _ _ _ _ _ (rsect_ok (fblock (mk_img s1) A1 (Z.of_nat fbn)) s1 (af_img _ _ _ _ Ha1) ltac:(lia))).
  rewrite (bind_Ok _ _ _ _ _ (wsect_ok (fblock (mk_img s1) A1 (Z.of_nat fbn)) _ s1 (af_img _ _ _ _ Ha1) ltac:(lia))).
  assert (En1 : Z.min (Z.of_nat (length p)) (u32 ((Z.of_nat fbn + 1) * BSIZE - Z.of_nat (length c))) = Z.of_nat n1).
  { unfold BSIZE. rewrite u32_small by lia. unfold n1. lia. }
  rewrite En1, Nat2Z.id.
  assert (Htk : length (take n1 p) = n1) by (rewrite length_take; unfold n1; lia).
  destruct (data_written s1 A1 c fbn (take n1 p) Ha1 ltac:(lia) ltac:(rewrite Htk; unfold n1; lia)) as [Ha2 Hs2].
  set (s2 := set_mk_img _ s1) in *. unfold BSIZE in *.
  rewrite u32_small by (unfold n1; lia).
  assert (El : length (c ++ take n1 p) = (length c + n1)%nat) by (by rewrite length_app, Htk).
  assert (Hrest : (length (c ++ take n1 p) + length (drop n1 p) = length c + length p)%nat).
  { rewrite El, length_drop. unfold n1. lia. }
  destruct (IH s2 (drop n1 p) (with_addrs A1 d) (c ++ take n1 p)) as (A' & s' & E' & Ha' & Hs').
  - simpl. by rewrite El, Hnb1.
  - rewrite length_drop. unfold n1. lia.
  - rewrite Hrest. rewrite MAXFILE_eq. lia.
  - rewrite Hrest, El, Hnb1. pose proof (st_free _ _ _ _ _ _ Hs1). pose proof (st_free _ _ _ _ _ _ Hs2). lia.
  - rewrite <-(assoc_L (++)), take_drop in *. exists A', s'. rewrite Hrest in E'.
    split; [|split; [done|]].
    + rewrite El, Nat2Z.inj_add in E'. exact E'.
    + pose proof (st_free _ _ _ _ _ _ Hs1). pose proof (st_free _ _ _ _ _ _ Hs2).
      assert (blocks_for (nblk (length c)) <= blocks_for (S fbn)) by (apply blocks_for_mono; lia).
      eapply step_to_trans; [|exact Hs1|]; [lia|]. eapply step_to_trans; [|exact Hs2|]; [lia|].
      simpl din_addrs in Hs'. by rewrite El, Hnb1 in Hs'.
Qed.

(** * The file system being built *)

Definition super_block : list Z := splice 0 (sb_bytes false (main_sb false)) zeroes.

Definition node_blocks (n : dinode * list Z) : Z := blocks_for (nblk (length n.2)).
Definition total_blocks (ns : list (dinode * list Z)) : Z := foldr (fun n z => node_blocks n + z) 0 ns.

Definition owned_by (img : list (list Z)) (n : dinode * list Z) : list Z :=
  owned img (din_addrs n.1) (nblk (length n.2)).

(** Inode [n] of the image is in its place and has its contents. *)
Record node_ok (s : mkst) (inum : Z) (n : dinode * list Z) : Prop := {
  no_at : node_at (mk_img s) inum = n.1;
  no_ok : dinode_ok n.1;
  no_size : din_size n.1 = Z.of_nat (length n.2);
  no_file : file_ok (mk_img s) (mk_freeblock s) (din_addrs n.1) n.2 (nblk (length n.2))
}.

(** [ns] are the inodes from 1 on, with their contents. *)
Record fs_inv (s : mkst) (ns : list (dinode * list Z)) : Prop := {
  fi_img : img_ok (mk_img s);
  fi_sb : mk_sb s = main_sb false;
  fi_free : nmeta <= mk_freeblock s <= FSSIZE;
  fi_zero : forall b, mk_freeblock s <= b < FSSIZE -> blk (mk_img s) b = zeroes;
  fi_meta : forall b, 0 <= b < 32 -> blk (mk_img s) b = if decide (b = 1) then super_block else zeroes;
  fi_inode : mk_freeinode s = Z.of_nat (S (length ns));
  fi_count : Z.of_nat (S (length ns)) <= NODES;
  fi_node : forall i n, ns !! i = Some n -> node_ok s (Z.of_nat (S i)) n;
  fi_apart : forall i j n n' b, i <> j -> ns !! i = Some n -> ns !! j = Some n' ->
    b ∈ owned_by (mk_img s) n -> ~ b ∈ owned_by (mk_img s) n';
  fi_total : mk_freeblock s = nmeta + total_blocks ns
}.

Lemma total_blocks_insert i n n' ns : ns !! i = Some n ->
  total_blocks (<[i := n']> ns) = total_blocks ns + node_blocks n' - node_blocks n.
Proof.
  revert i. induction ns as [|x ns IH]; intros [|i] E; simplify_eq/=; [lia|]. rewrite (IH _ E). lia.
Qed.

Lemma total_blocks_app ns ns' : total_blocks (ns ++ ns') = total_blocks ns + total_blocks ns'.
Proof. induction ns as [|x ns IH]; simpl; lia. Qed.

Lemma inum_range s ns i n : fs_inv s ns -> ns !! i = Some n -> 0 <= Z.of_nat (S i) < NODES.
Proof. intros Hs E. apply lookup_lt_Some in E. pose proof (fi_count _ _ Hs). lia. Qed.

Lemma node_owned_range s ns i n b : fs_inv s ns -> ns !! i = Some n ->
  b ∈ owned_by (mk_img s) n -> nmeta <= b < mk_freeblock s.
Proof. intros Hs E. eapply owned_lt, (fi_node _ _ Hs _ _ E). Qed.

Lemma fs_at_file s ns i n : fs_inv s ns -> ns !! i = Some n ->
  at_file s (din_addrs n.1) n.2 (nblk (length n.2)).
Proof. intros Hs E. split; try apply Hs. apply (fi_node _ _ Hs _ _ E). Qed.

(** Changes of other blocks leave an inode alone. *)
Lemma node_ok_frame s s' inum n :
  node_ok s inum n -> 0 <= inum < NODES -> mk_freeblock s <= mk_freeblock s' ->
  node_at (mk_img s') inum = node_at (mk_img s) inum ->
  (forall b, b ∈ owned_by (mk_img s) n -> blk (mk_img s') b = blk (mk_img s) b) ->
  node_ok s' inum n /\ owned_by (mk_img s') n = owned_by (mk_img s) n.
Proof.
  intros [Ha Hk Hz Hf] Hi Hle Hn Hb. split.
  - split; [congruence|done|done|]. by eapply file_ok_ext.
  - unfold owned_by. by apply owned_ext.
Qed.

(** The end of iappend, after its loop went from [s] to [s1]. *)
Section append.
Context (s : mkst) (ns : list (dinode * list Z)) (i : nat) (d : dinode) (c : list Z) (s1 : mkst) (A' p : list Z).
Context (Hs : fs_inv s ns) (E : ns !! i = Some (d, c)).
Context (Ha : at_file s1 A' (c ++ p) (nblk (length (c ++ p)))).
Context (Hst : step_to s (din_addrs d) (nblk (length c)) s1 A' (nblk (length (c ++ p)))).
Context (Hlen : Z.of_nat (length (c ++ p)) <= MAXFILE * BSIZE).

Let d' := set_din_size (Z.of_nat (length (c ++ p))) (with_addrs A' d).
Let s2 := set_mk_img (store_node (Z.of_nat (S i)) d' (mk_img s1)) s1.

Lemma append_dinode_ok : dinode_ok d'.
Proof.
  destruct (no_ok _ _ _ (fi_node _ _ Hs _ _ E)). split; try done.
  - rewrite MAXFILE_eq in Hlen. unfold BSIZE in Hlen. simpl din_size. lia.
  - apply (fo_addrs _ _ _ _ _ (af_file _ _ _ _ Ha)).
Qed.

Lemma append_grows : mk_freeblock s <= mk_freeblock s1.
Proof.
  rewrite (st_free _ _ _ _ _ _ Hst). pose proof (blocks_for_mono (nblk (length c)) (nblk (length (c ++ p)))
    ltac:(apply nblk_mono; rewrite length_app; lia)). lia.
Qed.

Lemma append_stored :
  img_ok (mk_img s2) /\ (forall b, 0 <= b -> ~ 32 <= b < 45 -> blk (mk_img s2) b = blk (mk_img s1) b) /\
  (forall j, 0 <= j < NODES -> node_at (mk_img s2) j = if decide (j = Z.of_nat (S i)) then d' else node_at (mk_img s1) j).
Proof.
  pose proof (inum_range _ _ _ _ Hs E) as Hin. pose proof (inode_block_range _ Hin) as Hib.
  destruct (store_node_ok (Z.of_nat (S i)) d' (mk_img s1) (af_img _ _ _ _ Ha) append_dinode_ok Hin) as (Hi' & Hb' & Hn').
  split; [done|]. split; [|done]. intros b Hb Hr. apply Hb'; [done|]. lia.
Qed.

Lemma append_meta b : 0 <= b < 46 -> blk (mk_img s1) b = blk (mk_img s) b.
Proof.
  intros Hb. pose proof (fi_free _ _ Hs) as Hfr. change nmeta with 46 in Hfr.
  apply (st_frame _ _ _ _ _ _ Hst); [lia|]. intros Hin.
  pose proof (node_owned_range s ns i (d, c) b Hs E Hin). change nmeta with 46 in *. lia.
Qed.

Lemma append_other j n : j <> i -> ns !! j = Some n ->
  node_ok s2 (Z.of_nat (S j)) n /\ owned_by (mk_img s2) n = owned_by (mk_img s) n.
Proof.
  intros Hne Ej. pose proof (inum_range _ _ _ _ Hs Ej) as Hj. pose proof (inode_block_range _ Hj) as Hjb.
  destruct append_stored as (_ & Hb & Hn). pose proof append_grows as Hg.
  apply node_ok_frame; [by apply (fi_node _ _ Hs)|done|done| |].
  - rewrite Hn by done. rewrite decide_False by lia. unfold node_at. rewrite append_meta by lia. done.
  - intros b Hin. pose proof (node_owned_range s ns j n b Hs Ej Hin) as Hr. change nmeta with 46 in Hr.
    rewrite Hb by lia. apply (st_frame _ _ _ _ _ _ Hst); [lia|]. by eapply (fi_apart _ _ Hs j i n (d, c)).
Qed.

Lemma append_self : node_ok s2 (Z.of_nat (S i)) (d', c ++ p) /\
  forall b, b ∈ owned_by (mk_img s2) (d', c ++ p) -> b ∈ owned_by (mk_img s) (d, c) \/ mk_freeblock s <= b.
Proof.
  destruct append_stored as (_ & Hb & Hn). pose proof (inum_range _ _ _ _ Hs E) as Hin.
  assert (Hsame : forall b, b ∈ owned (mk_img s1) A' (nblk (length (c ++ p))) -> blk (mk_img s2) b = blk (mk_img s1) b).
  { intros b Hbo. pose proof (owned_lt _ _ _ _ _ (af_file _ _ _ _ Ha) b Hbo). change nmeta with 46 in *. apply Hb; lia. }
  split.
  - split; [|apply append_dinode_ok|done|].
    + rewrite Hn by done. by rewrite decide_True.
    + eapply file_ok_ext; [exact Hsame| |apply Ha]. simpl. lia.
  - intros b Hbo. apply (st_owned _ _ _ _ _ _ Hst). rewrite <-(owned_ext _ _ _ _ Hsame). exact Hbo.
Qed.

Lemma fs_inv_append : fs_inv s2 (<[i := (d', c ++ p)]> ns).
Proof.
  destruct append_stored as (Hi & Hb & Hn). destruct append_self as [Hself Hown].
  pose proof (lookup_lt_Some _ _ _ E) as Hil.
  split; try (rewrite length_insert).
  - done.
  - apply Ha.
  - apply Ha.
  - intros b Hr. pose proof (af_free _ _ _ _ Ha). change nmeta with 46 in *. simpl in Hr. rewrite Hb by lia. by apply Ha.
  - intros b Hr. rewrite Hb, append_meta by lia. by apply Hs.
  - simpl. rewrite (st_inode _ _ _ _ _ _ Hst). apply Hs.
  - apply Hs.
  - intros j n Ej. destruct (decide (j = i)) as [->|Hne].
    + rewrite list_lookup_insert_eq in Ej by done. by simplify_eq.
    + rewrite list_lookup_insert_ne in Ej by done. by apply append_other.
  - intros j k n n' b Hjk Ej Ek Hj Hk.
    destruct (decide (j = i)) as [->|Hji], (decide (k = i)) as [->|Hki]; [done| | |];
      rewrite ?list_lookup_insert_eq in Ej by done; rewrite ?list_lookup_insert_eq in Ek by done;
      rewrite ?list_lookup_insert_ne in Ej by done; rewrite ?list_lookup_insert_ne in Ek by done; simplify_eq.
    + rewrite (proj2 (append_other k n' Hki Ek)) in Hk. pose proof (node_owned_range _ _ _ _ _ Hs Ek Hk).
      destruct (Hown b Hj) as [Hj'|]; [|lia]. by eapply (fi_apart _ _ Hs i k (d, c) n' b).
    + rewrite (proj2 (append_other j n Hji Ej)) in Hj. pose proof (node_owned_range _ _ _ _ _ Hs Ej Hj).
      destruct (Hown b Hk) as [Hk'|]; [|lia]. by eapply (fi_apart _ _ Hs j i n (d, c) b).
    + rewrite (proj2 (append_other j n Hji Ej)) in Hj. rewrite (proj2 (append_other k n' Hki Ek)) in Hk.
      by eapply (fi_apart _ _ Hs j k n n' b).
  - rewrite (total_blocks_insert _ _ _ _ E). unfold node_blocks. simpl.
    rewrite (st_free _ _ _ _ _ _ Hst), (fi_total _ _ Hs). lia.
Qed.

End append.

(** iappend adds its bytes to the end of the file and changes nothing else. *)
Lemma iappend_ok (s : mkst) (ns : list (dinode * list Z)) (i : nat) (d : dinode) (c p : list Z) :
  fs_inv s ns -> ns !! i = Some (d, c) -> Z.of_nat (length c + length p) <= MAXFILE * BSIZE ->
  mk_freeblock s + blocks_for (nblk (length c + length p)) - blocks_for (nblk (length c)) <= FSSIZE ->
  exists (d' : dinode) s', iappend false (Z.of_nat (S i)) p s = Ok tt s' /\ fs_inv s' (<[i := (d', c ++ p)]> ns) /\
    din_type d' = din_type d /\ din_nlink d' = din_nlink d.
Proof.
  intros Hs E Hmax Hroom. pose proof (inum_range _ _ _ _ Hs E) as Hin.
  pose proof (fi_node _ _ Hs _ _ E) as [Hat Hok Hsz Hf]. simpl in *.
  unfold iappend. rewrite (bind_Ok _ _ _ _ _ (rinode_ok _ s (fi_img _ _ Hs) (fi_sb _ _ Hs) Hin)).
  rewrite Hat, Hsz, xint_le, u32_small by (rewrite MAXFILE_eq in Hmax; unfold BSIZE in Hmax; lia).
  destruct (iappend_loop_ok (S (length p)) s p d c (fs_at_file s ns i (d, c) Hs E) ltac:(lia) Hmax Hroom)
    as (A' & s1 & E1 & Ha & Hst).
  rewrite (bind_Ok _ _ _ _ _ E1). cbn [fst snd].
  rewrite (winode_ok _ _ s1 (af_img _ _ _ _ Ha) (af_sb _ _ _ _ Ha) Hin).
  rewrite xint_le, u32_small by (rewrite MAXFILE_eq in Hmax; unfold BSIZE in Hmax; lia).
  rewrite <-length_app in *. eexists _, _. split; [done|].
  split; [by eapply fs_inv_append|done].
Qed.

(** ** ialloc *)

Definition new_din (type : Z) : dinode := mkDinode type 0 0 1 0 (repeat 0 13).

Lemma new_din_ok type : 0 <= type < 2 ^ 15 -> dinode_ok (new_din type).
Proof.
  intros H. split; simpl; try lia. split; [done|]. apply Forall_forall.
  intros a Ha%list_elem_of_In. apply (repeat_spec 13) in Ha. lia.
Qed.

Lemma empty_file img hi : file_ok img hi (repeat 0 13) [] 0.
Proof.
  assert (Hz : forall i, at_Z (repeat 0 13) i = 0) by (intros i; unfold at_Z; apply nth_repeat).
  split; try done.
  - apply (new_din_ok 0). lia.
  - lia.
  - constructor.
  - lia.
Qed.

Lemma ialloc_ok s ns type :
  fs_inv s ns -> Z.of_nat (S (S (length ns))) <= NODES -> 0 <= type < 2 ^ 15 ->
  exists s', mkfs_ialloc false type s = Ok (Z.of_nat (S (length ns))) s' /\ fs_inv s' (ns ++ [(new_din type, [])]).
Proof.
  intros Hs Hmax Ht. set (inum := Z.of_nat (S (length ns))).
  assert (Hin : 0 <= inum < NODES) by lia. pose proof (inode_block_range _ Hin) as Hib.
  change NODES with 208 in *.
  set (s1 := set_mk_freeinode (inum + 1) s).
  exists (set_mk_img (store_node inum (new_din type) (mk_img s)) s1). split.
  - unfold mkfs_ialloc, bind at 1, get. rewrite (fi_inode _ _ Hs). fold inum.
    unfold modify, bind at 1. rewrite u32_small by lia. fold s1.
    rewrite !xshort_le, xint_le. change (s16 (1 mod 2 ^ 16)) with 1. change (u32 0) with 0.
    rewrite s16_mod, s16_small by lia. unfold bind.
    rewrite (winode_ok inum _ s1 (fi_img _ _ Hs) (fi_sb _ _ Hs) Hin). done.
  - destruct (store_node_ok inum (new_din type) (mk_img s) (fi_img _ _ Hs) (new_din_ok type Ht) Hin) as (Hi & Hb & Hn).
    assert (Hother : forall j n, ns !! j = Some n ->
      node_ok (set_mk_img (store_node inum (new_din type) (mk_img s)) s1) (Z.of_nat (S j)) n /\
      owned_by (store_node inum (new_din type) (mk_img s)) n = owned_by (mk_img s) n).
    { intros j n Ej. pose proof (lookup_lt_Some _ _ _ Ej).
      apply (node_ok_frame s (set_mk_img (store_node inum (new_din type) (mk_img s)) s1)); [by apply (fi_node _ _ Hs)|by eapply inum_range|simpl; lia| |].
      - simpl. rewrite Hn by (by eapply inum_range). rewrite decide_False by lia. done.
      - intros b Hbo. pose proof (node_owned_range _ _ _ _ _ Hs Ej Hbo). change nmeta with 46 in *. apply Hb; lia. }
    pose proof (fi_free _ _ Hs) as Hfr. change nmeta with 46 in Hfr.
    assert (Hnew : forall j n, (ns ++ [(new_din type, [])]) !! j = Some n ->
      ns !! j = Some n \/ (j = length ns /\ n = (new_din type, []))).
    { intros j n [E|[Hge E]]%lookup_app_Some; [by left|]. right. apply list_lookup_singleton_Some in E as [? <-].
      split; [lia|done]. }
    split; simpl; try apply Hs; try done.
    + intros b Hr. rewrite Hb by lia. by apply Hs.
    + intros b Hr. rewrite Hb by lia. by apply Hs.
    + rewrite length_app. simpl. lia.
    + rewrite length_app. change NODES with 208. simpl. lia.
    + intros j n [E|[-> ->]]%Hnew; [by apply Hother|].
      split; [|by apply new_din_ok|done|apply empty_file]. simpl. rewrite Hn by done. by rewrite decide_True.
    + intros j k n n' b Hjk [Ej|[-> ->]]%Hnew [Ek|[-> ->]]%Hnew Hj Hk; try done.
      * rewrite (proj2 (Hother _ _ Ej)) in Hj. rewrite (proj2 (Hother _ _ Ek)) in Hk. by eapply (fi_apart _ _ Hs j k).
      * by apply not_elem_of_nil in Hk.
      * by apply not_elem_of_nil in Hj.
    + rewrite total_blocks_app. simpl. rewrite (fi_total _ _ Hs). change (node_blocks _) with 0. lia.
Qed.

(** ** Files of the command line *)

Definition contents (f : host_file) : list Z := concat (default [] (hf_reads f)).
Definition short_name (f : host_file) : list Z := strip_underscore (strip_user (hf_path f)).

(** What add_file asserts of a file, and that it is not too large. *)
Record file_good (f : host_file) : Prop := {
  fg_slash : c_slash ∉ strip_user (hf_path f);
  fg_opens : is_Some (hf_reads f);
  fg_name : Z.of_nat (length (short_name f)) <= DIRSIZ;
  fg_size : Z.of_nat (length (contents f)) <= MAXFILE * BSIZE
}.

(** A directory entry, and the root directory. *)
Definition dirent (inum : Z) (name : list Z) : list Z :=
  le_bytes 2 inum ++ take (Z.to_nat DIRSIZ) (name ++ repeat 0 (Z.to_nat DIRSIZ)).
Definition root_dir (fs : list host_file) : list Z :=
  dirent ROOTINO [c_dot] ++ dirent ROOTINO [c_dot; c_dot] ++
  concat (imap (fun i f => dirent (Z.of_nat i + 2) (short_name f)) fs).

(** The blocks that root directory and files take. *)
Definition file_blocks (f : host_file) : Z := blocks_for (nblk (length (contents f))).
Definition files_blocks (fs : list host_file) : Z := foldr (fun f z => file_blocks f + z) 0 fs.
Definition needed (fs : list host_file) : Z := blocks_for (nblk (length (root_dir fs))) + files_blocks fs.

#[local] Arguments nblk : simpl never.
#[local] Arguments blocks_for : simpl never.

Lemma dirent_length inum name : length (dirent inum name) = 16%nat.
Proof. unfold dirent. rewrite length_app, length_le_bytes, length_take, length_app, repeat_length. change (Z.to_nat DIRSIZ) with 14%nat. lia. Qed.

Lemma le_bytes_mod n v : le_bytes n (v mod 2 ^ (8 * Z.of_nat n)) = le_bytes n v.
Proof. rewrite <-le_val_bytes. rewrite <-(length_le_bytes n v) at 1. apply le_bytes_val, le_bytes_bytes. Qed.

Lemma de_bytes_le inum name : de_bytes false (xshort false inum) name = dirent inum name.
Proof. unfold de_bytes, dirent. rewrite xshort_le. f_equal. apply (le_bytes_mod 2). Qed.

Lemma root_dir_app fs f : root_dir (fs ++ [f]) = root_dir fs ++ dirent (Z.of_nat (length fs) + 2) (short_name f).
Proof.
  unfold root_dir. rewrite imap_app, concat_app, <-!app_assoc. do 3 f_equal.
  cbn [imap concat]. unfold compose. rewrite Nat.add_0_r. apply app_nil_r.
Qed.

Lemma root_dir_length fs : length (root_dir fs) = (32 + 16 * length fs)%nat.
Proof.
  induction fs as [|f fs IH] using rev_ind; [done|].
  rewrite root_dir_app, !length_app, IH, dirent_length. simpl. lia.
Qed.

Lemma files_blocks_app fs fs' : files_blocks (fs ++ fs') = files_blocks fs + files_blocks fs'.
Proof. induction fs as [|f fs IH]; simpl; lia. Qed.

Lemma blocks_for_nonneg n : 0 <= blocks_for n.
Proof. unfold blocks_for. destruct (12 <? n)%nat; lia. Qed.

Lemma files_blocks_nonneg fs : 0 <= files_blocks fs.
Proof. induction fs as [|f fs IH]; simpl; [lia|]. pose proof (blocks_for_nonneg (nblk (length (contents f)))). unfold file_blocks. lia. Qed.

Lemma needed_app fs fs' : needed fs <= needed (fs ++ fs').
Proof.
  unfold needed. rewrite files_blocks_app. pose proof (files_blocks_nonneg fs').
  pose proof (blocks_for_mono (nblk (length (root_dir fs))) (nblk (length (root_dir (fs ++ fs'))))
    ltac:(apply nblk_mono; rewrite !root_dir_length, length_app; lia)). lia.
Qed.

(** The nodes of the root directory and of [fs]. *)
Definition node_of (n : dinode * list Z) (f : host_file) : Prop :=
  n.2 = contents f /\ din_type n.1 = T_FILE /\ din_nlink n.1 = 1.
Definition built (ns : list (dinode * list Z)) (fs : list host_file) : Prop :=
  exists dr ds, ns = (dr, root_dir fs) :: ds /\ din_type dr = T_DIR /\ din_nlink dr = 1 /\ Forall2 node_of ds fs.

Lemma built_total ns fs : built ns fs -> total_blocks ns = needed fs.
Proof.
  intros (dr & ds & -> & _ & _ & Hds). unfold needed. simpl. f_equal.
  induction Hds as [|n f ds fs [Hc _] _ IH]; [done|]. simpl. unfold node_blocks, file_blocks. by rewrite Hc, IH.
Qed.

(** The loop over the reads of a file. *)
Lemma appends_ok i reads : forall s ns d c,
  fs_inv s ns -> ns !! i = Some (d, c) -> Z.of_nat (length c + length (concat reads)) <= MAXFILE * BSIZE ->
  mk_freeblock s + blocks_for (nblk (length c + length (concat reads))) - blocks_for (nblk (length c)) <= FSSIZE ->
  exists d' s', for_each reads (iappend false (Z.of_nat (S i))) s = Ok tt s' /\
    fs_inv s' (<[i := (d', c ++ concat reads)]> ns) /\ din_type d' = din_type d /\ din_nlink d' = din_nlink d.
Proof.
  induction reads as [|p reads IH]; intros s ns d c Hs E Hmax Hroom; simpl in *.
  { exists d, s. rewrite app_nil_r, list_insert_id by done. done. }
  rewrite length_app in *.
  pose proof (blocks_for_mono (nblk (length c + length p)) (nblk (length c + (length p + length (concat reads))))
    ltac:(apply nblk_mono; lia)) as Hm1.
  destruct (iappend_ok s ns i d c p Hs E) as (d1 & s1 & E1 & Hs1 & Ht1 & Hl1); [lia|lia|].
  rewrite (bind_Ok _ _ _ _ _ E1). pose proof (lookup_lt_Some _ _ _ E) as Hil.
  destruct (IH s1 _ d1 (c ++ p) Hs1) as (d' & s' & E' & Hs' & Ht' & Hl').
  - by apply list_lookup_insert_eq.
  - rewrite length_app. lia.
  - rewrite length_app, (fi_total _ _ Hs1), (total_blocks_insert _ _ _ _ E). rewrite (fi_total _ _ Hs) in Hroom.
    unfold node_blocks. simpl. rewrite length_app. rewrite <-Nat.add_assoc. lia.
  - exists d', s'. rewrite list_insert_insert_eq, <-(assoc_L (++)) in Hs'. split_and!; [done|done|congruence|congruence].
Qed.

#[local] Opaque root_dir dirent.

Lemma add_file_ok s ns fs f :
  fs_inv s ns -> built ns fs -> file_good f -> nmeta + needed (fs ++ [f]) <= FSSIZE ->
  Z.of_nat (3 + length fs) <= NODES ->
  exists ns' s', add_file false ROOTINO f s = Ok tt s' /\ fs_inv s' ns' /\ built ns' (fs ++ [f]).
Proof.
  intros Hs Hb [Hsl [reads Er] Hname Hsize] Hroom Hcount. pose proof (built_total _ _ Hb) as Htot.
  destruct Hb as (dr & ds & -> & Htype & Hlink & Hds). pose proof (Forall2_length _ _ _ Hds) as Hlen.
  assert (Ec : contents f = concat reads) by (unfold contents; by rewrite Er).
  unfold needed in *. rewrite files_blocks_app in Hroom. simpl in Hroom. rewrite Z.add_0_r in Hroom.
  unfold file_blocks in Hroom. rewrite root_dir_app, length_app, dirent_length in Hroom. rewrite Ec in *.
  pose proof (blocks_for_nonneg (nblk (length (concat reads)))) as Hnn.
  unfold add_file. cbv zeta. rewrite bool_decide_eq_false_2 by done. unfold assert_ at 1. cbn [negb]. rewrite bind_ret, Er.
  fold (short_name f). rewrite (proj2 (Z.leb_le _ _)) by done. unfold assert_. rewrite bind_ret.
  destruct (ialloc_ok s _ T_FILE Hs) as (s1 & E1 & Hs1); [simpl; lia|unfold T_FILE; lia|].
  rewrite (bind_Ok _ _ _ _ _ E1). rewrite de_bytes_le.
  set (inum := Z.of_nat (S (length ((dr, root_dir fs) :: ds)))) in *.
  assert (Ei : inum = Z.of_nat (length fs) + 2) by (unfold inum; simpl; lia).
  assert (Hf1 : mk_freeblock s1 = nmeta + (blocks_for (nblk (length (root_dir fs))) + files_blocks fs)).
  { rewrite (fi_total _ _ Hs1), total_blocks_app, Htot. simpl. change (node_blocks _) with 0. lia. }
  destruct (iappend_ok s1 _ 0 dr (root_dir fs) (dirent inum (short_name f)) Hs1 eq_refl) as (dr' & s2 & E2 & Hs2 & Ht2 & Hl2).
  { rewrite dirent_length, root_dir_length, MAXFILE_eq. change NODES with 208 in Hcount. unfold BSIZE. lia. }
  { rewrite dirent_length, Hf1. lia. }
  change (Z.of_nat 1) with ROOTINO in E2. rewrite (bind_Ok _ _ _ _ _ E2).
  simpl in Hs2. rewrite Ei in Hs2 at 1. rewrite <-root_dir_app in Hs2.
  assert (El : ((dr', root_dir (fs ++ [f])) :: ds ++ [(new_din T_FILE, [])]) !! S (length ds) = Some (new_din T_FILE, [])).
  { simpl. rewrite lookup_app_r, Nat.sub_diag by lia. done. }
  destruct (appends_ok (S (length ds)) reads s2 _ (new_din T_FILE) [] Hs2 El) as (d' & s3 & E3 & Hs3 & Ht3 & Hl3).
  { simpl. exact Hsize. }
  { rewrite (fi_total _ _ Hs2). simpl. rewrite total_blocks_app. unfold node_blocks at 1. simpl. change (node_blocks _) with 0.
    rewrite root_dir_app, length_app, dirent_length. simpl in Htot. unfold node_blocks in Htot. simpl in Htot.
    change (blocks_for (nblk 0)) with 0. lia. }
  rewrite app_nil_l in Hs3. simpl in Hs3. rewrite insert_app_r_alt, Nat.sub_diag in Hs3 by lia. simpl in Hs3.
  eexists _, s3. split; [exact E3|]. split; [exact Hs3|]. exists dr', (ds ++ [(d', concat reads)]).
  split_and!; [done|congruence|congruence|]. apply Forall2_app; [done|]. constructor; [|done]. by split_and!.
Qed.

Lemma add_files_ok todo : forall s ns fs,
  fs_inv s ns -> built ns fs -> Forall file_good todo -> nmeta + needed (fs ++ todo) <= FSSIZE ->
  Z.of_nat (2 + length (fs ++ todo)) <= NODES ->
  exists ns' s', for_each todo (add_file false ROOTINO) s = Ok tt s' /\ fs_inv s' ns' /\ built ns' (fs ++ todo).
Proof.
  induction todo as [|f todo IH]; intros s ns fs Hs Hb Hg Hroom Hcount; simpl.
  { exists ns, s. by rewrite app_nil_r. }
  apply Forall_cons in Hg as [Hf Hg]. rewrite (cons_middle f fs todo) in *. rewrite (assoc_L (++)) in *.
  pose proof (needed_app (fs ++ [f]) todo). rewrite length_app in Hcount.
  destruct (add_file_ok s ns fs f Hs Hb Hf) as (ns1 & s1 & E1 & Hs1 & Hb1);
    [lia|rewrite length_app in Hcount; simpl in *; lia|].
  rewrite (bind_Ok _ _ _ _ _ E1). apply (IH s1 ns1 (fs ++ [f])); [done|done|done|done|]. by rewrite length_app.
Qed.

(** * main *)

Lemma zero_fill n : forall j s, mk_img s = repeat zeroes j -> (j + n <= 4096)%nat ->
  for_each (seq j n) (fun i => wsect (Z.of_nat i) zeroes) s = Ok tt (set_mk_img (repeat zeroes (j + n)) s).
Proof.
  induction n as [|n IH]; intros j s Hs Hn; cbn [seq for_each].
  - rewrite Nat.add_0_r, <-Hs. by destruct s.
  - assert (E : wsect (Z.of_nat j) zeroes s = Ok tt (set_mk_img (repeat zeroes (S j)) s)).
    { unfold wsect, modify, put_block. rewrite sect_pos_small, Nat2Z.id, Hs, repeat_length, Nat.ltb_irrefl by lia.
      rewrite Nat.sub_diag. simpl. by rewrite <-repeat_cons. }
    rewrite (bind_Ok _ _ _ _ _ E). rewrite IH by (done || lia). by replace (S j + n)%nat with (j + S n)%nat by lia.
Qed.

Lemma blk_repeat n b : (Z.to_nat b < n)%nat -> blk (repeat zeroes n) b = zeroes.
Proof. intros H. unfold blk. by apply nth_repeat_lt. Qed.

Lemma super_block_length : length super_block = 1024%nat.
Proof. reflexivity. Qed.

Definition img0 : list (list Z) := set_blk 1 super_block (repeat zeroes (Z.to_nat FSSIZE)).

Lemma img0_ok : img_ok img0.
Proof.
  apply img_ok_set; [|apply super_block_length]. split; [by rewrite repeat_length|].
  apply Forall_forall. intros b Hb%list_elem_of_In. apply (repeat_spec (Z.to_nat FSSIZE)) in Hb as ->. apply zeroes_length.
Qed.

Lemma blk_img0 b : 0 <= b < FSSIZE -> blk img0 b = if decide (b = 1) then super_block else zeroes.
Proof.
  intros Hb. unfold img0, blk, set_blk. rewrite nth_lookup. case_decide as E.
  - subst. rewrite list_lookup_insert_eq; [done|]. rewrite repeat_length. unfold FSSIZE. lia.
  - rewrite list_lookup_insert_ne by lia. rewrite <-nth_lookup. apply nth_repeat_lt. lia.
Qed.

Lemma fs_inv0 sb inode fb : sb = main_sb false -> inode = 1 -> fb = nmeta ->
  fs_inv (mkMkst img0 sb inode fb) [].
Proof.
  intros -> -> ->. split; simpl; try done.
  - apply img0_ok.
  - intros b Hb. change nmeta with 46 in Hb. rewrite blk_img0 by lia. by rewrite decide_False by lia.
  - intros b Hb. apply blk_img0. unfold FSSIZE. lia.
Qed.

(** The root directory, before the files. *)
Lemma root_ok s : fs_inv s [] -> exists s1 s2 s3 dr,
  mkfs_ialloc false T_DIR s = Ok ROOTINO s1 /\
  iappend false ROOTINO (dirent ROOTINO [c_dot]) s1 = Ok tt s2 /\
  iappend false ROOTINO (dirent ROOTINO [c_dot; c_dot]) s2 = Ok tt s3 /\
  fs_inv s3 [(dr, root_dir [])] /\ built [(dr, root_dir [])] [].
Proof.
  intros Hs. destruct (ialloc_ok s [] T_DIR Hs) as (s1 & E1 & Hs1); [done|unfold T_DIR; lia|].
  simpl app in Hs1.
  destruct (iappend_ok s1 _ 0 _ [] (dirent ROOTINO [c_dot]) Hs1 eq_refl) as (d2 & s2 & E2 & Hs2 & Ht2 & Hl2).
  { by rewrite dirent_length. }
  { rewrite dirent_length, (fi_total _ _ Hs1). vm_compute. done. }
  destruct (iappend_ok s2 _ 0 d2 _ (dirent ROOTINO [c_dot; c_dot]) Hs2 eq_refl) as (d3 & s3 & E3 & Hs3 & Ht3 & Hl3).
  { simpl. by rewrite !dirent_length. }
  { rewrite (fi_total _ _ Hs2). simpl. unfold node_blocks. simpl. rewrite !dirent_length. vm_compute. done. }
  exists s1, s2, s3, d3. split; [done|]. split; [done|]. split; [done|].
  assert (Er : root_dir [] = [] ++ dirent ROOTINO [c_dot] ++ dirent ROOTINO [c_dot; c_dot]) by done.
  simpl in Hs3. rewrite Er. split; [exact Hs3|]. exists d3, []. rewrite Er.
  split_and!; [done|by rewrite Ht3, Ht2|by rewrite Hl3, Hl2|constructor].
Qed.

(** ** The bitmap *)

Lemma bitmap_bits n : forall b, Z.of_nat n <= 8192 -> 0 <= b ->
  length (fold_left (fun buf i => bit_set (Z.of_nat i) buf) (seq 0 n) zeroes) = 1024%nat /\
  bit (fold_left (fun buf i => bit_set (Z.of_nat i) buf) (seq 0 n) zeroes) b = (b <? Z.of_nat n).
Proof.
  induction n as [|n IH]; intros b Hn Hb.
  - simpl. split; [apply zeroes_length|]. rewrite (proj2 (Z.ltb_ge _ _)) by lia.
    unfold bit, at_Z, zeroes. rewrite nth_repeat. apply Z.testbit_0_l.
  - rewrite seq_S, fold_left_app. cbn [fold_left Nat.add]. destruct (IH b ltac:(lia) Hb) as [Hl E].
    split; [unfold bit_set; by rewrite length_insert|].
    rewrite bit_set_bit by (rewrite ?Hl; lia). rewrite E. zb; try done; lia.
Qed.

Lemma mkfs_balloc_ok s : img_ok (mk_img s) -> mk_sb s = main_sb false -> nmeta <= mk_freeblock s <= FSSIZE ->
  exists data, mkfs_balloc (mk_freeblock s) s = Ok tt (set_mk_img (set_blk 45 data (mk_img s)) s) /\
    length data = 1024%nat /\ forall b, 0 <= b -> bit data b = (b <? mk_freeblock s).
Proof.
  intros Hi Hs Hf. change nmeta with 46 in Hf. unfold FSSIZE in Hf.
  eexists. split; [|split].
  - unfold mkfs_balloc. rewrite (proj2 (Z.ltb_lt _ _)) by (unfold BPB, BSIZE; lia).
    unfold assert_. rewrite bind_ret. unfold bind, get. rewrite Hs. simpl sb_bmapstart. rewrite xint_le.
    change (u32 (2 + nlog + ninodeblocks)) with 45. apply wsect_ok; [done|unfold FSSIZE; lia].
  - apply (bitmap_bits (Z.to_nat (mk_freeblock s)) 0); lia.
  - intros b Hb. rewrite (proj2 (bitmap_bits (Z.to_nat (mk_freeblock s)) b ltac:(lia) Hb)). f_equal. lia.
Qed.

(** ** The image *)

Lemma file_bytes_ok img hi A c nb n : file_ok img hi A c nb -> (length c <= n)%nat ->
  take (length c) (map (fun i => file_byte img A (Z.of_nat i)) (seq 0 n)) = c.
Proof.
  intros Hf Hn. rewrite firstn_map, take_seq, Nat.min_l by done. pose proof (fo_len _ _ _ _ _ Hf) as Hl.
  apply list_eq. intros i. rewrite list_lookup_fmap. destruct (decide (i < length c)%nat) as [Hi|Hi].
  - rewrite lookup_seq_lt by done. simpl. rewrite (fo_bytes _ _ _ _ _ Hf) by (unfold BSIZE; lia). rewrite Nat2Z.id.
    destruct (nth_lookup_or_length c i 0) as [->|]; [done|lia].
  - rewrite lookup_seq_ge, lookup_ge_None_2 by lia. done.
Qed.

(** The contents of the inodes from 1 on. *)
Definition all_contents (files : list host_file) : list (list Z) := root_dir files :: map contents files.

(** The blocks of inode [i + 1]. *)
Definition image_blocks (img : list (list Z)) (files : list host_file) (i : nat) : list Z :=
  owned img (din_addrs (node_at img (Z.of_nat (S i)))) (nblk (length (nth i (all_contents files) []))).

(** What the kernel finds in the image. *)
Record image (img : list (list Z)) (files : list host_file) : Prop := {
  ig_super : sb_of (blk img 1) = mkSuperblock FSMAGIC FSSIZE nblocks NINODES nlog 2 32 45;
  ig_log : forall b, 2 <= b < 32 -> blk img b = zeroes;
  ig_root : din_type (node_at img ROOTINO) = T_DIR /\ din_nlink (node_at img ROOTINO) = 1 /\
    din_size (node_at img ROOTINO) = (Z.of_nat (length (root_dir files)) / BSIZE + 1) * BSIZE /\
    take (length (root_dir files)) (read_file img ROOTINO) = root_dir files;
  ig_files : forall i f, files !! i = Some f ->
    din_type (node_at img (Z.of_nat i + 2)) = T_FILE /\ din_nlink (node_at img (Z.of_nat i + 2)) = 1 /\
    read_file img (Z.of_nat i + 2) = contents f;
  ig_bitmap : forall b, 0 <= b -> bit (blk img 45) b = (b <? nmeta + needed files);
  ig_blocks : forall i b, (i < length (all_contents files))%nat -> b ∈ image_blocks img files i ->
    nmeta <= b < nmeta + needed files /\
    forall j, (j < length (all_contents files))%nat -> j <> i -> ~ b ∈ image_blocks img files j
}.

(** The state at the end of main, from that after the files. *)
Section finish.
Context (s : mkst) (files : list host_file) (dr : dinode) (ds : list (dinode * list Z)) (data : list Z).
Context (Hs : fs_inv s ((dr, root_dir files) :: ds)) (Hds : Forall2 node_of ds files).
Context (Hdl : length data = 1024%nat).

Let size' := (Z.of_nat (length (root_dir files)) / BSIZE + 1) * BSIZE.
Let dr' := set_din_size size' dr.
Let img1 := store_node ROOTINO dr' (mk_img s).
Let img := set_blk 45 data img1.

Lemma finish_size : Z.of_nat (length (root_dir files)) <= size' < 2 ^ 31.
Proof.
  pose proof (fi_count _ _ Hs) as Hc. pose proof (Forall2_length _ _ _ Hds). simpl in Hc. change NODES with 208 in Hc.
  unfold size', BSIZE. rewrite root_dir_length. pose proof (Z.div_mod (Z.of_nat (32 + 16 * length files)) 1024).
  pose proof (Z.mod_pos_bound (Z.of_nat (32 + 16 * length files)) 1024). lia.
Qed.

Lemma finish_store : img_ok img1 /\
  (forall b, 0 <= b -> b <> 32 -> blk img1 b = blk (mk_img s) b) /\
  (forall i, 0 <= i < NODES -> node_at img1 i = if decide (i = ROOTINO) then dr' else node_at (mk_img s) i).
Proof.
  apply (store_node_ok ROOTINO dr' (mk_img s)); [apply Hs| |done].
  pose proof finish_size. destruct (no_ok _ _ _ (fi_node _ _ Hs 0 _ eq_refl)). split; try done. simpl. lia.
Qed.

Lemma finish_blk b : 0 <= b -> blk img b = if decide (b = 45) then data else blk img1 b.
Proof. intros Hb. unfold img. apply blk_set; [apply finish_store|unfold FSSIZE; lia|done]. Qed.

Lemma finish_node i : 0 <= i < NODES -> node_at img i = if decide (i = ROOTINO) then dr' else node_at (mk_img s) i.
Proof.
  intros Hi. rewrite <-(proj2 (proj2 finish_store) i Hi). unfold node_at.
  pose proof (inode_block_range i Hi). rewrite finish_blk, decide_False by lia. done.
Qed.

Lemma finish_owned i n : ((dr, root_dir files) :: ds) !! i = Some n ->
  file_ok img (mk_freeblock s) (din_addrs n.1) n.2 (nblk (length n.2)) /\ owned_by img n = owned_by (mk_img s) n.
Proof.
  intros E.
  assert (Hb : forall b, b ∈ owned_by (mk_img s) n -> blk img b = blk (mk_img s) b).
  { intros b Hbo. pose proof (node_owned_range _ _ _ _ _ Hs E Hbo). change nmeta with 46 in *.
    rewrite finish_blk, decide_False by lia. apply finish_store; lia. }
  split; [|by apply owned_ext]. eapply file_ok_ext; [exact Hb| |apply (fi_node _ _ Hs _ _ E)]. lia.
Qed.

Lemma finish_file i n f : ds !! i = Some n -> files !! i = Some f ->
  node_at img (Z.of_nat i + 2) = n.1 /\ n.2 = contents f /\ read_file img (Z.of_nat i + 2) = contents f.
Proof.
  intros En Ef. pose proof (Forall2_lookup_lr _ _ _ _ _ _ Hds En Ef) as (Hc & _ & _).
  pose proof (inum_range _ _ (S i) n Hs En) as Hin.
  replace (Z.of_nat (S (S i))) with (Z.of_nat i + 2) in Hin by lia.
  pose proof (fi_node _ _ Hs (S i) n En) as [Hat _ Hsz _]. replace (Z.of_nat (S (S i))) with (Z.of_nat i + 2) in Hat by lia.
  assert (Hn : node_at img (Z.of_nat i + 2) = n.1).
  { rewrite finish_node, decide_False by (done || unfold ROOTINO; lia). done. }
  split; [done|]. split; [done|]. unfold read_file. cbv zeta. rewrite Hn, Hsz, Nat2Z.id, <-Hc.
  etransitivity; [|exact (file_bytes_ok img _ _ n.2 _ (length n.2) (proj1 (finish_owned (S i) n En)) ltac:(lia))].
  by rewrite take_ge by (by rewrite length_map, length_seq).
Qed.

(** The list of contents is that of the nodes. *)
Lemma finish_nth i n : ((dr, root_dir files) :: ds) !! i = Some n ->
  nth i (all_contents files) [] = n.2 /\ din_addrs (node_at img (Z.of_nat (S i))) = din_addrs n.1.
Proof.
  intros E. pose proof (inum_range _ _ i n Hs E) as Hin. destruct i as [|i]; simpl in E.
  - simplify_eq. split; [done|]. change (Z.of_nat 1) with ROOTINO in *. by rewrite finish_node, decide_True.
  - destruct (Forall2_lookup_l _ _ _ _ _ Hds E) as (f & Ef & _). destruct (finish_file i n f E Ef) as (Hn & Hc & _).
    replace (Z.of_nat (S (S i))) with (Z.of_nat i + 2) by lia. rewrite Hn. split; [|done].
    simpl. rewrite nth_lookup, list_lookup_fmap, Ef. by rewrite Hc.
Qed.

Lemma finish_blocks i : (i < length (all_contents files))%nat ->
  exists n, ((dr, root_dir files) :: ds) !! i = Some n /\ image_blocks img files i = owned_by (mk_img s) n.
Proof.
  intros Hi. pose proof (Forall2_length _ _ _ Hds) as Hl.
  destruct (lookup_lt_is_Some_2 ((dr, root_dir files) :: ds) i) as [n E].
  { simpl in *. rewrite length_map in Hi. lia. }
  exists n. split; [done|]. destruct (finish_nth i n E) as [En Ea]. unfold image_blocks. rewrite En, Ea.
  apply (finish_owned i n E).
Qed.

Lemma finish_image :
  din_type dr = T_DIR -> din_nlink dr = 1 -> mk_freeblock s = nmeta + needed files ->
  (forall b, 0 <= b -> bit data b = (b <? mk_freeblock s)) -> image img files.
Proof.
  intros Ht Hl Hf Hbits. pose proof finish_size as Hsz.
  assert (Hmeta : forall b, 0 <= b < 32 -> blk img b = if decide (b = 1) then super_block else zeroes).
  { intros b Hb. rewrite finish_blk, decide_False by lia. rewrite (proj1 (proj2 finish_store)) by lia. by apply Hs. }
  assert (Hroot : node_at img ROOTINO = dr') by (by rewrite finish_node, decide_True).
  split.
  - rewrite Hmeta by lia. vm_compute. done.
  - intros b Hb. rewrite Hmeta, decide_False by lia. done.
  - rewrite Hroot. split_and!; [done|done|done|]. unfold read_file. cbv zeta. rewrite Hroot.
    eapply file_bytes_ok; [exact (proj1 (finish_owned 0 _ eq_refl))|]. simpl. lia.
  - intros i f Ef. destruct (Forall2_lookup_r _ _ _ _ _ Hds Ef) as (n & En & _ & Htn & Hln).
    destruct (finish_file i n f En Ef) as (Hn & _ & Hr). by rewrite Hn.
  - intros b Hb. rewrite finish_blk, decide_True by done. rewrite <-Hf. by apply Hbits.
  - intros i b Hi Hb. destruct (finish_blocks i Hi) as (n & En & Eo). rewrite Eo in Hb. split.
    + rewrite <-Hf. by eapply node_owned_range.
    + intros j Hj Hne Hbj. destruct (finish_blocks j Hj) as (n' & En' & Eo'). rewrite Eo' in Hbj.
      by eapply (fi_apart _ _ Hs i j n n' b).
Qed.

End finish.

Lemma root_range : 0 <= ROOTINO < NODES.
Proof. done. Qed.


(** On a big-endian host the kernel would not know the image: the magic number
    is the one field that main does not convert. *)
Lemma mkfs_big_endian : sb_magic (sb_of (splice 0 (sb_bytes true (main_sb true)) zeroes)) <> FSMAGIC.
Proof. vm_compute. discriminate. Qed.

(** * Witness *)

Definition cat_file : host_file := mkHostFile (str "user/_cat") (Some [str "#!"; str "cat"]).

Lemma cat_file_good : file_good cat_file.
Proof.
  split; [|by eexists|vm_compute; discriminate|vm_compute; discriminate].
  intros H. by repeat (apply elem_of_cons in H as [H|H]; [discriminate H|]); apply not_elem_of_nil in H.
Qed.

