(* ===== verification/Console.v ===== *)
(** The console: the transmit ring and interrupt handler of kernel/uart.c and
    the line discipline of kernel/console.c.

    The UART itself is hardware: [lsr_idle] lists what the next readings of
    LSR_TX_IDLE answer and [rx_fifo] holds the bytes that have arrived. *)

From Stdlib Require Import ZArith Lia List String Bool.
From stdpp Require Import base tactics numbers list functions sets.
From S2P Require Import Prelude.
From S2P Require Import Spinlock.
From S2P Require Import Cstring.
From S2P Require Import Kalloc.
From S2P Require Import Vm.
From S2P Require Import Printf.
From S2P Require Import Proc.
From S2P Require Import Sched.
From S2P Require Import Abi.
From S2P Require Import Kstate.

Section console.
Context {img : Image} `{Swtch ks}.

(** * uart.c *)

(** [ReadReg(LSR) & LSR_TX_IDLE] *)
Definition tx_idle : M ks bool :=
  u <- getuart ;;
  match lsr_idle u with
  | [] => ret true
  | b :: l => upduart (set_lsr_idle l) ;;; ret b
  end.

(** [WriteReg(THR, c)] *)
Definition write_thr (c : Z) : M ks unit :=
  zoom (modify (fun s => set_ps_uart_out (ps_uart_out s ++ [u8 c]) s)).

(** The [while(1)]: at most one iteration per byte in the ring. *)
Fixpoint uartstart_loop (fuel : nat) : M ks unit :=
  match fuel with
  | O => spin
  | S f =>
      u <- getuart ;;
      if tx_w u =? tx_r u then ret tt else
      idle <- tx_idle ;;
      if negb idle then ret tt else
      let c := at_Z (tx_buf u) (tx_r u mod UART_TX_BUF_SIZE) in
      upduart (set_tx_r (u64 (tx_r u + 1))) ;;;
      wake ch_uart_tx_r ;;;
      write_thr c ;;;
      uartstart_loop f
  end.
Definition uartstart : M ks unit :=
  u <- getuart ;;
  uartstart_loop (S (Z.to_nat (u64 (tx_w u - tx_r u)))).

(** [while(uart_tx_w == uart_tx_r + UART_TX_BUF_SIZE) sleep(...)] *)
Fixpoint uartputc_wait (fuel : nat) : M ks unit :=
  match fuel with
  | O => asleep
  | S f =>
      u <- getuart ;;
      if tx_w u =? u64 (tx_r u + UART_TX_BUF_SIZE)
      then sleep ch_uart_tx_r uart_tx_lock ;;; uartputc_wait f
      else ret tt
  end.
Definition uartputc (c : Z) : M ks unit :=
  acq uart_tx_lock ;;;
  panicked <- gets (fun k => ps_panicked (k_ps k)) ;;
  if (panicked : bool) then spin else
  uartputc_wait (S swtch_wakeups) ;;;
  upduart (fun u => set_tx_buf
    (<[Z.to_nat (tx_w u mod UART_TX_BUF_SIZE) := u8 c]> (tx_buf u)) u) ;;;
  upduart (fun u => set_tx_w (u64 (tx_w u + 1)) u) ;;;
  uartstart ;;;
  rel uart_tx_lock.

Definition uartgetc : M ks Z :=
  u <- getuart ;;
  match rx_fifo u with
  | [] => ret (-1)
  | c :: l => upduart (set_rx_fifo l) ;;; ret c
  end.

(** * console.c *)

(** Control-x. *)
Definition C (x : Z) : Z := x - 64.
Definition c_nl : Z := 10.
Definition c_cr : Z := 13.

(** [for(i = 0; i < n; i++)]: the bytes from [i] on. *)
Fixpoint consolewrite_loop (k : nat) (user_src : bool) (src i : Z) : M ks Z :=
  match k with
  | O => ret i
  | S k' =>
      r <- zoom (either_copyin user_src (u64 (src + i)) 1) ;;
      match r with
      | None => ret i
      | Some bs => uartputc (hd 0 bs) ;;; consolewrite_loop k' user_src src (i + 1)
      end
  end.
Definition consolewrite (user_src : bool) (src n : Z) : M ks Z :=
  consolewrite_loop (Z.to_nat n) user_src src 0.

(** The input ring: [cons.r == cons.w], the byte at [cons.r], [cons.r++] and
    [cons.r--]. *)
Definition cons_empty (cs : cons) : bool := cons_r cs =? cons_w cs.
Definition cons_front (cs : cons) : Z := at_Z (cons_buf cs) (cons_r cs mod INPUT_BUF_SIZE).
Definition cons_take (cs : cons) : cons := set_cons_r (u32 (cons_r cs + 1)) cs.
Definition cons_untake (cs : cons) : cons := set_cons_r (u32 (cons_r cs - 1)) cs.

(** The loop of consoleread; [fuel] covers every byte and every sleep.  The
    result is the final [n], or [None] when the process was killed. *)
Fixpoint consoleread_loop (fuel : nat) (user_dst : bool) (dst n target : Z) : M ks (option Z) :=
  match fuel with
  | O => asleep
  | S f =>
      if negb (0 <? n) then ret (Some n) else
      cs <- getcons ;;
      if cons_empty cs then
        p <- curproc ;;
        kd <- zoom (killed p) ;;
        if negb (kd =? 0) then rel cons_lock ;;; ret None
        else sleep ch_cons_r cons_lock ;;; consoleread_loop f user_dst dst n target
      else
        let c := cons_front cs in
        updcons cons_take ;;;
        if c =? C 68 then
          (if n <? target then updcons cons_untake else ret tt) ;;;
          ret (Some n)
        else
          r <- zoom (either_copyout user_dst dst [c]) ;;
          if r =? -1 then ret (Some n) else
          if c =? c_nl then ret (Some (n - 1))
          else consoleread_loop f user_dst (u64 (dst + 1)) (n - 1) target
  end.
Definition consoleread (user_dst : bool) (dst n : Z) : M ks Z :=
  acq cons_lock ;;;
  r <- consoleread_loop (S (Z.to_nat n + swtch_wakeups)) user_dst dst n (u32 n) ;;
  match r with
  | None => ret (-1)
  | Some n' => rel cons_lock ;;; ret (s32 (u32 n - n'))
  end.

(** [cons.e != cons.w], [cons.e--], [cons.e-cons.r < INPUT_BUF_SIZE],
    [cons.buf[cons.e++ % INPUT_BUF_SIZE] = c] and [cons.w = cons.e]. *)
Definition cons_editing (cs : cons) : bool := negb (cons_e cs =? cons_w cs).
Definition cons_erase (cs : cons) : cons := set_cons_e (u32 (cons_e cs - 1)) cs.
Definition cons_room (cs : cons) : bool := u32 (cons_e cs - cons_r cs) <? INPUT_BUF_SIZE.
Definition cons_put (c : Z) (cs : cons) : cons :=
  set_cons_e (u32 (cons_e cs + 1))
    (set_cons_buf (<[Z.to_nat (cons_e cs mod INPUT_BUF_SIZE) := u8 c]> (cons_buf cs)) cs).
Definition cons_full (cs : cons) : bool := u32 (cons_e cs - cons_r cs) =? INPUT_BUF_SIZE.
Definition cons_commit (cs : cons) : cons := set_cons_w (cons_e cs) cs.

(** Erase characters back to the start of the line: at most the buffer. *)
Fixpoint kill_line (fuel : nat) : M ks unit :=
  match fuel with
  | O => ret tt
  | S f =>
      cs <- getcons ;;
      if cons_editing cs &&
         negb (at_Z (cons_buf cs) (u32 (cons_e cs - 1) mod INPUT_BUF_SIZE) =? c_nl) then
        updcons cons_erase ;;;
        zoom (consputc BACKSPACE) ;;;
        kill_line f
      else ret tt
  end.

(** [kbd_intr_count++] *)
Definition kbd_count (cs : cons) : cons := set_kbd_intr_count (s32 (kbd_intr_count cs + 1)) cs.

Definition consoleintr (c : Z) : M ks unit :=
  acq cons_lock ;;;
  updcons kbd_count ;;;
  cs <- getcons ;;
  (if c =? C 80 then zoom procdump
   else if c =? C 85 then kill_line (Z.to_nat (u32 (cons_e cs - cons_w cs)))
   else if (c =? C 72) || (c =? 127) then
     if cons_editing cs then
       updcons cons_erase ;;;
       zoom (consputc BACKSPACE)
     else ret tt
   else if negb (c =? 0) && cons_room cs then
     let c := if c =? c_cr then c_nl else c in
     zoom (consputc c) ;;;
     updcons (cons_put c) ;;;
     cs <- getcons ;;
     if (c =? c_nl) || (c =? C 68) || cons_full cs then
       updcons cons_commit ;;;
       wake ch_cons_r
     else ret tt
   else ret tt) ;;;
  rel cons_lock.

(** The control registers of the UART. *)
Definition IER : Z := 1.
Definition FCR : Z := 2.
Definition LCR : Z := 3.
Definition IER_RX_ENABLE : Z := Z.shiftl 1 0.
Definition IER_TX_ENABLE : Z := Z.shiftl 1 1.
Definition FCR_FIFO_ENABLE : Z := Z.shiftl 1 0.
Definition FCR_FIFO_CLEAR : Z := Z.shiftl 3 1.
Definition LCR_EIGHT_BITS : Z := Z.shiftl 3 0.
Definition LCR_BAUD_LATCH : Z := Z.shiftl 1 7.

Definition WriteReg (reg v : Z) : M ks unit :=
  upduart (fun u => set_uart_ctl (uart_ctl u ++ [(reg, u8 v)]) u).

Definition uartinit : M ks unit :=
  WriteReg IER 0 ;;;
  WriteReg LCR LCR_BAUD_LATCH ;;;
  WriteReg 0 3 ;;;
  WriteReg 1 0 ;;;
  WriteReg LCR LCR_EIGHT_BITS ;;;
  WriteReg FCR (Z.lor FCR_FIFO_ENABLE FCR_FIFO_CLEAR) ;;;
  WriteReg IER (Z.lor IER_TX_ENABLE IER_RX_ENABLE) ;;;
  zoom (initlock uart_tx_lock "uart").

Definition consoleinit : M ks unit :=
  zoom (initlock cons_lock "cons") ;;;
  uartinit ;;;
  modify (fun k => set_k_devsw (<[CONSOLE := Some dev_console]> (k_devsw k)) k).

(** [while(1){ c = uartgetc(); if(c == -1) break; consoleintr(c); }] *)
Fixpoint uartintr_loop (fuel : nat) : M ks unit :=
  match fuel with
  | O => spin
  | S f =>
      c <- uartgetc ;;
      if c =? -1 then ret tt else consoleintr c ;;; uartintr_loop f
  end.
Definition uartintr : M ks unit :=
  u <- getuart ;;
  uartintr_loop (S (length (rx_fifo u))) ;;;
  acq uart_tx_lock ;;;
  uartstart ;;;
  rel uart_tx_lock.

End console.
