(* ===== verification/File.v ===== *)
(** Pipes (kernel/pipe.c) and the open-file table (kernel/file.c).

    A pipe is known by the address of its page; its fields are kept in
    [k_pipes], its page is allocated and freed by the page allocator. *)

From Stdlib Require Import ZArith Lia List String Bool.
From stdpp Require Import base tactics numbers list functions sets.
From S2P Require Import Prelude.
From S2P Require Import Spinlock.
From S2P Require Import Cstring.
From S2P Require Import Kalloc.
From S2P Require Import Vm.
From S2P Require Import Proc.
From S2P Require Import Sched.
From S2P Require Import Abi.
From S2P Require Import Kstate.
From S2P Require Import Bio.
From S2P Require Import Log.
From S2P Require Import Fs.
From S2P Require Import Console.

Section file.
Context {img : Image} `{Swtch ks} `{BlockDev}.

(** * pipe.c *)

(** [pi->nwrite == pi->nread + PIPESIZE] and [pi->nread == pi->nwrite]. *)
Definition pipe_full (p : pipe) : bool := pi_nwrite p =? u32 (pi_nread p + PIPESIZE).
Definition pipe_empty (p : pipe) : bool := pi_nread p =? pi_nwrite p.

(** [pi->data[pi->nwrite++ % PIPESIZE] = ch] *)
Definition pipe_put (ch : Z) (p : pipe) : pipe :=
  set_pi_nwrite (u32 (pi_nwrite p + 1))
    (set_pi_data (<[Z.to_nat (pi_nwrite p mod PIPESIZE) := ch]> (pi_data p)) p).

(** [ch = pi->data[pi->nread++ % PIPESIZE]] *)
Definition pipe_front (p : pipe) : Z := at_Z (pi_data p) (pi_nread p mod PIPESIZE).
Definition pipe_get (p : pipe) : pipe := set_pi_nread (u32 (pi_nread p + 1)) p.

Definition pipeclose (pi : Z) (writable : bool) : M ks unit :=
  acq (pipe_lock pi) ;;;
  (if writable
   then updpipe pi (set_pi_writeopen false) ;;; wake (ch_pipe_nread pi)
   else updpipe pi (set_pi_readopen false) ;;; wake (ch_pipe_nwrite pi)) ;;;
  p <- getpipe pi ;;
  if negb (pi_readopen p) && negb (pi_writeopen p)
  then rel (pipe_lock pi) ;;; zoom (kfree pi)
  else rel (pipe_lock pi).

(** [while(i < n)]; [fuel] covers every byte and every sleep.  [inl r] is an
    early return, [inr i] the count at the end of the loop. *)
Fixpoint pipewrite_loop (fuel : nat) (pr : nat) (pi addr n i : Z) : M ks (Z + Z) :=
  match fuel with
  | O => asleep
  | S f =>
      if negb (i <? n) then ret (inr i) else
      p <- getpipe pi ;;
      dead <- (if negb (pi_readopen p) then ret true
               else kd <- zoom (killed pr) ;; ret (negb (kd =? 0))) ;;
      if (dead : bool) then rel (pipe_lock pi) ;;; ret (inl (-1)) else
      if pipe_full p then
        wake (ch_pipe_nread pi) ;;;
        sleep (ch_pipe_nwrite pi) (pipe_lock pi) ;;;
        pipewrite_loop f pr pi addr n i
      else
        q <- procof pr ;;
        r <- zoom (copyin (p_pagetable q) (u64 (addr + i)) 1) ;;
        match r with
        | None => ret (inr i)
        | Some bs =>
            updpipe pi (pipe_put (hd 0 bs)) ;;;
            pipewrite_loop f pr pi addr n (i + 1)
        end
  end.
Definition pipewrite (pi addr n : Z) : M ks Z :=
  pr <- curproc ;;
  acq (pipe_lock pi) ;;;
  r <- pipewrite_loop (S (Z.to_nat n + swtch_wakeups)) pr pi addr n 0 ;;
  match r with
  | inl r => ret r
  | inr i => wake (ch_pipe_nread pi) ;;; rel (pipe_lock pi) ;;; ret i
  end.

(** [while(pi->nread == pi->nwrite && pi->writeopen)]: whether to go on. *)
Fixpoint piperead_wait (fuel : nat) (pr : nat) (pi : Z) : M ks bool :=
  match fuel with
  | O => asleep
  | S f =>
      p <- getpipe pi ;;
      if pipe_empty p && pi_writeopen p then
        kd <- zoom (killed pr) ;;
        if negb (kd =? 0) then rel (pipe_lock pi) ;;; ret false
        else sleep (ch_pipe_nread pi) (pipe_lock pi) ;;; piperead_wait f pr pi
      else ret true
  end.
(** [for(i = 0; i < n; i++)]: [k] bytes from [i] on. *)
Fixpoint piperead_copy (k : nat) (pr : nat) (pi addr i : Z) : M ks Z :=
  match k with
  | O => ret i
  | S k' =>
      p <- getpipe pi ;;
      if pipe_empty p then ret i else
      let ch := pipe_front p in
      updpipe pi pipe_get ;;;
      q <- procof pr ;;
      r <- zoom (copyout (p_pagetable q) (u64 (addr + i)) [ch]) ;;
      if r =? -1 then ret i else piperead_copy k' pr pi addr (i + 1)
  end.
Definition piperead (pi addr n : Z) : M ks Z :=
  pr <- curproc ;;
  acq (pipe_lock pi) ;;;
  go <- piperead_wait (S swtch_wakeups) pr pi ;;
  if negb go then ret (-1) else
  i <- piperead_copy (Z.to_nat n) pr pi addr 0 ;;
  wake (ch_pipe_nwrite pi) ;;;
  rel (pipe_lock pi) ;;;
  ret i.

(** * file.c *)

Definition fileinit : M ks unit := zoom (initlock ftable_lock "ftable").

Definition filealloc : M ks (option nat) :=
  acq ftable_lock ;;;
  r <- for_find (seq 0 NFILE) (fun f =>
    fl <- getfile f ;;
    if f_ref fl =? 0 then updfile f (set_f_ref 1) ;;; ret (Some f) else ret None) ;;
  rel ftable_lock ;;;
  ret r.

Definition filedup (f : nat) : M ks nat :=
  acq ftable_lock ;;;
  fl <- getfile f ;;
  if f_ref fl <? 1 then panic "filedup" else
  updfile f (set_f_ref (s32 (f_ref fl + 1))) ;;;
  rel ftable_lock ;;;
  ret f.

Definition fileclose (f : nat) : M ks unit :=
  acq ftable_lock ;;;
  fl <- getfile f ;;
  if f_ref fl <? 1 then panic "fileclose" else
  updfile f (set_f_ref (f_ref fl - 1)) ;;;
  if 0 <? f_ref fl - 1 then rel ftable_lock else
  ff <- getfile f ;;
  updfile f (set_f_ref 0) ;;;
  updfile f (set_f_type FD_NONE) ;;;
  rel ftable_lock ;;;
  match f_type ff with
  | FD_PIPE => pipeclose (f_pipe ff) (f_writable ff)
  | FD_INODE | FD_DEVICE =>
      begin_op ;;;
      match f_ip ff with Some ip => iput ip | None => undef end ;;;
      end_op
  | FD_NONE => ret tt
  end.

Definition filestat (f : nat) (addr : Z) : M ks Z :=
  p <- curproc ;;
  fl <- getfile f ;;
  match f_type fl with
  | FD_INODE | FD_DEVICE =>
      ilock_ptr (f_ip fl) ;;;
      st <- match f_ip fl with Some ip => stati ip | None => undef end ;;
      iunlock_ptr (f_ip fl) ;;;
      pr <- procof p ;;
      r <- zoom (copyout (p_pagetable pr) addr st) ;;
      if r <? 0 then ret (-1) else ret 0
  | _ => ret (-1)
  end.

(** [f->major < 0 || f->major >= NDEV || !devsw[f->major].read] *)
Definition find_device (major : Z) : M ks (option device) :=
  if (major <? 0) || (NDEV <=? major) then ret None else gets (fun k => k_devsw k major).

Definition fileread (f : nat) (addr n : Z) : M ks Z :=
  fl <- getfile f ;;
  if negb (f_readable fl) then ret (-1) else
  match f_type fl with
  | FD_PIPE => piperead (f_pipe fl) addr n
  | FD_DEVICE =>
      d <- find_device (f_major fl) ;;
      match d with
      | None => ret (-1)
      | Some dev_console => consoleread true addr n
      end
  | FD_INODE =>
      ilock_ptr (f_ip fl) ;;;
      fl <- getfile f ;;
      r <- match f_ip fl with
           | Some ip => readi ip (to_user addr) (f_off fl) (u32 n)
           | None => undef
           end ;;
      let r := s32 (fst r) in
      (if 0 <? r then updfile f (set_f_off (u32 (f_off fl + r))) else ret tt) ;;;
      iunlock_ptr (f_ip fl) ;;;
      ret r
  | FD_NONE => panic "fileread"
  end.

(** ((MAXOPBLOCKS-1-1-2) / 2) * BSIZE *)
Definition FILEWRITE_MAX : Z := ((MAXOPBLOCKS - 1 - 1 - 2) / 2) * BSIZE.

(** The [while(i < n)] of filewrite: the final [i]. *)
Fixpoint filewrite_loop (fuel : nat) (f : nat) (addr n i : Z) : M ks Z :=
  match fuel with
  | O => spin
  | S fu =>
      if negb (i <? n) then ret i else
      let n1 := if FILEWRITE_MAX <? n - i then FILEWRITE_MAX else n - i in
      begin_op ;;;
      fl <- getfile f ;;
      ilock_ptr (f_ip fl) ;;;
      fl <- getfile f ;;
      r <- match f_ip fl with
           | Some ip => writei ip (from_user (u64 (addr + i))) (f_off fl) (u32 n1)
           | None => undef
           end ;;
      let r := s32 r in
      (if 0 <? r then updfile f (set_f_off (u32 (f_off fl + r))) else ret tt) ;;;
      iunlock_ptr (f_ip fl) ;;;
      end_op ;;;
      if negb (r =? n1) then ret i else filewrite_loop fu f addr n (i + r)
  end.
Definition filewrite (f : nat) (addr n : Z) : M ks Z :=
  fl <- getfile f ;;
  if negb (f_writable fl) then ret (-1) else
  match f_type fl with
  | FD_PIPE => pipewrite (f_pipe fl) addr n
  | FD_DEVICE =>
      d <- find_device (f_major fl) ;;
      match d with
      | None => ret (-1)
      | Some dev_console => consolewrite true addr n
      end
  | FD_INODE =>
      i <- filewrite_loop (S (Z.to_nat n)) f addr n 0 ;;
      ret (if i =? n then n else -1)
  | FD_NONE => panic "filewrite"
  end.

(** The [bad:] label of pipealloc. *)
Definition pipealloc_bad (pi : Z) (f0 f1 : option nat) : M ks (option (nat * nat)) :=
  (if negb (pi =? 0) then zoom (kfree pi) else ret tt) ;;;
  match f0 with Some f => fileclose f | None => ret tt end ;;;
  match f1 with Some f => fileclose f | None => ret tt end ;;;
  ret None.

(** The two ends, or [None] for the result -1. *)
Definition pipealloc : M ks (option (nat * nat)) :=
  f0 <- filealloc ;;
  match f0 with
  | None => pipealloc_bad 0 None None
  | Some r =>
      f1 <- filealloc ;;
      match f1 with
      | None => pipealloc_bad 0 (Some r) None
      | Some w =>
          pi <- zoom kalloc ;;
          if pi =? 0 then pipealloc_bad 0 (Some r) (Some w) else
          updpipe pi (fun p => mkPipe (pi_data p) 0 0 true true) ;;;
          zoom (initlock (pipe_lock pi) "pipe") ;;;
          updfile r (fun f => mkFile FD_PIPE (f_ref f) true false pi (f_ip f) (f_off f) (f_major f)) ;;;
          updfile w (fun f => mkFile FD_PIPE (f_ref f) false true pi (f_ip f) (f_off f) (f_major f)) ;;;
          ret (Some (r, w))
      end
  end.

End file.
