(* ===== verification/Pipes.v ===== *)
(** Pipes as queues: the ring and the two wrapping counters of kernel/pipe.c
    hold a list of at most PIPESIZE bytes, pipewrite appends to it what the
    writer's memory holds and piperead moves its front to the reader's memory. *)

From Stdlib Require Import ZArith Lia List String Bool.
From stdpp Require Import base tactics numbers list functions sets.
From S2P Require Import Prelude.
From S2P Require Import Spinlock.
From S2P Require Import Cstring.
From S2P Require Import Kalloc.
From S2P Require Import Vm.
From S2P Require Import Pagetable.
From S2P Require Import Usermem.
From S2P Require Import Proc.
From S2P Require Import Sched.
From S2P Require Import Abi.
From S2P Require Import Kstate.
From S2P Require Import Bytes.
From S2P Require Import Bio.
From S2P Require Import Ksection.
From S2P Require Import Ring.
From S2P Require Import Usersec.
From S2P Require Import File.

(** * The ring *)

Definition pipe_count (p : pipe) : nat := Z.to_nat (ahead (2 ^ 32) (pi_nread p) (pi_nwrite p)).

(** The bytes in the pipe, oldest first. *)
Definition queue (p : pipe) : list Z := slots PIPESIZE (pi_data p) (pi_nread p) (pipe_count p).

Record pipe_wf (p : pipe) : Prop := {
  pw_data : length (pi_data p) = Z.to_nat PIPESIZE;
  pw_nread : 0 <= pi_nread p < 2 ^ 32;
  pw_nwrite : 0 <= pi_nwrite p < 2 ^ 32;
  pw_count : (pipe_count p <= Z.to_nat PIPESIZE)%nat
}.

Lemma queue_length p : length (queue p) = pipe_count p.
Proof. apply slots_length. Qed.

Lemma pipe_full_spec p : pipe_wf p -> pipe_full p = true <-> length (queue p) = Z.to_nat PIPESIZE.
Proof.
  intros [_ Hr Hw Hn]. rewrite queue_length. unfold pipe_full, pipe_count, u32, PIPESIZE in *. rewrite Z.eqb_eq.
  pose proof (ahead_range (2 ^ 32) ltac:(lia) (pi_nread p) (pi_nwrite p)) as Ha. split.
  - intros ->. rewrite ahead_move, ahead_refl; rewrite ?ahead_refl; lia.
  - intros E. symmetry. apply (ahead_0 (2 ^ 32) ltac:(lia)); [by apply Z.mod_pos_bound|done|].
    rewrite ahead_follow; lia.
Qed.

Lemma pipe_empty_spec p : pipe_wf p -> pipe_empty p = true <-> queue p = [].
Proof.
  intros [_ Hr Hw Hn]. rewrite <-length_zero_iff_nil, queue_length. unfold pipe_empty, pipe_count. rewrite Z.eqb_eq.
  pose proof (ahead_range (2 ^ 32) ltac:(lia) (pi_nread p) (pi_nwrite p)).
  rewrite <-(ahead_0 (2 ^ 32)) by lia. lia.
Qed.

Lemma pipe_not_full p : pipe_wf p -> pipe_full p = false -> (pipe_count p < Z.to_nat PIPESIZE)%nat.
Proof.
  intros Hp Hf. assert (length (queue p) <> Z.to_nat PIPESIZE) as Hne by (rewrite <-pipe_full_spec by done; congruence).
  rewrite queue_length in Hne. destruct Hp. lia.
Qed.

Lemma count_put ch p : pipe_wf p -> pipe_full p = false -> pipe_count (pipe_put ch p) = S (pipe_count p).
Proof.
  intros Hp Hf%pipe_not_full; [|done]. unfold pipe_count in *. cbn [pipe_put pi_nwrite pi_nread set_pi_nwrite set_pi_data].
  pose proof (ahead_range (2 ^ 32) ltac:(lia) (pi_nread p) (pi_nwrite p)).
  unfold u32, PIPESIZE in *. rewrite ahead_move; lia.
Qed.

Lemma pipe_put_wf ch p : pipe_wf p -> pipe_full p = false -> pipe_wf (pipe_put ch p).
Proof.
  intros Hp Hf. pose proof (count_put ch p Hp Hf) as E. apply pipe_not_full in Hf; [|done]. destruct Hp as [Hd Hr Hw Hn].
  split; [by simpl; rewrite length_insert|done|apply u32_bound|rewrite E; lia].
Qed.

Lemma pipe_put_queue ch p : pipe_wf p -> pipe_full p = false -> queue (pipe_put ch p) = queue p ++ [ch].
Proof.
  intros Hp Hf. unfold queue. rewrite (count_put ch p Hp Hf). apply pipe_not_full in Hf; [|done].
  apply slots_put_snoc; unfold PIPESIZE in *; [lia|apply Hp|lia|].
  apply ahead_slot; [lia|]. by exists 8388608.
Qed.

Lemma count_get p : pipe_wf p -> pipe_empty p = false -> S (pipe_count (pipe_get p)) = pipe_count p.
Proof.
  intros Hp He. assert (queue p <> []) as Hne by (rewrite <-pipe_empty_spec by done; congruence).
  rewrite <-length_zero_iff_nil, queue_length in Hne. unfold pipe_count in *. cbn [pipe_get pi_nwrite pi_nread set_pi_nread].
  pose proof (ahead_range (2 ^ 32) ltac:(lia) (pi_nread p) (pi_nwrite p)).
  unfold u32. rewrite ahead_follow; lia.
Qed.

Lemma pipe_get_wf p : pipe_wf p -> pipe_empty p = false -> pipe_wf (pipe_get p).
Proof.
  intros Hp He. pose proof (count_get p Hp He). destruct Hp as [Hd Hr Hw Hn].
  split; [done|apply u32_bound|done|lia].
Qed.

Lemma pipe_get_queue p : pipe_wf p -> pipe_empty p = false ->
  queue p = pipe_front p :: queue (pipe_get p).
Proof.
  intros Hp He. unfold queue. rewrite <-(count_get p Hp He), slots_cons. f_equal.
  symmetry. apply slots_wrap. by exists 8388608.
Qed.

(** ** Any order of puts and gets *)

Inductive pipe_op := Put (ch : Z) | Get.

(** What the guards of the two loops let happen: the pipe afterwards and the
    byte taken. *)
Definition pipe_step (o : pipe_op) (p : pipe) : pipe * list Z :=
  match o with
  | Put ch => if pipe_full p then (p, []) else (pipe_put ch p, [])
  | Get => if pipe_empty p then (p, []) else (pipe_get p, [pipe_front p])
  end.

(** The bytes that went in, the bytes that came out, and the pipe. *)
Fixpoint pipe_run (os : list pipe_op) (p : pipe) : list Z * list Z * pipe :=
  match os with
  | [] => ([], [], p)
  | o :: os =>
      let '(p1, out) := pipe_step o p in
      let '(puts, gets, p2) := pipe_run os p1 in
      (match o with Put ch => if pipe_full p then puts else ch :: puts | Get => puts end, out ++ gets, p2)
  end.

Definition pipe_new (data : list Z) : pipe := mkPipe data 0 0 true true.

Lemma pipe_new_wf data : length data = Z.to_nat PIPESIZE -> pipe_wf (pipe_new data) /\ queue (pipe_new data) = [].
Proof. intros H. split; [|done]. split; simpl; [done|lia|lia|]. vm_compute. lia. Qed.

Lemma pipe_run_ok os : forall p puts gets p', pipe_wf p -> pipe_run os p = (puts, gets, p') ->
  pipe_wf p' /\ queue p ++ puts = gets ++ queue p'.
Proof.
  induction os as [|o os IH]; intros p puts gets p' Hp E; simpl in E.
  { simplify_eq. by rewrite app_nil_r. }
  destruct (pipe_step o p) as [p1 out] eqn:Es.
  destruct (pipe_run os p1) as [[puts1 gets1] p2] eqn:Er. simplify_eq.
  destruct o as [ch|]; simpl in Es.
  - destruct (pipe_full p) eqn:Ef; simplify_eq/=; [by eapply IH|].
    destruct (IH _ _ _ _ (pipe_put_wf ch p Hp Ef) Er) as [Hw Hq]. split; [done|].
    rewrite <-Hq, (pipe_put_queue ch p Hp Ef), <-(assoc_L (++)). done.
  - destruct (pipe_empty p) eqn:Ee; simplify_eq/=; [by eapply IH|].
    destruct (IH _ _ _ _ (pipe_get_wf p Hp Ee) Er) as [Hw Hq]. split; [done|].
    by rewrite (pipe_get_queue p Hp Ee), <-Hq.
Qed.

(** C13: a pipe is a FIFO.  In whatever order bytes are put into it and taken
    out, and however often the counters wrap around, the bytes taken followed by
    those still in the ring are the bytes put in, the ring never holds more than
    PIPESIZE of them, and reading is possible exactly when one of them is left. *)
Theorem pipe_fifo os data puts gets p :
  length data = Z.to_nat PIPESIZE -> pipe_run os (pipe_new data) = (puts, gets, p) ->
  puts = gets ++ queue p /\ (length (queue p) <= Z.to_nat PIPESIZE)%nat /\
  (pipe_empty p = true <-> puts = gets) /\ (pipe_full p = true <-> length puts = (length gets + Z.to_nat PIPESIZE)%nat).
Proof.
  intros Hd E. destruct (pipe_new_wf data Hd) as [Hw Hq].
  destruct (pipe_run_ok os _ _ _ _ Hw E) as [Hp Hrun]. rewrite Hq in Hrun. simpl in Hrun. subst puts.
  split; [done|]. split; [rewrite queue_length; apply Hp|]. split.
  - rewrite pipe_empty_spec by done. split; [intros ->; by rewrite app_nil_r|].
    intros Ha. by apply (app_inv_head gets); rewrite app_nil_r.
  - rewrite pipe_full_spec, length_app by done. lia.
Qed.

(** * The calls *)

Section calls.
Context {img : Image} {imgok : ImageOk img} `{Swtch ks}.

Definition with_pipe (pi : Z) (p : pipe) (k : ks) : ks :=
  set_k_pipes (<[pi := p]> (k_pipes k)) k.

Lemma in_pipe_with k pi m p l T q : in_section k (pipe_lock pi) m p l T -> in_section (with_pipe pi q k) (pipe_lock pi) m p l T.
Proof. by intros []. Qed.

Lemma with_pipe_lookup pi p k : k_pipes (with_pipe pi p k) pi = p.
Proof. simpl. apply fn_lookup_insert. Qed.

Lemma with_pipe_twice pi p q k : with_pipe pi p (with_pipe pi q k) = with_pipe pi p k.
Proof. unfold with_pipe. destruct k. simpl. unfold set_k_pipes. simpl. by rewrite fn_insert_insert. Qed.

Lemma with_pipe_id pi k : with_pipe pi (k_pipes k pi) k = k.
Proof. unfold with_pipe. rewrite fn_insert_id by done. by destruct k. Qed.

(** [p'] is [p] with the first [c] bytes of the user's [n] at [a] appended; it
    stopped at the end or at an address that the user may not read. *)
Record took (T : list Z -> option Z) (m : mem) (a n c : Z) (p p' : pipe) : Prop := {
  tk_range : 0 <= c <= n;
  tk_wf : pipe_wf p';
  tk_queue : queue p' = queue p ++ user_bytes T m a (Z.to_nat c);
  tk_open : pi_readopen p' = pi_readopen p /\ pi_writeopen p' = pi_writeopen p;
  tk_readable : forall x, a <= x < a + c -> readable T m x;
  tk_stop : c = n \/ ~ readable T m (a + c)
}.

Lemma took_none T m a n p : 0 <= n -> pipe_wf p -> n = 0 \/ ~ readable T m a -> took T m a n 0 p p.
Proof.
  intros Hn Hp Hs. split; [lia|done|by rewrite app_nil_r|done|lia|]. rewrite Z.add_0_r. destruct Hs; [left; lia|by right].
Qed.

Lemma took_byte T m a n c p p' :
  0 < n -> pipe_wf p -> pipe_full p = false -> readable T m a ->
  took T m (a + 1) (n - 1) c (pipe_put (user_byte T m a) p) p' -> took T m a n (c + 1) p p'.
Proof.
  intros Hn Hp Hf Ha [Hr Hw Hq Ho Hrd Hst]. split; [lia|done| |done| |].
  - rewrite Hq, pipe_put_queue, <-(assoc_L (++)) by done. f_equal.
    replace (Z.to_nat (c + 1)) with (1 + Z.to_nat c)%nat by lia. rewrite user_bytes_app. f_equal.
    unfold user_bytes. simpl. by rewrite Z.add_0_r.
  - intros x Hx. destruct (decide (x = a)) as [->|]; [done|]. apply Hrd. lia.
  - destruct Hst as [->|Hst]; [left; lia|right]. by replace (a + (c + 1)) with (a + 1 + c) by lia.
Qed.

Lemma pipewrite_loop_ok fuel pi addr n m p l T : 0 <= addr -> addr + n <= 2 ^ 64 -> forall i k,
  in_section k (pipe_lock pi) m p l T -> pipe_wf (k_pipes k pi) -> pi_readopen (k_pipes k pi) = true ->
  0 <= i <= n -> (Z.to_nat (n - i) < fuel)%nat ->
  Z.of_nat (length (queue (k_pipes k pi))) + (n - i) <= PIPESIZE ->
  exists c p', pipewrite_loop fuel p pi addr n i k = Ok (inr (i + c)) (with_pipe pi p' k) /\
    took T (km_mem (ps_kmem (k_ps k))) (addr + i) (n - i) c (k_pipes k pi) p'.
Proof.
  intros Ha Hmax. induction fuel as [|f IH]; intros i k Hk Hp Ho Hi Hfuel Hroom; [lia|].
  cbn [pipewrite_loop]. destruct (Z.ltb_spec i n) as [Hin|Hin]; cbn [negb].
  2:{ exists 0, (k_pipes k pi). rewrite with_pipe_id, Z.add_0_r. split; [done|].
      apply took_none; [lia|done|left; lia]. }
  rewrite (bind_Ok (getpipe pi) _ k (k_pipes k pi) k eq_refl), Ho. cbn [negb]. rewrite bind_assoc.
  rewrite (bind_Ok _ _ _ _ _ (killed_section _ _ p k (ip_settled _ _ _ _ _ _ Hk) (ip_mach _ _ _ _ _ _ Hk) ltac:(done))).
  rewrite (ip_killed _ _ _ _ _ _ Hk), bind_ret. cbn [Z.eqb negb].
  assert (Hf : pipe_full (k_pipes k pi) = false).
  { apply not_true_iff_false. rewrite pipe_full_spec by done. unfold PIPESIZE in *. lia. }
  rewrite Hf, (bind_Ok (procof p) _ k _ k eq_refl), (u64_small (addr + i)) by lia.
  destruct (copyin_byte k (pipe_lock pi) m p l T (addr + i) Hk ltac:(lia)) as (r & E & Hr).
  rewrite (bind_Ok _ _ _ _ _ E). destruct r as [bs|].
  2:{ exists 0, (k_pipes k pi). rewrite with_pipe_id, Z.add_0_r. split; [done|].
      apply took_none; [lia|done|by right]. }
  destruct Hr as [Hrd ->]. set (ch := user_byte T _ (addr + i)).
  unfold updpipe, modify, bind.
  destruct (IH (i + 1) (with_pipe pi (pipe_put ch (k_pipes k pi)) k)) as (c & p' & E' & Ht);
    rewrite ?with_pipe_lookup in *; try done.
  - by apply in_pipe_with.
  - by apply pipe_put_wf.
  - lia.
  - lia.
  - rewrite pipe_put_queue, length_app by done. simpl. lia.
  - exists (c + 1), p'. rewrite with_pipe_twice in E'. split.
    + replace (i + (c + 1)) with (i + 1 + c) by lia. exact E'.
    + apply took_byte; [lia|done|done|done|].
      replace (addr + i + 1) with (addr + (i + 1)) by lia. replace (n - i - 1) with (n - (i + 1)) by lia. exact Ht.
Qed.

(** [c] bytes of [p] are in the user's memory from [a] on and [d] have left the
    pipe: as many as there are or are wanted, or up to an address that the user
    may not write, whose byte is lost. *)
Record gave (T : list Z -> option Z) (l : list Z) (s : kmem) (a n c : Z) (p p' : pipe) (s' : kmem) : Prop := {
  gv_range : 0 <= c <= Z.min n (Z.of_nat (length (queue p)));
  gv_wf : pipe_wf p';
  gv_open : pi_readopen p' = pi_readopen p /\ pi_writeopen p' = pi_writeopen p;
  gv_written : written s l T a (take (Z.to_nat c) (queue p)) s';
  gv_storable : forall x, a <= x < a + c -> storable T (km_mem s) x;
  gv_stop :
    (c = Z.min n (Z.of_nat (length (queue p))) /\ queue p' = drop (Z.to_nat c) (queue p)) \/
    (c < Z.min n (Z.of_nat (length (queue p))) /\ ~ storable T (km_mem s) (a + c) /\
     queue p' = drop (Z.to_nat (c + 1)) (queue p))
}.

Lemma gave_none T l s a n p : 0 <= n -> uinv s l T -> pipe_wf p -> n = 0 \/ queue p = [] -> gave T l s a n 0 p p s.
Proof.
  intros Hn Hu Hp Hs. split; [lia|done|done|by apply written_nil|lia|]. left. split; [|done].
  destruct Hs as [->| ->]; simpl; lia.
Qed.

Lemma gave_lost T l s s' a n p : 0 < n -> written s l T a [] s' -> pipe_wf p -> pipe_empty p = false ->
  ~ storable T (km_mem s) a -> gave T l s a n 0 p (pipe_get p) s'.
Proof.
  intros Hn Hw Hp He Ha. pose proof (pipe_get_queue p Hp He) as Hq.
  split; [lia|by apply pipe_get_wf|done|done|lia|].
  right. rewrite Hq, Z.add_0_r. simpl. split_and!; [lia|done|done].
Qed.

Lemma gave_byte T l s s1 a n c p p' s' :
  0 < n -> pipe_wf p -> pipe_empty p = false -> storable T (km_mem s) a -> written s l T a [pipe_front p] s1 ->
  gave T l s1 (a + 1) (n - 1) c (pipe_get p) p' s' -> gave T l s a n (c + 1) p p' s'.
Proof.
  intros Hn Hp He Ha Hw [Hr Hwf Ho Hwr Hst Hstop]. pose proof (pipe_get_queue p Hp He) as Hq.
  assert (El : length (queue p) = S (length (queue (pipe_get p)))) by (by rewrite Hq).
  assert (Ec : Z.to_nat (c + 1) = S (Z.to_nat c)) by lia.
  split; [lia|done|done| | |].
  - rewrite Ec, Hq. simpl. by apply (written_app s l T a [pipe_front p] s1).
  - intros x Hx. destruct (decide (x = a)) as [->|]; [done|].
    apply (writable_same s l T a _ s1 x Hw), Hst. lia.
  - rewrite El, Ec. destruct Hstop as [[-> Hd]|(Hc & Hno & Hd)]; [left|right].
    + split; [lia|]. by rewrite Hd, Hq.
    + split_and!; [lia| |].
      * rewrite <-(writable_same s l T a _ s1 _ Hw). by replace (a + (c + 1)) with (a + 1 + c) by lia.
      * rewrite Hd, Hq. replace (Z.to_nat (c + 1 + 1)) with (S (Z.to_nat (c + 1))) by lia. done.
Qed.

Lemma piperead_copy_ok j pi addr m p l T : 0 <= addr -> forall i k,
  addr + i + Z.of_nat j <= 2 ^ 64 -> 0 <= i -> in_section k (pipe_lock pi) m p l T -> pipe_wf (k_pipes k pi) ->
  exists c p' s', piperead_copy j p pi addr i k = Ok (i + c) (with_pipe pi p' (with_kmem s' k)) /\
    gave T l (ps_kmem (k_ps k)) (addr + i) (Z.of_nat j) c (k_pipes k pi) p' s'.
Proof.
  intros Ha. induction j as [|j IH]; intros i k Hmax Hi Hk Hp; cbn [piperead_copy].
  { exists 0, (k_pipes k pi), (ps_kmem (k_ps k)). rewrite Z.add_0_r. split.
    - unfold ret. f_equal. unfold with_pipe, with_kmem. rewrite fn_insert_id by done. by destruct k as [[]].
    - apply gave_none; [lia|apply Hk|done|by left]. }
  rewrite (bind_Ok (getpipe pi) _ k (k_pipes k pi) k eq_refl).
  destruct (pipe_empty (k_pipes k pi)) eqn:He.
  { exists 0, (k_pipes k pi), (ps_kmem (k_ps k)). rewrite Z.add_0_r. split.
    - unfold ret. f_equal. unfold with_pipe, with_kmem. rewrite fn_insert_id by done. by destruct k as [[]].
    - apply gave_none; [lia|apply Hk|done|right]. by apply pipe_empty_spec. }
  cbv zeta. set (k1 := with_pipe pi (pipe_get (k_pipes k pi)) k).
  rewrite (bind_Ok (updpipe pi pipe_get) _ k tt k1 eq_refl).
  rewrite (bind_Ok (procof p) _ k1 _ k1 eq_refl), (u64_small (addr + i)) by lia.
  destruct (copyout_byte k1 (pipe_lock pi) m p l T (addr + i) (pipe_front (k_pipes k pi))) as (r & s1 & E & Hc);
    [by apply in_pipe_with|lia|].
  rewrite (bind_Ok _ _ _ _ _ E). destruct Hc as [(-> & Hst & Hw)|(-> & Hst & Hw)]; cbn [Z.eqb].
  - destruct (IH (i + 1) (with_kmem s1 k1)) as (c & p' & s' & E' & Hg); try lia.
    { apply in_section_kmem; [by apply in_pipe_with|apply Hw|apply Hw]. }
    { unfold k1. simpl. rewrite fn_lookup_insert. by apply pipe_get_wf. }
    exists (c + 1), p', s'. split.
    + change (0 =? -1) with false. rewrite E'. f_equal; [lia|].
      unfold with_pipe, with_kmem, k1. destruct k as [[]]. simpl. unfold set_k_pipes. simpl. by rewrite fn_insert_insert.
    + apply (gave_byte _ _ _ s1); [lia|done|done|done|done|].
      replace (addr + i + 1) with (addr + (i + 1)) by lia. replace (Z.of_nat (S j) - 1) with (Z.of_nat j) by lia.
      revert Hg. unfold k1. simpl. by rewrite fn_lookup_insert.
  - exists 0, (pipe_get (k_pipes k pi)), s1. rewrite Z.add_0_r. split; [done|].
    by apply gave_lost; [lia| | | |].
Qed.

Lemma gave_mach T l s a n c p p' s' m' :
  gave T l (mkKmem m' (km_mem s) (km_freelist s)) a n c p p' s' -> settled (km_mach s) ->
  gave T l s a n c p p' (mkKmem (km_mach s) (km_mem s') (km_freelist s')).
Proof.
  intros [Hr Hwf Ho Hw Hst Hstop] Hs. split; try done.
  eapply written_mach; [done|by apply settled_noff|apply Hs|done].
Qed.


(** C14: piperead by a live process, when there is something to read or the
    writer is gone.  It moves the front of the queue to the process's memory and
    returns the number of bytes moved: as many as there are, at most [n], unless
    it comes to an address that the process may not write, whose byte is lost. *)
Theorem piperead_spec k p pid l T pi addr n :
  user_running k p pid l T -> pipe_wf (k_pipes k pi) -> 0 <= addr -> 0 <= n -> addr + n <= 2 ^ 64 ->
  queue (k_pipes k pi) <> [] \/ pi_writeopen (k_pipes k pi) = false ->
  exists c p' s', piperead pi addr n k = Ok c (wake_all (ch_pipe_nwrite pi) (with_pipe pi p' (with_kmem s' k))) /\
    gave T l (ps_kmem (k_ps k)) addr n c (k_pipes k pi) p' s'.
Proof.
  intros Hu Hp Ha Hn Hmax Hgo. pose proof (user_enters k p pid l T (pipe_lock pi) ltac:(done) Hu) as Hin.
  destruct (ur_running _ _ _ _ _ Hu) as [Hs Hc Hpid].
  unfold piperead. rewrite (bind_Ok _ _ _ _ _ (curproc_running k p pid (ur_running _ _ _ _ _ Hu))).
  rewrite (bind_Ok _ _ _ _ _ (acq_eq _ _ Hs)).
  set (k1 := set_kmach (acquired (pipe_lock pi) (kmach k)) k) in *.
  assert (Hw : piperead_wait (S swtch_wakeups) p pi k1 = Ok true k1).
  { cbn [piperead_wait]. rewrite (bind_Ok (getpipe pi) _ k1 (k_pipes k pi) k1 eq_refl).
    destruct (pipe_empty (k_pipes k pi)) eqn:He; [|done]. apply pipe_empty_spec in He; [|done].
    destruct Hgo as [?| ->]; done. }
  rewrite (bind_Ok _ _ _ _ _ Hw). cbn [negb].
  destruct (piperead_copy_ok (Z.to_nat n) pi addr _ p l T Ha 0 k1 ltac:(lia) ltac:(lia) Hin Hp) as (c & p' & s' & E & Hg).
  rewrite (bind_Ok _ _ _ _ _ E). rewrite Z.add_0_l, Z.add_0_r, Z2Nat.id in * by done.
  pose proof (wr_mach _ _ _ _ _ _ (gv_written _ _ _ _ _ _ _ _ _ Hg)) as Hm.
  apply (gave_mach T l (ps_kmem (k_ps k))) in Hg; [|done].
  exists c, p', (mkKmem (km_mach (ps_kmem (k_ps k))) (km_mem s') (km_freelist s')). split; [|exact Hg].
  set (kr := with_pipe pi p' (with_kmem (mkKmem _ (km_mem s') _) k)).
  replace (with_pipe pi p' (with_kmem s' k1)) with (set_kmach (acquired (pipe_lock pi) (kmach kr)) kr).
  - by apply leave_section.
  - destruct s' as [ms' ? ?]. simpl in Hm. subst ms'. by destruct k as [[]].
Qed.

End calls.

(** * Witnesses *)

Definition user_ks (p : pipe) : ks := with_pipe 8192 p (set_k_ps user_pst ks0).

Lemma pipe0_wf : pipe_wf pipe0.
Proof. apply (pipe_new_wf (replicate 512 0)). done. Qed.

Lemma pipe_fifo_witness : [7; 8] = [7] ++ queue (pipe_run [Put 7; Get; Get; Put 8] (pipe_new (replicate 512 0))).2.
Proof.
  destruct (pipe_fifo [Put 7; Get; Get; Put 8] (replicate 512 0) [7; 8] [7] _ eq_refl eq_refl) as [E _]. exact E.
Defined.


Lemma piperead_spec_witness :
  exists c p' s', piperead (H := swtch_ks) 8192 100 4 (user_ks (pipe_put 65 pipe0)) =
    Ok c (wake_all (ch_pipe_nwrite 8192) (with_pipe 8192 p' (with_kmem s' (user_ks (pipe_put 65 pipe0))))).
Proof.
  destruct (piperead_spec (img := image1) (H := swtch_ks) (user_ks (pipe_put 65 pipe0)) 2 5 [] pt_tables0 8192 100 4
    (user_pst_running (user_ks _) eq_refl) (pipe_put_wf 65 pipe0 pipe0_wf eq_refl)) as (c & p' & s' & E & _); [lia|lia|lia| |].
  - left. vm_compute. discriminate.
  - exists c, p', s'. exact E.
Defined.
