(* ===== verification/Uart.v ===== *)
(** kernel/uart.c: the transmit ring between uartputc and the device, and what
    console output adds to the stream of bytes sent. *)

From Stdlib Require Import ZArith Lia List String Bool.
From stdpp Require Import base tactics numbers list functions sets.
From S2P Require Import Prelude.
From S2P Require Import Spinlock.
From S2P Require Import Cstring.
From S2P Require Import Kalloc.
From S2P Require Import Vm.
From S2P Require Import Pagetable.
From S2P Require Import Usermem.
From S2P Require Import Printf.
From S2P Require Import Proc.
From S2P Require Import Sched.
From S2P Require Import Abi.
From S2P Require Import Kstate.
From S2P Require Import Bytes.
From S2P Require Import Ring.
From S2P Require Import Bio.
From S2P Require Import Ksection.
From S2P Require Import Usersec.
From S2P Require Import Console.

(** * Output inside a critical section *)

Definition emit (bs : list Z) (s : pst) : pst := set_ps_uart_out (ps_uart_out s ++ bs) s.

(** The bytes that erase one character of the screen. *)
Definition rubout : list Z := [8; 32; 8].

(** What consputc sends to the UART. *)
Definition screen (c : Z) : list Z := if c =? BACKSPACE then rubout else [u8 c].

(** The console can print: the machine is in order and has not panicked. *)
Record printing (s : pst) : Prop := {
  pg_noff : noff_ok (pmach s);
  pg_depth : c_noff (this_cpu (pmach s)) < 2 ^ 31 - 2;
  pg_tidy : tidy (pmach s) = pmach s;
  pg_alive : ps_panicked s = false
}.

Lemma emit_emit bs1 bs2 s : emit bs2 (emit bs1 s) = emit (bs1 ++ bs2) s.
Proof. destruct s. unfold emit, set_ps_uart_out. simpl. by rewrite (assoc_L (++)). Qed.

Lemma emit_nil s : emit [] s = s.
Proof. destruct s. unfold emit, set_ps_uart_out. simpl. by rewrite app_nil_r. Qed.

Lemma uartputc_sync_eq c s :
  noff_ok (pmach s) -> tidy (pmach s) = pmach s -> ps_panicked s = false -> uartputc_sync c s = Ok tt (emit [u8 c] s).
Proof.
  intros Hn Ht Hp. unfold uartputc_sync.
  rewrite (bind_Ok _ _ _ _ _ (zoom_Ok _ s _ _ (push_off_ok (pmach s) Hn))).
  unfold get, modify, bind. cbn [put ps_panicked]. simpl. rewrite Hp.
  erewrite (zoom_Ok (S := pst)); [|apply (Nesting.pop_pushed (pmach s)); done].
  rewrite Ht. f_equal. by destruct s as [[]].
Qed.

Lemma consputc_eq c s :
  noff_ok (pmach s) -> tidy (pmach s) = pmach s -> ps_panicked s = false -> consputc c s = Ok tt (emit (screen c) s).
Proof.
  intros Hn Ht Hp. unfold consputc, screen. destruct (c =? BACKSPACE); [|by apply uartputc_sync_eq].
  rewrite (bind_Ok _ _ _ _ _ (uartputc_sync_eq 8 s Hn Ht Hp)).
  rewrite (bind_Ok _ _ _ _ _ (uartputc_sync_eq 32 (emit [u8 8] s) Hn Ht Hp)).
  rewrite (uartputc_sync_eq 8 (emit [u8 32] (emit [u8 8] s)) Hn Ht Hp). by rewrite !emit_emit.
Qed.

Lemma puts_eq bs : forall s,
  noff_ok (pmach s) -> tidy (pmach s) = pmach s -> ps_panicked s = false ->
  for_each bs consputc s = Ok tt (emit (flat_map screen bs) s).
Proof.
  induction bs as [|c bs IH]; intros s Hn Ht Hp; simpl; [by rewrite emit_nil|].
  rewrite (bind_Ok _ _ _ _ _ (consputc_eq c s Hn Ht Hp)). rewrite IH by done. by rewrite emit_emit.
Qed.

Lemma printf_eq fmt args bs s :
  format (str fmt) args = Some bs -> printing s -> lock_free (pmach s) pr_lock ->
  printf fmt args s = Ok tt (emit (flat_map screen bs) s).
Proof.
  intros Hf [Hn Hd Ht Hp] Hl. unfold printf, gets, bind at 1. destruct (ps_locking s); cbn [when]; rewrite Hf.
  - rewrite (bind_Ok _ _ _ _ _ (lock_eq _ _ Hn Hl)).
    rewrite (bind_Ok _ _ _ _ _ (puts_eq bs (set_pmach (acquired pr_lock (pmach s)) s)
      (noff_ok_acquired _ _ Hn Hd) (tidy_acquired _ _ Hn) Hp)).
    rewrite (unlock_eq _ _ (pmach s)) by done. rewrite Ht. f_equal. by destruct s as [[]].
  - rewrite bind_ret. rewrite (bind_Ok _ _ _ _ _ (puts_eq bs s Hn Ht Hp)). done.
Qed.

Definition emit_k (bs : list Z) (k : ks) : ks := set_k_ps (emit bs (k_ps k)) k.

Lemma emit_k_nil k : emit_k [] k = k.
Proof. unfold emit_k. rewrite emit_nil. by destruct k. Qed.

Lemma emit_k_app bs1 bs2 k : emit_k bs2 (emit_k bs1 k) = emit_k (bs1 ++ bs2) k.
Proof. unfold emit_k. simpl. by rewrite emit_emit. Qed.

(** * The transmit ring *)

Definition tx_count (u : uart) : nat := Z.to_nat (ahead (2 ^ 64) (tx_r u) (tx_w u)).

(** The bytes that wait for the transmitter. *)
Definition tx_queue (u : uart) : list Z := slots UART_TX_BUF_SIZE (tx_buf u) (tx_r u) (tx_count u).

Record uart_wf (u : uart) : Prop := {
  uw_buf : length (tx_buf u) = Z.to_nat UART_TX_BUF_SIZE;
  uw_bytes : Forall (fun b => 0 <= b < 256) (tx_buf u);
  uw_r : 0 <= tx_r u < 2 ^ 64;
  uw_w : 0 <= tx_w u < 2 ^ 64;
  uw_count : Z.of_nat (tx_count u) <= UART_TX_BUF_SIZE
}.

Lemma tx_range u : 0 <= ahead (2 ^ 64) (tx_r u) (tx_w u) < 2 ^ 64.
Proof. apply ahead_range. lia. Qed.

Lemma tx_divides : (UART_TX_BUF_SIZE | 2 ^ 64).
Proof. by exists 576460752303423488. Qed.

Lemma tx_empty u : uart_wf u -> (tx_w u =? tx_r u) = match tx_queue u with [] => true | _ => false end.
Proof.
  intros [_ _ Hr Hw _].
  assert ((tx_w u =? tx_r u) = bool_decide (tx_count u = 0%nat)) as ->.
  { apply eq_bool_prop_intro. rewrite bool_decide_spec, Is_true_true, Z.eqb_eq.
    pose proof (ahead_0 (2 ^ 64) ltac:(lia) (tx_r u) (tx_w u) Hr Hw). pose proof (tx_range u).
    unfold tx_count. split; intros; [|symmetry]; lia. }
  unfold tx_queue. by destruct (tx_count u).
Qed.

Lemma tx_full u : uart_wf u ->
  (tx_w u =? u64 (tx_r u + UART_TX_BUF_SIZE)) = (Z.of_nat (length (tx_queue u)) =? UART_TX_BUF_SIZE).
Proof.
  intros [_ _ Hr Hw Hn]. unfold tx_queue. rewrite slots_length. unfold tx_count, u64, UART_TX_BUF_SIZE in *.
  pose proof (tx_range u). apply eq_bool_prop_intro. rewrite !Is_true_true, !Z.eqb_eq. split.
  - intros ->. rewrite ahead_move; rewrite ?ahead_refl; lia.
  - intros E. symmetry. apply (ahead_0 (2 ^ 64) ltac:(lia)); [by apply Z.mod_pos_bound|done|].
    rewrite ahead_follow; lia.
Qed.

Definition tx_put (c : Z) (u : uart) : uart :=
  set_tx_w (u64 (tx_w u + 1)) (set_tx_buf (<[Z.to_nat (tx_w u mod UART_TX_BUF_SIZE) := u8 c]> (tx_buf u)) u).
Definition tx_get (u : uart) : uart := set_tx_r (u64 (tx_r u + 1)) u.

Lemma tx_put_ok c u : uart_wf u -> Z.of_nat (length (tx_queue u)) < UART_TX_BUF_SIZE ->
  uart_wf (tx_put c u) /\ tx_queue (tx_put c u) = tx_queue u ++ [u8 c].
Proof.
  intros [Hb Hy Hr Hw Hn]. unfold tx_queue. rewrite slots_length. intros Hlt.
  assert (En : tx_count (tx_put c u) = S (tx_count u)).
  { unfold tx_count in *. cbn [tx_put tx_w tx_r set_tx_w set_tx_buf]. pose proof (tx_range u).
    unfold u64, UART_TX_BUF_SIZE in *. rewrite ahead_move; lia. }
  rewrite En. split.
  - split; [by simpl; rewrite length_insert| |done|apply u64_bound|rewrite En; lia].
    simpl. apply Forall_insert; [done|apply u8_bound].
  - cbn [tx_put tx_buf tx_r set_tx_w set_tx_buf]. apply slots_put_snoc; [done|done|done|].
    apply ahead_slot; [lia|apply tx_divides].
Qed.

Lemma tx_get_ok u c q : uart_wf u -> tx_queue u = c :: q ->
  at_Z (tx_buf u) (tx_r u mod UART_TX_BUF_SIZE) = c /\ 0 <= c < 256 /\ uart_wf (tx_get u) /\ tx_queue (tx_get u) = q.
Proof.
  intros [Hb Hy Hr Hw Hn]. unfold tx_queue. intros Eq.
  assert (En : tx_count u = S (tx_count (tx_get u))).
  { assert (tx_count u <> 0%nat) as Hne by (intros E; by rewrite E in Eq).
    unfold tx_count in *. cbn [tx_get tx_w tx_r set_tx_r]. pose proof (tx_range u).
    unfold u64, UART_TX_BUF_SIZE in *. rewrite ahead_follow; lia. }
  rewrite En, slots_cons in Eq. injection Eq as Ec <-. split; [done|]. split; [|split].
  - rewrite <-Ec. unfold at_Z. rewrite nth_lookup. destruct (tx_buf u !! _) as [b|] eqn:Eb; simpl; [|lia].
    by eapply Forall_lookup_1 in Hy.
  - split; [done|done|apply u64_bound|done|lia].
  - cbn [tx_get tx_buf tx_r set_tx_r]. apply slots_wrap, tx_divides.
Qed.

(** How many of [n] waiting bytes are sent before the transmitter is found busy. *)
Fixpoint idle_run (n : nat) (idle : list bool) : nat :=
  match n with
  | O => O
  | S n' => match idle with [] => n | true :: l => S (idle_run n' l) | false :: _ => O end
  end.

(** [j] bytes have left the ring. *)
Record sent (j : nat) (u u' : uart) : Prop := {
  st_wf : uart_wf u';
  st_queue : tx_queue u' = drop j (tx_queue u);
  st_count : j = idle_run (length (tx_queue u)) (lsr_idle u);
  st_idle : lsr_idle u = [] -> lsr_idle u' = [];
  st_rest : rx_fifo u' = rx_fifo u /\ uart_ctl u' = uart_ctl u
}.

Section uart.
Context {img : Image} {imgok : ImageOk img} `{Swtch ks}.

(** What the device and the sleepers see of it. *)
Definition drained (j : nat) (u' : uart) (k : ks) : ks :=
  let k' := set_k_uart u' (emit_k (take j (tx_queue (k_uart k))) k) in
  match j with O => k' | _ => wake_all ch_uart_tx_r k' end.

Lemma drained_S j u' k u2 c q : tx_queue (k_uart k) = c :: q -> tx_queue u2 = q ->
  drained j u' (emit_k [c] (wake_all ch_uart_tx_r (set_k_uart u2 k))) = drained (S j) u' k.
Proof.
  intros Eq E2. unfold drained. rewrite Eq. cbn [take].
  change (tx_queue (k_uart (emit_k [c] (wake_all ch_uart_tx_r (set_k_uart u2 k))))) with (tx_queue u2). rewrite E2.
  rewrite emit_k_app. change ([c] ++ take j q) with (c :: take j q). destruct j; [done|].
  by rewrite <-(wake_all_idem _ (set_k_uart u' (emit_k (c :: take (S j) q) k))).
Qed.

Record tx_section (m : mach) (k : ks) : Prop := {
  tx_settled : settled m;
  tx_mach : kmach k = acquired uart_tx_lock m
}.

Lemma uartstart_loop_ok m fuel : forall k, tx_section m k -> uart_wf (k_uart k) ->
  (length (tx_queue (k_uart k)) < fuel)%nat ->
  exists j u', uartstart_loop fuel k = Ok tt (drained j u' k) /\ sent j (k_uart k) u'.
Proof.
  induction fuel as [|f IH]; intros k Hk Hu Hf; [lia|]. cbn [uartstart_loop].
  rewrite (bind_Ok getuart _ k (k_uart k) k eq_refl), tx_empty by done.
  destruct (tx_queue (k_uart k)) as [|c q] eqn:Eq.
  { exists 0%nat, (k_uart k). split; [|by split; rewrite ?Eq].
    unfold drained. simpl. rewrite emit_k_nil. by destruct k. }
  destruct (tx_get_ok (k_uart k) c q Hu Eq) as (Ec & Hc & Hu1 & Hq1). rewrite Ec.
  set (u1 := set_lsr_idle (tl (lsr_idle (k_uart k))) (k_uart k)).
  assert (Hidle : tx_idle k = Ok (match lsr_idle (k_uart k) with [] => true | b :: _ => b end) (set_k_uart u1 k)).
  { unfold tx_idle, upduart, getuart, gets, modify, bind, ret, u1. destruct (lsr_idle (k_uart k)) eqn:El; simpl; [|done].
    rewrite <-El. destruct k as [? ? ? ? ? ? ? ? ? ? ? []]. done. }
  rewrite (bind_Ok _ _ _ _ _ Hidle).
  destruct (match lsr_idle (k_uart k) with [] => true | b :: _ => b end) eqn:Ei; cbn [negb].
  2:{ exists 0%nat, u1. destruct (lsr_idle (k_uart k)) as [|[] li] eqn:El; try done. split.
      - unfold drained. simpl. by rewrite emit_k_nil.
      - split; [by destruct Hu|done|by rewrite Eq, El|by rewrite El|done]. }
  set (u2 := tx_get u1). set (k2 := set_k_uart u2 k).
  rewrite (bind_Ok (upduart (set_tx_r (u64 (tx_r (k_uart k) + 1)))) _ (set_k_uart u1 k) tt k2 eq_refl).
  rewrite (bind_Ok _ _ _ _ _ (wake_section ch_uart_tx_r uart_tx_lock m k2 (tx_settled _ _ Hk) (tx_mach _ _ Hk) ltac:(done))).
  set (k3 := emit_k [c] (wake_all ch_uart_tx_r k2)).
  assert (Ew : write_thr c (wake_all ch_uart_tx_r k2) = Ok tt k3).
  { unfold write_thr, zoom, modify. by rewrite u8_small by lia. }
  rewrite (bind_Ok _ _ _ _ _ Ew).
  destruct (IH k3) as (j & u' & E & [Hw' Hq' Hj' Hi' Hr']).
  - by destruct Hk.
  - by destruct Hu1.
  - change (tx_queue (k_uart k3)) with (tx_queue (tx_get (k_uart k))). rewrite Hq1. simpl in Hf. lia.
  - change (tx_queue (k_uart k3)) with (tx_queue (tx_get (k_uart k))) in Hq', Hj'. rewrite Hq1 in Hq', Hj'.
    exists (S j), u'. rewrite E. split; [f_equal; by apply (drained_S _ _ _ _ _ q)|].
    split; [done|by rewrite Eq|rewrite Eq, Hj'|intros El; apply Hi'|done].
    + unfold k3, u2, u1. simpl. destruct (lsr_idle (k_uart k)) as [|[] li]; [|done|done]. by destruct (length q).
    + simpl. by rewrite El.
Qed.

Lemma uartstart_ok m k : tx_section m k -> uart_wf (k_uart k) ->
  exists j u', uartstart k = Ok tt (drained j u' k) /\ sent j (k_uart k) u'.
Proof.
  intros Hk Hu. unfold uartstart. rewrite (bind_Ok getuart _ k (k_uart k) k eq_refl).
  apply (uartstart_loop_ok m); [done|done|]. unfold tx_queue. rewrite slots_length. apply Nat.lt_succ_diag_r.
Qed.

Lemma drained_leaves j u' u0 k : settled (kmach k) ->
  rel uart_tx_lock (drained j u' (set_kmach (acquired uart_tx_lock (kmach k)) (set_k_uart u0 k))) =
    Ok tt (drained j u' (set_k_uart u0 k)).
Proof.
  intros Hs. rewrite (rel_eq _ (kmach k)) by (done || by destruct j). f_equal.
  unfold drained. cbn [k_uart set_k_uart set_kmach set_k_ps].
  set (k' := set_k_uart u' (emit_k (take j (tx_queue u0)) k)).
  destruct j; [by destruct k as [[[]]]|].
  change (set_k_uart u' (emit_k (take (S j) (tx_queue u0)) (set_kmach (acquired uart_tx_lock (kmach k)) (set_k_uart u0 k))))
    with (set_kmach (acquired uart_tx_lock (kmach k')) k').
  rewrite wake_all_mach by apply acquired_proc.
  change (kmach k) with (kmach (wake_all ch_uart_tx_r k')). apply set_kmach_back.
Qed.

(** uartputc of one byte when the ring has room. *)
Lemma uartputc_ok c k : settled (kmach k) -> ps_panicked (k_ps k) = false -> uart_wf (k_uart k) ->
  Z.of_nat (length (tx_queue (k_uart k))) < UART_TX_BUF_SIZE ->
  exists j u', uartputc c k = Ok tt (drained j u' (set_k_uart (tx_put c (k_uart k)) k)) /\
    sent j (tx_put c (k_uart k)) u'.
Proof.
  intros Hs Hp Hu Hroom. destruct (tx_put_ok c _ Hu Hroom) as [Hu1 Hq1].
  unfold uartputc. rewrite (bind_Ok _ _ _ _ _ (acq_eq _ _ Hs)).
  set (k1 := set_kmach (acquired uart_tx_lock (kmach k)) k).
  rewrite (bind_Ok (gets _) _ k1 (ps_panicked (k_ps k)) k1 eq_refl), Hp.
  assert (Ew : uartputc_wait (S swtch_wakeups) k1 = Ok tt k1).
  { cbn [uartputc_wait]. rewrite (bind_Ok getuart _ k1 (k_uart k) k1 eq_refl), tx_full by done.
    destruct (Z.eqb_spec (Z.of_nat (length (tx_queue (k_uart k)))) UART_TX_BUF_SIZE); [lia|done]. }
  rewrite (bind_Ok _ _ _ _ _ Ew).
  set (k2 := set_kmach (acquired uart_tx_lock (kmach k)) (set_k_uart (tx_put c (k_uart k)) k)).
  unfold upduart, modify, bind at 1 2. fold k1.
  change (set_k_uart _ (set_k_uart _ k1)) with k2.
  destruct (uartstart_ok (kmach k) k2) as (j & u' & E & Hst); [done|done|].
  rewrite (bind_Ok _ _ _ _ _ E). exists j, u'. split; [by apply drained_leaves|done].
Qed.

(** Everything that has been or will be sent, in order. *)
Definition stream (k : ks) : list Z := ps_uart_out (k_ps k) ++ tx_queue (k_uart k).

Lemma drained_stream j u' k : sent j (k_uart k) u' -> stream (drained j u' k) = stream k.
Proof.
  intros Hst. unfold stream.
  assert (ps_uart_out (k_ps (drained j u' k)) = ps_uart_out (k_ps k) ++ take j (tx_queue (k_uart k))) as -> by (by destruct j).
  assert (k_uart (drained j u' k) = u') as -> by (by destruct j).
  by rewrite (st_queue _ _ _ Hst), <-(assoc_L (++)), take_drop.
Qed.

Lemma drained_running j u' k p pid l T : user_running k p pid l T -> user_running (drained j u' k) p pid l T.
Proof.
  intros Hu. assert (user_running (set_k_uart u' (emit_k (take j (tx_queue (k_uart k))) k)) p pid l T)
    by (destruct Hu as [[]]; by split; [split|..]).
  destruct j; [done|]. by apply user_running_wake.
Qed.

(** Room for [n] more bytes: the transmitter keeps up, or the ring is big enough. *)
Definition tx_room (n : Z) (u : uart) : Prop :=
  lsr_idle u = [] /\ Z.of_nat (length (tx_queue u)) < UART_TX_BUF_SIZE \/
  Z.of_nat (length (tx_queue u)) + n <= UART_TX_BUF_SIZE.

Lemma tx_room_put n c j u u' : 0 < n -> uart_wf u -> tx_room n u -> sent j (tx_put c u) u' -> tx_room (n - 1) u'.
Proof.
  intros Hn Hu Hr Hst.
  assert (Z.of_nat (length (tx_queue u)) < UART_TX_BUF_SIZE) as Hlt by (destruct Hr as [[_ ?]|?]; lia).
  destruct (tx_put_ok c u Hu Hlt) as [_ Hq]. destruct Hst as [Hw Hq' Hj Hi _]. rewrite Hq in Hq', Hj.
  destruct Hr as [[Hid _]|Hle]; [left|right].
  - change (lsr_idle (tx_put c u)) with (lsr_idle u) in *. split; [by apply Hi|].
    rewrite Hid in Hj. rewrite Hq', Hj, length_drop, length_app. simpl.
    replace (idle_run _ []) with (length (tx_queue u) + 1)%nat by (by rewrite Nat.add_1_r).
    rewrite Nat.sub_diag. done.
  - rewrite Hq', length_drop, length_app. simpl. lia.
Qed.

(** The output [k'] of a write of [c] of the [n] bytes at [a]. *)
Record wrote (T : list Z -> option Z) (k : ks) (a n c : Z) (k' : ks) : Prop := {
  wt_range : 0 <= c <= n;
  wt_stream : stream k' = stream k ++ map u8 (user_bytes T (km_mem (ps_kmem (k_ps k))) a (Z.to_nat c));
  wt_wf : uart_wf (k_uart k');
  wt_mem : ps_kmem (k_ps k') = ps_kmem (k_ps k);
  wt_readable : forall x, a <= x < a + c -> readable T (km_mem (ps_kmem (k_ps k))) x;
  wt_stop : c = n \/ ~ readable T (km_mem (ps_kmem (k_ps k))) (a + c)
}.

Lemma wrote_byte T k k1 a n c k' : ps_kmem (k_ps k1) = ps_kmem (k_ps k) ->
  stream k1 = stream k ++ [u8 (user_byte T (km_mem (ps_kmem (k_ps k))) a)] ->
  readable T (km_mem (ps_kmem (k_ps k))) a -> wrote T k1 (a + 1) n c k' -> wrote T k a (n + 1) (c + 1) k'.
Proof.
  intros Em Es Ha [Hr Hs Hw Hm Hrd Hstop]. rewrite Em in *. split; [lia| |done|done| |].
  - rewrite Hs, Es, <-(assoc_L (++)). f_equal.
    replace (Z.to_nat (c + 1)) with (1 + Z.to_nat c)%nat by lia. rewrite user_bytes_app, map_app. f_equal.
    unfold user_bytes. simpl. by rewrite Z.add_0_r.
  - intros x Hx. destruct (decide (x = a)) as [->|]; [done|]. apply Hrd. lia.
  - destruct Hstop as [->|Hstop]; [by left|right]. by replace (a + (c + 1)) with (a + 1 + c) by lia.
Qed.

Lemma consolewrite_loop_ok src p pid l T n : 0 <= src -> forall i k,
  src + i + Z.of_nat n <= 2 ^ 64 -> 0 <= i -> user_running k p pid l T -> ps_panicked (k_ps k) = false ->
  uart_wf (k_uart k) -> tx_room (Z.of_nat n) (k_uart k) ->
  exists c k', consolewrite_loop n true src i k = Ok (i + c) k' /\ user_running k' p pid l T /\
    wrote T k (src + i) (Z.of_nat n) c k'.
Proof.
  intros Hsrc. induction n as [|n IH]; intros i k Hmax Hi Hu Hp Hw Hroom; cbn [consolewrite_loop].
  { exists 0, k. rewrite Z.add_0_r. split_and!; [done|done|]. split; [lia|by rewrite app_nil_r|done|done|lia|by left]. }
  rewrite u64_small by lia.
  destruct (either_copyin_byte k p pid l T (src + i) Hu ltac:(lia)) as (r & E & Hr).
  rewrite (bind_Ok _ _ _ _ _ E). destruct r as [bs|].
  2:{ exists 0, k. rewrite Z.add_0_r. split_and!; [done|done|].
      split; [lia|by rewrite app_nil_r|done|done|lia|right; by rewrite Z.add_0_r]. }
  destruct Hr as [Hrd ->]. set (b := user_byte T _ (src + i)).
  assert (Z.of_nat (length (tx_queue (k_uart k))) < UART_TX_BUF_SIZE) as Hlt by (destruct Hroom as [[_ ?]|?]; lia).
  destruct (uartputc_ok b k (run_settled _ _ _ (ur_running _ _ _ _ _ Hu)) Hp Hw Hlt) as (j & u' & Ep & Hst).
  rewrite (bind_Ok _ _ _ _ _ Ep). set (k1 := drained j u' _).
  destruct (IH (i + 1) k1) as (c & k' & E' & Hu' & Hwr); [lia|lia| | | | |].
  - apply drained_running. destruct Hu as [[]]. by split; [split|..].
  - by destruct j.
  - destruct j; apply Hst.
  - replace (Z.of_nat n) with (Z.of_nat (S n) - 1) by lia.
    assert (k_uart k1 = u') as -> by (by destruct j). by apply (tx_room_put _ b j (k_uart k)); [lia| | |].
  - exists (c + 1), k'. rewrite E'. split_and!; [f_equal; lia|done|].
    replace (Z.of_nat (S n)) with (Z.of_nat n + 1) by lia. apply (wrote_byte T k k1).
    + by destruct j.
    + unfold k1. rewrite drained_stream by done. unfold stream. simpl k_uart.
      by rewrite (proj2 (tx_put_ok b _ Hw Hlt)), (assoc_L (++)).
    + done.
    + by replace (src + i + 1) with (src + (i + 1)) by lia.
Qed.

(** C23: console output.  While the transmitter keeps up, or the ring has room for
    all of it, a write of a live process to the console returns the number of
    bytes up to the first one the process may not read, and exactly these bytes
    are appended, in order, to the stream of bytes sent and waiting to be sent,
    however often the counters wrap around. *)
Theorem consolewrite_spec k p pid l T src n :
  user_running k p pid l T -> ps_panicked (k_ps k) = false -> uart_wf (k_uart k) ->
  0 <= src -> 0 <= n -> src + n <= 2 ^ 64 -> tx_room n (k_uart k) ->
  exists c k', consolewrite true src n k = Ok c k' /\ user_running k' p pid l T /\ wrote T k src n c k'.
Proof.
  intros Hu Hp Hw Hs Hn Hmax Hroom. unfold consolewrite.
  destruct (consolewrite_loop_ok src p pid l T (Z.to_nat n) Hs 0 k) as (c & k' & E & Hu' & Hwr);
    rewrite ?Z2Nat.id, ?Z.add_0_l, ?Z.add_0_r in * by done; try done; try lia.
  exists c, k'. done.
Qed.

(** The transmit ring: one call of uartputc with room in the ring appends
    its byte to the stream, and uartstart has handed the device as many bytes of
    the ring, oldest first, as the device was found ready for. *)
Theorem uartputc_spec c k :
  settled (kmach k) -> ps_panicked (k_ps k) = false -> uart_wf (k_uart k) ->
  Z.of_nat (length (tx_queue (k_uart k))) < UART_TX_BUF_SIZE ->
  exists k', uartputc c k = Ok tt k' /\ uart_wf (k_uart k') /\ stream k' = stream k ++ [u8 c] /\
    length (ps_uart_out (k_ps k')) =
      (length (ps_uart_out (k_ps k)) + idle_run (S (length (tx_queue (k_uart k)))) (lsr_idle (k_uart k)))%nat.
Proof.
  intros Hs Hp Hu Hroom. destruct (uartputc_ok c k Hs Hp Hu Hroom) as (j & u' & E & Hst).
  destruct (tx_put_ok c _ Hu Hroom) as [Hu1 Hq1].
  eexists. split; [exact E|]. split; [destruct j; apply Hst|]. split.
  - rewrite drained_stream by done. unfold stream. simpl k_uart. by rewrite Hq1, (assoc_L (++)).
  - pose proof (st_count _ _ _ Hst) as Hj. rewrite Hq1, length_app, Nat.add_1_r in Hj.
    change (lsr_idle (tx_put c (k_uart k))) with (lsr_idle (k_uart k)) in Hj.
    assert (forall n l, (idle_run n l <= n)%nat) as Hle.
    { induction n as [|n IHn]; intros [|[] li]; simpl; try lia. specialize (IHn li). lia. }
    transitivity (length (ps_uart_out (k_ps k) ++ take j (tx_queue (tx_put c (k_uart k))))); [by destruct j|].
    rewrite length_app, length_take, Hq1, length_app. simpl length.
    pose proof (Hle (S (length (tx_queue (k_uart k)))) (lsr_idle (k_uart k))). lia.
Qed.

End uart.

(** * Witnesses *)

Lemma uart0_wf : uart_wf uart0.
Proof. split; [done| |done|done|done]. by apply Forall_replicate. Qed.

Lemma uartputc_spec_witness : exists k', uartputc (H := swtch_ks) 65 ks0 = Ok tt k' /\ stream k' = [65].
Proof.
  destruct (uartputc_spec (H := swtch_ks) 65 ks0 mach1_settled eq_refl uart0_wf eq_refl)
    as (k' & E & _ & Hs & _).
  exists k'. split; [exact E|exact Hs].
Defined.

Lemma consolewrite_spec_witness :
  exists c k', consolewrite (H := swtch_ks) true 100 4 (set_k_ps user_pst ks0) = Ok c k' /\ 0 <= c <= 4.
Proof.
  destruct (consolewrite_spec (img := image1) (H := swtch_ks) (set_k_ps user_pst ks0) 2 5 [] pt_tables0 100 4
    (user_pst_running (set_k_ps user_pst ks0) eq_refl) eq_refl uart0_wf) as (c & k' & E & _ & Hw); [lia|lia|lia| |].
  - left. split; reflexivity.
  - exists c, k'. split; [exact E|apply Hw].
Defined.
