(* ===== verification/Consline.v ===== *)
(** The line discipline of kernel/console.c: the ring [cons] refines an editor
    that holds the input handed over to readers and the line being typed, and
    consoleintr and consoleread act on it key by key and line by line. *)

From Stdlib Require Import ZArith Lia List String Bool.
From stdpp Require Import base tactics numbers list functions sets relations.
From S2P Require Import Prelude.
From S2P Require Import Spinlock.
From S2P Require Import Cstring.
From S2P Require Import Kalloc.
From S2P Require Import Vm.
From S2P Require Import Pagetable.
From S2P Require Import Usermem.
From S2P Require Import Printf.
From S2P Require Import Proc.
From S2P Require Import Sched.
From S2P Require Import Abi.
From S2P Require Import Kstate.
From S2P Require Import Bytes.
From S2P Require Import Ring.
From S2P Require Import Bio.
From S2P Require Import Ksection.
From S2P Require Import Usersec.
From S2P Require Import Console.
From S2P Require Import Uart.

(** * The editor *)

Record line := mkLine {
  ready : list Z;   (* input that consoleread may take *)
  edit : list Z     (* the line being typed *)
}.

Lemma no_edit ln : edit ln = [] -> ln = mkLine (ready ln) [].
Proof. destruct ln. simpl. by intros ->. Qed.

Definition line_size (ln : line) : nat := length (ready ln) + length (edit ln).

(** Keys that end a line. *)
Definition ends_line (c : Z) : bool := (c =? c_nl) || (c =? C 68).

(** The byte stored for key [c]. *)
Definition key_byte (c : Z) : Z := if c =? c_cr then c_nl else c.

(** What a key does to the line: ^P nothing, ^U drops it, ^H and DEL drop its
    last byte, and any other key but NUL is appended while there is room; a
    newline, a ^D and a full ring hand the line over. *)
Inductive key_class := KList | KKill | KErase | KByte (c : Z) | KNone.

Definition classify (c : Z) (ln : line) : key_class :=
  if c =? C 80 then KList
  else if c =? C 85 then KKill
  else if (c =? C 72) || (c =? 127) then KErase
  else if negb (c =? 0) && (Z.of_nat (line_size ln) <? INPUT_BUF_SIZE) then KByte (key_byte c)
  else KNone.

(** Whether the byte [c] completes the line. *)
Definition completes (c : Z) (ln : line) : bool :=
  ends_line c || (Z.of_nat (S (line_size ln)) =? INPUT_BUF_SIZE).

Definition key (c : Z) (ln : line) : line :=
  match classify c ln with
  | KList | KNone => ln
  | KKill => mkLine (ready ln) []
  | KErase => mkLine (ready ln) (removelast (edit ln))
  | KByte b =>
      if completes b ln then mkLine (ready ln ++ edit ln ++ [b]) []
      else mkLine (ready ln) (edit ln ++ [b])
  end.

Definition key_wakes (c : Z) (ln : line) : bool :=
  match classify c ln with KByte b => completes b ln | _ => false end.

(** What is echoed; [dump] is the listing that ^P prints. *)
Definition key_echo (dump : list Z) (c : Z) (ln : line) : list Z :=
  match classify c ln with
  | KList => dump
  | KKill => concat (replicate (length (edit ln)) rubout)
  | KErase => match edit ln with [] => [] | _ => rubout end
  | KByte b => [b]
  | KNone => []
  end.

(** The line being typed holds nothing that would have handed it over. *)
Definition line_wf (ln : line) : Prop :=
  Forall (fun c => ends_line c = false) (edit ln) /\
  (edit ln <> [] -> Z.of_nat (line_size ln) < INPUT_BUF_SIZE).

Lemma classify_byte c ln b : classify c ln = KByte b ->
  b = key_byte c /\ Z.of_nat (line_size ln) < INPUT_BUF_SIZE.
Proof.
  unfold classify. repeat case_match; intros; simplify_eq. split; [done|].
  by apply Z.ltb_lt, (andb_prop (negb (c =? 0))).
Qed.

Lemma key_wf c ln : line_wf ln -> line_wf (key c ln).
Proof.
  intros [He Hs]. unfold key. destruct (classify c ln) as [| | |b|] eqn:Ek; [done| | | |done].
  - split; [constructor|done].
  - destruct (edit ln) as [|x e _] eqn:E using rev_ind; [split; [constructor|done]|].
    rewrite removelast_last. apply Forall_app in He as [He _]. split; [done|]. intros _.
    assert (e ++ [x] <> []) as Hne by (by destruct e). specialize (Hs Hne).
    unfold line_size in *. rewrite E, length_app in Hs. simpl in *. lia.
  - destruct (completes b ln) eqn:Ec; [split; [constructor|done]|].
    apply orb_false_iff in Ec as [Eb En]. split; simpl.
    + apply Forall_app. split; [done|]. by repeat constructor.
    + intros _. apply classify_byte in Ek as [_ Hlt]. apply Z.eqb_neq in En.
      unfold line_size in *. simpl. rewrite length_app. simpl. lia.
Qed.

(** * The ring *)

Definition n_ready (cs : cons) : nat := Z.to_nat (ahead (2 ^ 32) (cons_r cs) (cons_w cs)).
Definition n_edit (cs : cons) : nat := Z.to_nat (ahead (2 ^ 32) (cons_w cs) (cons_e cs)).

Definition line_of (cs : cons) : line :=
  mkLine (slots INPUT_BUF_SIZE (cons_buf cs) (cons_r cs) (n_ready cs))
         (slots INPUT_BUF_SIZE (cons_buf cs) (cons_w cs) (n_edit cs)).

(** The ring holds its INPUT_BUF_SIZE bytes, and r, w and e are in this order
    and at most the size of the ring apart. *)
Record ring_wf (cs : cons) : Prop := {
  rw_buf : length (cons_buf cs) = Z.to_nat INPUT_BUF_SIZE;
  rw_r : 0 <= cons_r cs < 2 ^ 32;
  rw_w : 0 <= cons_w cs < 2 ^ 32;
  rw_e : 0 <= cons_e cs < 2 ^ 32;
  rw_size : Z.of_nat (n_ready cs + n_edit cs) <= INPUT_BUF_SIZE
}.

(** Between two interrupts the line being typed holds no newline and no ^D and
    has not filled the ring. *)
Definition cons_wf (cs : cons) : Prop := ring_wf cs /\ line_wf (line_of cs).

Lemma cons_wf_line cs ln : ring_wf cs -> line_of cs = ln -> line_wf ln -> cons_wf cs /\ line_of cs = ln.
Proof. intros Hr <- Hl. done. Qed.

Lemma line_of_size cs : line_size (line_of cs) = (n_ready cs + n_edit cs)%nat.
Proof. unfold line_size. simpl. by rewrite !slots_length. Qed.

Lemma ring_divides : (INPUT_BUF_SIZE | 2 ^ 32).
Proof. by exists 33554432. Qed.

Lemma n_ready_range cs : 0 <= ahead (2 ^ 32) (cons_r cs) (cons_w cs) < 2 ^ 32.
Proof. apply ahead_range. lia. Qed.

Lemma n_edit_range cs : 0 <= ahead (2 ^ 32) (cons_w cs) (cons_e cs) < 2 ^ 32.
Proof. apply ahead_range. lia. Qed.

Ltac counters cs :=
  pose proof (n_ready_range cs); pose proof (n_edit_range cs); unfold n_ready, n_edit, INPUT_BUF_SIZE in *.

Lemma total_ahead cs : ring_wf cs -> u32 (cons_e cs - cons_r cs) = Z.of_nat (n_ready cs + n_edit cs).
Proof.
  intros [_ _ _ _ Hs]. change (u32 (cons_e cs - cons_r cs)) with (ahead (2 ^ 32) (cons_r cs) (cons_e cs)).
  counters cs. rewrite (ahead_trans (2 ^ 32) ltac:(lia) (cons_r cs) (cons_w cs) (cons_e cs)); lia.
Qed.

Lemma cons_room_spec cs : ring_wf cs -> cons_room cs = (Z.of_nat (line_size (line_of cs)) <? INPUT_BUF_SIZE).
Proof. intros Hw. unfold cons_room. by rewrite total_ahead, line_of_size. Qed.

Lemma cons_editing_spec cs : ring_wf cs -> cons_editing cs = match edit (line_of cs) with [] => false | _ => true end.
Proof.
  intros [_ _ Hw He _]. unfold cons_editing.
  assert ((cons_e cs =? cons_w cs) = bool_decide (n_edit cs = 0%nat)) as ->.
  { apply eq_bool_prop_intro. rewrite bool_decide_spec, Is_true_true, Z.eqb_eq.
    pose proof (ahead_0 (2 ^ 32) ltac:(lia) (cons_w cs) (cons_e cs) Hw He). counters cs. split; intros; [|symmetry]; lia. }
  simpl. by destruct (n_edit cs).
Qed.

Lemma cons_empty_spec cs : ring_wf cs -> cons_empty cs = match ready (line_of cs) with [] => true | _ => false end.
Proof.
  intros [_ Hr Hw _ _]. unfold cons_empty.
  assert ((cons_r cs =? cons_w cs) = bool_decide (n_ready cs = 0%nat)) as ->.
  { apply eq_bool_prop_intro. rewrite bool_decide_spec, Is_true_true, Z.eqb_eq.
    pose proof (ahead_0 (2 ^ 32) ltac:(lia) (cons_r cs) (cons_w cs) Hr Hw). counters cs. split; intros; lia. }
  simpl. by destruct (n_ready cs).
Qed.

(** ** The operations on the ring *)

Lemma cons_erase_ok cs : ring_wf cs -> edit (line_of cs) <> [] ->
  ring_wf (cons_erase cs) /\ ready (line_of (cons_erase cs)) = ready (line_of cs) /\
  edit (line_of cs) =
    edit (line_of (cons_erase cs)) ++ [at_Z (cons_buf cs) (u32 (cons_e cs - 1) mod INPUT_BUF_SIZE)].
Proof.
  intros [Hb Hr Hw He Hs] Hne. rewrite <-length_zero_iff_nil in Hne. simpl in Hne. rewrite slots_length in Hne.
  assert (En : n_edit cs = S (n_edit (cons_erase cs))).
  { unfold n_edit at 2. cbn [cons_erase cons_w cons_e set_cons_e]. unfold u32.
    counters cs. change (cons_e cs - 1) with (cons_e cs + -1). rewrite ahead_move; lia. }
  change (n_ready cs) with (n_ready (cons_erase cs)) in Hs. split_and!; [|done|].
  - split; try done; [apply u32_bound|lia].
  - unfold line_of. cbn [edit]. rewrite En, slots_snoc. do 3 f_equal.
    symmetry. apply (ahead_slot (2 ^ 32) ltac:(lia) INPUT_BUF_SIZE _ _ ring_divides).
Qed.

Lemma cons_put_ok c cs : ring_wf cs -> Z.of_nat (line_size (line_of cs)) < INPUT_BUF_SIZE ->
  ring_wf (cons_put c cs) /\ line_of (cons_put c cs) = mkLine (ready (line_of cs)) (edit (line_of cs) ++ [u8 c]).
Proof.
  intros Hcs Hroom. pose proof (total_ahead cs Hcs) as Ht. rewrite line_of_size in Hroom.
  destruct Hcs as [Hb Hr Hw He Hs].
  assert (En : n_edit (cons_put c cs) = S (n_edit cs)).
  { unfold n_edit at 1. cbn [cons_put cons_w cons_e set_cons_e set_cons_buf]. unfold u32.
    counters cs. rewrite ahead_move; lia. }
  assert (Er : n_ready (cons_put c cs) = n_ready cs) by done. split.
  - split; [by simpl; rewrite length_insert|done|done|apply u32_bound|rewrite En, Er; lia].
  - unfold line_of at 1. rewrite En, Er. cbn [cons_put cons_buf cons_r cons_w set_cons_e set_cons_buf ready edit line_of].
    f_equal.
    + apply (slots_put INPUT_BUF_SIZE ltac:(done) _ _ _ (n_ready cs + n_edit cs)); [done|lia| |lia].
      rewrite <-(Nat2Z.id (n_ready cs + n_edit cs)), <-Ht. apply ahead_slot; [lia|apply ring_divides].
    + apply slots_put_snoc; [done|done|lia|]. apply ahead_slot; [lia|apply ring_divides].
Qed.

Lemma cons_commit_ok cs : ring_wf cs ->
  ring_wf (cons_commit cs) /\ line_of (cons_commit cs) = mkLine (ready (line_of cs) ++ edit (line_of cs)) [].
Proof.
  intros Hcs. pose proof (total_ahead cs Hcs) as Ht. destruct Hcs as [Hb Hr Hw He Hs].
  assert (Er : n_ready (cons_commit cs) = (n_ready cs + n_edit cs)%nat).
  { rewrite <-(Nat2Z.id (n_ready cs + n_edit cs)), <-Ht. done. }
  assert (En : n_edit (cons_commit cs) = 0%nat).
  { unfold n_edit. simpl. by rewrite ahead_refl. }
  split; [split; try done; rewrite En, Er; lia|].
  unfold line_of at 1. rewrite En, Er. cbn [cons_commit cons_buf cons_r cons_w set_cons_w ready edit line_of].
  rewrite slots_add. f_equal. f_equal. apply slots_congr. unfold n_ready.
  symmetry. apply ahead_slot; [lia|apply ring_divides].
Qed.

Lemma cons_take_ok cs c q : ring_wf cs -> ready (line_of cs) = c :: q ->
  cons_front cs = c /\ ring_wf (cons_take cs) /\ line_of (cons_take cs) = mkLine q (edit (line_of cs)) /\
  cons_untake (cons_take cs) = cs.
Proof.
  intros [Hb Hr Hw He Hs] Eq. simpl in Eq.
  assert (En : n_ready cs = S (n_ready (cons_take cs))).
  { assert (n_ready cs <> 0%nat) as Hne by (intros E; by rewrite E in Eq).
    unfold n_ready at 2. cbn [cons_take cons_w cons_r set_cons_r]. unfold u32.
    counters cs. rewrite ahead_follow; lia. }
  rewrite En, slots_cons in Eq. injection Eq as <- <-.
  change (n_edit cs) with (n_edit (cons_take cs)) in Hs. split_and!; [done| | |].
  - split; try done; [apply u32_bound|lia].
  - unfold line_of at 1. cbn [cons_take cons_buf cons_r cons_w set_cons_r]. f_equal.
    apply slots_wrap, ring_divides.
  - unfold cons_untake, cons_take. destruct cs. simpl. unfold set_cons_r. simpl. f_equal.
    unfold u32. rewrite Zminus_mod_idemp_l, Z.add_simpl_r. by apply Z.mod_small.
Qed.

(** * The listing of ^P *)

Definition proc_line (p : proc) : list Z :=
  if state_eqb (p_state p) UNUSED then [] else
  match format (str "%d %s %s") [ArgInt (p_pid p); ArgStr (Some (str (state_name (p_state p))));
                                 ArgStr (Some (until_nul (p_name p)))] with
  | Some bs => flat_map screen bs ++ [c_nl]
  | None => []
  end.
Definition dump_text (s : pst) : list Z := c_nl :: flat_map (fun p => proc_line (ps_procs s p)) (seq 0 NPROC).

Lemma format_dsd z s1 s2 : exists bs, format (str "%d %s %s") [ArgInt z; ArgStr s1; ArgStr s2] = Some bs.
Proof.
  assert (Hr : - 2 ^ 31 <= s32 z < 2 ^ 31).
  { unfold s32. pose proof (Z.mod_pos_bound (z + 2 ^ 31) (2 ^ 32)). lia. }
  destruct (printint (s32 z) 10 true) as [bs|] eqn:E.
  - eexists. unfold format. change (str "%d %s %s") with [37; 100; 32; 37; 115; 32; 37; 115].
    cbn -[printint s32]. by rewrite E.
  - apply printint_None in E; [|lia|lia]. exfalso. revert E. unfold magnitude. cbn [andb].
    destruct (Z.ltb_spec (s32 z) 0); [|rewrite u64_small by lia];
      change (10 ^ 15) with 1000000000000000; change (10 ^ 16) with 10000000000000000; lia.
Qed.

Lemma proc_line_eq p s : printing s -> lock_free (pmach s) pr_lock ->
  (pr <- getp p ;;
   if state_eqb (p_state pr) UNUSED then ret tt else
   printf "%d %s %s" [ArgInt (p_pid pr); ArgStr (Some (str (state_name (p_state pr))));
                      ArgStr (Some (until_nul (p_name pr)))] ;;;
   printf newline []) s = Ok tt (emit (proc_line (ps_procs s p)) s).
Proof.
  intros Hs Hl. unfold getp, gets, bind at 1. unfold proc_line.
  destruct (state_eqb _ UNUSED); [by rewrite emit_nil|].
  destruct (format_dsd (p_pid (ps_procs s p)) (Some (str (state_name (p_state (ps_procs s p)))))
    (Some (until_nul (p_name (ps_procs s p))))) as [bs E]. rewrite E.
  rewrite (bind_Ok _ _ _ _ _ (printf_eq _ _ _ _ E Hs Hl)), <-emit_emit.
  apply (printf_eq newline [] [c_nl]); [done| |done]. by destruct Hs.
Qed.

Lemma procdump_eq s : printing s -> lock_free (pmach s) pr_lock -> procdump s = Ok tt (emit (dump_text s) s).
Proof.
  intros Hs Hl. unfold procdump.
  rewrite (bind_Ok _ _ _ _ _ (printf_eq newline [] [c_nl] s eq_refl Hs Hl)).
  change (dump_text s) with ([c_nl] ++ flat_map (fun p => proc_line (ps_procs s p)) (seq 0 NPROC)).
  rewrite <-emit_emit. assert (Hs' : printing (emit [c_nl] s)) by (by destruct Hs).
  change (ps_procs s) with (ps_procs (emit [c_nl] s)). change (pmach s) with (pmach (emit [c_nl] s)) in Hl.
  change (flat_map screen [c_nl]) with [c_nl].
  generalize dependent (emit [c_nl] s). clear. generalize (seq 0 NPROC) as ps.
  induction ps as [|p ps IH]; intros s Hl Hs; cbn [for_each flat_map]; [by rewrite emit_nil|].
  rewrite (bind_Ok _ _ _ _ _ (proc_line_eq p s Hs Hl)).
  rewrite IH; [|done|by destruct Hs]. by rewrite emit_emit.
Qed.

(** * consoleintr *)

Section intr.
Context {img : Image} {imgok : ImageOk img} `{Swtch ks}.

(** The console's lock is held and the kernel has not panicked. *)
Record cons_section (m : mach) (k : ks) : Prop := {
  cx_settled : settled m;
  cx_mach : kmach k = acquired cons_lock m;
  cx_alive : ps_panicked (k_ps k) = false
}.

Lemma section_printing m k : cons_section m k -> printing (k_ps k) /\ lock_free (kmach k) pr_lock.
Proof.
  intros [Hs E Hp]. split.
  - split; [| | |done]; change (pmach (k_ps k)) with (kmach k); rewrite E.
    + by apply noff_ok_section.
    + unfold acquired, this_cpu. simpl. rewrite fn_lookup_insert. simpl.
      destruct Hs as [Hs _]. unfold this_cpu in Hs. rewrite Hs. lia.
    + by apply section_tidy.
  - rewrite E. apply lock_free_acquired; [done|]. apply Hs.
Qed.

Lemma consputc_section m c k : cons_section m k -> (zoom (consputc c) : M ks unit) k = Ok tt (emit_k (screen c) k).
Proof.
  intros [[Hn _ Ht Hp] _]%section_printing. by erewrite zoom_Ok by (apply consputc_eq; done).
Qed.

Lemma kill_line_ok m fuel : forall k, cons_section m k -> ring_wf (k_cons k) ->
  Forall (fun c => ends_line c = false) (edit (line_of (k_cons k))) -> (length (edit (line_of (k_cons k))) <= fuel)%nat ->
  exists cs', kill_line fuel k =
      Ok tt (set_k_cons cs' (emit_k (concat (replicate (length (edit (line_of (k_cons k)))) rubout)) k)) /\
    ring_wf cs' /\ line_of cs' = mkLine (ready (line_of (k_cons k))) [] /\
    kbd_intr_count cs' = kbd_intr_count (k_cons k).
Proof.
  induction fuel as [|f IH]; intros k Hk Hr Hl Hlen; cbn [kill_line].
  { apply Nat.le_0_r, length_zero_iff_nil in Hlen. exists (k_cons k). rewrite Hlen. split_and!; [|done| |done].
    - unfold emit_k. rewrite emit_nil. by destruct k.
    - by apply no_edit. }
  rewrite (bind_Ok getcons _ k (k_cons k) k eq_refl), cons_editing_spec by done.
  destruct (edit (line_of (k_cons k))) as [|x e] eqn:E; cbn [andb].
  { exists (k_cons k). split_and!; [|done| |done].
    - unfold emit_k. rewrite emit_nil. by destruct k.
    - by apply no_edit. }
  destruct (cons_erase_ok (k_cons k) Hr) as (Hr' & Erd & Eed); [by rewrite E|].
  rewrite E in Eed. rewrite Eed in Hl |- *. apply Forall_app in Hl as [Hl' Hlast].
  apply Forall_singleton, orb_false_iff in Hlast as [-> _]. cbn [negb].
  set (k1 := set_k_cons (cons_erase (k_cons k)) k).
  rewrite (bind_Ok (updcons cons_erase) _ k tt k1 eq_refl).
  assert (Hk1 : cons_section m k1) by (by destruct Hk).
  rewrite (bind_Ok _ _ _ _ _ (consputc_section m BACKSPACE k1 Hk1)).
  destruct (IH (emit_k (screen BACKSPACE) k1)) as (cs' & Ek & Hw' & Hln & Hc).
  - by destruct Hk.
  - done.
  - done.
  - rewrite Eed, length_app in Hlen. simpl in Hlen |- *. lia.
  - exists cs'. rewrite Ek. split_and!; [|done| |done].
    + rewrite length_app, Nat.add_1_r. cbn [replicate concat]. f_equal. unfold emit_k, k1. simpl.
      by rewrite emit_emit.
    + rewrite Hln. simpl. by f_equal.
Qed.

(** What a key leaves behind. *)
Definition typed (woken : bool) (cs : cons) (bs : list Z) (k : ks) : ks :=
  let k' := set_k_cons cs (emit_k bs k) in if woken then wake_all ch_cons_r k' else k'.

Lemma typed_leaves woken cs0 cs bs k : settled (kmach k) ->
  rel cons_lock (typed woken cs bs (set_kmach (acquired cons_lock (kmach k)) (set_k_cons cs0 k))) = Ok tt (typed woken cs bs k).
Proof.
  intros Hs. rewrite (rel_eq _ (kmach k)) by (done || by destruct woken). f_equal.
  destruct woken; [|by destruct k as [[[]]]]. unfold typed.
  change (set_k_cons cs (emit_k bs (set_kmach (acquired cons_lock (kmach k)) (set_k_cons cs0 k))))
    with (set_kmach (acquired cons_lock (kmach k)) (set_k_cons cs (emit_k bs k))).
  rewrite wake_all_mach by apply acquired_proc.
  change (kmach k) with (kmach (wake_all ch_cons_r (set_k_cons cs (emit_k bs k)))). apply set_kmach_back.
Qed.

Lemma list_key m k : cons_section m k ->
  (zoom procdump : M ks unit) k = Ok tt (typed false (k_cons k) (dump_text (k_ps k)) k).
Proof.
  intros [Hg Hl]%section_printing. erewrite zoom_Ok by (by apply procdump_eq). by destruct k.
Qed.

Lemma erase_key m k : cons_section m k -> ring_wf (k_cons k) ->
  exists cs', let ln := line_of (k_cons k) in
    (if cons_editing (k_cons k) then updcons cons_erase ;;; zoom (consputc BACKSPACE) else ret tt) k =
      Ok tt (typed false cs' (match edit ln with [] => [] | _ => rubout end) k) /\
    ring_wf cs' /\ line_of cs' = mkLine (ready ln) (removelast (edit ln)) /\
    kbd_intr_count cs' = kbd_intr_count (k_cons k).
Proof.
  intros Hk Hr. cbv zeta. rewrite cons_editing_spec by done. destruct (edit (line_of (k_cons k))) as [|x e] eqn:E.
  - exists (k_cons k). split_and!; [|done| |done].
    + unfold typed, emit_k. rewrite emit_nil. by destruct k.
    + by apply no_edit.
  - destruct (cons_erase_ok (k_cons k) Hr) as (Hr' & Erd & Eed); [by rewrite E|].
    exists (cons_erase (k_cons k)). split_and!; [|done| |done].
    + set (k1 := set_k_cons (cons_erase (k_cons k)) k).
      rewrite (bind_Ok (updcons cons_erase) _ k tt k1 eq_refl).
      assert (Hk1 : cons_section m k1) by (by destruct Hk). by rewrite (consputc_section m BACKSPACE k1 Hk1).
    + rewrite <-E, Eed, removelast_last, <-Erd. by destruct (line_of (cons_erase (k_cons k))).
Qed.

Lemma store_key m b k : cons_section m k -> ring_wf (k_cons k) -> 0 <= b < 256 ->
  Z.of_nat (line_size (line_of (k_cons k))) < INPUT_BUF_SIZE ->
  exists cs', let ln := line_of (k_cons k) in
    (zoom (consputc b) ;;; updcons (cons_put b) ;;; cs <- getcons ;;
     if (b =? c_nl) || (b =? C 68) || cons_full cs then updcons cons_commit ;;; wake ch_cons_r else ret tt) k =
      Ok tt (typed (completes b ln) cs' [b] k) /\
    ring_wf cs' /\
    line_of cs' = (if completes b ln then mkLine (ready ln ++ edit ln ++ [b]) [] else mkLine (ready ln) (edit ln ++ [b])) /\
    kbd_intr_count cs' = kbd_intr_count (k_cons k).
Proof.
  intros Hk Hr Hb Hroom. cbv zeta. set (ln := line_of (k_cons k)) in *.
  destruct (cons_put_ok b (k_cons k) Hr Hroom) as [Hr1 Hl1]. fold ln in Hl1.
  rewrite (bind_Ok _ _ _ _ _ (consputc_section m b k Hk)).
  assert (screen b = [b]) as ->.
  { unfold screen, BACKSPACE. destruct (Z.eqb_spec b 256); [lia|]. by rewrite u8_small by lia. }
  set (k1 := set_k_cons (cons_put b (k_cons k)) (emit_k [b] k)).
  rewrite (bind_Ok (updcons (cons_put b)) _ (emit_k [b] k) tt k1 eq_refl), (bind_Ok getcons _ k1 _ k1 eq_refl).
  rewrite u8_small in Hl1 by lia.
  assert (cons_full (k_cons k1) = (Z.of_nat (S (line_size ln)) =? INPUT_BUF_SIZE)) as ->.
  { unfold cons_full. change (k_cons k1) with (cons_put b (k_cons k)).
    rewrite total_ahead, <-line_of_size, Hl1 by done. unfold line_size. cbn [ready edit]. rewrite length_app. f_equal. cbn [length]. lia. }
  fold (ends_line b). change (ends_line b || _) with (completes b ln). destruct (completes b ln).
  - destruct (cons_commit_ok _ Hr1) as [Hr2 Hl2]. exists (cons_commit (cons_put b (k_cons k))).
    split_and!; [|done|by rewrite Hl2, Hl1|done].
    set (k2 := set_k_cons (cons_commit (cons_put b (k_cons k))) k1).
    rewrite (bind_Ok (updcons cons_commit) _ k1 tt k2 eq_refl).
    rewrite (wake_section _ cons_lock m k2); [done|apply Hk|apply Hk|done].
  - exists (cons_put b (k_cons k)). done.
Qed.

Lemma consoleintr_ok c k :
  settled (kmach k) -> ps_panicked (k_ps k) = false -> cons_wf (k_cons k) -> 0 <= c < 256 ->
  exists cs', let ln := line_of (k_cons k) in
    consoleintr c k = Ok tt (typed (key_wakes c ln) cs' (key_echo (dump_text (k_ps k)) c ln) k) /\
    cons_wf cs' /\ line_of cs' = key c ln /\ kbd_intr_count cs' = s32 (kbd_intr_count (k_cons k) + 1).
Proof.
  intros Hs Hp [Hr Hl] Hc. cbv zeta.
  set (cs := kbd_count (k_cons k)). assert (Hr' : ring_wf cs) by (by destruct Hr).
  change (line_of (k_cons k)) with (line_of cs) in *.
  set (k1 := set_kmach (acquired cons_lock (kmach k)) (set_k_cons cs k)).
  assert (Hk1 : cons_section (kmach k) k1) by done.
  unfold consoleintr. rewrite (bind_Ok _ _ _ _ _ (acq_eq _ _ Hs)).
  rewrite (bind_Ok (updcons kbd_count) _ (set_kmach (acquired cons_lock (kmach k)) k) tt k1 eq_refl), (bind_Ok getcons _ k1 cs k1 eq_refl).
  pose proof (key_wf c (line_of cs) Hl) as Hwf. revert Hwf.
  unfold key, key_echo, key_wakes, classify. rewrite cons_room_spec by done.
  destruct (c =? C 80) eqn:E80; [|destruct (c =? C 85) eqn:E85; [|destruct ((c =? C 72) || (c =? 127)) eqn:E72;
    [|destruct (negb (c =? 0) && (Z.of_nat (line_size (line_of cs)) <? INPUT_BUF_SIZE)) eqn:Eb]]]; intros Hwf.
  - exists cs. split; [|done]. rewrite (bind_Ok _ _ _ _ _ (list_key _ _ Hk1)). by apply (typed_leaves false).
  - destruct (kill_line_ok _ (Z.to_nat (u32 (cons_e cs - cons_w cs))) k1 Hk1 Hr') as (cs' & E & Hw & Hln & Hn).
    { apply Hl. }
    { simpl. by rewrite slots_length. }
    rewrite (bind_Ok _ _ _ _ _ E). exists cs'.
    destruct (cons_wf_line _ _ Hw Hln Hwf). split; [by apply (typed_leaves false)|done].
  - destruct (erase_key _ k1 Hk1 Hr') as (cs' & E & Hw & Hln & Hn).
    rewrite (bind_Ok _ _ _ _ _ E). exists cs'.
    destruct (cons_wf_line _ _ Hw Hln Hwf). split; [by apply (typed_leaves false)|done].
  - apply andb_prop in Eb as [_ Eb%Z.ltb_lt].
    destruct (store_key _ (key_byte c) k1 Hk1 Hr') as (cs' & E & Hw & Hln & Hn); [|done|].
    { unfold key_byte. destruct (c =? c_cr); [unfold c_nl|]; lia. }
    cbv zeta. rewrite (bind_Ok _ _ _ _ _ E). exists cs'.
    destruct (cons_wf_line _ _ Hw Hln Hwf). split; [by apply typed_leaves|done].
  - exists cs. split; [|done]. rewrite bind_ret.
    replace k1 with (typed false cs [] k1) by (unfold typed, emit_k; rewrite emit_nil; done). by apply (typed_leaves false).
Qed.

(** C12: every key.  In whatever state of the ring, consoleintr counts the
    interrupt and does to the line discipline what the editor [key] does to the
    line: ^P lists the processes, ^U and backspace never touch what has been
    handed over, a byte is dropped only when the ring is full, the echo is
    exactly what happened on the screen, and readers are woken exactly when a
    line is handed over. *)
Theorem consoleintr_spec c k :
  settled (kmach k) -> ps_panicked (k_ps k) = false -> cons_wf (k_cons k) -> 0 <= c < 256 ->
  exists cs', let ln := line_of (k_cons k) in
    consoleintr c k = Ok tt (typed (key_wakes c ln) cs' (key_echo (dump_text (k_ps k)) c ln) k) /\
    cons_wf cs' /\ line_of cs' = key c ln /\ kbd_intr_count cs' = s32 (kbd_intr_count (k_cons k) + 1).
Proof. apply consoleintr_ok. Qed.

End intr.

(** * consoleread *)

(** What a read of [n] bytes takes from the queue, and what it leaves: up to the
    end of the line or to the byte before a ^D, which is used up only by a read
    that has taken nothing yet.  [None] is a read that has to wait. *)
Fixpoint read_input (n : nat) (some : bool) (q : list Z) : option (list Z * list Z) :=
  match n, q with
  | O, _ => Some ([], q)
  | S _, [] => None
  | S n', c :: q' =>
      if c =? C 68 then Some ([], if some then q else q')
      else if c =? c_nl then Some ([c], q')
      else match read_input n' true q' with
           | Some (d, rest) => Some (c :: d, rest)
           | None => None
           end
  end.

Section read.
Context {img : Image} {imgok : ImageOk img} `{Swtch ks}.

(** [c] bytes of [d] are in the user's memory from [a] on: all of them, with
    [rest] left in the queue, or those up to an address that the user may not
    write, whose byte is lost. *)
Record delivered (T : list Z -> option Z) (l : list Z) (s : kmem) (a : Z) (d q rest : list Z)
    (c : Z) (q' : list Z) (s' : kmem) : Prop := {
  dl_range : 0 <= c <= Z.of_nat (length d);
  dl_written : written s l T a (take (Z.to_nat c) d) s';
  dl_storable : forall x, a <= x < a + c -> storable T (km_mem s) x;
  dl_stop : (c = Z.of_nat (length d) /\ q' = rest) \/
    (c < Z.of_nat (length d) /\ ~ storable T (km_mem s) (a + c) /\ q' = drop (Z.to_nat (c + 1)) q)
}.

Lemma delivered_none T l s a q rest : uinv s l T -> delivered T l s a [] q rest 0 rest s.
Proof. intros Hu. split; [simpl; lia|by apply written_nil|lia|by left]. Qed.

Lemma delivered_lost T l s s' a x d q rest : written s l T a [] s' -> ~ storable T (km_mem s) a ->
  delivered T l s a (x :: d) (x :: q) rest 0 q s'.
Proof.
  intros Hw Hn. split; [simpl; lia|done|lia|]. right. rewrite Z.add_0_r. split; [simpl; lia|done].
Qed.

Lemma delivered_byte T l s s1 a x d q rest c q' s' :
  storable T (km_mem s) a -> written s l T a [x] s1 -> delivered T l s1 (a + 1) d q rest c q' s' ->
  delivered T l s a (x :: d) (x :: q) rest (c + 1) q' s'.
Proof.
  intros Ha Hw [Hr Hwr Hst Hstop]. assert (Ec : Z.to_nat (c + 1) = S (Z.to_nat c)) by lia.
  split; [simpl; lia| | |].
  - rewrite Ec. simpl. by apply (written_app s l T a [x] s1).
  - intros y Hy. destruct (decide (y = a)) as [->|]; [done|].
    apply (writable_same s l T a _ s1 y Hw), Hst. lia.
  - destruct Hstop as [[-> ->]|(Hc & Hno & ->)]; [left|right].
    + split; [simpl; lia|done].
    + split_and!; [simpl; lia| |].
      * rewrite <-(writable_same s l T a _ s1 _ Hw). by replace (a + (c + 1)) with (a + 1 + c) by lia.
      * replace (Z.to_nat (c + 1 + 1)) with (S (Z.to_nat (c + 1))) by lia. done.
Qed.

Lemma in_section_cons k m p l T cs : in_section k cons_lock m p l T -> in_section (set_k_cons cs k) cons_lock m p l T.
Proof. by intros []. Qed.

Lemma same_state k : set_k_cons (k_cons k) (with_kmem (ps_kmem (k_ps k)) k) = k.
Proof. by destruct k as [[]]. Qed.

Lemma consoleread_loop_ok m p l T target fuel : forall n dst k d rest,
  in_section k cons_lock m p l T -> ring_wf (k_cons k) -> 0 <= dst -> 0 <= n <= target -> dst + n < 2 ^ 64 ->
  (Z.to_nat n < fuel)%nat ->
  read_input (Z.to_nat n) (n <? target) (ready (line_of (k_cons k))) = Some (d, rest) ->
  exists c cs' s', consoleread_loop fuel true dst n target k = Ok (Some (n - c)) (set_k_cons cs' (with_kmem s' k)) /\
    ring_wf cs' /\ edit (line_of cs') = edit (line_of (k_cons k)) /\ kbd_intr_count cs' = kbd_intr_count (k_cons k) /\
    delivered T l (ps_kmem (k_ps k)) dst d (ready (line_of (k_cons k))) rest c (ready (line_of cs')) s'.
Proof.
  induction fuel as [|f IH]; intros n dst k d rest Hk Hr Hd Hn Hmax Hfuel Hq; [lia|]. cbn [consoleread_loop].
  destruct (Z.ltb_spec 0 n) as [Hpos|Hpos]; cbn [negb].
  2:{ replace (Z.to_nat n) with 0%nat in Hq by lia. simpl in Hq. injection Hq as <- <-.
      exists 0, (k_cons k), (ps_kmem (k_ps k)). rewrite same_state, Z.sub_0_r. split_and!; try done.
      apply delivered_none, Hk. }
  rewrite (bind_Ok getcons _ k (k_cons k) k eq_refl), cons_empty_spec by done.
  replace (Z.to_nat n) with (S (Z.to_nat (n - 1))) in Hq by lia.
  destruct (ready (line_of (k_cons k))) as [|x q] eqn:Eq; [done|]. cbn [read_input] in Hq.
  destruct (cons_take_ok (k_cons k) x q Hr Eq) as (-> & Hr1 & Hl1 & Hback).
  cbv zeta. set (k1 := set_k_cons (cons_take (k_cons k)) k).
  rewrite (bind_Ok (updcons cons_take) _ k tt k1 eq_refl). destruct (x =? C 68).
  { injection Hq as <- <-.
    exists 0, (if n <? target then k_cons k else cons_take (k_cons k)), (ps_kmem (k_ps k)). rewrite Z.sub_0_r.
    destruct (n <? target).
    - rewrite same_state, Eq. split_and!; try done; [|apply delivered_none, Hk].
      unfold updcons, modify, bind, k1. cbn [k_cons set_k_cons]. rewrite Hback. by destruct k.
    - rewrite Hl1. split_and!; try done; [|apply delivered_none, Hk]. unfold bind, ret, k1. by destruct k as [[]]. }
  destruct (either_copyout_byte k1 cons_lock m p l T dst x) as (r & s1 & E & Hc); [by apply in_section_cons|done|].
  rewrite (bind_Ok _ _ _ _ _ E). destruct Hc as [(-> & Hst & Hw)|(-> & Hst & Hw)]; cbn [Z.eqb].
  2:{ exists 0, (cons_take (k_cons k)), s1. rewrite Z.sub_0_r, Hl1. split_and!; try done.
      destruct (x =? c_nl); [|destruct (read_input _ _ _) as [[d' r']|]; [|done]]; injection Hq as <- <-;
        by apply delivered_lost. }
  change (0 =? -1) with false. rewrite u64_small by lia. destruct (x =? c_nl).
  { injection Hq as <- <-. exists (0 + 1), (cons_take (k_cons k)), s1. rewrite Hl1. split_and!; try done.
    eapply delivered_byte; [done|done|]. apply delivered_none. apply Hw. }
  destruct (read_input _ _ _) as [[d' r']|] eqn:Hq'; [|done]. injection Hq as <- <-.
  destruct (IH (n - 1) (dst + 1) (with_kmem s1 k1) d' r') as (c & cs' & s' & E' & Hr2 & He2 & Hk2 & Hg);
    change (k_cons (with_kmem s1 k1)) with (cons_take (k_cons k)) in *; rewrite ?Hl1 in *; try done; try lia.
  - apply in_section_kmem; [by apply in_section_cons|apply Hw|apply Hw].
  - by rewrite (proj2 (Z.ltb_lt (n - 1) target)) by lia.
  - exists (c + 1), cs', s'. rewrite E'. split_and!; try done.
    + do 2 f_equal. lia.
    + by apply (delivered_byte _ _ _ s1).
Qed.

Lemma delivered_mach T l s a d q rest c q' s' m' :
  delivered T l (mkKmem m' (km_mem s) (km_freelist s)) a d q rest c q' s' -> settled (km_mach s) ->
  delivered T l s a d q rest c q' (mkKmem (km_mach s) (km_mem s') (km_freelist s')).
Proof.
  intros [Hr Hw Hst Hstop] Hs. split; try done.
  eapply written_mach; [done|by apply settled_noff|apply Hs|done].
Qed.

Lemma read_input_shorter n : forall some q d rest,
  read_input n some q = Some (d, rest) -> (length rest <= length q)%nat /\ (length d <= n)%nat.
Proof.
  induction n as [|n IH]; intros some [|x q] d rest; simpl; intros E; simplify_eq/=; try lia.
  destruct (x =? C 68); [destruct some; simplify_eq/=; lia|]. destruct (x =? c_nl); [simplify_eq/=; lia|].
  destruct (read_input n true q) as [[d' r']|] eqn:E'; simplify_eq/=. apply IH in E'. lia.
Qed.

Lemma delivered_shorter T l s a d q rest c q' s' : delivered T l s a d q rest c q' s' ->
  (length rest <= length q)%nat -> (length q' <= length q)%nat.
Proof. intros [_ _ _ [[_ ->]|(_ & _ & ->)]] Hl; [done|]. rewrite length_drop. lia. Qed.

(** consoleread by a live process when the input it asks for has been
    handed over.  It moves to the process's memory what [read_input] says, one
    line at most and nothing past a ^D, and returns the number of bytes moved;
    it stops early only at an address that the process may not write, whose byte
    is lost.  The line being typed and the count of interrupts are untouched. *)
Theorem consoleread_ok k p pid l T dst n d rest :
  user_running k p pid l T -> cons_wf (k_cons k) -> 0 <= dst -> 0 <= n < 2 ^ 31 -> dst + n < 2 ^ 64 ->
  read_input (Z.to_nat n) false (ready (line_of (k_cons k))) = Some (d, rest) ->
  exists c cs' s', consoleread true dst n k = Ok c (set_k_cons cs' (with_kmem s' k)) /\ cons_wf cs' /\
    edit (line_of cs') = edit (line_of (k_cons k)) /\ kbd_intr_count cs' = kbd_intr_count (k_cons k) /\
    delivered T l (ps_kmem (k_ps k)) dst d (ready (line_of (k_cons k))) rest c (ready (line_of cs')) s'.
Proof.
  intros Hu [Hr Hl] Hd Hn Hmax Hq. pose proof (user_enters k p pid l T cons_lock ltac:(done) Hu) as Hin.
  destruct (ur_running _ _ _ _ _ Hu) as [Hs Hc Hpid].
  unfold consoleread. rewrite (bind_Ok _ _ _ _ _ (acq_eq _ _ Hs)), u32_small by lia.
  set (k1 := set_kmach (acquired cons_lock (kmach k)) k) in *.
  destruct (consoleread_loop_ok (kmach k) p l T n (S (Z.to_nat n + swtch_wakeups)) n dst k1 d rest)
    as (c & cs' & s' & E & Hr' & He & Hk & Hg); [done|done|done|lia|lia|lia| |].
  { by rewrite Z.ltb_irrefl. }
  rewrite (bind_Ok _ _ _ _ _ E). apply read_input_shorter in Hq as [Hlr Hld].
  pose proof (wr_mach _ _ _ _ _ _ (dl_written _ _ _ _ _ _ _ _ _ _ Hg)) as Hm.
  apply (delivered_mach T l (ps_kmem (k_ps k))) in Hg; [|done].
  exists c, cs', (mkKmem (km_mach (ps_kmem (k_ps k))) (km_mem s') (km_freelist s')). split_and!; try done.
  - unfold bind. rewrite (rel_eq _ (kmach k)) by (done || exact Hm). unfold ret. f_equal.
    replace (n - (n - c)) with c by lia. apply s32_small. destruct (dl_range _ _ _ _ _ _ _ _ _ _ Hg). lia.
  - change (k_cons k1) with (k_cons k) in *.
    apply (delivered_shorter _ _ _ _ _ _ _ _ _ _ Hg) in Hlr. destruct Hl as [Hl Hsz].
    split; [done|]. split; [by rewrite He|]. rewrite He. intros Hne. specialize (Hsz Hne).
    unfold line_size in *. rewrite He. lia.
Qed.


End read.

(** * From the keyboard to the reader *)

Definition keys (cs : list Z) (ln : line) : line := fold_left (fun ln c => key c ln) cs ln.

Section input.
Context {img : Image} {imgok : ImageOk img} `{Swtch ks}.

(** The processes and their memory are as before, but for who has been woken. *)
Record undisturbed (k k' : ks) : Prop := {
  ud_mach : kmach k' = kmach k;
  ud_alive : ps_panicked (k_ps k') = ps_panicked (k_ps k);
  ud_kmem : ps_kmem (k_ps k') = ps_kmem (k_ps k);
  ud_running : forall p pid l T, user_running k p pid l T -> user_running k' p pid l T
}.

Lemma undisturbed_trans k1 k2 k3 : undisturbed k1 k2 -> undisturbed k2 k3 -> undisturbed k1 k3.
Proof. intros [] []. split; [congruence|congruence|congruence|auto]. Qed.

Lemma undisturbed_rx u k : undisturbed k (set_k_uart u k).
Proof. split; [done|done|done|]. intros p pid l T [[]]. by split; [split|..]. Qed.

Lemma undisturbed_typed woken cs bs k : undisturbed k (typed woken cs bs k).
Proof.
  split; try (by destruct woken). intros p pid l T Hu.
  assert (user_running (set_k_cons cs (emit_k bs k)) p pid l T) by (destruct Hu as [[]]; by split; [split|..]).
  destruct woken; [by apply user_running_wake|done].
Qed.

Lemma undisturbed_drained j u' k : undisturbed k (drained j u' k).
Proof. split; try (by destruct j). intros p pid l T. apply drained_running. Qed.

Lemma uartintr_loop_ok fuel : forall k,
  settled (kmach k) -> ps_panicked (k_ps k) = false -> cons_wf (k_cons k) ->
  Forall (fun c => 0 <= c < 256) (rx_fifo (k_uart k)) -> (length (rx_fifo (k_uart k)) < fuel)%nat ->
  exists k', uartintr_loop fuel k = Ok tt k' /\ undisturbed k k' /\ k_uart k' = set_rx_fifo [] (k_uart k) /\
    cons_wf (k_cons k') /\ line_of (k_cons k') = keys (rx_fifo (k_uart k)) (line_of (k_cons k)).
Proof.
  induction fuel as [|f IH]; intros k Hs Hp Hw Hb Hf; [lia|]. cbn [uartintr_loop].
  destruct (rx_fifo (k_uart k)) as [|c cs] eqn:Er.
  { assert (E : uartgetc k = Ok (-1) k) by (unfold uartgetc, getuart, gets, bind; by rewrite Er).
    rewrite (bind_Ok _ _ _ _ _ E). exists k. split_and!; try done.
    rewrite <-Er. by destruct (k_uart k). }
  apply Forall_cons in Hb as [Hc Hb].
  set (k1 := set_k_uart (set_rx_fifo cs (k_uart k)) k).
  assert (E : uartgetc k = Ok c k1) by (unfold uartgetc, getuart, gets, bind; by rewrite Er).
  rewrite (bind_Ok _ _ _ _ _ E). destruct (Z.eqb_spec c (-1)); [lia|].
  destruct (consoleintr_ok c k1 Hs Hp Hw Hc) as (cs' & Ec & Hw' & Hl' & _). rewrite (bind_Ok _ _ _ _ _ Ec).
  set (k2 := typed _ cs' _ k1) in *. assert (U2 : undisturbed k1 k2) by apply undisturbed_typed.
  assert (Eu : k_uart k2 = k_uart k1) by (unfold k2, typed; by destruct (key_wakes _ _)).
  assert (Ek : k_cons k2 = cs') by (unfold k2, typed; by destruct (key_wakes _ _)).
  destruct (IH k2) as (k' & E' & U' & Hu' & Hwf & Hln); rewrite ?Eu, ?Ek in *; try done.
  - by rewrite (ud_mach _ _ U2).
  - by rewrite (ud_alive _ _ U2).
  - simpl in Hf |- *. lia.
  - exists k'. split_and!; try done.
    + apply (undisturbed_trans _ k1); [apply undisturbed_rx|]. by apply (undisturbed_trans _ k2).
    + rewrite Hln, Hl'. done.
Qed.

Lemma uartintr_ok k :
  settled (kmach k) -> ps_panicked (k_ps k) = false -> cons_wf (k_cons k) -> uart_wf (k_uart k) ->
  Forall (fun c => 0 <= c < 256) (rx_fifo (k_uart k)) ->
  exists k', uartintr k = Ok tt k' /\ undisturbed k k' /\ rx_fifo (k_uart k') = [] /\ uart_wf (k_uart k') /\
    cons_wf (k_cons k') /\ line_of (k_cons k') = keys (rx_fifo (k_uart k)) (line_of (k_cons k)).
Proof.
  intros Hs Hp Hw Hu Hb. unfold uartintr. rewrite (bind_Ok getuart _ k (k_uart k) k eq_refl).
  destruct (uartintr_loop_ok (S (length (rx_fifo (k_uart k)))) k Hs Hp Hw Hb) as (k1 & E & U & Hu1 & Hw1 & Hl1); [lia|].
  rewrite (bind_Ok _ _ _ _ _ E). rewrite <-(ud_mach _ _ U) in Hs. rewrite (bind_Ok _ _ _ _ _ (acq_eq _ _ Hs)).
  set (k2 := set_kmach (acquired uart_tx_lock (kmach k1)) k1).
  assert (uart_wf (k_uart k2)) as Hu2 by (change (k_uart k2) with (k_uart k1); rewrite Hu1; by destruct Hu).
  destruct (uartstart_ok (kmach k1) k2) as (j & u' & Es & Hst); [done|done|].
  rewrite (bind_Ok _ _ _ _ _ Es). exists (drained j u' k1).
  assert (k_uart (drained j u' k1) = u') as -> by (by destruct j).
  assert (k_cons (drained j u' k1) = k_cons k1) as -> by (by destruct j).
  destruct Hst as [Hwu _ _ _ [Hrx _]]. split_and!; try done.
  - pose proof (drained_leaves j u' (k_uart k1) k1 Hs) as El. by destruct k1.
  - apply (undisturbed_trans _ k1); [done|apply undisturbed_drained].
  - rewrite Hrx. change (k_uart k2) with (k_uart k1). by rewrite Hu1.
Qed.

(** C11: from the keyboard to the reader.  Whatever keys have arrived at the UART,
    after the interrupt handler has run a process that reads the console gets
    what [read_input] finds in the lines that the editor made of these keys, and
    the rest stays for the next read. *)
Theorem typed_line_is_read k p pid l T dst n d rest :
  user_running k p pid l T -> ps_panicked (k_ps k) = false -> cons_wf (k_cons k) -> uart_wf (k_uart k) ->
  Forall (fun c => 0 <= c < 256) (rx_fifo (k_uart k)) ->
  0 <= dst -> 0 <= n < 2 ^ 31 -> dst + n < 2 ^ 64 ->
  let ln := keys (rx_fifo (k_uart k)) (line_of (k_cons k)) in
  read_input (Z.to_nat n) false (ready ln) = Some (d, rest) ->
  (forall x, dst <= x < dst + Z.of_nat (length d) -> storable T (km_mem (ps_kmem (k_ps k))) x) ->
  exists k', (uartintr ;;; consoleread true dst n) k = Ok (Z.of_nat (length d)) k' /\
    line_of (k_cons k') = mkLine rest (edit ln) /\ cons_wf (k_cons k') /\
    written (ps_kmem (k_ps k)) l T dst d (ps_kmem (k_ps k')).
Proof.
  intros Hu Hp Hw Huw Hb Hd Hn Hmax ln Hq Hst.
  destruct (uartintr_ok k (run_settled _ _ _ (ur_running _ _ _ _ _ Hu)) Hp Hw Huw Hb) as (k1 & E1 & U & _ & _ & Hw1 & Hl1).
  fold ln in Hl1. rewrite <-Hl1 in Hq |- *. rewrite (bind_Ok _ _ _ _ _ E1).
  destruct (consoleread_ok k1 p pid l T dst n d rest (ud_running _ _ U _ _ _ _ Hu) Hw1 Hd Hn Hmax Hq)
    as (c & cs' & s' & E2 & Hw2 & He2 & _ & Hg).
  rewrite (ud_kmem _ _ U) in Hg. destruct Hg as [Hr Hwr _ [[-> Er]|(Hlt & Hno & _)]].
  - eexists. split; [exact E2|]. rewrite Nat2Z.id, take_ge in Hwr by lia. split_and!; try done.
    change (k_cons (set_k_cons cs' (with_kmem s' k1))) with cs'. rewrite <-Er, <-He2. by destruct (line_of cs').
  - exfalso. apply Hno, Hst. lia.
Qed.

(** One interrupt for a key, or one read of input that is there. *)
Inductive console_step (k k' : ks) : Prop :=
| step_key c : 0 <= c < 256 -> settled (kmach k) -> ps_panicked (k_ps k) = false ->
    consoleintr c k = Ok tt k' -> console_step k k'
| step_read p pid l T dst n d rest r : user_running k p pid l T ->
    0 <= dst -> 0 <= n < 2 ^ 31 -> dst + n < 2 ^ 64 ->
    read_input (Z.to_nat n) false (ready (line_of (k_cons k))) = Some (d, rest) ->
    consoleread true dst n k = Ok r k' -> console_step k k'.

(** C22: the type of the console's ring.  From the zeroed ring of boot, after any
    sequence of keys and reads, r, w and e are still in this order and at most
    INPUT_BUF_SIZE apart, even past 2^32 keys, and the line being typed holds no
    newline and no ^D and leaves room in the ring. *)
Theorem console_type buf k k' :
  length buf = Z.to_nat INPUT_BUF_SIZE -> k_cons k = mkCons buf 0 0 0 0 -> rtc console_step k k' ->
  cons_wf (k_cons k').
Proof.
  intros Hb Hk Hrun. assert (Hw : cons_wf (k_cons k)) by (rewrite Hk; split; [by split|done]).
  clear Hk. induction Hrun as [|k k1 k' Hstep _ IH]; [done|]. apply IH.
  destruct Hstep as [c Hc Hs Hp E|p pid l T dst n d rest r Hu Hd Hn Hmax Hq E].
  - destruct (consoleintr_ok c k Hs Hp Hw Hc) as (cs' & E' & Hw' & _). rewrite E' in E. injection E as <-.
    unfold typed. by destruct (key_wakes _ _).
  - destruct (consoleread_ok k p pid l T dst n d rest Hu Hw Hd Hn Hmax Hq) as (c & cs' & s' & E' & Hw' & _).
    rewrite E' in E. by injection E as <- <-.
Qed.

End input.

(** * Witnesses *)

Lemma zeroed_wf : cons_wf cons0.
Proof. split; [by split|done]. Qed.

(** The user process of Usersec at a console with the ring [cs] and the keys
    [rx] in the UART. *)
Definition console_ks (cs : cons) (rx : list Z) : ks :=
  set_k_uart (set_rx_fifo rx uart0) (set_k_cons cs (set_k_ps user_pst ks0)).

Lemma console_uart_wf rx : uart_wf (set_rx_fifo rx uart0).
Proof. by destruct uart0_wf. Qed.

Lemma consoleintr_spec_witness :
  exists cs', consoleintr 65 ks0 = Ok tt (typed false cs' [65] ks0) /\ line_of cs' = mkLine [] [65].
Proof.
  destruct (consoleintr_spec 65 ks0 mach1_settled eq_refl zeroed_wf) as (cs' & E & _ & Hl & _);
    [lia|]. exists cs'. split; [exact E|exact Hl].
Defined.

(** The keys l, x, backspace, s and return are read as [ls] and a newline. *)
Lemma typed_line_is_read_witness :
  exists k', (uartintr ;;; consoleread (H := swtch_ks) true 100 8) (console_ks cons0 [108; 120; 8; 115; 13]) =
    Ok 3 k'.
Proof.
  destruct (typed_line_is_read (img := image1) (H := swtch_ks) (console_ks cons0 [108; 120; 8; 115; 13])
    2 5 [] pt_tables0 100 8 [108; 115; 10] [] (user_pst_running (console_ks cons0 _) eq_refl) eq_refl
    zeroed_wf (console_uart_wf _)) as (k' & E & _).
  - repeat (apply Forall_cons; split; [lia|]). constructor.
  - lia.
  - lia.
  - lia.
  - vm_compute. reflexivity.
  - intros x Hx. apply storable0. simpl in Hx. lia.
  - exists k'. exact E.
Defined.

Lemma console_type_witness : exists k', consoleintr 65 ks0 = Ok tt k' /\ cons_wf (k_cons k').
Proof.
  destruct (consoleintr_ok 65 ks0 mach1_settled eq_refl zeroed_wf) as (cs' & E & _); [lia|].
  eexists. split; [exact E|].
  apply (console_type (img := image1) (H := swtch_ks) (replicate 128 0) ks0); [reflexivity|reflexivity|].
  apply rtc_once. apply (step_key _ _ 65); [lia|exact mach1_settled|reflexivity|exact E].
Defined.
