(* ===== verification/Kproc.v ===== *)
(** Processes over the file system: [userinit], [fork], [exit] and [forkret]
    of kernel/proc.c, [exec] of kernel/exec.c and the return to user space of
    kernel/trap.c. *)

From Stdlib Require Import ZArith Lia List String Bool.
From stdpp Require Import base tactics numbers list functions sets.
From S2P Require Import Prelude.
From S2P Require Import Spinlock.
From S2P Require Import Cstring.
From S2P Require Import Kalloc.
From S2P Require Import Vm.
From S2P Require Import Printf.
From S2P Require Import Proc.
From S2P Require Import Sched.
From S2P Require Import Abi.
From S2P Require Import Kstate.
From S2P Require Import Bio.
From S2P Require Import Log.
From S2P Require Import Fs.
From S2P Require Import Console.
From S2P Require Import File.

Definition SATP_SV39 : Z := Z.shiftl 8 60.
Definition MAKE_SATP (pagetable : Z) : Z := Z.lor SATP_SV39 (Z.shiftr pagetable 12).

(** The machine code of user/initcode.S. *)
Definition initcode : list Z := [
  0x17; 0x05; 0x00; 0x00; 0x13; 0x05; 0x45; 0x02;
  0x97; 0x05; 0x00; 0x00; 0x93; 0x85; 0x35; 0x02;
  0x93; 0x08; 0x70; 0x00; 0x73; 0x00; 0x00; 0x00;
  0x93; 0x08; 0x20; 0x00; 0x73; 0x00; 0x00; 0x00;
  0xef; 0xf0; 0x9f; 0xff; 0x2f; 0x69; 0x6e; 0x69;
  0x74; 0x00; 0x00; 0x24; 0x00; 0x00; 0x00; 0x00;
  0x00; 0x00; 0x00; 0x00
].

(** Bits of the flags of a program header. *)
Definition flags2perm (flags : Z) : Z :=
  let perm := if negb (Z.land flags 1 =? 0) then PTE_X else 0 in
  if negb (Z.land flags 2 =? 0) then Z.lor perm PTE_W else perm.

(** [struct elfhdr] and [struct proghdr]. *)
Definition ELF_MAGIC : Z := 0x464C457F.
Definition ELFHDR_SIZE : Z := 64.
Definition PROGHDR_SIZE : Z := 56.
Definition ELF_PROG_LOAD : Z := 1.
Definition elf_magic (h : list Z) : Z := le_get 4 0 h.
Definition elf_entry (h : list Z) : Z := le_get 8 24 h.
Definition elf_phoff (h : list Z) : Z := le_get 8 32 h.
Definition elf_phnum (h : list Z) : Z := le_get 2 56 h.
Definition ph_type (h : list Z) : Z := le_get 4 0 h.
Definition ph_flags (h : list Z) : Z := le_get 4 4 h.
Definition ph_off (h : list Z) : Z := le_get 8 8 h.
Definition ph_vaddr (h : list Z) : Z := le_get 8 16 h.
Definition ph_filesz (h : list Z) : Z := le_get 8 32 h.
Definition ph_memsz (h : list Z) : Z := le_get 8 40 h.

(** The name after the last slash of a path. *)
Fixpoint last_elem (last s : list Z) : list Z :=
  match s with
  | [] => last
  | c :: s' => if c =? c_slash then last_elem s' s' else last_elem last s'
  end.

Section kproc.
Context {img : Image} `{Swtch ks} `{BlockDev}.

Definition setproc (p : nat) (f : proc -> proc) : M ks unit := zoom (updp p f).

(** * trap.c: the return to user space *)

(** The state in which the trampoline takes over; the result is the value of
    satp that it is called with. *)
Definition usertrapret : M ks Z :=
  p <- curproc ;;
  zoom intr_off ;;;
  modify (fun k => set_k_csr (set_r_stvec (TRAMPOLINE + uservec_off) (k_csr k)) k) ;;;
  satp <- gets (fun k => r_satp (k_csr k)) ;;
  pr <- procof p ;;
  hart <- zoom cpuid ;;
  zoom (tf_set p TF_kernel_satp satp) ;;;
  zoom (tf_set p TF_kernel_sp (u64 (p_kstack pr + PGSIZE))) ;;;
  zoom (tf_set p TF_kernel_trap usertrap_addr) ;;;
  zoom (tf_set p TF_kernel_hartid (Z.of_nat hart)) ;;;
  modify (fun k => set_k_csr (set_r_spie true (set_r_spp false (k_csr k))) k) ;;;
  epc <- zoom (tf_get p TF_epc) ;;
  modify (fun k => set_k_csr (set_r_sepc epc (k_csr k)) k) ;;;
  ret (MAKE_SATP (p_pagetable pr)).

(** * proc.c *)

Definition userinit : M ks unit :=
  o <- zoom allocproc ;;
  zoom (modify (set_ps_initproc o)) ;;;
  match o with
  | None => undef
  | Some p =>
      pr <- procof p ;;
      zoom (uvmfirst (p_pagetable pr) initcode) ;;;
      setproc p (set_p_sz PGSIZE) ;;;
      zoom (tf_set p TF_epc 0) ;;;
      zoom (tf_set p TF_sp PGSIZE) ;;;
      setproc p (fun pr => set_p_name (safestrcpy_bytes (p_name pr) (str "initcode" ++ [0]) 16) pr) ;;;
      cwd <- namei (str "/") ;;
      setproc p (set_p_cwd cwd) ;;;
      setproc p (set_p_state RUNNABLE) ;;;
      ticks <- gets (fun k => ps_ticks (k_ps k)) ;;
      setproc p (set_p_last_runnable_time ticks) ;;;
      rel (proc_lock p)
  end.

Definition fork : M ks Z :=
  p <- curproc ;;
  o <- zoom allocproc ;;
  match o with
  | None => ret (-1)
  | Some np =>
      pr <- procof p ;;
      npr <- procof np ;;
      r <- zoom (uvmcopy (p_pagetable pr) (p_pagetable npr) (p_sz pr)) ;;
      if r <? 0 then
        zoom (freeproc np) ;;;
        rel (proc_lock np) ;;;
        ret (-1)
      else
      setproc np (set_p_sz (p_sz pr)) ;;;
      zoom (upd_mem (memmove (p_trapframe npr) (p_trapframe pr) TF_SIZE)) ;;;
      zoom (tf_set np TF_a0 0) ;;;
      for_each (seq 0 NOFILE) (fun i =>
        match nth i (p_ofile pr) None with
        | Some f =>
            f <- filedup f ;;
            setproc np (fun q => set_p_ofile (<[i := Some f]> (p_ofile q)) q)
        | None => ret tt
        end) ;;;
      cwd <- match p_cwd pr with Some c => idup c | None => undef end ;;
      setproc np (set_p_cwd (Some cwd)) ;;;
      setproc np (fun q => set_p_name (safestrcpy_bytes (p_name q) (p_name pr) 16) q) ;;;
      npr <- procof np ;;
      let pid := p_pid npr in
      rel (proc_lock np) ;;;
      acq wait_lock ;;;
      setproc np (set_p_parent (Some p)) ;;;
      rel wait_lock ;;;
      acq (proc_lock np) ;;;
      setproc np (set_p_state RUNNABLE) ;;;
      ticks <- gets (fun k => ps_ticks (k_ps k)) ;;
      setproc np (set_p_last_runnable_time ticks) ;;;
      rel (proc_lock np) ;;;
      ret pid
  end.

(** [exit] does not return: any result type will do. *)
Definition exit {A : Type} (status : Z) : M ks A :=
  p <- curproc ;;
  init <- gets (fun k => ps_initproc (k_ps k)) ;;
  if bool_decide (Some p = init) then panic "init exiting" else
  zoom (exit_metrics p) ;;;
  for_each (seq 0 NOFILE) (fun fd =>
    pr <- procof p ;;
    match nth fd (p_ofile pr) None with
    | Some f =>
        fileclose f ;;;
        setproc p (fun q => set_p_ofile (<[fd := None]> (p_ofile q)) q)
    | None => ret tt
    end) ;;;
  begin_op ;;;
  pr <- procof p ;;
  match p_cwd pr with Some c => iput c | None => undef end ;;;
  end_op ;;;
  setproc p (set_p_cwd None) ;;;
  acq wait_lock ;;;
  zoom (reparent p) ;;;
  pr <- procof p ;;
  wake (ch_ptr (p_parent pr)) ;;;
  acq (proc_lock p) ;;;
  setproc p (set_p_xstate status) ;;;
  setproc p (set_p_state ZOMBIE) ;;;
  rel wait_lock ;;;
  sched ;;;
  panic "zombie exit".

Definition forkret : M ks Z :=
  p <- curproc ;;
  rel (proc_lock p) ;;;
  first <- gets k_first ;;
  (if (first : bool) then fsinit ROOTDEV ;;; modify (set_k_first false) else ret tt) ;;;
  usertrapret.

(** * exec.c *)

(** The loop of loadseg: page [i / PGSIZE] of the segment. *)
Fixpoint loadseg_loop (fuel : nat) (pagetable va : Z) (ip : nat) (offset sz i : Z) : M ks Z :=
  match fuel with
  | O => spin
  | S f =>
      if negb (i <? sz) then ret 0 else
      pa <- zoom (walkaddr pagetable (u64 (va + i))) ;;
      if pa =? 0 then panic "loadseg: address should exist" else
      let n := if sz - i <? PGSIZE then sz - i else PGSIZE in
      r <- readi ip (to_kernel pa) (u32 (offset + i)) n ;;
      if negb (fst r =? n) then ret (-1)
      else loadseg_loop f pagetable va ip offset sz (u32 (i + PGSIZE))
  end.
Definition loadseg (pagetable va : Z) (ip : nat) (offset sz : Z) : M ks Z :=
  loadseg_loop (Z.to_nat (sz / PGSIZE) + 2) pagetable va ip offset sz 0.

(** The program headers: whether all were loaded, and the size reached. *)
Fixpoint load_segments (k : nat) (pagetable : Z) (ip : nat) (off sz : Z) : M ks (bool * Z) :=
  match k with
  | O => ret (true, sz)
  | S k' =>
      r <- readi ip to_local (u32 off) PROGHDR_SIZE ;;
      if negb (fst r =? PROGHDR_SIZE) then ret (false, sz) else
      let ph := snd r in
      let next := s32 (off + PROGHDR_SIZE) in
      if negb (ph_type ph =? ELF_PROG_LOAD) then load_segments k' pagetable ip next sz else
      if ph_memsz ph <? ph_filesz ph then ret (false, sz) else
      if u64 (ph_vaddr ph + ph_memsz ph) <? ph_vaddr ph then ret (false, sz) else
      if negb (ph_vaddr ph mod PGSIZE =? 0) then ret (false, sz) else
      sz1 <- zoom (uvmalloc pagetable sz (u64 (ph_vaddr ph + ph_memsz ph)) (flags2perm (ph_flags ph))) ;;
      if sz1 =? 0 then ret (false, sz) else
      r <- loadseg pagetable (ph_vaddr ph) ip (u32 (ph_off ph)) (u32 (ph_filesz ph)) ;;
      if r <? 0 then ret (false, sz1) else
      load_segments k' pagetable ip next sz1
  end.

(** Push the argument strings: the stack pointer and their addresses. *)
Fixpoint push_args (pagetable stackbase : Z) (argv : list (list Z)) (argc : nat) (sp : Z) (ustack : list Z)
  : M ks (option (Z * list Z)) :=
  match argv with
  | [] => ret (Some (sp, ustack))
  | a :: argv' =>
      if (MAXARG <=? argc)%nat then ret None else
      let sp := u64 (sp - (Z.of_nat (length a) + 1)) in
      let sp := sp - sp mod 16 in
      if sp <? stackbase then ret None else
      r <- zoom (copyout pagetable sp (a ++ [0])) ;;
      if r <? 0 then ret None else
      push_args pagetable stackbase argv' (S argc) sp (ustack ++ [sp])
  end.

(** The [bad:] label; [ip] is null once the inode has been released. *)
Definition exec_bad (pagetable sz : Z) (ip : option nat) : M ks Z :=
  (if negb (pagetable =? 0) then zoom (proc_freepagetable pagetable sz) else ret tt) ;;;
  match ip with
  | Some ip => iunlockput ip ;;; end_op
  | None => ret tt
  end ;;;
  ret (-1).

(** From the stack allocation to the switch to the new image. *)
Definition exec_image (path : list Z) (argv : list (list Z)) (elf : list Z) (pagetable sz : Z) : M ks Z :=
  p <- curproc ;;
  pr <- procof p ;;
  let oldsz := p_sz pr in
  let sz := PGROUNDUP sz in
  sz1 <- zoom (uvmalloc pagetable sz (u64 (sz + (USERSTACK + 1) * PGSIZE)) PTE_W) ;;
  if sz1 =? 0 then exec_bad pagetable sz None else
  let sz := sz1 in
  zoom (uvmclear pagetable (sz - (USERSTACK + 1) * PGSIZE)) ;;;
  let stackbase := sz - USERSTACK * PGSIZE in
  o <- push_args pagetable stackbase argv 0 sz [] ;;
  match o with
  | None => exec_bad pagetable sz None
  | Some (sp, ustack) =>
      let argc := Z.of_nat (length ustack) in
      let sp := u64 (sp - (argc + 1) * 8) in
      let sp := sp - sp mod 16 in
      if sp <? stackbase then exec_bad pagetable sz None else
      r <- zoom (copyout pagetable sp (concat (map (le_bytes 8) (ustack ++ [0])))) ;;
      if r <? 0 then exec_bad pagetable sz None else
      zoom (tf_set p TF_a1 sp) ;;;
      setproc p (fun q => set_p_name (safestrcpy_bytes (p_name q) (last_elem path path ++ [0]) 16) q) ;;;
      pr <- procof p ;;
      let oldpagetable := p_pagetable pr in
      setproc p (set_p_pagetable pagetable) ;;;
      setproc p (set_p_sz sz) ;;;
      zoom (tf_set p TF_epc (elf_entry elf)) ;;;
      zoom (tf_set p TF_sp sp) ;;;
      zoom (proc_freepagetable oldpagetable oldsz) ;;;
      ret argc
  end.

Definition exec (path : list Z) (argv : list (list Z)) : M ks Z :=
  p <- curproc ;;
  begin_op ;;;
  o <- namei path ;;
  match o with
  | None => end_op ;;; ret (-1)
  | Some ip =>
      ilock ip ;;;
      r <- readi ip to_local 0 ELFHDR_SIZE ;;
      let elf := snd r in
      if negb (fst r =? ELFHDR_SIZE) then exec_bad 0 0 (Some ip) else
      if negb (elf_magic elf =? ELF_MAGIC) then exec_bad 0 0 (Some ip) else
      pagetable <- zoom (proc_pagetable p) ;;
      if pagetable =? 0 then exec_bad 0 0 (Some ip) else
      r <- load_segments (Z.to_nat (elf_phnum elf)) pagetable ip (s32 (elf_phoff elf)) 0 ;;
      if negb (fst r) then exec_bad pagetable (snd r) (Some ip) else
      iunlockput ip ;;;
      end_op ;;;
      exec_image path argv elf pagetable (snd r)
  end.

End kproc.
