(* ===== verification/Syscall.v ===== *)
(** System calls: argument fetching and dispatch of kernel/syscall.c and the
    handlers of kernel/sysproc.c, kernel/sysutil.c and kernel/sysfile.c.

    Padding bytes of a structure that is copied out, which C leaves
    unspecified, are zero here. *)

From Stdlib Require Import ZArith Lia List String Bool.
From stdpp Require Import base tactics numbers list functions sets.
From S2P Require Import Prelude.
From S2P Require Import Spinlock.
From S2P Require Import Cstring.
From S2P Require Import Kalloc.
From S2P Require Import Vm.
From S2P Require Import Printf.
From S2P Require Import Proc.
From S2P Require Import Sched.
From S2P Require Import Datetime.
From S2P Require Import Abi.
From S2P Require Import Kstate.
From S2P Require Import Bio.
From S2P Require Import Log.
From S2P Require Import Fs.
From S2P Require Import Console.
From S2P Require Import File.
From S2P Require Import Kproc.


(** The UNIX time at which the image was built, a constant of the build. *)
Class Build := { BOOT_EPOCH : Z }.

Section syscall.
Context {img : Image} `{Swtch ks} `{BlockDev} `{Build}.

(** * Arguments *)

Definition fetchaddr (addr : Z) : M ks (option Z) :=
  p <- curproc ;;
  pr <- procof p ;;
  if (p_sz pr <=? addr) || (p_sz pr <? u64 (addr + 8)) then ret None else
  r <- zoom (copyin (p_pagetable pr) addr 8) ;;
  match r with
  | None => ret None
  | Some bs => ret (Some (le_val bs))
  end.

(** The string, without its NUL. *)
Definition fetchstr (addr max : Z) : M ks (option (list Z)) :=
  p <- curproc ;;
  pr <- procof p ;;
  r <- zoom (copyinstr (p_pagetable pr) addr max) ;;
  match r with
  | None => ret None
  | Some bs => ret (Some (until_nul bs))
  end.

Definition argraw (n : Z) : M ks Z :=
  p <- curproc ;;
  if n =? 0 then zoom (tf_get p TF_a0)
  else if n =? 1 then zoom (tf_get p TF_a1)
  else if n =? 2 then zoom (tf_get p TF_a2)
  else if n =? 3 then zoom (tf_get p TF_a3)
  else if n =? 4 then zoom (tf_get p TF_a4)
  else if n =? 5 then zoom (tf_get p TF_a5)
  else panic "argraw".

Definition argint (n : Z) : M ks Z := v <- argraw n ;; ret (s32 v).
Definition argaddr (n : Z) : M ks Z := argraw n.
Definition argstr (n max : Z) : M ks (option (list Z)) :=
  addr <- argaddr n ;; fetchstr addr max.

(** * sysproc.c *)

Definition sys_exit : M ks Z := n <- argint 0 ;; exit n.
Definition sys_getpid : M ks Z := p <- curproc ;; pr <- procof p ;; ret (p_pid pr).
Definition sys_fork : M ks Z := fork.
Definition sys_wait : M ks Z := p <- argaddr 0 ;; wait p.

Definition sys_sbrk : M ks Z :=
  n <- argint 0 ;;
  p <- curproc ;;
  pr <- procof p ;;
  let addr := p_sz pr in
  r <- zoom (growproc n) ;;
  if r <? 0 then ret (-1) else ret addr.

(** [while(ticks - ticks0 < n)] *)
Fixpoint sys_sleep_loop (fuel : nat) (ticks0 n : Z) : M ks Z :=
  match fuel with
  | O => asleep
  | S f =>
      ticks <- gets (fun k => ps_ticks (k_ps k)) ;;
      if u32 (ticks - ticks0) <? n then
        p <- curproc ;;
        kd <- zoom (killed p) ;;
        if negb (kd =? 0) then rel tickslock ;;; ret (-1)
        else sleep ch_ticks tickslock ;;; sys_sleep_loop f ticks0 n
      else rel tickslock ;;; ret 0
  end.
Definition sys_sleep : M ks Z :=
  n <- argint 0 ;;
  let n := if n <? 0 then 0 else n in
  acq tickslock ;;;
  ticks0 <- gets (fun k => ps_ticks (k_ps k)) ;;
  sys_sleep_loop (S swtch_wakeups) ticks0 n.

Definition sys_kill : M ks Z := pid <- argint 0 ;; zoom (kill pid).

Definition sys_getppid : M ks Z :=
  p <- curproc ;;
  pr <- procof p ;;
  match p_parent pr with
  | Some q => qr <- procof q ;; ret (p_pid qr)
  | None => ret 0
  end.

(** sizeof(struct procinfo) *)
Definition PROCINFO_SIZE : Z := 40.
Definition procinfo_bytes (pr : proc) (ppid : Z) : list Z :=
  le_bytes 4 (p_pid pr) ++ le_bytes 4 ppid ++ le_bytes 4 (state_num (p_state pr)) ++ repeat 0 4 ++
  le_bytes 8 (p_sz pr) ++ safestrcpy_bytes (repeat 0 16) (p_name pr) 16.

(** The loop over the table: [inl] is the early return of a failed copy,
    [inr] the entries copied. *)
Definition getptable_loop (mp : nat) (user_buf n : Z) : M ks (Z + Z) :=
  for_fold (seq 0 NPROC) (inr 0) (fun acc p =>
    match acc with
    | inl r => ret (inl r)
    | inr count =>
        if negb (count <? n) then ret (inr count) else
        acq (proc_lock p) ;;;
        pr <- procof p ;;
        if negb (state_eqb (p_state pr) UNUSED) then
          ppid <- match p_parent pr with
                  | Some q => qr <- procof q ;; ret (p_pid qr)
                  | None => ret 0
                  end ;;
          mpr <- procof mp ;;
          r <- zoom (copyout (p_pagetable mpr) (u64 (user_buf + count * PROCINFO_SIZE))
                       (procinfo_bytes pr ppid)) ;;
          if r <? 0 then rel (proc_lock p) ;;; ret (inl 0)
          else rel (proc_lock p) ;;; ret (inr (count + 1))
        else rel (proc_lock p) ;;; ret (inr count)
    end).
Definition sys_getptable : M ks Z :=
  n <- argint 0 ;;
  user_buf <- argaddr 1 ;;
  if (n <? 1) || (user_buf =? 0) then ret 0 else
  mp <- curproc ;;
  r <- getptable_loop mp user_buf n ;;
  match r with inl r => ret r | inr count => ret count end.

Definition sys_setpriority : M ks Z :=
  pid <- argint 0 ;;
  priority <- argint 1 ;;
  setpriority pid priority.

Definition sys_setscheduler : M ks Z := policy <- argint 0 ;; setscheduler policy.

Definition metrics_state_name (st : procstate) : string :=
  match st with
  | SLEEPING => "SLEEP" | RUNNABLE => "RUNBL" | RUNNING => "RUN" | _ => "???"
  end.

Definition sys_getmetrics : M ks Z :=
  addr <- argaddr 0 ;;
  m <- zoom populate_metrics ;;
  p <- curproc ;;
  pr <- procof p ;;
  r <- zoom (copyout (p_pagetable pr) addr
               (le_bytes 8 (fst (fst m)) ++ le_bytes 8 (snd (fst m)) ++ le_bytes 8 (snd m))) ;;
  if r <? 0 then ret (-1) else
  kprintf (newline ++ "--- Active Process List (Kernel Print) ---" ++ newline)%string ;;;
  kprintf ("PID" ++ tab ++ "Prio" ++ tab ++ "State" ++ tab ++ "WaitT" ++ tab ++ "Created" ++ newline)%string ;;;
  for_each (seq 0 NPROC) (fun p =>
    acq (proc_lock p) ;;;
    pr <- procof p ;;
    (if negb (state_eqb (p_state pr) UNUSED)
     then zoom (printf ("%d" ++ tab ++ "%d" ++ tab ++ "%s" ++ tab ++ "%d" ++ tab ++ "%d" ++ newline)%string
            [ArgInt (p_pid pr); ArgInt (p_priority pr);
             ArgStr (Some (str (metrics_state_name (p_state pr))));
             ArgInt (p_total_waiting_time pr); ArgInt (p_creation_time pr)])
     else ret tt) ;;;
    rel (proc_lock p)) ;;;
  kprintf ("------------------------------------------" ++ newline)%string ;;;
  ret 0.

(** * sysutil.c *)

Definition sys_kbdint : M ks Z := cs <- getcons ;; ret (kbd_intr_count cs).
Definition sys_countsyscall : M ks Z := gets k_total_syscalls.

Definition sys_uptime : M ks Z :=
  acq tickslock ;;;
  xticks <- gets (fun k => ps_ticks (k_ps k)) ;;
  rel tickslock ;;;
  ret xticks.

Definition sys_rand : M ks Z :=
  seed <- gets k_seed ;;
  (if seed =? 1 then modify (fun k => set_k_seed (ps_ticks (k_ps k)) k) else ret tt) ;;;
  modify (fun k => set_k_seed (u64 (k_seed k * 1103515245 + 12345)) k) ;;;
  gets (fun k => Z.land (Z.shiftr (k_seed k) 16) 0x7FFF).

(** The store that powers the machine off is the last thing that happens. *)
Definition sys_shutdown : M ks Z :=
  kprintf ("Shutting down xv6..." ++ newline)%string ;;;
  spin.

Definition get_current_time : M ks Z :=
  gets (fun k => u64 (BOOT_EPOCH + r_time (k_csr k) / 10000000)).

Definition datetime_bytes (d : datetime) : list Z :=
  le_bytes 4 (dt_year d) ++ le_bytes 4 (dt_month d) ++ le_bytes 4 (dt_day d) ++
  le_bytes 4 (dt_hour d) ++ le_bytes 4 (dt_minute d) ++ le_bytes 4 (dt_second d) ++
  le_bytes 4 (dt_weekday d).

Definition sys_datetime : M ks Z :=
  p <- curproc ;;
  addr <- argaddr 0 ;;
  current_time <- get_current_time ;;
  match unix_to_datetime current_time with
  | None => spin
  | Some dt =>
      pr <- procof p ;;
      r <- zoom (copyout (p_pagetable pr) addr (datetime_bytes dt)) ;;
      if r <? 0 then ret (-1) else ret 0
  end.

(** * sysfile.c *)

(** The descriptor and its file. *)
Definition argfd (n : Z) : M ks (option (nat * nat)) :=
  fd <- argint n ;;
  if (fd <? 0) || (Z.of_nat NOFILE <=? fd) then ret None else
  p <- curproc ;;
  pr <- procof p ;;
  match nth (Z.to_nat fd) (p_ofile pr) None with
  | None => ret None
  | Some f => ret (Some (Z.to_nat fd, f))
  end.

Definition set_ofile (p fd : nat) (o : option nat) : M ks unit :=
  setproc p (fun q => set_p_ofile (<[fd := o]> (p_ofile q)) q).

Definition fdalloc (f : nat) : M ks Z :=
  p <- curproc ;;
  r <- for_find (seq 0 NOFILE) (fun fd =>
    pr <- procof p ;;
    match nth fd (p_ofile pr) None with
    | None => set_ofile p fd (Some f) ;;; ret (Some (Z.of_nat fd))
    | Some _ => ret None
    end) ;;
  ret (default (-1) r).

Definition sys_dup : M ks Z :=
  a <- argfd 0 ;;
  match a with
  | None => ret (-1)
  | Some (_, f) =>
      fd <- fdalloc f ;;
      if fd <? 0 then ret (-1) else
      filedup f ;;;
      ret fd
  end.

Definition sys_read : M ks Z :=
  p <- argaddr 1 ;;
  n <- argint 2 ;;
  a <- argfd 0 ;;
  match a with None => ret (-1) | Some (_, f) => fileread f p n end.

Definition sys_write : M ks Z :=
  p <- argaddr 1 ;;
  n <- argint 2 ;;
  a <- argfd 0 ;;
  match a with None => ret (-1) | Some (_, f) => filewrite f p n end.

Definition sys_close : M ks Z :=
  a <- argfd 0 ;;
  match a with
  | None => ret (-1)
  | Some (fd, f) =>
      p <- curproc ;;
      set_ofile p fd None ;;;
      fileclose f ;;;
      ret 0
  end.

Definition sys_fstat : M ks Z :=
  st <- argaddr 1 ;;
  a <- argfd 0 ;;
  match a with None => ret (-1) | Some (_, f) => filestat f st end.

(** The [bad:] label of sys_link. *)
Definition link_bad (ip : nat) : M ks Z :=
  ilock ip ;;;
  updinode ip (fun i => set_i_nlink (s16 (i_nlink i - 1)) i) ;;;
  iupdate ip ;;;
  iunlockput ip ;;;
  end_op ;;;
  ret (-1).

Definition sys_link : M ks Z :=
  old <- argstr 0 MAXPATH ;;
  match old with
  | None => ret (-1)
  | Some old =>
      new <- argstr 1 MAXPATH ;;
      match new with
      | None => ret (-1)
      | Some new =>
          begin_op ;;;
          o <- namei old ;;
          match o with
          | None => end_op ;;; ret (-1)
          | Some ip =>
              ilock ip ;;;
              i <- getinode ip ;;
              if i_type i =? T_DIR then iunlockput ip ;;; end_op ;;; ret (-1) else
              updinode ip (fun i => set_i_nlink (s16 (i_nlink i + 1)) i) ;;;
              iupdate ip ;;;
              iunlock ip ;;;
              d <- nameiparent new ;;
              match d with
              | None => link_bad ip
              | Some (dp, name) =>
                  ilock dp ;;;
                  di <- getinode dp ;;
                  i <- getinode ip ;;
                  fail <- (if negb (i_dev di =? i_dev i) then ret true
                           else r <- dirlink dp name (i_inum i) ;; ret (r <? 0)) ;;
                  if (fail : bool) then iunlockput dp ;;; link_bad ip else
                  iunlockput dp ;;;
                  iput ip ;;;
                  end_op ;;;
                  ret 0
              end
          end
      end
  end.

(** [for(off=2*sizeof(de); off<dp->size; off+=sizeof(de))] *)
Fixpoint isdirempty_loop (fuel : nat) (dp : nat) (off : Z) : M ks bool :=
  match fuel with
  | O => spin
  | S f =>
      i <- getinode dp ;;
      if negb (off <? i_size i) then ret true else
      r <- readi dp to_local off DIRENT_SIZE ;;
      if negb (fst r =? DIRENT_SIZE) then panic "isdirempty: readi" else
      if negb (de_inum (snd r) =? 0) then ret false else isdirempty_loop f dp (off + DIRENT_SIZE)
  end.
Definition isdirempty (dp : nat) : M ks bool :=
  i <- getinode dp ;;
  isdirempty_loop (Z.to_nat (i_size i / DIRENT_SIZE) + 2) dp (2 * DIRENT_SIZE).

(** The [bad:] label of sys_unlink. *)
Definition unlink_bad (dp : nat) : M ks Z := iunlockput dp ;;; end_op ;;; ret (-1).

Definition sys_unlink : M ks Z :=
  path <- argstr 0 MAXPATH ;;
  match path with
  | None => ret (-1)
  | Some path =>
      begin_op ;;;
      d <- nameiparent path ;;
      match d with
      | None => end_op ;;; ret (-1)
      | Some (dp, name) =>
          ilock dp ;;;
          if (namecmp name (str ".") =? 0) || (namecmp name (str "..") =? 0) then unlink_bad dp else
          o <- dirlookup dp name ;;
          match o with
          | None => unlink_bad dp
          | Some (ip, off) =>
              ilock ip ;;;
              i <- getinode ip ;;
              if i_nlink i <? 1 then panic "unlink: nlink < 1" else
              full <- (if i_type i =? T_DIR then e <- isdirempty ip ;; ret (negb e) else ret false) ;;
              if (full : bool) then iunlockput ip ;;; unlink_bad dp else
              r <- writei dp (from_local (repeat 0 (Z.to_nat DIRENT_SIZE))) off DIRENT_SIZE ;;
              if negb (r =? DIRENT_SIZE) then panic "unlink: writei" else
              i <- getinode ip ;;
              (if i_type i =? T_DIR
               then updinode dp (fun i => set_i_nlink (s16 (i_nlink i - 1)) i) ;;; iupdate dp
               else ret tt) ;;;
              iunlockput dp ;;;
              updinode ip (fun i => set_i_nlink (s16 (i_nlink i - 1)) i) ;;;
              iupdate ip ;;;
              iunlockput ip ;;;
              end_op ;;;
              ret 0
          end
      end
  end.

(** The [fail:] label of create. *)
Definition create_fail (ip dp : nat) : M ks (option nat) :=
  updinode ip (set_i_nlink 0) ;;;
  iupdate ip ;;;
  iunlockput ip ;;;
  iunlockput dp ;;;
  ret None.

(** The new inode, locked. *)
Definition create (path : list Z) (type major minor : Z) : M ks (option nat) :=
  d <- nameiparent path ;;
  match d with
  | None => ret None
  | Some (dp, name) =>
      ilock dp ;;;
      o <- dirlookup dp name ;;
      match o with
      | Some (ip, _) =>
          iunlockput dp ;;;
          ilock ip ;;;
          i <- getinode ip ;;
          if (type =? T_FILE) && ((i_type i =? T_FILE) || (i_type i =? T_DEVICE)) then ret (Some ip)
          else iunlockput ip ;;; ret None
      | None =>
          di <- getinode dp ;;
          o <- ialloc (i_dev di) type ;;
          match o with
          | None => iunlockput dp ;;; ret None
          | Some ip =>
              ilock ip ;;;
              updinode ip (set_i_major (s16 major)) ;;;
              updinode ip (set_i_minor (s16 minor)) ;;;
              updinode ip (set_i_nlink 1) ;;;
              iupdate ip ;;;
              i <- getinode ip ;;
              di <- getinode dp ;;
              fail <- (if type =? T_DIR then
                         r <- dirlink ip (str ".") (i_inum i) ;;
                         if r <? 0 then ret true
                         else r <- dirlink ip (str "..") (i_inum di) ;; ret (r <? 0)
                       else ret false) ;;
              if (fail : bool) then create_fail ip dp else
              r <- dirlink dp name (i_inum i) ;;
              if r <? 0 then create_fail ip dp else
              (if type =? T_DIR
               then updinode dp (fun i => set_i_nlink (s16 (i_nlink i + 1)) i) ;;; iupdate dp
               else ret tt) ;;;
              iunlockput dp ;;;
              ret (Some ip)
          end
      end
  end.

(** sys_open from the point where it holds the locked inode. *)
Definition open_inode (ip : nat) (omode : Z) : M ks Z :=
  i <- getinode ip ;;
  if (i_type i =? T_DEVICE) && ((i_major i <? 0) || (NDEV <=? i_major i))
  then iunlockput ip ;;; end_op ;;; ret (-1) else
  o <- filealloc ;;
  match o with
  | None => iunlockput ip ;;; end_op ;;; ret (-1)
  | Some f =>
      fd <- fdalloc f ;;
      if fd <? 0 then fileclose f ;;; iunlockput ip ;;; end_op ;;; ret (-1) else
      i <- getinode ip ;;
      (if i_type i =? T_DEVICE
       then updfile f (set_f_type FD_DEVICE) ;;; updfile f (set_f_major (i_major i))
       else updfile f (set_f_type FD_INODE) ;;; updfile f (set_f_off 0)) ;;;
      updfile f (set_f_ip (Some ip)) ;;;
      updfile f (set_f_readable (Z.land omode O_WRONLY =? 0)) ;;;
      updfile f (set_f_writable
        (negb (Z.land omode O_WRONLY =? 0) || negb (Z.land omode O_RDWR =? 0))) ;;;
      (if negb (Z.land omode O_TRUNC =? 0) && (i_type i =? T_FILE) then itrunc ip else ret tt) ;;;
      iunlock ip ;;;
      end_op ;;;
      ret fd
  end.

Definition sys_open : M ks Z :=
  omode <- argint 1 ;;
  path <- argstr 0 MAXPATH ;;
  match path with
  | None => ret (-1)
  | Some path =>
      begin_op ;;;
      if negb (Z.land omode O_CREATE =? 0) then
        o <- create path T_FILE 0 0 ;;
        match o with
        | None => end_op ;;; ret (-1)
        | Some ip => open_inode ip omode
        end
      else
        o <- namei path ;;
        match o with
        | None => end_op ;;; ret (-1)
        | Some ip =>
            ilock ip ;;;
            i <- getinode ip ;;
            if (i_type i =? T_DIR) && negb (omode =? O_RDONLY)
            then iunlockput ip ;;; end_op ;;; ret (-1)
            else open_inode ip omode
        end
  end.

(** sys_mkdir and sys_mknod once the arguments are fetched. *)
Definition make_node (path : option (list Z)) (type major minor : Z) : M ks Z :=
  o <- match path with None => ret None | Some path => create path type major minor end ;;
  match o with
  | None => end_op ;;; ret (-1)
  | Some ip => iunlockput ip ;;; end_op ;;; ret 0
  end.
Definition sys_mkdir : M ks Z :=
  begin_op ;;;
  path <- argstr 0 MAXPATH ;;
  make_node path T_DIR 0 0.
Definition sys_mknod : M ks Z :=
  begin_op ;;;
  major <- argint 1 ;;
  minor <- argint 2 ;;
  path <- argstr 0 MAXPATH ;;
  make_node path T_DEVICE major minor.

Definition sys_chdir : M ks Z :=
  p <- curproc ;;
  begin_op ;;;
  path <- argstr 0 MAXPATH ;;
  o <- match path with None => ret None | Some path => namei path end ;;
  match o with
  | None => end_op ;;; ret (-1)
  | Some ip =>
      ilock ip ;;;
      i <- getinode ip ;;
      if negb (i_type i =? T_DIR) then iunlockput ip ;;; end_op ;;; ret (-1) else
      iunlock ip ;;;
      pr <- procof p ;;
      match p_cwd pr with Some c => iput c | None => undef end ;;;
      end_op ;;;
      setproc p (set_p_cwd (Some ip)) ;;;
      ret 0
  end.

(** The argument pages fetched so far, each with its string; [false] when the
    code goes to [bad:]. *)
Fixpoint fetch_args (fuel : nat) (uargv i : Z) (acc : list (Z * list Z)) : M ks (bool * list (Z * list Z)) :=
  match fuel with
  | O => ret (false, acc)
  | S f =>
      uarg <- fetchaddr (u64 (uargv + 8 * i)) ;;
      match uarg with
      | None => ret (false, acc)
      | Some uarg =>
          if uarg =? 0 then ret (true, acc) else
          page <- zoom kalloc ;;
          if page =? 0 then ret (false, acc) else
          s <- fetchstr uarg PGSIZE ;;
          match s with
          | None => ret (false, acc ++ [(page, [])])
          | Some s =>
              zoom (upd_mem (store_bytes page (s ++ [0]))) ;;;
              fetch_args f uargv (i + 1) (acc ++ [(page, s)])
          end
      end
  end.
Definition sys_exec : M ks Z :=
  uargv <- argaddr 1 ;;
  path <- argstr 0 MAXPATH ;;
  match path with
  | None => ret (-1)
  | Some path =>
      r <- fetch_args MAXARG uargv 0 [] ;;
      ret' <- (if (fst r : bool) then exec path (map snd (snd r)) else ret (-1)) ;;
      for_each (map fst (snd r)) (fun page => zoom (kfree page)) ;;;
      ret ret'
  end.

Definition sys_pipe : M ks Z :=
  p <- curproc ;;
  fdarray <- argaddr 0 ;;
  o <- pipealloc ;;
  match o with
  | None => ret (-1)
  | Some (rf, wf) =>
      fd0 <- fdalloc rf ;;
      fd1 <- (if fd0 <? 0 then ret (-1) else fdalloc wf) ;;
      if (fd0 <? 0) || (fd1 <? 0) then
        (if 0 <=? fd0 then set_ofile p (Z.to_nat fd0) None else ret tt) ;;;
        fileclose rf ;;;
        fileclose wf ;;;
        ret (-1)
      else
      pr <- procof p ;;
      r <- zoom (copyout (p_pagetable pr) fdarray (le_bytes 4 fd0)) ;;
      r <- (if r <? 0 then ret r
            else zoom (copyout (p_pagetable pr) (u64 (fdarray + 4)) (le_bytes 4 fd1))) ;;
      if r <? 0 then
        set_ofile p (Z.to_nat fd0) None ;;;
        set_ofile p (Z.to_nat fd1) None ;;;
        fileclose rf ;;;
        fileclose wf ;;;
        ret (-1)
      else ret 0
  end.

(** * Dispatch *)

Definition syscalls (num : Z) : option (M ks Z) :=
  if num =? 1 then Some sys_fork else if num =? 2 then Some sys_exit
  else if num =? 3 then Some sys_wait else if num =? 4 then Some sys_pipe
  else if num =? 5 then Some sys_read else if num =? 6 then Some sys_kill
  else if num =? 7 then Some sys_exec else if num =? 8 then Some sys_fstat
  else if num =? 9 then Some sys_chdir else if num =? 10 then Some sys_dup
  else if num =? 11 then Some sys_getpid else if num =? 12 then Some sys_sbrk
  else if num =? 13 then Some sys_sleep else if num =? 14 then Some sys_uptime
  else if num =? 15 then Some sys_open else if num =? 16 then Some sys_write
  else if num =? 17 then Some sys_mknod else if num =? 18 then Some sys_unlink
  else if num =? 19 then Some sys_link else if num =? 20 then Some sys_mkdir
  else if num =? 21 then Some sys_close else if num =? 22 then Some sys_kbdint
  else if num =? 23 then Some sys_countsyscall else if num =? 24 then Some sys_getppid
  else if num =? 25 then Some sys_rand else if num =? 26 then Some sys_shutdown
  else if num =? 27 then Some sys_datetime else if num =? 28 then Some sys_getptable
  else if num =? 29 then Some sys_setpriority else if num =? 30 then Some sys_setscheduler
  else if num =? 31 then Some sys_getmetrics else None.

Definition syscall : M ks unit :=
  p <- curproc ;;
  a7 <- zoom (tf_get p TF_a7) ;;
  let num := s32 a7 in
  match syscalls num with
  | Some f =>
      modify (fun k => set_k_total_syscalls (s32 (k_total_syscalls k + 1)) k) ;;;
      r <- f ;;
      zoom (tf_set p TF_a0 r)
  | None =>
      pr <- procof p ;;
      zoom (printf ("%d %s: unknown sys call %d" ++ newline)%string
        [ArgInt (p_pid pr); ArgStr (Some (until_nul (p_name pr))); ArgInt num]) ;;;
      zoom (tf_set p TF_a0 (-1))
  end.

End syscall.
