(* ===== verification/Trap.v ===== *)
(** Traps and interrupts (kernel/trap.c, kernel/plic.c) and the kernel's
    start (kernel/main.c).

    The trap registers and the PLIC are the fields of [csrs]; the trampoline
    and kernelvec.S only save and restore registers. *)

From Stdlib Require Import ZArith Lia List String Bool.
From stdpp Require Import base tactics numbers list functions sets.
From S2P Require Import Prelude.
From S2P Require Import Spinlock.
From S2P Require Import Cstring.
From S2P Require Import Kalloc.
From S2P Require Import Vm.
From S2P Require Import Printf.
From S2P Require Import Proc.
From S2P Require Import Sched.
From S2P Require Import Abi.
From S2P Require Import Kstate.
From S2P Require Import Bio.
From S2P Require Import Log.
From S2P Require Import Fs.
From S2P Require Import Console.
From S2P Require Import File.
From S2P Require Import Kproc.
From S2P Require Import Syscall.

Definition UART0_IRQ : Z := 10.
Definition VIRTIO0_IRQ : Z := 1.
Definition PLIC_SENABLE (hart : nat) : Z := PLIC + 0x2080 + Z.of_nat hart * 0x100.
Definition PLIC_SPRIORITY (hart : nat) : Z := PLIC + 0x201000 + Z.of_nat hart * 0x2000.
Definition PLIC_SCLAIM (hart : nat) : Z := PLIC + 0x201004 + Z.of_nat hart * 0x2000.

Section trap.
Context {img : Image} `{Swtch ks} `{BlockDev} `{Build}.

Definition getcsr : M ks csrs := gets k_csr.
Definition updcsr (f : csrs -> csrs) : M ks unit := modify (fun k => set_k_csr (f (k_csr k)) k).

Definition trapinit : M ks unit := zoom (initlock tickslock "time").
Definition trapinithart : M ks unit := updcsr (set_r_stvec kernelvec_addr).

(** * plic.c *)

Definition plic_write (a v : Z) : M ks unit :=
  updcsr (fun c => set_r_plic (<[a := u32 v]> (r_plic c)) c).

Definition plicinit : M ks unit :=
  plic_write (PLIC + UART0_IRQ * 4) 1 ;;;
  plic_write (PLIC + VIRTIO0_IRQ * 4) 1.

Definition plicinithart : M ks unit :=
  hart <- zoom cpuid ;;
  plic_write (PLIC_SENABLE hart) (Z.lor (Z.shiftl 1 UART0_IRQ) (Z.shiftl 1 VIRTIO0_IRQ)) ;;;
  plic_write (PLIC_SPRIORITY hart) 0.

(** The claim register of this hart answers from [r_irq]. *)
Definition plic_claim : M ks Z :=
  c <- getcsr ;;
  match r_irq c with
  | [] => ret 0
  | irq :: l => updcsr (set_r_irq l) ;;; ret irq
  end.

Definition plic_complete (irq : Z) : M ks unit :=
  hart <- zoom cpuid ;;
  plic_write (PLIC_SCLAIM hart) irq.

(** * Interrupts *)

Definition clockintr : M ks unit :=
  hart <- zoom cpuid ;;
  (if (hart =? 0)%nat then
     acq tickslock ;;;
     zoom (modify (fun s => set_ps_ticks (u32 (ps_ticks s + 1)) s)) ;;;
     zoom update_time ;;;
     wake ch_ticks ;;;
     rel tickslock
   else ret tt) ;;;
  updcsr (fun c => set_r_stimecmp (u64 (r_time c + 1000000)) c).

Definition devintr : M ks Z :=
  c <- getcsr ;;
  let scause := r_scause c in
  if scause =? 0x8000000000000009 then
    irq <- plic_claim ;;
    (if irq =? UART0_IRQ then uartintr
     else if irq =? VIRTIO0_IRQ then virtio_disk_intr
     else if negb (irq =? 0)
     then zoom (printf ("unexpected interrupt irq=%d" ++ newline)%string [ArgInt irq])
     else ret tt) ;;;
    (if negb (irq =? 0) then plic_complete irq else ret tt) ;;;
    ret 1
  else if scause =? 0x8000000000000005 then clockintr ;;; ret 2
  else ret 0.

(** * Traps *)

(** The system-call and interrupt branches of usertrap: the [which_dev] it
    ends with. *)
Definition usertrap_cause (p : nat) : M ks Z :=
  c <- getcsr ;;
  if r_scause c =? 8 then
    kd <- zoom (killed p) ;;
    (if negb (kd =? 0) then exit (-1) else ret tt) ;;;
    epc <- zoom (tf_get p TF_epc) ;;
    zoom (tf_set p TF_epc (u64 (epc + 4))) ;;;
    zoom intr_on ;;;
    syscall ;;;
    ret 0
  else
    which_dev <- devintr ;;
    (if negb (which_dev =? 0) then ret tt else
     c <- getcsr ;;
     pr <- procof p ;;
     zoom (printf ("usertrap(): unexpected scause 0x%lx pid=%d" ++ newline)%string
       [ArgInt (r_scause c); ArgInt (p_pid pr)]) ;;;
     zoom (printf ("            sepc=0x%lx stval=0x%lx" ++ newline)%string
       [ArgInt (r_sepc c); ArgInt (r_stval c)]) ;;;
     zoom (setkilled p)) ;;;
    ret which_dev.

Definition usertrap : M ks Z :=
  c <- getcsr ;;
  if r_spp c then panic "usertrap: not from user mode" else
  updcsr (set_r_stvec kernelvec_addr) ;;;
  p <- curproc ;;
  c <- getcsr ;;
  zoom (tf_set p TF_epc (r_sepc c)) ;;;
  which_dev <- usertrap_cause p ;;
  kd <- zoom (killed p) ;;
  (if negb (kd =? 0) then exit (-1) else ret tt) ;;;
  (if which_dev =? 2 then yield else ret tt) ;;;
  usertrapret.

Definition kerneltrap : M ks unit :=
  c <- getcsr ;;
  let sepc := r_sepc c in
  let scause := r_scause c in
  if negb (r_spp c) then panic "kerneltrap: not from supervisor mode" else
  ie <- zoom intr_get ;;
  if (ie : bool) then panic "kerneltrap: interrupts enabled" else
  which_dev <- devintr ;;
  if which_dev =? 0 then
    c' <- getcsr ;;
    zoom (printf ("scause=0x%lx sepc=0x%lx stval=0x%lx" ++ newline)%string
      [ArgInt scause; ArgInt (r_sepc c'); ArgInt (r_stval c')]) ;;;
    panic "kerneltrap"
  else
  (if which_dev =? 2
   then me <- zoom myproc ;; match me with Some _ => yield | None => ret tt end
   else ret tt) ;;;
  updcsr (set_r_sepc sepc) ;;;
  updcsr (fun c' => set_r_spp (r_spp c) (set_r_spie (r_spie c) c')) ;;;
  zoom (upd_mycpu (set_sie ie)).

(** * main.c *)

Definition printfinit : M ks unit :=
  zoom (initlock pr_lock "pr") ;;;
  zoom (modify (set_ps_locking true)).

Definition kvminit : M ks unit :=
  pt <- zoom kvmmake ;;
  modify (set_k_kernel_pagetable pt).

Definition kvminithart : M ks unit :=
  pt <- gets k_kernel_pagetable ;;
  updcsr (set_r_satp (MAKE_SATP pt)).

(** [while(started == 0) ;] on a hart that reads [reads] from the volatile
    variable, one after the other. *)
Fixpoint wait_started (reads : list bool) : M ks unit :=
  match reads with
  | [] => spin
  | b :: reads => if b then ret tt else wait_started reads
  end.

(** [main], with [n] iterations of the scheduler it ends in. *)
Definition main (reads : list bool) (n : nat) : M ks unit :=
  hart <- zoom cpuid ;;
  (if (hart =? 0)%nat then
    consoleinit ;;;
    printfinit ;;;
    kprintf newline ;;;
    kprintf ("xv6 kernel is booting" ++ newline)%string ;;;
    kprintf newline ;;;
    zoom kinit ;;;
    kvminit ;;;
    kvminithart ;;;
    zoom procinit ;;;
    trapinit ;;;
    trapinithart ;;;
    plicinit ;;;
    plicinithart ;;;
    binit ;;;
    iinit ;;;
    fileinit ;;;
    virtio_disk_init ;;;
    userinit
   else
    wait_started reads ;;;
    zoom (printf ("hart %d starting" ++ newline)%string [ArgInt (Z.of_nat hart)]) ;;;
    kvminithart ;;;
    trapinithart ;;;
    plicinithart) ;;;
  scheduler n.

End trap.
