(* ===== verification/Virtio.v ===== *)
(** The virtio disk driver, kernel/virtio_disk.c.

    Below, the driver is written once for every host [DiskHost], the functions
    of spinlock.c, proc.c and kalloc.c that it calls; [kernel_host] is the
    kernel's.  Pointers in descriptors name what they point to ([dptr]).  The
    registers of the device are a parameter: the value of a register after a
    list of register writes.

    Module Ring lets the device, interrupts and any number of processes
    inside [virtio_disk_rw] interleave.  A driver step is a section of the C
    that runs with [vdisk_lock] held; the device also moves in the middle of
    a submission, between the steps that the memory barriers order. *)

From Stdlib Require Import ZArith Lia List String Bool.
From stdpp Require Import base tactics numbers list functions sets.
From S2P Require Import Prelude.
From S2P Require Import Abi.
From S2P Require Import Spinlock.
From S2P Require Import Kalloc.
From S2P Require Import Proc.
From S2P Require Import Sched.

(** * virtio.h *)

Definition VIRTIO_MMIO_MAGIC_VALUE : Z := 0x000.
Definition VIRTIO_MMIO_VERSION : Z := 0x004.
Definition VIRTIO_MMIO_DEVICE_ID : Z := 0x008.
Definition VIRTIO_MMIO_VENDOR_ID : Z := 0x00c.
Definition VIRTIO_MMIO_DEVICE_FEATURES : Z := 0x010.
Definition VIRTIO_MMIO_DRIVER_FEATURES : Z := 0x020.
Definition VIRTIO_MMIO_QUEUE_SEL : Z := 0x030.
Definition VIRTIO_MMIO_QUEUE_NUM_MAX : Z := 0x034.
Definition VIRTIO_MMIO_QUEUE_NUM : Z := 0x038.
Definition VIRTIO_MMIO_QUEUE_READY : Z := 0x044.
Definition VIRTIO_MMIO_QUEUE_NOTIFY : Z := 0x050.
Definition VIRTIO_MMIO_INTERRUPT_STATUS : Z := 0x060.
Definition VIRTIO_MMIO_INTERRUPT_ACK : Z := 0x064.
Definition VIRTIO_MMIO_STATUS : Z := 0x070.
Definition VIRTIO_MMIO_QUEUE_DESC_LOW : Z := 0x080.
Definition VIRTIO_MMIO_QUEUE_DESC_HIGH : Z := 0x084.
Definition VIRTIO_MMIO_DRIVER_DESC_LOW : Z := 0x090.
Definition VIRTIO_MMIO_DRIVER_DESC_HIGH : Z := 0x094.
Definition VIRTIO_MMIO_DEVICE_DESC_LOW : Z := 0x0a0.
Definition VIRTIO_MMIO_DEVICE_DESC_HIGH : Z := 0x0a4.

Definition VIRTIO_CONFIG_S_ACKNOWLEDGE : Z := 1.
Definition VIRTIO_CONFIG_S_DRIVER : Z := 2.
Definition VIRTIO_CONFIG_S_DRIVER_OK : Z := 4.
Definition VIRTIO_CONFIG_S_FEATURES_OK : Z := 8.

Definition VIRTIO_BLK_F_RO : Z := 5.
Definition VIRTIO_BLK_F_SCSI : Z := 7.
Definition VIRTIO_BLK_F_CONFIG_WCE : Z := 11.
Definition VIRTIO_BLK_F_MQ : Z := 12.
Definition VIRTIO_F_ANY_LAYOUT : Z := 27.
Definition VIRTIO_RING_F_INDIRECT_DESC : Z := 28.
Definition VIRTIO_RING_F_EVENT_IDX : Z := 29.

Definition NUM : nat := 8.
Definition VRING_DESC_F_NEXT : Z := 1.
Definition VRING_DESC_F_WRITE : Z := 2.
Definition VIRTIO_BLK_T_IN : Z := 0.
Definition VIRTIO_BLK_T_OUT : Z := 1.

(** What a descriptor points to: nothing, [&disk.ops[i]], [b->data],
    [&disk.info[i].status]. *)
Inductive dptr : Type :=
| p_null
| p_ops (i : nat)
| p_data (b : nat)
| p_status (i : nat).

Record virtq_desc : Type := mkDesc { d_addr : dptr; d_len : Z; d_flags : Z; d_next : nat }.
Record blk_req : Type := mkReq { rq_type : Z; rq_reserved : Z; rq_sector : Z }.

(** [struct disk] with the rings it points to, and the fields of the buffers
    that the driver uses. *)
Record vdisk := mkVdisk {
  desc : nat -> virtq_desc;
  avail_idx : Z;
  avail_ring : nat -> nat;
  u_idx : Z;   (* used->idx *)
  u_ring : nat -> nat;   (* used->ring[].id *)
  dfree : nat -> bool;   (* free[] *)
  used_idx : Z;
  info_b : nat -> option nat;   (* info[].b *)
  info_status : nat -> Z;   (* info[].status *)
  ops : nat -> blk_req;
  bf_disk : nat -> Z;   (* b->disk *)
  bf_blockno : nat -> Z;   (* b->blockno *)
  bf_data : nat -> list Z;   (* b->data *)
  pages : Z * Z * Z;   (* addresses of desc, avail, used *)
  mmio : list (Z * Z)   (* register writes, oldest first *)
}.

Definition set_desc (v : nat -> virtq_desc) (d : vdisk) : vdisk :=
  mkVdisk v (avail_idx d) (avail_ring d) (u_idx d) (u_ring d) (dfree d) (used_idx d)
    (info_b d) (info_status d) (ops d) (bf_disk d) (bf_blockno d) (bf_data d) (pages d)
    (mmio d).
Definition set_avail_idx (v : Z) (d : vdisk) : vdisk :=
  mkVdisk (desc d) v (avail_ring d) (u_idx d) (u_ring d) (dfree d) (used_idx d)
    (info_b d) (info_status d) (ops d) (bf_disk d) (bf_blockno d) (bf_data d) (pages d)
    (mmio d).
Definition set_avail_ring (v : nat -> nat) (d : vdisk) : vdisk :=
  mkVdisk (desc d) (avail_idx d) v (u_idx d) (u_ring d) (dfree d) (used_idx d)
    (info_b d) (info_status d) (ops d) (bf_disk d) (bf_blockno d) (bf_data d) (pages d)
    (mmio d).
Definition set_u_idx (v : Z) (d : vdisk) : vdisk :=
  mkVdisk (desc d) (avail_idx d) (avail_ring d) v (u_ring d) (dfree d) (used_idx d)
    (info_b d) (info_status d) (ops d) (bf_disk d) (bf_blockno d) (bf_data d) (pages d)
    (mmio d).
Definition set_u_ring (v : nat -> nat) (d : vdisk) : vdisk :=
  mkVdisk (desc d) (avail_idx d) (avail_ring d) (u_idx d) v (dfree d) (used_idx d)
    (info_b d) (info_status d) (ops d) (bf_disk d) (bf_blockno d) (bf_data d) (pages d)
    (mmio d).
Definition set_dfree (v : nat -> bool) (d : vdisk) : vdisk :=
  mkVdisk (desc d) (avail_idx d) (avail_ring d) (u_idx d) (u_ring d) v (used_idx d)
    (info_b d) (info_status d) (ops d) (bf_disk d) (bf_blockno d) (bf_data d) (pages d)
    (mmio d).
Definition set_used_idx (v : Z) (d : vdisk) : vdisk :=
  mkVdisk (desc d) (avail_idx d) (avail_ring d) (u_idx d) (u_ring d) (dfree d) v
    (info_b d) (info_status d) (ops d) (bf_disk d) (bf_blockno d) (bf_data d) (pages d)
    (mmio d).
Definition set_info_b (v : nat -> option nat) (d : vdisk) : vdisk :=
  mkVdisk (desc d) (avail_idx d) (avail_ring d) (u_idx d) (u_ring d) (dfree d)
    (used_idx d) v (info_status d) (ops d) (bf_disk d) (bf_blockno d) (bf_data d)
    (pages d) (mmio d).
Definition set_info_status (v : nat -> Z) (d : vdisk) : vdisk :=
  mkVdisk (desc d) (avail_idx d) (avail_ring d) (u_idx d) (u_ring d) (dfree d)
    (used_idx d) (info_b d) v (ops d) (bf_disk d) (bf_blockno d) (bf_data d) (pages d)
    (mmio d).
Definition set_ops (v : nat -> blk_req) (d : vdisk) : vdisk :=
  mkVdisk (desc d) (avail_idx d) (avail_ring d) (u_idx d) (u_ring d) (dfree d)
    (used_idx d) (info_b d) (info_status d) v (bf_disk d) (bf_blockno d) (bf_data d)
    (pages d) (mmio d).
Definition set_bf_disk (v : nat -> Z) (d : vdisk) : vdisk :=
  mkVdisk (desc d) (avail_idx d) (avail_ring d) (u_idx d) (u_ring d) (dfree d)
    (used_idx d) (info_b d) (info_status d) (ops d) v (bf_blockno d) (bf_data d)
    (pages d) (mmio d).
Definition set_bf_blockno (v : nat -> Z) (d : vdisk) : vdisk :=
  mkVdisk (desc d) (avail_idx d) (avail_ring d) (u_idx d) (u_ring d) (dfree d)
    (used_idx d) (info_b d) (info_status d) (ops d) (bf_disk d) v (bf_data d) (pages d)
    (mmio d).
Definition set_bf_data (v : nat -> list Z) (d : vdisk) : vdisk :=
  mkVdisk (desc d) (avail_idx d) (avail_ring d) (u_idx d) (u_ring d) (dfree d)
    (used_idx d) (info_b d) (info_status d) (ops d) (bf_disk d) (bf_blockno d) v
    (pages d) (mmio d).
Definition set_pages (v : Z * Z * Z) (d : vdisk) : vdisk :=
  mkVdisk (desc d) (avail_idx d) (avail_ring d) (u_idx d) (u_ring d) (dfree d)
    (used_idx d) (info_b d) (info_status d) (ops d) (bf_disk d) (bf_blockno d)
    (bf_data d) v (mmio d).
Definition set_mmio (v : list (Z * Z)) (d : vdisk) : vdisk :=
  mkVdisk (desc d) (avail_idx d) (avail_ring d) (u_idx d) (u_ring d) (dfree d)
    (used_idx d) (info_b d) (info_status d) (ops d) (bf_disk d) (bf_blockno d)
    (bf_data d) (pages d) v.

(** * The driver *)

(** What the driver calls: [vdisk_lock] is taken and released, processes sleep
    on a channel with the lock released, and are woken; [kalloc]. *)
Class DiskHost (S : Type) := {
  host_lens :: Lens S vdisk;
  host_initlock : M S unit;
  host_acquire : M S unit;
  host_release : M S unit;
  host_sleep : chan -> M S unit;
  host_wakeup : chan -> M S unit;
  host_kalloc : M S Z
}.

Module Virtio.
Section driver.
Context {St : Type} `{DiskHost St}.
(** The value of a register after the given register writes. *)
Variable R : list (Z * Z) -> Z -> Z.

Definition getd {A : Type} (f : vdisk -> A) : M St A := zoom (gets f).
Definition modd (f : vdisk -> vdisk) : M St unit := zoom (modify f).
Definition readreg (r : Z) : M St Z := getd (fun d => R (mmio d) r).
Definition writereg (r v : Z) : M St unit := modd (fun d => set_mmio (mmio d ++ [(r, u32 v)]) d).

Definition zero_desc : virtq_desc := mkDesc p_null 0 0 0.
(** [features &= ~(1 << bit)] *)
Definition without (bit features : Z) : Z := Z.land features (Z.lnot (Z.shiftl 1 bit)).

Definition virtio_disk_init : M St unit :=
  host_initlock ;;;
  magic <- readreg VIRTIO_MMIO_MAGIC_VALUE ;;
  version <- readreg VIRTIO_MMIO_VERSION ;;
  device <- readreg VIRTIO_MMIO_DEVICE_ID ;;
  vendor <- readreg VIRTIO_MMIO_VENDOR_ID ;;
  if negb (magic =? 0x74726976) || negb (version =? 2) || negb (device =? 2) || negb (vendor =? 0x554d4551)
  then panic "could not find virtio disk" else
  writereg VIRTIO_MMIO_STATUS 0 ;;;
  let status := VIRTIO_CONFIG_S_ACKNOWLEDGE in
  writereg VIRTIO_MMIO_STATUS status ;;;
  let status := Z.lor status VIRTIO_CONFIG_S_DRIVER in
  writereg VIRTIO_MMIO_STATUS status ;;;
  features <- readreg VIRTIO_MMIO_DEVICE_FEATURES ;;
  writereg VIRTIO_MMIO_DRIVER_FEATURES
    (without VIRTIO_RING_F_INDIRECT_DESC (without VIRTIO_RING_F_EVENT_IDX
      (without VIRTIO_F_ANY_LAYOUT (without VIRTIO_BLK_F_MQ (without VIRTIO_BLK_F_CONFIG_WCE
        (without VIRTIO_BLK_F_SCSI (without VIRTIO_BLK_F_RO features))))))) ;;;
  let status := Z.lor status VIRTIO_CONFIG_S_FEATURES_OK in
  writereg VIRTIO_MMIO_STATUS status ;;;
  status <- readreg VIRTIO_MMIO_STATUS ;;
  if Z.land status VIRTIO_CONFIG_S_FEATURES_OK =? 0 then panic "virtio disk FEATURES_OK unset" else
  writereg VIRTIO_MMIO_QUEUE_SEL 0 ;;;
  ready <- readreg VIRTIO_MMIO_QUEUE_READY ;;
  if negb (ready =? 0) then panic "virtio disk should not be ready" else
  max <- readreg VIRTIO_MMIO_QUEUE_NUM_MAX ;;
  if max =? 0 then panic "virtio disk has no queue 0" else
  if max <? Z.of_nat NUM then panic "virtio disk max queue too short" else
  desc_pa <- host_kalloc ;;
  avail_pa <- host_kalloc ;;
  used_pa <- host_kalloc ;;
  modd (set_pages (desc_pa, avail_pa, used_pa)) ;;;
  if (desc_pa =? 0) || (avail_pa =? 0) || (used_pa =? 0) then panic "virtio disk kalloc" else
  modd (set_desc (fun _ => zero_desc)) ;;;
  modd (fun d => set_avail_idx 0 (set_avail_ring (fun _ => 0%nat) d)) ;;;
  modd (fun d => set_u_idx 0 (set_u_ring (fun _ => 0%nat) d)) ;;;
  writereg VIRTIO_MMIO_QUEUE_NUM (Z.of_nat NUM) ;;;
  writereg VIRTIO_MMIO_QUEUE_DESC_LOW desc_pa ;;;
  writereg VIRTIO_MMIO_QUEUE_DESC_HIGH (Z.shiftr desc_pa 32) ;;;
  writereg VIRTIO_MMIO_DRIVER_DESC_LOW avail_pa ;;;
  writereg VIRTIO_MMIO_DRIVER_DESC_HIGH (Z.shiftr avail_pa 32) ;;;
  writereg VIRTIO_MMIO_DEVICE_DESC_LOW used_pa ;;;
  writereg VIRTIO_MMIO_DEVICE_DESC_HIGH (Z.shiftr used_pa 32) ;;;
  writereg VIRTIO_MMIO_QUEUE_READY 0x1 ;;;
  for_each (seq 0 NUM) (fun i => modd (fun d => set_dfree (<[i := true]> (dfree d)) d)) ;;;
  writereg VIRTIO_MMIO_STATUS (Z.lor status VIRTIO_CONFIG_S_DRIVER_OK).

(** -1 is [None] *)
Definition alloc_desc : M St (option nat) :=
  for_find (seq 0 NUM) (fun i =>
    fr <- getd (fun d => dfree d i) ;;
    if fr : bool then modd (fun d => set_dfree (<[i := false]> (dfree d)) d) ;;; ret (Some i)
    else ret None).

Definition free_desc (i : nat) : M St unit :=
  if (NUM <=? i)%nat then panic "free_desc 1" else
  fr <- getd (fun d => dfree d i) ;;
  if fr : bool then panic "free_desc 2" else
  modd (fun d => set_desc (<[i := zero_desc]> (desc d)) d) ;;;
  modd (fun d => set_dfree (<[i := true]> (dfree d)) d) ;;;
  host_wakeup ch_disk_free.

(** Every round frees a descriptor or panics, so [NUM + 1] rounds are enough. *)
Fixpoint free_chain_loop (fuel i : nat) : M St unit :=
  match fuel with
  | O => spin
  | S f =>
      de <- getd (fun d => desc d i) ;;
      free_desc i ;;;
      if negb (Z.land (d_flags de) VRING_DESC_F_NEXT =? 0) then free_chain_loop f (d_next de)
      else ret tt
  end.
Definition free_chain (i : nat) : M St unit := free_chain_loop (NUM + 1) i.

Definition alloc3_desc : M St (option (nat * nat * nat)) :=
  o0 <- alloc_desc ;;
  match o0 with
  | None => ret None
  | Some i0 =>
      o1 <- alloc_desc ;;
      match o1 with
      | None => free_desc i0 ;;; ret None
      | Some i1 =>
          o2 <- alloc_desc ;;
          match o2 with
          | None => free_desc i0 ;;; free_desc i1 ;;; ret None
          | Some i2 => ret (Some (i0, i1, i2))
          end
      end
  end.

Fixpoint alloc3_loop (fuel : nat) : M St (nat * nat * nat) :=
  match fuel with
  | O => asleep
  | S f =>
      o <- alloc3_desc ;;
      match o with
      | Some idx => ret idx
      | None => host_sleep ch_disk_free ;;; alloc3_loop f
      end
  end.

(** [uint64 sector = b->blockno * (BSIZE / 512)]: the product is a [uint]. *)
Definition sector_of (blockno : Z) : Z := u32 (blockno * (BSIZE / 512)).
Definition upd_desc (i : nat) (de : virtq_desc) (d : vdisk) : vdisk := set_desc (<[i := de]> (desc d)) d.

(** Format the three descriptors and put the chain into the ring. *)
Definition rw_format (b : nat) (write : bool) (sector : Z) (idx : nat * nat * nat) : M St unit :=
  let '(i0, i1, i2) := idx in
  modd (fun d => set_ops (<[i0 := mkReq (if write then VIRTIO_BLK_T_OUT else VIRTIO_BLK_T_IN) 0 sector]> (ops d)) d) ;;;
  modd (upd_desc i0 (mkDesc (p_ops i0) 16 VRING_DESC_F_NEXT i1)) ;;;
  modd (upd_desc i1 (mkDesc (p_data b) BSIZE
    (Z.lor (if write then 0 else VRING_DESC_F_WRITE) VRING_DESC_F_NEXT) i2)) ;;;
  modd (fun d => set_info_status (<[i0 := 0xff]> (info_status d)) d) ;;;
  modd (upd_desc i2 (mkDesc (p_status i0) 1 VRING_DESC_F_WRITE 0)) ;;;
  modd (fun d => set_bf_disk (<[b := 1]> (bf_disk d)) d) ;;;
  modd (fun d => set_info_b (<[i0 := Some b]> (info_b d)) d) ;;;
  modd (fun d => set_avail_ring (<[Z.to_nat (avail_idx d mod Z.of_nat NUM) := i0]> (avail_ring d)) d).
(** Tell the device. *)
Definition rw_publish : M St unit :=
  modd (fun d => set_avail_idx (u16 (avail_idx d + 1)) d) ;;;
  writereg VIRTIO_MMIO_QUEUE_NOTIFY 0.
Fixpoint rw_wait (fuel b : nat) : M St unit :=
  match fuel with
  | O => asleep
  | S f =>
      busy <- getd (fun d => bf_disk d b) ;;
      if busy =? 1 then host_sleep (ch_buf b) ;;; rw_wait f b else ret tt
  end.
Definition rw_finish (i0 : nat) : M St unit :=
  modd (fun d => set_info_b (<[i0 := None]> (info_b d)) d) ;;;
  free_chain i0.

(** [naps] bounds how often the process is woken in vain. *)
Definition virtio_disk_rw (naps : nat) (b : nat) (write : bool) : M St unit :=
  sector <- getd (fun d => sector_of (bf_blockno d b)) ;;
  host_acquire ;;;
  idx <- alloc3_loop naps ;;
  rw_format b write sector idx ;;;
  rw_publish ;;;
  rw_wait naps b ;;;
  rw_finish idx.1.1 ;;;
  host_release.

(** One round of the loop over the used ring; [info[id].b] is followed. *)
Definition intr_one : M St unit :=
  id <- getd (fun d => u_ring d (Z.to_nat (used_idx d mod Z.of_nat NUM))) ;;
  status <- getd (fun d => info_status d id) ;;
  if negb (status =? 0) then panic "virtio_disk_intr status" else
  ob <- getd (fun d => info_b d id) ;;
  match ob with
  | None => undef
  | Some b =>
      modd (fun d => set_bf_disk (<[b := 0]> (bf_disk d)) d) ;;;
      host_wakeup (ch_buf b) ;;;
      modd (fun d => set_used_idx (u16 (used_idx d + 1)) d)
  end.
Fixpoint intr_loop (fuel : nat) : M St unit :=
  match fuel with
  | O => spin
  | S f =>
      again <- getd (fun d => negb (used_idx d =? u_idx d)) ;;
      if again : bool then intr_one ;;; intr_loop f else ret tt
  end.
(** The indices are 16-bit numbers, so [2 ^ 16] rounds reach [used->idx]. *)
Definition virtio_disk_intr : M St unit :=
  host_acquire ;;;
  status <- readreg VIRTIO_MMIO_INTERRUPT_STATUS ;;
  writereg VIRTIO_MMIO_INTERRUPT_ACK (Z.land status 0x3) ;;;
  intr_loop (Z.to_nat (2 ^ 16)) ;;;
  host_release.
End driver.
End Virtio.

(** The driver in the kernel: beside the process table, with its locks, its
    sleeping processes and its pages. *)
Section kernel.
Context `{Swtch (pst * vdisk)}.

#[local] Instance pair_fst : Lens (pst * vdisk) pst.
Proof. by refine {| view := fst; put := fun t s => (t, s.2) |}; intros; destruct s. Defined.
#[local] Instance pair_snd : Lens (pst * vdisk) vdisk.
Proof. by refine {| view := snd; put := fun t s => (s.1, t) |}; intros; destruct s. Defined.

Definition kernel_host : DiskHost (pst * vdisk) := {|
  host_initlock := zoom (zoom (initlock vdisk_lock "virtio_disk") : M pst unit);
  host_acquire := zoom (lock vdisk_lock);
  host_release := zoom (unlock vdisk_lock);
  host_sleep := fun ch => sleep ch vdisk_lock;
  host_wakeup := fun ch => zoom (wakeup ch);
  host_kalloc := zoom (zoom kalloc : M pst Z)
|}.
End kernel.

(** * Interleavings of the driver and the device *)

Module Ring.
Import Virtio.

(** Sections that run with the lock held are steps, so the lock itself has no
    effect here; nor have wake-ups, since a process may look at any time. *)
Definition atomic_host : DiskHost vdisk := {|
  host_lens := lens_id vdisk;
  host_initlock := ret tt; host_acquire := ret tt; host_release := ret tt;
  host_sleep := fun _ => ret tt; host_wakeup := fun _ => ret tt; host_kalloc := ret 0
|}.
#[local] Existing Instance atomic_host.

(** A process inside [virtio_disk_rw]: its arguments and its [idx]. *)
Record req : Type := Rq { r_buf : nat; r_write : bool; r_i0 : nat; r_i1 : nat; r_i2 : nat }.
Definition r_idx (r : req) : list nat := [r_i0 r; r_i1 r; r_i2 r].

(** The device: how far it has read the available ring, the chains it is
    working on, and its sectors of 512 bytes. *)
Record dev : Type := Dev { dv_avail : Z; dv_inflight : list nat; dv_sectors : Z -> list Z }.

Definition slot (i : Z) : nat := Z.to_nat (i mod Z.of_nat NUM).
Definition fetched (x y : vdisk * dev) : Prop :=
  let '(d, v) := x in
  dv_avail v <> avail_idx d /\
  y = (d, Dev (u16 (dv_avail v + 1)) (dv_inflight v ++ [avail_ring d (slot (dv_avail v))]) (dv_sectors v)).

(** The contents of the disk and of the buffers, and a transfer. *)
Record contents : Type := Contents { ct_sectors : Z -> list Z; ct_blockno : nat -> Z; ct_data : nat -> list Z }.
Definition xfer (sector : Z) (b : nat) (write : bool) (c : contents) : contents :=
  if write
  then Contents (<[sector + 1 := drop 512 (ct_data c b)]> (<[sector := take 512 (ct_data c b)]> (ct_sectors c)))
         (ct_blockno c) (ct_data c)
  else Contents (ct_sectors c) (ct_blockno c)
         (<[b := ct_sectors c sector ++ ct_sectors c (sector + 1)]> (ct_data c)).
Definition contents_of (d : vdisk) (v : dev) : contents := Contents (dv_sectors v) (bf_blockno d) (bf_data d).

Definition has (flag flags : Z) : bool := negb (Z.land flags flag =? 0).
(** The request that the chain from [h] describes: header, data, status. *)
Definition chain_at (d : vdisk) (h : nat) : option (nat * bool * Z * nat) :=
  let d0 := desc d h in
  let d1 := desc d (d_next d0) in
  let d2 := desc d (d_next d1) in
  match d_addr d0, d_addr d1, d_addr d2 with
  | p_ops i, p_data b, p_status j =>
      let w := rq_type (ops d i) =? VIRTIO_BLK_T_OUT in
      if has VRING_DESC_F_NEXT (d_flags d0) && negb (has VRING_DESC_F_WRITE (d_flags d0)) && (d_len d0 =? 16) &&
         has VRING_DESC_F_NEXT (d_flags d1) && eqb (has VRING_DESC_F_WRITE (d_flags d1)) (negb w) &&
         (d_len d1 =? BSIZE) &&
         negb (has VRING_DESC_F_NEXT (d_flags d2)) && has VRING_DESC_F_WRITE (d_flags d2) && (d_len d2 =? 1) &&
         (w || (rq_type (ops d i) =? VIRTIO_BLK_T_IN))
      then Some (b, w, rq_sector (ops d i), j) else None
  | _, _, _ => None
  end.
(** The device carries out the request of [h], reports success and puts [h]
    into the used ring. *)
Definition completed (h b : nat) (w : bool) (x y : vdisk * dev) : Prop :=
  let '(d, v) := x in
  exists sector j l1 l2,
    dv_inflight v = l1 ++ h :: l2 /\ chain_at d h = Some (b, w, sector, j) /\
    let c := xfer sector b w (contents_of d v) in
    y = (set_u_idx (u16 (u_idx d + 1)) (set_u_ring (<[slot (u_idx d) := h]> (u_ring d))
          (set_info_status (<[j := 0]> (info_status d)) (set_bf_data (ct_data c) d))),
         Dev (dv_avail v) (l1 ++ l2) (ct_sectors c)).

(** A device that obeys the virtio specification and does not fail: it fetches
    chains from the available ring in order and completes them in any order,
    and it goes on as long as there is something to do. *)
Class Device := {
  dev_moves : vdisk * dev -> vdisk * dev -> Prop;
  dev_obeys : forall x y, dev_moves x y -> fetched x y \/ exists h b w, completed h b w x y;
  dev_goes_on : forall x y, fetched x y \/ (exists h b w, completed h b w x y) -> exists y', dev_moves x y'
}.

Inductive event : Type :=
| EEdit (b : nat) (blockno : Z) (data : list Z)
| ESubmit (b : nat) (w : bool)
| EXfer (b : nat) (w : bool)
| EDone (b : nat).

(** [c_mid] is the request of the process that holds the lock between filling
    the ring and advancing its index; [c_wait] are those that sleep. *)
Record conf : Type := Conf { c_d : vdisk; c_dev : dev; c_mid : option req; c_wait : list req }.
Definition outstanding (c : conf) : list req := option_list (c_mid c) ++ c_wait c.

Section steps.
Context `{Device}.

Inductive step : conf -> list event -> conf -> Prop :=
| s_edit d v m ws b blockno data :
    b ∉ map r_buf (outstanding (Conf d v m ws)) ->
    step (Conf d v m ws) [EEdit b blockno data]
      (Conf (set_bf_blockno (<[b := blockno]> (bf_blockno d)) (set_bf_data (<[b := data]> (bf_data d)) d)) v m ws)
| s_full d d' v ws :
    alloc3_desc d = Ok None d' -> step (Conf d v None ws) [] (Conf d' v None ws)
| s_format d d1 d2 v ws b w i0 i1 i2 :
    b ∉ map r_buf ws -> alloc3_desc d = Ok (Some (i0, i1, i2)) d1 ->
    rw_format b w (sector_of (bf_blockno d b)) (i0, i1, i2) d1 = Ok tt d2 ->
    step (Conf d v None ws) [ESubmit b w] (Conf d2 v (Some (Rq b w i0 i1 i2)) ws)
| s_publish d d' v r ws :
    rw_publish d = Ok tt d' -> step (Conf d v (Some r) ws) [] (Conf d' v None (r :: ws))
| s_intr d d' v ws :
    used_idx d <> u_idx d -> intr_one d = Ok tt d' -> step (Conf d v None ws) [] (Conf d' v None ws)
| s_finish d d' v r ws1 ws2 :
    bf_disk d (r_buf r) <> 1 -> rw_finish (r_i0 r) d = Ok tt d' ->
    step (Conf d v None (ws1 ++ r :: ws2)) [EDone (r_buf r)] (Conf d' v None (ws1 ++ ws2))
| s_fetch d v d' v' m ws :
    dev_moves (d, v) (d', v') -> fetched (d, v) (d', v') -> step (Conf d v m ws) [] (Conf d' v' m ws)
| s_complete d v d' v' m ws h b w :
    dev_moves (d, v) (d', v') -> completed h b w (d, v) (d', v') ->
    step (Conf d v m ws) [EXfer b w] (Conf d' v' m ws).

Inductive steps : conf -> list event -> conf -> Prop :=
| steps_refl c : steps c [] c
| steps_step c c' c'' tr es : steps c tr c' -> step c' es c'' -> steps c (tr ++ es) c''.
End steps.

(** After [virtio_disk_init]. *)
Record fresh (c : conf) : Prop := {
  fr_free : forall i, (i < NUM)%nat -> dfree (c_d c) i = true;
  fr_idx : avail_idx (c_d c) = 0 /\ u_idx (c_d c) = 0 /\ used_idx (c_d c) = 0;
  fr_dev : dv_avail (c_dev c) = 0 /\ dv_inflight (c_dev c) = [];
  fr_none : c_mid c = None /\ c_wait c = []
}.

(** * Specification *)

(** The transfers of a trace, one after the other. *)
Definition replay1 (c : contents) (e : event) : contents :=
  match e with
  | EEdit b blockno data => Contents (ct_sectors c) (<[b := blockno]> (ct_blockno c)) (<[b := data]> (ct_data c))
  | EXfer b w => xfer (sector_of (ct_blockno c b)) b w c
  | ESubmit _ _ | EDone _ => c
  end.
Definition replay (tr : list event) (c : contents) : contents := fold_left replay1 tr c.

(** The life of a buffer: a request is submitted, carried out once and
    returned; only then is the buffer edited or used again. *)
Inductive phase : Type := Idle | Pending (w : bool) | Moved (w : bool).
Definition life1 (b : nat) (o : option phase) (e : event) : option phase :=
  match o with
  | None => None
  | Some p =>
      match e with
      | EEdit b' _ _ => if decide (b' = b) then match p with Idle => Some Idle | _ => None end else Some p
      | ESubmit b' w => if decide (b' = b) then match p with Idle => Some (Pending w) | _ => None end else Some p
      | EXfer b' w =>
          if decide (b' = b) then match p with Pending w' => if eqb w w' then Some (Moved w) else None | _ => None end
          else Some p
      | EDone b' => if decide (b' = b) then match p with Moved _ => Some Idle | _ => None end else Some p
      end
  end.
Definition life (b : nat) (tr : list event) : option phase := fold_left (life1 b) tr (Some Idle).
End Ring.
