(* ===== verification/Vring.v ===== *)
(** Correctness of the virtio disk driver under every interleaving: the
    invariant that ties the rings, the descriptors and the waiting processes
    together, and what it gives. *)

From Stdlib Require Import ZArith Lia List String Bool.
From stdpp Require Import base tactics numbers list functions sets.
From S2P Require Import Prelude.
From S2P Require Import Abi.
From S2P Require Import Virtio.
Import Virtio.Virtio Virtio.Ring.

#[local] Existing Instance atomic_host.

Arguments alloc_desc : simpl never.
Arguments free_desc : simpl never.
Arguments alloc3_desc : simpl never.
Arguments free_chain : simpl never.

(** Compute the fields of an updated state; [flat] computes the state. *)
Tactic Notation "fields" := cbn [c_d c_dev c_mid c_wait dv_avail dv_inflight dv_sectors
  desc avail_idx avail_ring u_idx u_ring dfree used_idx info_b info_status ops bf_disk bf_blockno bf_data pages mmio
  set_desc set_avail_idx set_avail_ring set_u_idx set_u_ring set_dfree set_used_idx set_info_b set_info_status set_ops set_bf_disk set_bf_blockno set_bf_data set_pages set_mmio upd_desc].
Tactic Notation "fields" "in" hyp(H) := cbn [c_d c_dev c_mid c_wait dv_avail dv_inflight dv_sectors
  desc avail_idx avail_ring u_idx u_ring dfree used_idx info_b info_status ops bf_disk bf_blockno bf_data pages mmio
  set_desc set_avail_idx set_avail_ring set_u_idx set_u_ring set_dfree set_used_idx set_info_b set_info_status set_ops set_bf_disk set_bf_blockno set_bf_data set_pages set_mmio upd_desc] in H.
Ltac flat := cbv beta iota delta [desc avail_idx avail_ring u_idx u_ring dfree used_idx info_b info_status ops bf_disk bf_blockno bf_data pages mmio
  set_desc set_avail_idx set_avail_ring set_u_idx set_u_ring set_dfree set_used_idx set_info_b set_info_status set_ops set_bf_disk set_bf_blockno set_bf_data set_pages set_mmio].

(** * The driver's functions *)

Lemma alloc_desc_cases d :
  (exists i, (i < NUM)%nat /\ dfree d i = true /\
     alloc_desc d = Ok (Some i) (set_dfree (<[i := false]> (dfree d)) d)) \/
  ((forall i, (i < NUM)%nat -> dfree d i = false) /\ alloc_desc d = Ok None d).
Proof.
  unfold alloc_desc. set (body := fun i : nat => bind _ _). generalize NUM. intros n.
  enough (Hg : forall a,
    (exists i, (a <= i < a + n)%nat /\ dfree d i = true /\
      for_find (seq a n) body d = Ok (Some i) (set_dfree (<[i := false]> (dfree d)) d)) \/
    ((forall i, (a <= i < a + n)%nat -> dfree d i = false) /\ for_find (seq a n) body d = Ok None d)).
  { destruct (Hg 0%nat) as [(i & ? & ?)|[? ?]]; [left; exists i|right]; split; auto with lia. }
  assert (Hb : forall a, body a d = if dfree d a then Ok (Some a) (set_dfree (<[a := false]> (dfree d)) d) else Ok None d).
  { intros a. unfold body, bind, getd, modd, zoom, gets, modify, ret. simpl. by destruct (dfree d a), d. }
  induction n as [|n IH]; intros a; cbn [seq for_find]; [right; split; [lia|done]|].
  specialize (Hb a). destruct (dfree d a) eqn:E; rewrite (bind_Ok _ _ _ _ _ Hb).
  - left. exists a. auto with lia.
  - destruct (IH (S a)) as [(i & ? & ?)|[Hf Hr]].
    + left. exists i. split; [lia|done].
    + right. split; [|done]. intros i Hi. destruct (decide (i = a)) as [->|]; [done|]. apply Hf. lia.
Qed.

Lemma free_desc_ok i d :
  (i < NUM)%nat -> dfree d i = false ->
  free_desc i d = Ok tt (set_dfree (<[i := true]> (dfree d)) (set_desc (<[i := zero_desc]> (desc d)) d)).
Proof.
  intros Hi Hf. unfold free_desc. rewrite (proj2 (Nat.leb_gt _ _) Hi).
  unfold bind, getd, modd, zoom, gets, modify. simpl. by rewrite Hf.
Qed.

(** [alloc3_desc] takes three free descriptors, or takes none and at most
    clears free ones. *)
Lemma alloc3_desc_cases d :
  (exists i0 i1 i2, alloc3_desc d = Ok (Some (i0, i1, i2))
       (set_dfree (<[i2 := false]> (<[i1 := false]> (<[i0 := false]> (dfree d)))) d) /\
     NoDup [i0; i1; i2] /\ Forall (fun i => (i < NUM)%nat /\ dfree d i = true) [i0; i1; i2]) \/
  (exists g, alloc3_desc d = Ok None (set_desc g d) /\ forall i, dfree d i = false -> g i = desc d i).
Proof.
  destruct d as [de ai ar ui ur fr us ib ist op bd bb bf pg mm]. unfold alloc3_desc. cbn [dfree desc].
  destruct (alloc_desc_cases (mkVdisk de ai ar ui ur fr us ib ist op bd bb bf pg mm)) as [(i0 & L0 & F0 & E0)|[_ E0]];
    rewrite (bind_Ok _ _ _ _ _ E0); clear E0; cbn [set_dfree dfree] in *; [|right; by exists de].
  destruct (alloc_desc_cases (mkVdisk de ai ar ui ur (<[i0 := false]> fr) us ib ist op bd bb bf pg mm))
    as [(i1 & L1 & F1 & E1)|[_ E1]]; rewrite (bind_Ok _ _ _ _ _ E1); clear E1; cbn [dfree] in *.
  2:{ right. exists (<[i0 := zero_desc]> de).
      rewrite (bind_Ok _ _ _ _ _ (free_desc_ok i0
        (mkVdisk de ai ar ui ur (<[i0 := false]> fr) us ib ist op bd bb bf pg mm) L0 (fn_lookup_insert _ _ _))). flat.
      rewrite fn_insert_insert, (fn_insert_id _ _ _ F0). split; [done|].
      intros i Hi. rewrite fn_lookup_insert_ne; [done|]. congruence. }
  assert (N01 : i0 <> i1) by (intros ->; by rewrite fn_lookup_insert in F1).
  rewrite fn_lookup_insert_ne in F1 by done.
  flat.
  set (fr2 := <[i1 := false]> (<[i0 := false]> fr)).
  assert (F20 : fr2 i0 = false) by (unfold fr2; by rewrite fn_lookup_insert_ne, fn_lookup_insert).
  assert (F21 : fr2 i1 = false) by (unfold fr2; by rewrite fn_lookup_insert).
  destruct (alloc_desc_cases (mkVdisk de ai ar ui ur fr2 us ib ist op bd bb bf pg mm))
    as [(i2 & L2 & F2 & E2)|[_ E2]]; rewrite (bind_Ok _ _ _ _ _ E2); clear E2; cbn [dfree] in *.
  - left. exists i0, i1, i2. split; [done|].
    assert (i1 <> i2) by congruence. assert (i0 <> i2) by congruence.
    unfold fr2 in F2. rewrite !fn_lookup_insert_ne in F2 by done.
    split; [|by rewrite !Forall_cons, Forall_nil].
    rewrite !NoDup_cons. rewrite !not_elem_of_cons. split_and!; (done || apply not_elem_of_nil || constructor).
  - right. exists (<[i1 := zero_desc]> (<[i0 := zero_desc]> de)).
    rewrite (bind_Ok _ _ _ _ _ (free_desc_ok i0 (mkVdisk de ai ar ui ur fr2 us ib ist op bd bb bf pg mm) L0 F20)). flat.
    assert (F21' : (<[i0 := true]> fr2 : nat -> bool) i1 = false) by (by rewrite fn_lookup_insert_ne).
    rewrite (bind_Ok _ _ _ _ _ (free_desc_ok i1
      (mkVdisk (<[i0 := zero_desc]> de) ai ar ui ur (<[i0 := true]> fr2) us ib ist op bd bb bf pg mm) L1 F21')). fields. unfold fr2.
    rewrite (fn_insert_commute _ i0 i1), !fn_insert_insert by done.
    rewrite (fn_insert_id fr i0 true), (fn_insert_id fr i1 true) by done. split; [done|].
    intros i Hi. rewrite !fn_lookup_insert_ne; [done|congruence..].
Qed.

(** The states after the straight-line parts. *)
Definition formatted (b : nat) (w : bool) (sector : Z) (i0 i1 i2 : nat) (d : vdisk) : vdisk :=
  set_avail_ring (<[slot (avail_idx d) := i0]> (avail_ring d))
    (set_info_b (<[i0 := Some b]> (info_b d))
    (set_bf_disk (<[b := 1]> (bf_disk d))
    (set_info_status (<[i0 := 0xff]> (info_status d))
    (set_desc (<[i2 := mkDesc (p_status i0) 1 VRING_DESC_F_WRITE 0]>
      (<[i1 := mkDesc (p_data b) BSIZE (Z.lor (if w then 0 else VRING_DESC_F_WRITE) VRING_DESC_F_NEXT) i2]>
      (<[i0 := mkDesc (p_ops i0) 16 VRING_DESC_F_NEXT i1]> (desc d))))
    (set_ops (<[i0 := mkReq (if w then VIRTIO_BLK_T_OUT else VIRTIO_BLK_T_IN) 0 sector]> (ops d)) d))))).
Definition published (d : vdisk) : vdisk :=
  set_mmio (mmio d ++ [(VIRTIO_MMIO_QUEUE_NOTIFY, u32 0)]) (set_avail_idx (u16 (avail_idx d + 1)) d).

Lemma rw_format_ok b w sector i0 i1 i2 d :
  rw_format b w sector (i0, i1, i2) d = Ok tt (formatted b w sector i0 i1 i2 d).
Proof. by destruct d. Qed.

(** * The invariant *)

Definition idxs (l : list req) : list nat := flat_map r_idx l.

(** The descriptors of [r] describe its request. *)
Record chain (d : vdisk) (r : req) : Prop := {
  ch_head : desc d (r_i0 r) = mkDesc (p_ops (r_i0 r)) 16 VRING_DESC_F_NEXT (r_i1 r);
  ch_data : desc d (r_i1 r) = mkDesc (p_data (r_buf r)) BSIZE
    (Z.lor (if r_write r then 0 else VRING_DESC_F_WRITE) VRING_DESC_F_NEXT) (r_i2 r);
  ch_stat : desc d (r_i2 r) = mkDesc (p_status (r_i0 r)) 1 VRING_DESC_F_WRITE 0;
  ch_ops : ops d (r_i0 r) = mkReq (if r_write r then VIRTIO_BLK_T_OUT else VIRTIO_BLK_T_IN) 0
    (sector_of (bf_blockno d (r_buf r)));
  ch_info : info_b d (r_i0 r) = Some (r_buf r)
}.

(** The waiting requests are queued ([Q], in the available ring, in order), in
    the hands of the device ([F]), reported by it ([D], in the used ring, in
    order) or seen by the interrupt handler ([Sn]). *)
Record inv (c : conf) (Q F D Sn : list req) : Prop := {
  i_wait : c_wait c ≡ₚ Q ++ F ++ D ++ Sn;
  i_free : forall i, (i < NUM)%nat -> dfree (c_d c) i = false <-> i ∈ idxs (outstanding c);
  i_nodup : NoDup (idxs (outstanding c));
  i_lt : Forall (fun i => (i < NUM)%nat) (idxs (outstanding c));
  i_bufs : NoDup (map r_buf (outstanding c));
  i_chain : forall r, r ∈ outstanding c -> chain (c_d c) r;
  i_status : forall r, r ∈ D ++ Sn -> info_status (c_d c) (r_i0 r) = 0;
  i_busy : forall r, r ∈ option_list (c_mid c) ++ Q ++ F ++ D -> bf_disk (c_d c) (r_buf r) = 1;
  i_seen : forall r, r ∈ Sn -> bf_disk (c_d c) (r_buf r) = 0;
  i_avail : 0 <= dv_avail (c_dev c) < 2 ^ 16 /\
    avail_idx (c_d c) = u16 (dv_avail (c_dev c) + Z.of_nat (length Q));
  i_aring : forall i r, Q !! i = Some r -> avail_ring (c_d c) (slot (dv_avail (c_dev c) + Z.of_nat i)) = r_i0 r;
  i_mid : forall r, c_mid c = Some r -> avail_ring (c_d c) (slot (avail_idx (c_d c))) = r_i0 r;
  i_flight : dv_inflight (c_dev c) ≡ₚ map r_i0 F;
  i_used : 0 <= used_idx (c_d c) < 2 ^ 16 /\ u_idx (c_d c) = u16 (used_idx (c_d c) + Z.of_nat (length D));
  i_uring : forall i r, D !! i = Some r -> u_ring (c_d c) (slot (used_idx (c_d c) + Z.of_nat i)) = r_i0 r
}.

(** ** Lists of requests *)

Lemma elem_idxs i l : i ∈ idxs l <-> exists r, r ∈ l /\ i ∈ r_idx r.
Proof.
  unfold idxs. rewrite list_elem_of_In, in_flat_map. split; intros (r & Hr & Hi); exists r;
    rewrite ?list_elem_of_In in *; by rewrite <-?list_elem_of_In in *.
Qed.

Lemma r_i0_in r : r_i0 r ∈ r_idx r.
Proof. by left. Qed.

(** Two requests that share a descriptor are the same. *)
Lemma idxs_inj l r r' i : NoDup (idxs l) -> r ∈ l -> r' ∈ l -> i ∈ r_idx r -> i ∈ r_idx r' -> r = r'.
Proof.
  intros Hn Hr Hr' Hi Hi'. induction l as [|x l IH]; [by apply elem_of_nil in Hr|].
  cbn [idxs flat_map] in Hn. apply NoDup_app in Hn as (_ & Hd & Hn).
  apply elem_of_cons in Hr as [->|Hr], Hr' as [->|Hr']; [done| | |by apply IH].
  - destruct (Hd i Hi). apply elem_idxs. by exists r'.
  - destruct (Hd i Hi'). apply elem_idxs. by exists r.
Qed.

Lemma idxs_perm l l' : l ≡ₚ l' -> idxs l ≡ₚ idxs l'.
Proof. intros Hp. unfold idxs. rewrite !flat_map_concat_map. by rewrite Hp. Qed.

Lemma idxs_length l : length (idxs l) = (3 * length l)%nat.
Proof. induction l as [|r l IH]; [done|]. cbn [idxs flat_map]. rewrite length_app. fold (idxs l). simpl. lia. Qed.

(** Eight descriptors are enough for two requests only. *)
Lemma outstanding_few l : NoDup (idxs l) -> Forall (fun i => (i < NUM)%nat) (idxs l) -> (length l <= 2)%nat.
Proof.
  intros Hn Hl. assert (Hs : (length (idxs l) <= length (seq 0 NUM))%nat).
  { apply submseteq_length, NoDup_submseteq; [done|]. intros i Hi. rewrite Forall_forall in Hl.
    apply elem_of_seq. specialize (Hl i Hi). lia. }
  rewrite length_seq, idxs_length in Hs. unfold NUM in Hs. lia.
Qed.

Lemma buf_inj l r r' : NoDup (map r_buf l) -> r ∈ l -> r' ∈ l -> r_buf r = r_buf r' -> r = r'.
Proof.
  intros Hn Hr Hr' He. induction l as [|x l IH]; [by apply elem_of_nil in Hr|].
  cbn [map] in Hn. apply NoDup_cons in Hn as [Hx Hn].
  apply elem_of_cons in Hr as [->|Hr], Hr' as [->|Hr']; [done| | |by apply IH].
  - destruct Hx. rewrite He. by apply list_elem_of_fmap_2.
  - destruct Hx. rewrite <-He. by apply list_elem_of_fmap_2.
Qed.

(** ** Ring slots *)

Lemma slot_u16 i : slot (u16 i) = slot i.
Proof.
  unfold slot, u16. f_equal. change (2 ^ 16) with (Z.of_nat NUM * 2 ^ 13).
  rewrite Z.rem_mul_r by (unfold NUM; lia). rewrite Z.mul_comm, Z.mod_add by (unfold NUM; lia).
  by rewrite Z.mod_mod by (unfold NUM; lia).
Qed.

Lemma slot_u16_add i j : slot (u16 i + j) = slot (i + j).
Proof.
  rewrite <-slot_u16, <-(slot_u16 (i + j)). f_equal. unfold u16. by rewrite Z.add_mod_idemp_l by lia.
Qed.

Lemma slot_ne x i j : 0 <= i < j -> j - i < Z.of_nat NUM -> slot (x + i) <> slot (x + j).
Proof.
  intros Hi Hj He. unfold slot in He. apply Z2Nat.inj in He; [|apply Z.mod_pos_bound; unfold NUM; lia..].
  unfold NUM in *. assert (H8 : (x + j - (x + i)) mod 8 = 0).
  { rewrite Zminus_mod. change (Z.of_nat 8) with 8 in He. by rewrite He, Z.sub_diag. }
  replace (x + j - (x + i)) with (j - i) in H8 by lia. rewrite Z.mod_small in H8; lia.
Qed.

Lemma u16_bound z : 0 <= u16 z < 2 ^ 16.
Proof. apply Z.mod_pos_bound. lia. Qed.

Lemma u16_add z n : u16 (u16 z + n) = u16 (z + n).
Proof. unfold u16. by rewrite Z.add_mod_idemp_l by lia. Qed.

Lemma u16_moved z n : 0 <= z < 2 ^ 16 -> 0 <= n < 2 ^ 16 -> u16 (z + n) = z -> n = 0.
Proof.
  intros Hz Hn He. unfold u16 in He. destruct (decide (z + n < 2 ^ 16)).
  - rewrite Z.mod_small in He; lia.
  - replace (z + n) with (z + n - 2 ^ 16 + 1 * 2 ^ 16) in He by lia. rewrite Z.mod_add, Z.mod_small in He; lia.
Qed.

(** ** Each step keeps the invariant *)

Lemma chain_frame d d' r :
  (forall i, i ∈ r_idx r -> desc d' i = desc d i) -> ops d' (r_i0 r) = ops d (r_i0 r) ->
  info_b d' (r_i0 r) = info_b d (r_i0 r) -> bf_blockno d' (r_buf r) = bf_blockno d (r_buf r) ->
  chain d r -> chain d' r.
Proof.
  intros Hd Ho Hi Hb [H1 H2 H3 H4 H5].
  split; [rewrite Hd by (unfold r_idx; set_solver)..|rewrite Ho, Hb|rewrite Hi]; done.
Qed.

(** Who is outstanding. *)
Lemma inv_out c Q F D Sn r :
  inv c Q F D Sn -> r ∈ Q ++ F ++ D ++ Sn -> r ∈ outstanding c.
Proof. intros Hi Hr. unfold outstanding. rewrite elem_of_app, (i_wait _ _ _ _ _ Hi). by right. Qed.

Lemma inv_few c Q F D Sn :
  inv c Q F D Sn -> (length (option_list (c_mid c)) + length Q + length F + length D + length Sn <= 2)%nat.
Proof.
  intros Hi. pose proof (outstanding_few _ (i_nodup _ _ _ _ _ Hi) (i_lt _ _ _ _ _ Hi)) as Hl.
  unfold outstanding in Hl. rewrite length_app, (Permutation_length (i_wait _ _ _ _ _ Hi)), !length_app in Hl. lia.
Qed.

Lemma inv_nodup c Q F D Sn : inv c Q F D Sn -> NoDup (Q ++ F ++ D ++ Sn).
Proof.
  intros []. apply (NoDup_fmap_1 r_buf). change (fmap r_buf) with (map r_buf). rewrite <-i_wait0.
  unfold outstanding in i_bufs0. rewrite map_app in i_bufs0. by apply NoDup_app in i_bufs0 as (_ & _ & ?).
Qed.

Lemma inv_edit Q F D Sn d v m ws b blockno data :
  b ∉ map r_buf (outstanding (Conf d v m ws)) -> inv (Conf d v m ws) Q F D Sn ->
  inv (Conf (set_bf_blockno (<[b := blockno]> (bf_blockno d)) (set_bf_data (<[b := data]> (bf_data d)) d)) v m ws) Q F D Sn.
Proof.
  intros Hb []. split; try done. intros r Hr.
  apply (chain_frame d); [done|done|done| |by apply i_chain0].
  fields. rewrite fn_lookup_insert_ne; [done|]. intros ->. apply Hb. by apply list_elem_of_fmap_2.
Qed.

Lemma inv_full Q F D Sn d v ws g :
  (forall i, dfree d i = false -> g i = desc d i) -> inv (Conf d v None ws) Q F D Sn ->
  inv (Conf (set_desc g d) v None ws) Q F D Sn.
Proof.
  intros Hg []. split; try done. intros r Hr.
  apply (chain_frame d); [|done|done|done|by apply i_chain0]. intros i Hi. fields. apply Hg.
  assert (Hin : i ∈ idxs (outstanding (Conf d v None ws))) by (apply elem_idxs; by exists r).
  apply i_free0; [|done]. rewrite Forall_forall in i_lt0. by apply i_lt0.
Qed.

Lemma inv_publish Q F D Sn d v r ws :
  inv (Conf d v (Some r) ws) Q F D Sn ->
  exists d', rw_publish d = Ok tt d' /\ inv (Conf d' v None (r :: ws)) (Q ++ [r]) F D Sn.
Proof.
  intros Hi. pose proof (inv_few _ _ _ _ _ Hi) as Hf. destruct Hi.
  exists (published d). split; [done|]. unfold published. cbn [c_d c_dev c_mid c_wait option_list] in *. split; try done; cbn [c_d c_dev c_mid c_wait] in *.
  - rewrite i_wait0. solve_Permutation.
  - intros x Hx. apply (chain_frame d); [done..|]. by apply i_chain0.
  - intros x Hx. fields. apply i_busy0. cbn [option_list app] in *. set_solver.
  - fields. destruct i_avail0 as [Ha ->]. rewrite length_app, u16_add. split; [done|]. f_equal. simpl. lia.
  - intros i x Hx. fields. apply lookup_app_Some in Hx as [Hx|[Hl Hx]]; [by apply i_aring0|].
    destruct (i - length Q)%nat as [|k] eqn:Ek; [|done]. injection Hx as <-. replace i with (length Q) by lia.
    destruct i_avail0 as [_ Ha]. rewrite <-slot_u16, <-Ha. by apply i_mid0.
Qed.

Definition acknowledged (b : nat) (d : vdisk) : vdisk :=
  set_used_idx (u16 (used_idx d + 1)) (set_bf_disk (<[b := 0]> (bf_disk d)) d).

Lemma intr_one_ok d id b :
  u_ring d (slot (used_idx d)) = id -> info_status d id = 0 -> info_b d id = Some b ->
  intr_one d = Ok tt (acknowledged b d).
Proof.
  intros <- Hs Hb. unfold intr_one. destruct d. cbn in *. unfold slot in *.
  unfold bind, getd, modd, zoom, gets, modify, ret. cbn. rewrite Hs. cbn. by rewrite Hb.
Qed.

Lemma inv_intr Q F D Sn d v ws :
  used_idx d <> u_idx d -> inv (Conf d v None ws) Q F D Sn ->
  exists r D', D = r :: D' /\ intr_one d = Ok tt (acknowledged (r_buf r) d) /\
    inv (Conf (acknowledged (r_buf r) d) v None ws) Q F D' (Sn ++ [r]).
Proof.
  intros Hne Hi. pose proof (inv_nodup _ _ _ _ _ Hi) as Hnd.
  assert (Ho : forall x, x ∈ Q ++ F ++ D ++ Sn -> x ∈ outstanding (Conf d v None ws)) by (intros x; by apply inv_out).
  destruct Hi. cbn [c_d c_dev c_mid c_wait option_list app] in *. destruct D as [|r D].
  { destruct i_used0 as [Ha He]. rewrite Z.add_0_r in He. unfold u16 in He. rewrite Z.mod_small in He by lia. done. }
  exists r, D. split; [done|].
  assert (Hr : r ∈ Q ++ F ++ (r :: D) ++ Sn) by set_solver.
  assert (Hbuf : forall x, x ∈ Q ++ F ++ D ++ Sn -> x <> r -> r_buf r <> r_buf x).
  { intros x Hx Hxr E. apply Hxr. symmetry. eapply buf_inj; [exact i_bufs0|by apply Ho|apply Ho; set_solver|done]. }
  assert (Hxr : forall x, x ∈ Q ++ F ++ D -> x <> r).
  { intros x Hx ->. revert Hnd. rewrite !NoDup_app. cbn [app]. rewrite NoDup_cons. set_solver. }
  split.
  - apply (intr_one_ok d (r_i0 r)).
    + specialize (i_uring0 0%nat r eq_refl). by rewrite Z.add_0_r in i_uring0.
    + apply i_status0. set_solver.
    + apply (ch_info d r), i_chain0, Ho, Hr.
  - unfold acknowledged. split; try done; fields.
    + rewrite i_wait0. solve_Permutation.
    + intros x Hx. apply (chain_frame d); [done..|]. by apply i_chain0.
    + intros x Hx. apply i_status0. set_solver.
    + intros x Hx. rewrite fn_lookup_insert_ne; [apply i_busy0; set_solver|]. apply Hbuf; [set_solver|by apply Hxr].
    + intros x Hx. apply elem_of_app in Hx as [Hx|Hx%list_elem_of_singleton]; [|subst; by rewrite fn_lookup_insert].
      destruct (decide (r_buf r = r_buf x)) as [->|]; [by rewrite fn_lookup_insert|].
      rewrite fn_lookup_insert_ne by done. by apply i_seen0.
    + destruct i_used0 as [Ha ->]. split; [apply u16_bound|]. rewrite u16_add. f_equal. simpl length. lia.
    + intros i x Hx. rewrite slot_u16_add. specialize (i_uring0 (S i) x Hx). rewrite <-i_uring0. do 2 f_equal. lia.
Qed.

Lemma inv_fetch Q F D Sn d v m ws d' v' :
  fetched (d, v) (d', v') -> inv (Conf d v m ws) Q F D Sn ->
  exists r Q', Q = r :: Q' /\ d' = d /\ dv_sectors v' = dv_sectors v /\
    inv (Conf d' v' m ws) Q' (F ++ [r]) D Sn.
Proof.
  intros [Hne [= -> ->]] Hi. pose proof (inv_few _ _ _ _ _ Hi) as Hf. destruct Hi.
  cbn [c_d c_dev c_mid c_wait] in *. destruct Q as [|r Q].
  { destruct i_avail0 as [Ha He]. rewrite Z.add_0_r in He. unfold u16 in He. rewrite Z.mod_small in He by lia. done. }
  exists r, Q. split_and!; [done..|]. split; try done; fields.
  - rewrite i_wait0. solve_Permutation.
  - intros x Hx. apply i_busy0. set_solver.
  - destruct i_avail0 as [Ha ->]. split; [apply u16_bound|]. rewrite u16_add. f_equal. simpl length. lia.
  - intros i x Hx. rewrite slot_u16_add. specialize (i_aring0 (S i) x Hx). rewrite <-i_aring0. do 2 f_equal. lia.
  - rewrite i_flight0, map_app. f_equiv. specialize (i_aring0 0%nat r eq_refl). rewrite Z.add_0_r in i_aring0.
    simpl. by rewrite i_aring0.
Qed.

(** The descriptors of an outstanding request are in use. *)
Lemma inv_used c Q F D Sn r i :
  inv c Q F D Sn -> r ∈ outstanding c -> i ∈ r_idx r -> (i < NUM)%nat /\ dfree (c_d c) i = false.
Proof.
  intros [] Hr Hi. assert (Hin : i ∈ idxs (outstanding c)) by (apply elem_idxs; by exists r).
  rewrite Forall_forall in i_lt0. split; [by apply i_lt0|]. apply i_free0; [by apply i_lt0|done].
Qed.

(** Three free descriptors make a new request. *)
Lemma new_request ws d b w i0 i1 i2 :
  NoDup [i0; i1; i2] -> Forall (fun i => (i < NUM)%nat /\ dfree d i = true) [i0; i1; i2] ->
  (forall i, (i < NUM)%nat -> dfree d i = false <-> i ∈ idxs ws) ->
  NoDup (idxs ws) -> Forall (fun i => (i < NUM)%nat) (idxs ws) ->
  let r := Rq b w i0 i1 i2 in
  NoDup (idxs (r :: ws)) /\ Forall (fun i => (i < NUM)%nat) (idxs (r :: ws)) /\
  (forall i, (i < NUM)%nat ->
     (<[i2 := false]> (<[i1 := false]> (<[i0 := false]> (dfree d))) : nat -> bool) i = false <-> i ∈ idxs (r :: ws)) /\
  (forall x i, x ∈ ws -> i ∈ r_idx x -> i <> i0 /\ i <> i1 /\ i <> i2).
Proof.
  intros Hn Hfr Hf Hnd Hl r. rewrite Forall_forall in Hfr.
  assert (Hnew : forall i, i ∈ [i0; i1; i2] -> i ∉ idxs ws).
  { intros i Hi Hw. destruct (Hfr i Hi) as [Hlt Hd]. apply Hf in Hw; [congruence|done]. }
  change (idxs (r :: ws)) with ([i0; i1; i2] ++ idxs ws). split_and!.
  - by apply NoDup_app.
  - apply Forall_app. split; [|done]. apply Forall_forall. intros i Hi. by apply Hfr.
  - intros i Hi. rewrite elem_of_app, <-Hf by done.
    destruct (decide (i = i2)) as [->|]; [rewrite fn_lookup_insert; set_solver|rewrite fn_lookup_insert_ne by done].
    destruct (decide (i = i1)) as [->|]; [rewrite fn_lookup_insert; set_solver|rewrite fn_lookup_insert_ne by done].
    destruct (decide (i = i0)) as [->|]; [rewrite fn_lookup_insert; set_solver|rewrite fn_lookup_insert_ne by done].
    set_solver.
  - intros x i Hx Hi. assert (Hw : i ∈ idxs ws) by (apply elem_idxs; by exists x).
    split_and!; intros ->; eapply Hnew; [|done| |done| |done]; set_solver.
Qed.

Lemma inv_format Q F D Sn d v ws b w i0 i1 i2 :
  b ∉ map r_buf ws -> NoDup [i0; i1; i2] -> Forall (fun i => (i < NUM)%nat /\ dfree d i = true) [i0; i1; i2] ->
  inv (Conf d v None ws) Q F D Sn ->
  let d1 := set_dfree (<[i2 := false]> (<[i1 := false]> (<[i0 := false]> (dfree d)))) d in
  inv (Conf (formatted b w (sector_of (bf_blockno d b)) i0 i1 i2 d1) v (Some (Rq b w i0 i1 i2)) ws) Q F D Sn.
Proof.
  intros Hb Hn Hfr Hi d1. pose proof (inv_few _ _ _ _ _ Hi) as Hf. destruct Hi. unfold formatted, d1.
  destruct (new_request ws d b w i0 i1 i2 Hn Hfr i_free0 i_nodup0 i_lt0) as (Hn' & Hl' & Hf' & Hu).
  set (r := Rq b w i0 i1 i2) in *.
  rewrite !NoDup_cons, !not_elem_of_cons in Hn. destruct Hn as ((N01 & N02 & _) & (N12 & _) & _).
  assert (Hbuf : forall x, x ∈ ws -> b <> r_buf x) by (intros x Hx ->; apply Hb; by apply list_elem_of_fmap_2).
  assert (Hw : forall x, x ∈ Q ++ F ++ D ++ Sn -> x ∈ ws) by (intros x Hx; by rewrite i_wait0).
  change (outstanding (Conf d v None ws)) with ws in *.
  split; change (outstanding _) with (r :: ws); try done; fields.
  - apply NoDup_cons. done.
  - intros x Hx. apply elem_of_cons in Hx as [->|Hx].
    + split; fields; unfold r; cbn [r_i0 r_i1 r_i2 r_buf r_write];
        [by rewrite (fn_lookup_insert_ne _ i2 i0), (fn_lookup_insert_ne _ i1 i0), fn_lookup_insert by done
        |by rewrite (fn_lookup_insert_ne _ i2 i1), fn_lookup_insert by done|by rewrite fn_lookup_insert..].
    + apply (chain_frame d); fields; [| | |done|by apply i_chain0]; [intros i Hi|..];
        rewrite !fn_lookup_insert_ne; try done; try (symmetry; eapply Hu; [exact Hx|]; eauto using r_i0_in).
  - intros x Hx. rewrite fn_lookup_insert_ne; [by apply i_status0|].
    apply not_eq_sym, (Hu x (r_i0 x)); [|apply r_i0_in]. apply Hw. set_solver.
  - intros x Hx. apply elem_of_app in Hx as [Hx%list_elem_of_singleton|Hx]; [subst; by rewrite fn_lookup_insert|].
    rewrite fn_lookup_insert_ne; [apply i_busy0; set_solver|]. apply Hbuf, Hw. set_solver.
  - intros x Hx. rewrite fn_lookup_insert_ne; [by apply i_seen0|]. apply Hbuf, Hw. set_solver.
  - intros i x Hx. rewrite fn_lookup_insert_ne; [by apply i_aring0|]. apply lookup_lt_Some in Hx.
    destruct i_avail0 as [_ Ha]. cbn [c_d c_dev] in Ha. rewrite Ha, slot_u16. apply not_eq_sym, slot_ne; [lia|]. unfold NUM. lia.
  - intros x [= <-]. by rewrite fn_lookup_insert.
Qed.

Definition finished (r : req) (d : vdisk) : vdisk :=
  set_dfree (<[r_i2 r := true]> (<[r_i1 r := true]> (<[r_i0 r := true]> (dfree d))))
    (set_desc (<[r_i2 r := zero_desc]> (<[r_i1 r := zero_desc]> (<[r_i0 r := zero_desc]> (desc d))))
    (set_info_b (<[r_i0 r := None]> (info_b d)) d)).

Lemma rw_finish_ok d r :
  chain d r -> NoDup (r_idx r) -> Forall (fun i => (i < NUM)%nat /\ dfree d i = false) (r_idx r) ->
  rw_finish (r_i0 r) d = Ok tt (finished r d).
Proof.
  destruct r as [b w i0 i1 i2]. unfold r_idx. cbn [r_i0 r_i1 r_i2]. intros [H0 H1 H2 _ _] Hn Hf.
  rewrite !NoDup_cons, !not_elem_of_cons in Hn. destruct Hn as ((N01 & N02 & _) & (N12 & _) & _).
  rewrite !Forall_cons in Hf. destruct Hf as ((L0 & F0) & (L1 & F1) & (L2 & F2) & _).
  destruct d as [de ai ar ui ur fr us ib ist op bd bb bf pg mm]. cbn [desc dfree r_i0 r_i1 r_i2] in *.
  unfold rw_finish, finished. change (modd ?f ?d) with (Ok (S := vdisk) tt (f d)).
  assert (Hm : forall f d, modd f d = Ok (S := vdisk) tt (f d)) by done.
  rewrite (bind_Ok _ _ _ _ _ (Hm _ _)). flat. unfold free_chain. change (NUM + 1)%nat with (S (S (S 6))).
  set (V := fun de fr => mkVdisk de ai ar ui ur fr us (<[i0 := None]> ib) ist op bd bb bf pg mm).
  assert (Hs : forall f i de' fr' x, (i < NUM)%nat -> fr' i = false -> de' i = x ->
    free_chain_loop (S f) i (V de' fr') =
      (if has VRING_DESC_F_NEXT (d_flags x) then free_chain_loop f (d_next x) else ret tt)
        (V (<[i := zero_desc]> de') (<[i := true]> fr'))).
  { intros f i de' fr' x Hi Hf Hx. cbn [free_chain_loop].
    assert (Hg : getd (fun d => desc d i) (V de' fr') = Ok x (V de' fr')) by (rewrite <-Hx; done).
    rewrite (bind_Ok _ _ _ _ _ Hg), (bind_Ok _ _ _ _ _ (free_desc_ok i (V de' fr') Hi Hf)). done. }
  change (mkVdisk de ai ar ui ur fr us (<[i0 := None]> ib) ist op bd bb bf pg mm) with (V de fr).
  rewrite (Hs _ _ _ _ _ L0 F0 H0). cbn [d_flags d_next]. change (has _ _) with true. cbv iota.
  rewrite <-(fn_lookup_insert_ne de i0 i1 zero_desc) in H1 by done.
  rewrite <-(fn_lookup_insert_ne fr i0 i1 true) in F1 by done.
  rewrite (Hs _ _ _ _ _ L1 F1 H1).
  cbn [d_flags d_next]. replace (has _ _) with true by (by destruct w). cbv iota.
  rewrite <-(fn_lookup_insert_ne de i0 i2 zero_desc), <-(fn_lookup_insert_ne _ i1 i2 zero_desc) in H2 by done.
  rewrite <-(fn_lookup_insert_ne fr i0 i2 true), <-(fn_lookup_insert_ne _ i1 i2 true) in F2 by done.
  rewrite (Hs _ _ _ _ _ L2 F2 H2). done.
Qed.

(** A request gives its descriptors back. *)
Lemma old_request ws r ws' d :
  ws ≡ₚ r :: ws' -> (forall i, (i < NUM)%nat -> dfree d i = false <-> i ∈ idxs ws) ->
  NoDup (idxs ws) -> Forall (fun i => (i < NUM)%nat) (idxs ws) ->
  NoDup (idxs ws') /\ Forall (fun i => (i < NUM)%nat) (idxs ws') /\
  NoDup (r_idx r) /\ Forall (fun i => (i < NUM)%nat /\ dfree d i = false) (r_idx r) /\
  (forall i, (i < NUM)%nat ->
     (<[r_i2 r := true]> (<[r_i1 r := true]> (<[r_i0 r := true]> (dfree d))) : nat -> bool) i = false <-> i ∈ idxs ws') /\
  (forall x i, x ∈ ws' -> i ∈ r_idx x -> i <> r_i0 r /\ i <> r_i1 r /\ i <> r_i2 r).
Proof.
  intros Hp Hf Hn Hl. pose proof (idxs_perm _ _ Hp) as Hip.
  change (idxs (r :: ws')) with (r_idx r ++ idxs ws') in Hip. rewrite Hip in Hn, Hl.
  apply NoDup_app in Hn as (Hn1 & Hn2 & Hn3). apply Forall_app in Hl as [Hl1 Hl2].
  assert (Hin : forall i, i ∈ r_idx r <-> i = r_i0 r \/ i = r_i1 r \/ i = r_i2 r).
  { intros i. unfold r_idx. rewrite !elem_of_cons, elem_of_nil. tauto. }
  split_and!; [done|done|done| | |].
  - apply Forall_forall. intros i Hi. rewrite Forall_forall in Hl1. specialize (Hl1 i Hi).
    split; [done|]. apply Hf; [done|]. rewrite Hip, elem_of_app. by left.
  - intros i Hi. destruct (decide (i ∈ r_idx r)) as [Hx|Hx].
    + split; [|intros Hw; by destruct (Hn2 i Hx)]. apply Hin in Hx. unfold insert, fn_insert.
      clear -Hx. repeat case_decide; naive_solver.
    + assert (i <> r_i0 r /\ i <> r_i1 r /\ i <> r_i2 r) as (? & ? & ?) by (rewrite Hin in Hx; tauto).
      rewrite !fn_lookup_insert_ne by done. rewrite (Hf i Hi), Hip, elem_of_app. tauto.
  - intros x i Hx Hxi. assert (Hw : i ∈ idxs ws') by (apply elem_idxs; by exists x).
    assert (Hni : i ∉ r_idx r) by (intros Hri; by apply (Hn2 i)). rewrite Hin in Hni. tauto.
Qed.

(** A request leaves. *)
Lemma inv_finish Q F D Sn d v r ws1 ws2 :
  bf_disk d (r_buf r) <> 1 -> inv (Conf d v None (ws1 ++ r :: ws2)) Q F D Sn ->
  exists S1 S2, Sn = S1 ++ r :: S2 /\ rw_finish (r_i0 r) d = Ok tt (finished r d) /\
    inv (Conf (finished r d) v None (ws1 ++ ws2)) Q F D (S1 ++ S2).
Proof.
  intros Hb []. change (outstanding (Conf d v None (ws1 ++ r :: ws2))) with (ws1 ++ r :: ws2) in *.
  cbn [c_d c_dev c_mid c_wait option_list app] in *.
  assert (Hp : ws1 ++ r :: ws2 ≡ₚ r :: ws1 ++ ws2) by (by rewrite Permutation_middle).
  assert (Hr : r ∈ ws1 ++ r :: ws2) by (rewrite Hp; by left).
  assert (Hin : r ∈ Sn).
  { assert (Hq : r ∈ (Q ++ F ++ D) ++ Sn) by (by rewrite <-!app_assoc, <-i_wait0).
    apply elem_of_app in Hq as [Hq|Hq]; [|done]. destruct Hb. by apply i_busy0. }
  apply list_elem_of_split in Hin as (S1 & S2 & ->). exists S1, S2. split; [done|].
  destruct (old_request _ r (ws1 ++ ws2) d Hp i_free0 i_nodup0 i_lt0) as (K1 & K2 & K3 & K4 & K5 & Hu).
  assert (Hsub : forall x, x ∈ S1 ++ S2 -> x ∈ S1 ++ r :: S2).
  { intros x. rewrite !elem_of_app, elem_of_cons. tauto. }
  split; [by apply rw_finish_ok; [apply i_chain0|..]|].
  unfold finished. split; change (outstanding _) with (ws1 ++ ws2); try done; fields.
  - apply (Permutation_cons_inv (a := r)). rewrite <-Hp, i_wait0, !app_assoc. by rewrite Permutation_middle.
  - rewrite Hp in i_bufs0. cbn [map] in i_bufs0. by apply NoDup_cons in i_bufs0 as [_ ?].
  - intros x Hx. destruct (Hu x (r_i0 x) Hx (r_i0_in x)) as (U0 & U1 & U2).
    apply (chain_frame d); fields; [|done|by rewrite fn_lookup_insert_ne|done|apply i_chain0; rewrite Hp; by right].
    intros i Hi. destruct (Hu x i Hx Hi) as (? & ? & ?). by rewrite !fn_lookup_insert_ne.
  - intros x Hx. apply i_status0. rewrite elem_of_app in *. destruct Hx as [?|?]; [by left|right; by apply Hsub].
  - intros x Hx. by apply i_seen0, Hsub.
Qed.

Lemma chain_at_chain d r :
  chain d r -> chain_at d (r_i0 r) = Some (r_buf r, r_write r, sector_of (bf_blockno d (r_buf r)), r_i0 r).
Proof.
  intros [H0 H1 H2 H3 _]. unfold chain_at. cbv zeta. rewrite H0. cbn [d_next d_addr d_flags d_len]. rewrite H1.
  cbn [d_next d_addr d_flags d_len]. rewrite H2. cbn [d_next d_addr d_flags d_len]. rewrite H3. by destruct (r_write r).
Qed.

Lemma inv_complete Q F D Sn d v m ws h b w d' v' :
  completed h b w (d, v) (d', v') -> inv (Conf d v m ws) Q F D Sn ->
  exists r F1 F2, F = F1 ++ r :: F2 /\ b = r_buf r /\ w = r_write r /\
    contents_of d' v' = xfer (sector_of (bf_blockno d b)) b w (contents_of d v) /\
    inv (Conf d' v' m ws) Q (F1 ++ F2) (D ++ [r]) Sn.
Proof.
  intros (sector & j & l1 & l2 & Hl & Hc & [= -> ->]) Hi. pose proof (inv_few _ _ _ _ _ Hi) as Hf.
  assert (Hh : exists r, r ∈ F /\ r_i0 r = h).
  { assert (Hm : h ∈ map r_i0 F) by (rewrite <-(i_flight _ _ _ _ _ Hi); cbn [c_dev]; rewrite Hl, elem_of_app; right; by left).
    apply list_elem_of_fmap in Hm as (r & -> & Hr). by exists r. }
  destruct Hh as (r & Hr & <-). pose proof (inv_out _ _ _ _ _ r Hi) as Ho. rewrite !elem_of_app in Ho.
  specialize (Ho ltac:(tauto)). rewrite (chain_at_chain d r (i_chain _ _ _ _ _ Hi r Ho)) in Hc. injection Hc as <- <- <- <-.
  apply list_elem_of_split in Hr as (F1 & F2 & ->). exists r, F1, F2. split_and!; [done..| |].
  { unfold contents_of, xfer. by destruct (r_write r). }
  destruct Hi. cbn [c_d c_dev c_mid c_wait] in *. split; try done; fields.
  - rewrite i_wait0. solve_Permutation.
  - intros x Hx. by apply (chain_frame d); [done..|apply i_chain0].
  - intros x Hx. destruct (decide (r_i0 r = r_i0 x)) as [->|Hne]; [by rewrite fn_lookup_insert|].
    rewrite fn_lookup_insert_ne by done. apply i_status0. rewrite !elem_of_app, list_elem_of_singleton in *.
    destruct Hx as [[?| ->]|?]; [by left|done|by right].
  - intros x Hx. apply i_busy0. rewrite !elem_of_app, ?elem_of_cons, ?elem_of_nil in *. tauto.
  - rewrite Hl in i_flight0. apply (Permutation_cons_inv (a := r_i0 r)).
    rewrite Permutation_middle, i_flight0, !map_app. cbn [map]. by rewrite Permutation_middle.
  - destruct i_used0 as [Ha ->]. split; [done|]. rewrite u16_add, length_app. f_equal. simpl. lia.
  - intros i x Hx. destruct i_used0 as [_ Hu]. rewrite Hu, slot_u16.
    apply lookup_app_Some in Hx as [Hx|[Hle Hx]].
    + rewrite fn_lookup_insert_ne; [by apply i_uring0|]. apply lookup_lt_Some in Hx.
      apply not_eq_sym, slot_ne; [lia|]. unfold NUM. lia.
    + destruct (i - length D)%nat as [|k] eqn:Ek; [|done]. injection Hx as <-. replace i with (length D) by lia.
      by rewrite fn_lookup_insert.
Qed.

(** * The trace *)

Lemma life_app b tr e : life b (tr ++ [e]) = life1 b (life b tr) e.
Proof. unfold life. by rewrite fold_left_app. Qed.
Lemma replay_app tr e c : replay (tr ++ [e]) c = replay1 (replay tr c) e.
Proof. unfold replay. by rewrite fold_left_app. Qed.

Definition event_buf (e : event) : nat :=
  match e with EEdit b _ _ | ESubmit b _ | EXfer b _ | EDone b => b end.

Lemma life_other b tr e p : event_buf e <> b -> life b tr = Some p -> life b (tr ++ [e]) = Some p.
Proof. intros Hb Hl. rewrite life_app, Hl. destruct e; simpl in *; by rewrite decide_False. Qed.

(** The contents are those of the transfers so far, and every buffer is as far
    as its request. *)
Record story (c0 : contents) (tr : list event) (c : conf) (P M : list req) : Prop := {
  st_contents : contents_of (c_d c) (c_dev c) = replay tr c0;
  st_pending : forall r, r ∈ P -> life (r_buf r) tr = Some (Pending (r_write r));
  st_moved : forall r, r ∈ M -> life (r_buf r) tr = Some (Moved (r_write r));
  st_idle : forall b, b ∉ map r_buf (P ++ M) -> life b tr = Some Idle
}.

Definition told (c0 : contents) (tr : list event) (c : conf) : Prop :=
  exists Q F D Sn, inv c Q F D Sn /\ story c0 tr c (option_list (c_mid c) ++ Q ++ F) (D ++ Sn).

Lemma inv_story_bufs c Q F D Sn :
  inv c Q F D Sn -> NoDup (map r_buf ((option_list (c_mid c) ++ Q ++ F) ++ D ++ Sn)) /\
    outstanding c ≡ₚ (option_list (c_mid c) ++ Q ++ F) ++ D ++ Sn.
Proof.
  intros []. assert (Hp : outstanding c ≡ₚ (option_list (c_mid c) ++ Q ++ F) ++ D ++ Sn).
  { unfold outstanding. rewrite i_wait0. by rewrite <-!app_assoc. }
  split; [|done]. by rewrite <-Hp.
Qed.

(** Moves between the lists that no event records. *)
Lemma story_quiet c0 tr c c' P M P' M' :
  contents_of (c_d c') (c_dev c') = contents_of (c_d c) (c_dev c) -> P ≡ₚ P' -> M ≡ₚ M' ->
  story c0 tr c P M -> story c0 tr c' P' M'.
Proof.
  intros Hc HP HM []. split; [by rewrite Hc|..].
  - intros r Hr. apply st_pending0. by rewrite HP.
  - intros r Hr. apply st_moved0. by rewrite HM.
  - intros b Hb. apply st_idle0. by rewrite HP, HM.
Qed.

(** An event of the buffer of [r] that moves [r] between the lists. *)
Lemma story_event c0 tr c c' e P M P' M' :
  (forall r, r ∈ P' -> r_buf r = event_buf e -> life (r_buf r) (tr ++ [e]) = Some (Pending (r_write r))) ->
  (forall r, r ∈ M' -> r_buf r = event_buf e -> life (r_buf r) (tr ++ [e]) = Some (Moved (r_write r))) ->
  (event_buf e ∉ map r_buf (P' ++ M') -> life (event_buf e) (tr ++ [e]) = Some Idle) ->
  (forall r, r_buf r <> event_buf e -> (r ∈ P' <-> r ∈ P) /\ (r ∈ M' <-> r ∈ M)) ->
  contents_of (c_d c') (c_dev c') = replay1 (contents_of (c_d c) (c_dev c)) e ->
  story c0 tr c P M -> story c0 (tr ++ [e]) c' P' M'.
Proof.
  intros HP HM HI Ho Hc []. split.
  - by rewrite Hc, replay_app, st_contents0.
  - intros r Hr. destruct (decide (r_buf r = event_buf e)); [by apply HP|].
    apply life_other; [done|]. by apply st_pending0, Ho.
  - intros r Hr. destruct (decide (r_buf r = event_buf e)); [by apply HM|].
    apply life_other; [done|]. by apply st_moved0, Ho.
  - intros b Hb. destruct (decide (b = event_buf e)) as [->|Hne]; [by apply HI|].
    apply life_other; [done|]. apply st_idle0. intros (r & -> & Hr)%list_elem_of_fmap. apply Hb.
    apply list_elem_of_fmap_2. destruct (Ho r Hne) as [H1 H2]. rewrite elem_of_app in *. tauto.
Qed.

Lemma bufs_apart P M r r' : NoDup (map r_buf (P ++ M)) -> r ∈ P -> r' ∈ M -> r_buf r <> r_buf r'.
Proof.
  rewrite map_app, NoDup_app. intros (_ & Hd & _) Hr Hr' He. apply (Hd (r_buf r)).
  - by apply list_elem_of_fmap_2.
  - rewrite He. by apply list_elem_of_fmap_2.
Qed.

Lemma told_xfer c0 tr c c' r P F1 F2 D Sn :
  NoDup (map r_buf ((P ++ F1 ++ F2) ++ (D ++ [r]) ++ Sn)) ->
  contents_of (c_d c') (c_dev c') = replay1 (contents_of (c_d c) (c_dev c)) (EXfer (r_buf r) (r_write r)) ->
  story c0 tr c (P ++ F1 ++ r :: F2) (D ++ Sn) ->
  story c0 (tr ++ [EXfer (r_buf r) (r_write r)]) c' (P ++ F1 ++ F2) ((D ++ [r]) ++ Sn).
Proof.
  intros Hn Hc Hs. assert (Hr : r ∈ (D ++ [r]) ++ Sn) by (rewrite !elem_of_app, list_elem_of_singleton; tauto).
  apply (story_event _ _ c _ _ (P ++ F1 ++ r :: F2) (D ++ Sn)); cbn [event_buf]; [| | | |done|done].
  - intros x Hx He. by destruct (bufs_apart _ _ x r Hn Hx Hr).
  - intros x Hx He. assert (x = r) as ->.
    { apply (buf_inj _ _ _ Hn); [rewrite elem_of_app; by right..|done]. }
    rewrite life_app, (st_pending _ _ _ _ _ Hs r) by (rewrite !elem_of_app, elem_of_cons; tauto).
    simpl. rewrite decide_True by done. by rewrite eqb_reflx.
  - intros Hx. destruct Hx. apply list_elem_of_fmap_2. rewrite elem_of_app. by right.
  - intros x Hx. rewrite !elem_of_app, elem_of_cons, list_elem_of_singleton.
    assert (x <> r) by (by intros ->). tauto.
Qed.

Lemma told_done c0 tr c c' r P D S1 S2 :
  NoDup (map r_buf (P ++ D ++ S1 ++ r :: S2)) ->
  contents_of (c_d c') (c_dev c') = contents_of (c_d c) (c_dev c) ->
  story c0 tr c P (D ++ S1 ++ r :: S2) -> story c0 (tr ++ [EDone (r_buf r)]) c' P (D ++ S1 ++ S2).
Proof.
  intros Hn Hc Hs. assert (Hr : r ∈ D ++ S1 ++ r :: S2) by (rewrite !elem_of_app, elem_of_cons; tauto).
  assert (Hp : D ++ S1 ++ r :: S2 ≡ₚ r :: D ++ S1 ++ S2) by solve_Permutation.
  apply (story_event _ _ c _ _ P (D ++ S1 ++ r :: S2)); cbn [event_buf]; [| | | |done|done].
  - intros x Hx He. by destruct (bufs_apart _ _ x r Hn Hx Hr).
  - intros x Hx He. rewrite Hp, Permutation_app_comm in Hn. cbn [app map] in Hn.
    apply NoDup_cons in Hn as [Hn _]. destruct Hn. rewrite <-He. apply list_elem_of_fmap_2. rewrite elem_of_app. by left.
  - intros _. rewrite life_app, (st_moved _ _ _ _ _ Hs r Hr). simpl. by rewrite decide_True.
  - intros x Hx. rewrite !elem_of_app, elem_of_cons. assert (x <> r) by (by intros ->). tauto.
Qed.

Lemma told_submit c0 tr c c' r P M :
  NoDup (map r_buf (r :: P ++ M)) -> contents_of (c_d c') (c_dev c') = contents_of (c_d c) (c_dev c) ->
  story c0 tr c P M -> story c0 (tr ++ [ESubmit (r_buf r) (r_write r)]) c' (r :: P) M.
Proof.
  intros Hn Hc Hs. cbn [map] in Hn. apply NoDup_cons in Hn as [Hn _].
  assert (Hx : forall x, x ∈ P ++ M -> r_buf x <> r_buf r).
  { intros x Hx He. apply Hn. rewrite <-He. by apply list_elem_of_fmap_2. }
  apply (story_event _ _ c _ _ P M); cbn [event_buf]; [| | | |done|done].
  - intros x Hin He. apply elem_of_cons in Hin as [->|Hin]; [|destruct (Hx x); [rewrite elem_of_app; by left|done]].
    rewrite life_app, (st_idle _ _ _ _ _ Hs _ Hn). simpl. by rewrite decide_True.
  - intros x Hin He. destruct (Hx x); [rewrite elem_of_app; by right|done].
  - intros Hin. destruct Hin. by left.
  - intros x Hne. rewrite elem_of_cons. assert (x <> r) by (by intros ->). tauto.
Qed.

Section reach.
Context `{Device}.

Lemma step_told c0 tr c es c' : step c es c' -> told c0 tr c -> told c0 (tr ++ es) c'.
Proof.
  intros Hs (Q & F & D & Sn & Hi & Hst). pose proof (inv_story_bufs _ _ _ _ _ Hi) as [Hn Hp].
  destruct Hs as [d v m ws b blockno data Hb|d d' v ws Ha|d d1 d2 v ws b w i0 i1 i2 Hb Ha Hf|d d' v r ws Hpu
    |d d' v ws Hne Hin|d d' v r ws1 ws2 Hb Hfi|d v d' v' m ws Hm Hf|d v d' v' m ws h b w Hm Hc];
    cbn [c_mid option_list app] in *.
  - exists Q, F, D, Sn. split; [by apply inv_edit|].
    assert (Hb' : b ∉ map r_buf ((option_list m ++ Q ++ F) ++ D ++ Sn)) by (by rewrite <-Hp).
    apply (story_event _ _ (Conf d v m ws) _ _ (option_list m ++ Q ++ F) (D ++ Sn)); cbn [event_buf]; try done.
    + intros r Hr E. destruct Hb'. rewrite <-E. apply list_elem_of_fmap_2. rewrite elem_of_app. by left.
    + intros r Hr E. destruct Hb'. rewrite <-E. apply list_elem_of_fmap_2. rewrite elem_of_app. by right.
    + intros _. rewrite life_app, (st_idle _ _ _ _ _ Hst b Hb'). simpl. by rewrite decide_True.
  - rewrite app_nil_r. destruct (alloc3_desc_cases d) as [(i0 & i1 & i2 & E & _)|(g & E & Hg)]; rewrite E in Ha; [done|].
    injection Ha as <-. exists Q, F, D, Sn. split; [by apply inv_full|]. by apply (story_quiet _ _ (Conf d v None ws) _ (Q ++ F) (D ++ Sn)).
  - destruct (alloc3_desc_cases d) as [(j0 & j1 & j2 & E & N & L)|(g & E & Hg)]; rewrite E in Ha; [|done].
    injection Ha as -> -> -> <-. rewrite rw_format_ok in Hf. injection Hf as <-.
    pose proof (inv_format Q F D Sn d v ws b w i0 i1 i2 Hb N L Hi) as Hi'. exists Q, F, D, Sn. split; [done|].
    destruct (inv_story_bufs _ _ _ _ _ Hi') as [Hn' _].
    by apply (told_submit _ _ (Conf d v None ws) _ (Rq b w i0 i1 i2)).
  - rewrite app_nil_r. destruct (inv_publish Q F D Sn d v r ws Hi) as (d'' & E & Hi'). rewrite E in Hpu. injection Hpu as ->.
    exists (Q ++ [r]), F, D, Sn. split; [done|]. injection E as <-.
    apply (story_quiet _ _ (Conf d v (Some r) ws) _ (r :: Q ++ F) (D ++ Sn)); [done| |done|done]. cbn. solve_Permutation.
  - rewrite app_nil_r. destruct (inv_intr Q F D Sn d v ws Hne Hi) as (r & D' & -> & E & Hi'). rewrite E in Hin. injection Hin as <-.
    exists Q, F, D', (Sn ++ [r]). split; [done|].
    apply (story_quiet _ _ (Conf d v None ws) _ (Q ++ F) ((r :: D') ++ Sn)); [done|done| |done]. solve_Permutation.
  - destruct (inv_finish Q F D Sn d v r ws1 ws2 Hb Hi) as (S1 & S2 & -> & E & Hi'). rewrite E in Hfi. injection Hfi as <-.
    exists Q, F, D, (S1 ++ S2). split; [done|]. by apply (told_done _ _ (Conf d v None (ws1 ++ r :: ws2))).
  - rewrite app_nil_r. destruct (inv_fetch Q F D Sn d v m ws d' v' Hf Hi) as (r & Q' & -> & -> & Hse & Hi').
    exists Q', (F ++ [r]), D, Sn. split; [done|].
    apply (story_quiet _ _ (Conf d v m ws) _ (option_list m ++ (r :: Q') ++ F) (D ++ Sn)); [|cbn; solve_Permutation|done|done].
    unfold contents_of. cbn. by rewrite Hse.
  - destruct (inv_complete Q F D Sn d v m ws h b w d' v' Hc Hi) as (r & F1 & F2 & -> & -> & -> & Hco & Hi').
    exists Q, (F1 ++ F2), (D ++ [r]), Sn. split; [done|]. destruct (inv_story_bufs _ _ _ _ _ Hi') as [Hn' _].
    cbn [c_mid] in *. rewrite (app_assoc (option_list m) Q) in *. by apply (told_xfer _ _ (Conf d v m ws)).
Qed.

Lemma fresh_told c : fresh c -> told (contents_of (c_d c) (c_dev c)) [] c.
Proof.
  intros [Hf (Ha & Hu & Hs) (Hv & Hl) (Hm & Hw)]. exists [], [], [], [].
  assert (Ho : outstanding c = []) by (unfold outstanding; by rewrite Hm, Hw).
  split; split; rewrite ?Ho, ?Hm, ?Hw, ?Ha, ?Hu, ?Hs, ?Hv, ?Hl; try done; try set_solver.
  - intros i Hi. rewrite Hf by done. cbn. split; [done|]. intros Hx. by apply elem_of_nil in Hx.
  - constructor.
  - constructor.
Qed.

Lemma steps_told c tr c' :
  fresh c -> steps c tr c' -> told (contents_of (c_d c) (c_dev c)) tr c'.
Proof. intros Hf. induction 1; [by apply fresh_told|]. eapply step_told; eauto. Qed.

Lemma steps_trans c1 tr1 c2 tr2 c3 : steps c1 tr1 c2 -> steps c2 tr2 c3 -> steps c1 (tr1 ++ tr2) c3.
Proof.
  intros H1 H2. induction H2 as [|c2 c3 c4 tr2 es H2 IH Hs]; [by rewrite app_nil_r|].
  rewrite app_assoc. econstructor; eauto.
Qed.
Lemma steps_cons c1 es c2 tr c3 : step c1 es c2 -> steps c2 tr c3 -> steps c1 (es ++ tr) c3.
Proof. intros H1. apply steps_trans. change es with ([] ++ es). econstructor; [constructor|done]. Qed.

(** What is left to do. *)
Definition work (m Q F D Sn : list req) : nat :=
  (5 * length m + 4 * length Q + 3 * length F + 2 * length D + length Sn)%nat.

(** The device can go on while it has chains. *)
Lemma device_step d v ws Q F D Sn :
  inv (Conf d v None ws) Q F D Sn -> Q <> [] \/ F <> [] ->
  exists es c' Q' F' D', step (Conf d v None ws) es c' /\ c_mid c' = None /\ inv c' Q' F' D' Sn /\
    (work [] Q' F' D' Sn < work [] Q F D Sn)%nat.
Proof.
  intros Hi Hne. assert (Hx : exists y, fetched (d, v) y \/ exists h b w, completed h b w (d, v) y).
  { destruct Q as [|r Q].
    - destruct F as [|r F]; [naive_solver|].
      assert (Hr : r_i0 r ∈ dv_inflight v) by (rewrite (i_flight _ _ _ _ _ Hi); by left).
      apply list_elem_of_split in Hr as (l1 & l2 & Hl). eexists. right. eexists (r_i0 r), _, _. cbn. eexists _, _, l1, l2.
      split; [done|]. split; [|reflexivity]. apply chain_at_chain, (i_chain _ _ _ _ _ Hi), (inv_out _ _ _ _ _ _ Hi). by left.
    - eexists. left. split; [|reflexivity]. intros E. pose proof (i_avail _ _ _ _ _ Hi) as [Ha Hav]. cbn [c_d c_dev] in *.
      pose proof (inv_few _ _ _ _ _ Hi) as Hf. rewrite <-E in Hav. symmetry in Hav. apply u16_moved in Hav; cbn [length] in *; lia. }
  destruct Hx as (y & Hy). apply dev_goes_on in Hy as ((d' & v') & Hm).
  destruct (dev_obeys _ _ Hm) as [Hf|(h & b & w & Hc)].
  - destruct (inv_fetch _ _ _ _ _ _ _ _ _ _ Hf Hi) as (r & Q' & -> & -> & _ & Hi').
    eexists [], _, Q', (F ++ [r]), D. split; [by apply s_fetch|]. split; [done|]. split; [done|].
    unfold work. rewrite length_app. simpl. lia.
  - destruct (inv_complete _ _ _ _ _ _ _ _ _ _ _ _ _ Hc Hi) as (r & F1 & F2 & -> & -> & -> & _ & Hi').
    eexists _, _, Q, (F1 ++ F2), (D ++ [r]). split; [by eapply s_complete|]. split; [done|]. split; [done|].
    unfold work. rewrite !length_app. simpl. lia.
Qed.

Lemma drains_from n c Q F D Sn :
  inv c Q F D Sn -> (work (option_list (c_mid c)) Q F D Sn <= n)%nat ->
  exists tr c', steps c tr c' /\ outstanding c' = [] /\ inv c' [] [] [] [].
Proof.
  revert c Q F D Sn. induction n as [|n IH]; intros [d v m ws] Q F D Sn Hi Hw; cbn [c_mid] in *.
  { destruct m, Q, F, D, Sn; unfold work in Hw; cbn in Hw; try lia. exists [], (Conf d v None ws). split; [constructor|].
    split; [|done]. unfold outstanding. cbn. pose proof (i_wait _ _ _ _ _ Hi) as Hp. by apply Permutation_nil_r in Hp. }
  assert (Hgo : forall es c' Q' F' D' Sn', step (Conf d v m ws) es c' -> inv c' Q' F' D' Sn' ->
    (work (option_list (c_mid c')) Q' F' D' Sn' <= n)%nat -> exists tr c', steps (Conf d v m ws) tr c' /\ outstanding c' = [] /\ inv c' [] [] [] []).
  { intros es c' Q' F' D' Sn' Hs Hi' Hw'. destruct (IH _ _ _ _ _ Hi' Hw') as (tr & c'' & Ht & Ho).
    exists (es ++ tr), c''. split; [by eapply steps_cons|done]. }
  destruct m as [r|].
  { destruct (inv_publish _ _ _ _ _ _ _ _ Hi) as (d' & E & Hi'). apply (Hgo [] _ _ _ _ _ (s_publish _ _ _ _ _ E) Hi').
    cbn. unfold work in *. rewrite length_app. cbn in *. lia. }
  destruct (decide (Q = [] /\ F = [])) as [[-> ->]|HQF].
  2:{ destruct (device_step d v ws Q F D Sn Hi) as (es & c' & Q' & F' & D' & Hs & Hm & Hi' & Hlt).
      { destruct Q, F; naive_solver. }
      apply (Hgo es c' Q' F' D' Sn Hs Hi'). rewrite Hm. cbn in *. lia. }
  destruct D as [|r D].
  - destruct Sn as [|r Sn]; [apply (IH _ _ _ _ _ Hi); cbn; lia|].
    assert (Hr : r ∈ ws) by (rewrite (i_wait _ _ _ _ _ Hi); by left).
    apply list_elem_of_split in Hr as (ws1 & ws2 & ->).
    assert (Hz : bf_disk d (r_buf r) = 0) by (apply (i_seen _ _ _ _ _ Hi r); by left).
    assert (Hb : bf_disk d (r_buf r) <> 1) by (by rewrite Hz).
    destruct (inv_finish _ _ _ _ _ _ _ _ _ Hb Hi) as (S1 & S2 & E & Ef & Hi').
    apply (Hgo _ _ _ _ _ _ (s_finish _ _ _ _ _ _ Hb Ef) Hi'). unfold work in *. rewrite E, length_app in Hw.
    cbn in *. rewrite length_app. lia.
  - assert (Hne : used_idx d <> u_idx d).
    { intros E. destruct (i_used _ _ _ _ _ Hi) as [Ha Hu]. cbn [c_d] in *. pose proof (inv_few _ _ _ _ _ Hi) as Hf.
      rewrite <-E in Hu. symmetry in Hu. apply u16_moved in Hu; cbn [length] in *; lia. }
    destruct (inv_intr _ _ _ _ _ _ _ Hne Hi) as (r' & D' & [= <- <-] & E & Hi').
    apply (Hgo _ _ _ _ _ _ (s_intr _ _ _ _ Hne E) Hi'). unfold work in *. cbn in *. rewrite length_app. cbn. lia.
Qed.
End reach.

(** * Initialisation *)

(** What the driver relies on at boot: the lock is set up, there is memory, and
    neither touches the driver's state. *)
Class DiskHostOk (St : Type) `{DiskHost St} := {
  initlock_ok : forall s, exists s', host_initlock s = Ok tt s' /\ (view s' : vdisk) = view s;
  kalloc_ok : forall s, exists p s', host_kalloc s = Ok p s' /\ p <> 0 /\ (view s' : vdisk) = view s
}.

(** The registers of a virtio disk that accepts the driver. *)
Record present (R : list (Z * Z) -> Z -> Z) : Prop := {
  pr_id : forall l, R l VIRTIO_MMIO_MAGIC_VALUE = 0x74726976 /\ R l VIRTIO_MMIO_VERSION = 2 /\
    R l VIRTIO_MMIO_DEVICE_ID = 2 /\ R l VIRTIO_MMIO_VENDOR_ID = 0x554d4551;
  pr_features : forall l, Z.land (R (l ++ [(VIRTIO_MMIO_STATUS, 11)]) VIRTIO_MMIO_STATUS) VIRTIO_CONFIG_S_FEATURES_OK <> 0;
  pr_ready : forall l, R (l ++ [(VIRTIO_MMIO_QUEUE_SEL, 0)]) VIRTIO_MMIO_QUEUE_READY = 0;
  pr_max : forall l, Z.of_nat NUM <= R l VIRTIO_MMIO_QUEUE_NUM_MAX
}.

Section init.
Context {St : Type} `{DiskHostOk St}.

Lemma bind_modd {B} f (k : unit -> M St B) s : bind (modd f) k s = k tt (put (f (view s)) s).
Proof. done. Qed.
Lemma bind_readreg {B} R r (k : Z -> M St B) s : bind (readreg R r) k s = k (R (mmio (view s)) r) s.
Proof. unfold bind, readreg, getd, zoom, gets. by rewrite put_view. Qed.
(** The fields that the registers do not touch. *)
Definition core (d : vdisk) : Z * Z * Z * (nat -> bool) := (avail_idx d, u_idx d, used_idx d, dfree d).

Lemma step_write r v s :
  exists s', (forall B (k : unit -> M St B), bind (writereg r v) k s = k tt s') /\
    mmio (view s') = mmio (view s) ++ [(r, u32 v)] /\ core (view s') = core (view s).
Proof.
  exists (put (set_mmio (mmio (view s) ++ [(r, u32 v)]) (view s)) s). rewrite view_put. done.
Qed.

Lemma free_all l s :
  exists s', for_each l (fun i => modd (fun d => set_dfree (<[i := true]> (dfree d)) d)) s = Ok (S := St) tt s' /\
    (forall i, i ∈ l -> dfree (view s') i = true) /\
    (forall i, dfree (view s) i = true -> dfree (view s') i = true) /\
    (avail_idx (view s'), u_idx (view s'), used_idx (view s')) = (avail_idx (view s), u_idx (view s), used_idx (view s)).
Proof.
  revert s. induction l as [|i l IH]; intros s; cbn [for_each].
  { exists s. split_and!; [done|intros i Hi; by apply elem_of_nil in Hi|done|done]. }
  rewrite bind_modd. destruct (IH (put (set_dfree (<[i := true]> (dfree (view s))) (view s)) s)) as (s' & E & H1 & H2 & H3).
  rewrite view_put in *. exists s'. split_and!; [done| | |done].
  - intros j [->|Hj]%elem_of_cons; [|by apply H1]. apply H2. fields. by rewrite fn_lookup_insert.
  - intros j Hj. apply H2. fields. destruct (decide (i = j)) as [->|]; [by rewrite fn_lookup_insert|by rewrite fn_lookup_insert_ne].
Qed.

Ltac wr := match goal with |- context [bind (writereg ?r ?v) _ ?s] =>
  let x := fresh "st" in let E := fresh "E" in
  destruct (step_write r v s) as (x & E & ? & ?); rewrite E; clear E end.

(** [virtio_disk_init] leaves the driver with all descriptors free and empty
    rings. *)
Lemma init_ready R s :
  present R -> exists s', virtio_disk_init R s = Ok tt s' /\
    (forall i, (i < NUM)%nat -> dfree (view s') i = true) /\
    avail_idx (view s') = 0 /\ u_idx (view s') = 0 /\ used_idx (view s') = used_idx (view s).
Proof.
  intros []. unfold virtio_disk_init. destruct (initlock_ok s) as (s1 & E1 & V1). rewrite (bind_Ok _ _ _ _ _ E1).
  rewrite !bind_readreg. destruct (pr_id0 (mmio (view s1))) as (-> & -> & -> & ->). cbn [Z.eqb Pos.eqb negb orb].
  do 3 wr. rewrite bind_readreg. wr. wr. rewrite bind_readreg.
  match goal with M : mmio (view ?x) = _ |- context [R (mmio (view ?x)) VIRTIO_MMIO_STATUS] => rewrite M end.
  change (u32 (Z.lor (Z.lor VIRTIO_CONFIG_S_ACKNOWLEDGE VIRTIO_CONFIG_S_DRIVER) VIRTIO_CONFIG_S_FEATURES_OK)) with 11.
  rewrite (proj2 (Z.eqb_neq _ _) (pr_features0 _)). wr. rewrite !bind_readreg.
  match goal with M : mmio (view ?x) = _ |- context [R (mmio (view ?x)) VIRTIO_MMIO_QUEUE_READY] => rewrite M end.
  change (u32 0) with 0. rewrite pr_ready0. cbn [Z.eqb negb]. rewrite bind_readreg.
  set (mx := R _ VIRTIO_MMIO_QUEUE_NUM_MAX). assert (Hmx : Z.of_nat NUM <= mx) by apply pr_max0.
  destruct (Z.eqb_spec mx 0) as [Hz|_]; [rewrite Hz in Hmx; by vm_compute in Hmx|].
  rewrite (proj2 (Z.ltb_ge _ _) Hmx). clear Hmx mx.
  match goal with |- context [bind host_kalloc _ ?x] => set (s2 := x) end.
  assert (U2 : used_idx (view s2) = used_idx (view s)) by (unfold core in *; subst s2; congruence).
  destruct (kalloc_ok s2) as (p1 & s3 & E3 & N1 & V3). rewrite (bind_Ok _ _ _ _ _ E3).
  destruct (kalloc_ok s3) as (p2 & s4 & E4 & N2 & V4). rewrite (bind_Ok _ _ _ _ _ E4).
  destruct (kalloc_ok s4) as (p3 & s5 & E5 & N3 & V5). rewrite (bind_Ok _ _ _ _ _ E5).
  rewrite bind_modd, (proj2 (Z.eqb_neq _ _) N1), (proj2 (Z.eqb_neq _ _) N2), (proj2 (Z.eqb_neq _ _) N3). cbn [orb].
  rewrite !bind_modd. match goal with |- context [bind (writereg VIRTIO_MMIO_QUEUE_NUM _) _ ?x] => set (s8 := x) end.
  assert (U8 : avail_idx (view s8) = 0 /\ u_idx (view s8) = 0 /\ used_idx (view s8) = used_idx (view s)).
  { unfold s8. repeat (rewrite view_put; fields). by rewrite V5, V4, V3, U2. }
  clearbody s8. do 8 wr. match goal with |- context [bind (for_each _ _) _ ?x] => set (s6 := x) end.
  assert (U6 : avail_idx (view s6) = 0 /\ u_idx (view s6) = 0 /\ used_idx (view s6) = used_idx (view s)).
  { unfold core in *. subst s6. destruct U8 as (? & ? & ?). split_and!; congruence. }
  destruct (free_all (seq 0 NUM) s6) as (s7 & E7 & F1 & _ & F3). rewrite (bind_Ok _ _ _ _ _ E7).
  injection F3 as F3 F4 F5. eexists. split; [reflexivity|]. rewrite view_put. fields.
  split; [intros i Hi; apply F1, elem_of_seq; lia|]. by rewrite F3, F4, F5.
Qed.
End init.

(** * Properties *)

(** C18: under every interleaving of processes, interrupts and a device that
    obeys the specification, the driver never panics and never follows a null
    pointer: descriptors can be asked for, every entry of the used ring belongs
    to a request whose buffer is recorded, and a process that finds its buffer
    done can return its descriptors.  The chains in the hands of the device
    always describe outstanding requests, and no two requests share a
    descriptor. *)
Theorem driver_safe `{Device} c tr c' :
  fresh c -> steps c tr c' ->
  let d := c_d c' in
  (exists o d', alloc3_desc d = Ok o d') /\
  (c_mid c' = None -> used_idx d <> u_idx d -> exists d', intr_one d = Ok tt d') /\
  (c_mid c' = None -> forall r, r ∈ c_wait c' -> bf_disk d (r_buf r) <> 1 ->
     exists d', rw_finish (r_i0 r) d = Ok tt d') /\
  (forall h, h ∈ dv_inflight (c_dev c') -> exists r, r ∈ outstanding c' /\ r_i0 r = h /\
     chain_at d h = Some (r_buf r, r_write r, sector_of (bf_blockno d (r_buf r)), h)) /\
  NoDup (idxs (outstanding c')) /\ (forall i, i ∈ idxs (outstanding c') -> dfree d i = false).
Proof.
  intros Hf Hs d. destruct (steps_told _ _ _ Hf Hs) as (Q & F & D & Sn & Hi & _). subst d.
  destruct c' as [d v m ws]. cbn [c_d c_dev c_mid c_wait] in *. split_and!.
  - destruct (alloc3_desc_cases d) as [(i0 & i1 & i2 & E & _)|(g & E & _)]; rewrite E; eauto.
  - intros -> Hne. destruct (inv_intr _ _ _ _ _ _ _ Hne Hi) as (r & D' & _ & E & _). eauto.
  - intros -> r Hr Hb. apply list_elem_of_split in Hr as (ws1 & ws2 & ->).
    destruct (inv_finish _ _ _ _ _ _ _ _ _ Hb Hi) as (S1 & S2 & _ & E & _). eauto.
  - intros h Hh. assert (Hm : h ∈ map r_i0 F) by (by rewrite <-(i_flight _ _ _ _ _ Hi)).
    apply list_elem_of_fmap in Hm as (r & -> & Hr). exists r.
    assert (Ho : r ∈ outstanding (Conf d v m ws)) by (apply (inv_out _ _ _ _ _ _ Hi); rewrite !elem_of_app; tauto).
    split; [done|]. split; [done|]. apply chain_at_chain, (i_chain _ _ _ _ _ Hi r Ho).
  - by apply (i_nodup _ _ _ _ _ Hi).
  - intros i (r & Hr & Hx)%elem_idxs. by apply (inv_used _ _ _ _ _ r i Hi Hr Hx).
Qed.

(** C4: requests are carried out one at a time and exactly once.  The contents
    of the disk and of the buffers are those of the transfers of the trace,
    one after the other; on every buffer submission, transfer and return
    alternate, so that the transfer lies between the call and the return of
    its [virtio_disk_rw]; and a buffer that is marked as done has been
    transferred. *)
Theorem requests_linearize `{Device} c tr c' :
  fresh c -> steps c tr c' ->
  contents_of (c_d c') (c_dev c') = replay tr (contents_of (c_d c) (c_dev c)) /\
  (forall b, life b tr <> None) /\
  (forall r, r ∈ c_wait c' -> bf_disk (c_d c') (r_buf r) <> 1 -> life (r_buf r) tr = Some (Moved (r_write r))).
Proof.
  intros Hf Hs. destruct (steps_told _ _ _ Hf Hs) as (Q & F & D & Sn & Hi & []). split_and!; [done|..].
  - intros b. set (P := option_list (c_mid c') ++ Q ++ F) in *.
    destruct (decide (b ∈ map r_buf (P ++ D ++ Sn))) as [Hb|Hb]; [|by rewrite st_idle0].
    apply list_elem_of_fmap in Hb as (r & -> & [Hr|Hr]%elem_of_app); [by rewrite st_pending0|by rewrite st_moved0].
  - intros r Hr Hb. apply st_moved0. rewrite (i_wait _ _ _ _ _ Hi), !elem_of_app in Hr. rewrite elem_of_app.
    destruct Hr as [Hr|[Hr|[Hr|Hr]]]; [..|by right]; destruct Hb; apply (i_busy _ _ _ _ _ Hi); rewrite !elem_of_app; tauto.
Qed.


(** ** A device, and a run in which block 3 is written *)

Definition virtio_device : Device.
Proof.
  by refine {| dev_moves x y := fetched x y \/ exists h b w, completed h b w x y |}; [|intros x y Hx; exists y].
Defined.

Definition idle_disk : vdisk :=
  mkVdisk (fun _ => zero_desc) 0 (fun _ => 0%nat) 0 (fun _ => 0%nat) (fun _ => true) 0
    (fun _ => None) (fun _ => 0) (fun _ => mkReq 0 0 0) (fun _ => 0) (fun _ => 0) (fun _ => []) (0, 0, 0) [].
Definition idle_conf : conf := Conf idle_disk (Dev 0 [] (fun _ => [])) None [].

Lemma idle_fresh : fresh idle_conf.
Proof. by split. Qed.

Definition block3 : list Z := [7; 8; 9].

Definition disk1 : vdisk := set_bf_blockno (<[0%nat := 3]> (bf_blockno idle_disk)) (set_bf_data (<[0%nat := block3]> (bf_data idle_disk)) idle_disk).
Definition disk2 : vdisk := set_dfree (<[2%nat := false]> (<[1%nat := false]> (<[0%nat := false]> (dfree disk1)))) disk1.
Definition disk3 : vdisk := formatted 0 true 6 0 1 2 disk2.

Lemma disk2_ok : alloc3_desc disk1 = Ok (Some (0, 1, 2)%nat) disk2.
Proof. reflexivity. Qed.

(** The process waits, the device has written the block and the interrupt has
    been taken. *)
Definition disk4 : vdisk := published disk3.
Definition disk5 : vdisk :=
  set_u_idx 1 (set_u_ring (<[0%nat := 0%nat]> (u_ring disk4)) (set_info_status (<[0%nat := 0]> (info_status disk4)) disk4)).
Definition written : conf :=
  Conf (acknowledged 0 disk5) (Dev 1 [] (<[7 := []]> (<[6 := block3]> (fun _ => [])))) None [Rq 0 true 0 1 2].

Lemma write_run : @steps virtio_device idle_conf [EEdit 0 3 block3; ESubmit 0 true; EXfer 0 true] written.
Proof.
  change [EEdit 0 3 block3; ESubmit 0 true; EXfer 0 true]
    with (((((([] ++ [EEdit 0 3 block3]) ++ [ESubmit 0 true]) ++ []) ++ []) ++ [EXfer 0 true]) ++ []).
  set (r := Rq 0 true 0 1 2).
  apply (steps_step _ (Conf disk5 (Dev 1 [] (<[7 := []]> (<[6 := block3]> (fun _ => [])))) None [r])).
  2:{ apply s_intr; [discriminate|reflexivity]. }
  apply (steps_step _ (Conf disk4 (Dev 1 [0%nat] (fun _ => [])) None [r])).
  2:{ assert (Hc : completed 0 0 true (disk4, Dev 1 [0%nat] (fun _ => []))
        (disk5, Dev 1 [] (<[7 := []]> (<[6 := block3]> (fun _ => []))))).
      { exists 6, 0%nat, [], []. split; [done|]. split; reflexivity. }
      apply (s_complete _ _ _ _ _ _ 0); [right; by exists 0%nat, 0%nat, true|done]. }
  apply (steps_step _ (Conf disk4 (Dev 0 [] (fun _ => [])) None [r])).
  2:{ assert (Hf : fetched (disk4, Dev 0 [] (fun _ => [])) (disk4, Dev 1 [0%nat] (fun _ => []))) by (split; [discriminate|reflexivity]).
      apply s_fetch; [by left|done]. }
  apply (steps_step _ (Conf disk3 (Dev 0 [] (fun _ => [])) (Some r) [])); [|by apply s_publish].
  apply (steps_step _ (Conf disk1 (Dev 0 [] (fun _ => [])) None [])).
  2:{ apply (s_format _ disk2); [apply not_elem_of_nil|exact disk2_ok|apply rw_format_ok]. }
  apply (steps_step _ idle_conf); [apply steps_refl|]. apply s_edit. apply not_elem_of_nil.
Qed.

Lemma driver_safe_witness : exists d', rw_finish 0 (c_d written) = Ok tt d'.
Proof.
  destruct (@driver_safe virtio_device _ _ _ idle_fresh write_run) as (_ & _ & Hf & _).
  apply (Hf eq_refl (Rq 0 true 0 1 2)); [by left|discriminate].
Defined.

Lemma requests_linearize_witness :
  life 0 [EEdit 0 3 block3; ESubmit 0 true; EXfer 0 true] = Some (Moved true) /\
  dv_sectors (c_dev written) 6 = block3.
Proof.
  destruct (@requests_linearize virtio_device _ _ _ idle_fresh write_run) as (_ & _ & Hm).
  split; [|reflexivity]. apply (Hm (Rq 0 true 0 1 2)); [by left|discriminate].
Defined.

