(* ===== verification/User.v ===== *)
(** User processes: the system-call interface of user/user.h, the monad in
    which the user programs run, and the laws of reading and writing that
    their theorems use.

    A user program sees the kernel through [Unix], one operation per system
    call, on a world [W] that stands for everything outside the process.  The
    theorems about programs are proved for every world that satisfies the laws
    of [UnixOk]; [world] below is an instance, a set of finite files read in
    pieces of bounded size. *)

From Stdlib Require Import ZArith Lia List String Bool.
From stdpp Require Import base tactics numbers list functions.
From S2P Require Import Prelude.
From S2P Require Import Cstring.

(** * System calls *)

(** The fields of [struct stat] that programs look at. *)
Record ustat : Type := { st_ino : Z; st_type : Z; st_nlink : Z; st_size : Z }.

(** The calls that take nothing and return an int. *)
Inductive query : Type :=
| Getpid | Getppid | Uptime | Kbdint | Countsyscall | Rand | Shutdown.

(** [struct datetime] and [struct procinfo] of user/user.h. *)
Record udatetime : Type := {
  dt_year : Z; dt_month : Z; dt_day : Z; dt_hour : Z; dt_minute : Z; dt_second : Z; dt_weekday : Z
}.
Record uprocinfo : Type := { pi_pid : Z; pi_ppid : Z; pi_state : Z; pi_sz : Z; pi_name : list Z }.

(** Paths and argument strings are the bytes of C strings.  [os_read] gives
    the return value and the bytes that were stored in the buffer; [os_exec]
    returns only when it fails. *)
Class Unix (W : Type) := {
  os_fork : W -> Z * W;
  os_wait : W -> Z * W;
  os_pipe : W -> Z * (Z * Z) * W;
  os_write : Z -> list Z -> W -> Z * W;
  os_read : Z -> Z -> W -> Z * list Z * W;
  os_close : Z -> W -> Z * W;
  os_kill : Z -> W -> Z * W;
  os_exec : list Z -> list (list Z) -> W -> option W;
  os_open : list Z -> Z -> W -> Z * W;
  os_mknod : list Z -> Z -> Z -> W -> Z * W;
  os_unlink : list Z -> W -> Z * W;
  os_fstat : Z -> W -> Z * ustat * W;
  os_link : list Z -> list Z -> W -> Z * W;
  os_mkdir : list Z -> W -> Z * W;
  os_chdir : list Z -> W -> Z * W;
  os_dup : Z -> W -> Z * W;
  os_sleep : Z -> W -> Z * W;
  os_setpriority : Z -> Z -> W -> Z * W;
  os_setscheduler : Z -> W -> Z * W;
  os_getmetrics : W -> Z * (Z * Z * Z) * W;
  os_query : query -> W -> Z * W;
  os_datetime : W -> Z * udatetime * W;
  os_getptable : Z -> W -> Z * list uprocinfo * W
}.

(** * The monad of user programs

    A program returns, exits with a status, is replaced by [exec], faults (the
    kernel kills it, or C leaves its behaviour undefined), or is still in a
    loop when the bound on its rounds is reached. *)

Record ust (W : Type) : Type := UState { um : mem; uw : W }.
Arguments UState {W} um uw.
Arguments um {W} u.
Arguments uw {W} u.

Inductive ures (W A : Type) : Type :=
| URet (a : A) (u : ust W)
| UExit (status : Z) (u : ust W)
| UExec (path : list Z) (argv : list (list Z)) (u : ust W)
| UFault
| UHang.
Arguments URet {W A} a u.
Arguments UExit {W A} status u.
Arguments UExec {W A} path argv u.
Arguments UFault {W A}.
Arguments UHang {W A}.

Definition UM (W A : Type) : Type := ust W -> ures W A.

Definition uret {W A : Type} (a : A) : UM W A := fun u => URet a u.
Definition ubind {W A B : Type} (m : UM W A) (k : A -> UM W B) : UM W B :=
  fun u => match m u with
           | URet a u' => k a u'
           | UExit st u' => UExit st u'
           | UExec p av u' => UExec p av u'
           | UFault => UFault
           | UHang => UHang
           end.
Definition uexit {W A : Type} (status : Z) : UM W A := fun u => UExit status u.
Definition ufault {W A : Type} : UM W A := fun _ => UFault.
Definition uhang {W A : Type} : UM W A := fun _ => UHang.
Definition uwhen {W : Type} (b : bool) (m : UM W unit) : UM W unit :=
  if b then m else uret tt.
(** Read and write the memory of the process. *)
Definition upeek {W A : Type} (f : mem -> A) : UM W A := fun u => URet (f (um u)) u.
Definition upoke {W : Type} (f : mem -> mem) : UM W unit :=
  fun u => URet tt (UState (f (um u)) (uw u)).
(** A string function that runs until it finds a NUL; there is none: fault. *)
Definition uscan {W A : Type} (f : mem -> option A) : UM W A :=
  fun u => match f (um u) with Some a => URet a u | None => UFault end.
(** A system call. *)
Definition ucall {W A : Type} (f : W -> A * W) : UM W A :=
  fun u => let '(a, w) := f (uw u) in URet a (UState (um u) w).

Declare Scope user_scope.
Delimit Scope user_scope with U.
Notation "x <- m ;; k" := (ubind m (fun x => k))
  (at level 100, m at next level, right associativity) : user_scope.
Notation "m ;;; k" := (ubind m (fun _ => k))
  (at level 100, right associativity) : user_scope.

Fixpoint ufor_each {I W : Type} (l : list I) (body : I -> UM W unit) : UM W unit :=
  match l with
  | [] => uret tt
  | i :: l' => ubind (body i) (fun _ => ufor_each l' body)
  end.

Section calls.
Context {W : Type} `{Unix W}.
Local Open Scope user_scope.

(** [write(fd, p, n)] and [read(fd, p, n)] on the memory of the process.  A
    count that is negative as an int fails in the kernel without effect. *)
Definition uwrite (fd p n : Z) : UM W Z :=
  bs <- upeek (load_bytes (Z.to_nat n) p) ;; ucall (os_write fd bs).
Definition uread (fd p n : Z) : UM W Z :=
  rb <- ucall (os_read fd n) ;;
  upoke (store_bytes p rb.2) ;;;
  uret rb.1.
(** [write] of bytes that are not in the modelled memory: a string constant
    or a local variable. *)
Definition uput (fd : Z) (bs : list Z) : UM W Z := ucall (os_write fd bs).
(** [read(fd, &c, 1)] into a local [char]. *)
Definition ugetc (fd : Z) : UM W (Z * Z) :=
  rb <- ucall (os_read fd 1) ;; uret (rb.1, hd 0 rb.2).
Definition uexec (path : list Z) (argv : list (list Z)) : UM W Z :=
  fun u => match os_exec path argv (uw u) with
           | Some w => URet (-1) (UState (um u) w)
           | None => UExec path argv u
           end.
End calls.

(** * Laws of reading and writing

    [pending w fd] are the bytes that descriptor [fd] still has to deliver and
    [sent w fd] those written to it so far.  A read of [n > 0] bytes returns
    the next ones, at least one unless the end is reached and at most [n], and
    0 at the end; a read of no bytes returns 0.  A write to one of the
    descriptors [sink] accepts all its bytes.  Neither touches other
    descriptors, nor does closing one. *)

Class UnixOk (W : Type) `{Unix W} := {
  pending : W -> Z -> list Z;
  sent : W -> Z -> list Z;
  source : W -> Z -> Prop;
  sink : W -> Z -> Prop;
  read_law : forall fd n w, source w fd -> 0 < n ->
    exists bs w', os_read fd n w = (Z.of_nat (length bs), bs, w') /\
      Z.of_nat (length bs) <= n /\
      pending w fd = bs ++ pending w' fd /\
      (bs = [] -> pending w fd = []) /\
      (forall fd', source w' fd' <-> source w fd') /\
      (forall fd', sink w' fd' <-> sink w fd') /\
      (forall fd', fd' <> fd -> pending w' fd' = pending w fd') /\
      (forall fd', sent w' fd' = sent w fd');
  read_none : forall fd w, source w fd -> os_read fd 0 w = (0, [], w);
  write_law : forall fd bs w, sink w fd ->
    exists w', os_write fd bs w = (Z.of_nat (length bs), w') /\
      sent w' fd = sent w fd ++ bs /\
      (forall fd', source w' fd' <-> source w fd') /\
      (forall fd', sink w' fd' <-> sink w fd') /\
      (forall fd', fd' <> fd -> sent w' fd' = sent w fd') /\
      (forall fd', pending w' fd' = pending w fd');
  close_law : forall fd w fd', fd' <> fd ->
      let w' := (os_close fd w).2 in
      (source w' fd' <-> source w fd') /\ (sink w' fd' <-> sink w fd') /\
      pending w' fd' = pending w fd' /\ sent w' fd' = sent w fd'
}.

(** * Lemmas *)

Lemma ubind_URet {W A B} (m : UM W A) (k : A -> UM W B) u a u' :
  m u = URet a u' -> ubind m k u = k a u'.
Proof. unfold ubind. by intros ->. Qed.

Lemma ubind_assoc {W A B C} (m : UM W A) (f : A -> UM W B) (g : B -> UM W C) u :
  ubind (ubind m f) g u = ubind m (fun a => ubind (f a) g) u.
Proof. unfold ubind. by destruct (m u). Qed.

Ltac urun := unfold ubind, uret, upeek, upoke, uscan, ucall, uexit, uwhen, ufault in *; simpl.

(** What a program did to the world: [wrote fd bs] that it sent [bs] to [fd],
    [got fd bs] that it took [bs] from [fd], and nothing else. *)
Section effects.
Context {W : Type} `{UnixOk W}.
Implicit Types w : W.

Definition wrote (fd : Z) (bs : list Z) (w w' : W) : Prop :=
  sent w' fd = sent w fd ++ bs /\
  (forall fd', source w' fd' <-> source w fd') /\
  (forall fd', sink w' fd' <-> sink w fd') /\
  (forall fd', fd' <> fd -> sent w' fd' = sent w fd') /\
  (forall fd', pending w' fd' = pending w fd').

Definition got (fd : Z) (bs : list Z) (w w' : W) : Prop :=
  pending w fd = bs ++ pending w' fd /\
  (forall fd', source w' fd' <-> source w fd') /\
  (forall fd', sink w' fd' <-> sink w fd') /\
  (forall fd', fd' <> fd -> pending w' fd' = pending w fd') /\
  (forall fd', sent w' fd' = sent w fd').

Lemma wrote_refl fd w : wrote fd [] w w.
Proof. unfold wrote. by rewrite app_nil_r. Qed.

Lemma wrote_trans fd bs bs' w w' w'' :
  wrote fd bs w w' -> wrote fd bs' w' w'' -> wrote fd (bs ++ bs') w w''.
Proof.
  intros (H1 & H2 & H3 & H4 & H5) (J1 & J2 & J3 & J4 & J5).
  split_and!; [by rewrite J1, H1, app_assoc|..]; intros fd'.
  - by rewrite J2. - by rewrite J3. - intros ?. by rewrite J4, H4. - by rewrite J5.
Qed.

Lemma uput_spec fd bs (u : ust W) :
  sink (uw u) fd ->
  exists w', uput fd bs u = URet (Z.of_nat (length bs)) (UState (um u) w') /\ wrote fd bs (uw u) w'.
Proof.
  intros Hs. destruct (write_law fd bs (uw u) Hs) as (w' & Hw & Hr). exists w'.
  unfold uput, ucall. by rewrite Hw.
Qed.

Lemma uwrite_spec fd p n (u : ust W) :
  sink (uw u) fd -> 0 <= n ->
  exists w', uwrite fd p n u = URet n (UState (um u) w') /\
             wrote fd (load_bytes (Z.to_nat n) p (um u)) (uw u) w'.
Proof.
  intros Hs Hn. destruct (uput_spec fd (load_bytes (Z.to_nat n) p (um u)) u Hs) as (w' & Hw & Hr).
  exists w'. split; [|done]. unfold uwrite, ubind, upeek. unfold uput in Hw. rewrite Hw.
  assert (Hl : forall k a m, length (load_bytes k a m) = k).
  { intros k. induction k; intros; simpl; auto. }
  by rewrite Hl, Z2Nat.id.
Qed.

Lemma got_trans fd bs bs' w w' w'' :
  got fd bs w w' -> got fd bs' w' w'' -> got fd (bs ++ bs') w w''.
Proof.
  intros (H1 & H2 & H3 & H4 & H5) (J1 & J2 & J3 & J4 & J5).
  split_and!; [by rewrite H1, J1, app_assoc|..]; intros fd'.
  - by rewrite J2. - by rewrite J3. - intros ?. by rewrite J4, H4. - by rewrite J5.
Qed.

(** A read of [n > 0] bytes: some of the next bytes, none only at the end. *)
Lemma uread_spec fd p n (u : ust W) :
  source (uw u) fd -> 0 < n ->
  exists bs w', uread fd p n u = URet (Z.of_nat (length bs)) (UState (store_bytes p bs (um u)) w') /\
    Z.of_nat (length bs) <= n /\ got fd bs (uw u) w' /\ (bs = [] -> pending (uw u) fd = []).
Proof.
  intros Hs Hn. destruct (read_law fd n (uw u) Hs Hn) as (bs & w' & Hr & Hl & Hp & He & H1 & H2 & H3 & H4).
  exists bs, w'. unfold uread, ubind, ucall, upoke, uret. rewrite Hr. done.
Qed.

(** A read of one byte. *)
Lemma ugetc_spec fd (u : ust W) :
  source (uw u) fd ->
  exists r w', ugetc fd u = URet r (UState (um u) w') /\
    match pending (uw u) fd with
    | [] => r.1 = 0 /\ got fd [] (uw u) w'
    | c :: _ => r = (1, c) /\ got fd [c] (uw u) w'
    end.
Proof.
  intros Hs. destruct (read_law fd 1 (uw u) Hs ltac:(lia)) as (bs & w' & Hr & Hl & Hp & He & H1 & H2 & H3 & H4).
  exists (Z.of_nat (length bs), hd 0 bs), w'. unfold ugetc, ubind, ucall, uret. rewrite Hr.
  split; [done|]. destruct bs as [|c [|c' bs]]; simpl in Hl; [|clear He|lia].
  - rewrite He by done. split; [done|]. split_and!; try done.
  - rewrite Hp. simpl. split; [done|]. split_and!; done.
Qed.

Lemma wrote_sink fd bs w w' fd' : wrote fd bs w w' -> sink w fd' -> sink w' fd'.
Proof. intros (_ & _ & Hs & _). apply Hs. Qed.
Lemma wrote_source fd bs w w' fd' : wrote fd bs w w' -> source w fd' -> source w' fd'.
Proof. intros (_ & Hs & _). apply Hs. Qed.
Lemma got_sink fd bs w w' fd' : got fd bs w w' -> sink w fd' -> sink w' fd'.
Proof. intros (_ & _ & Hs & _). apply Hs. Qed.
Lemma got_source fd bs w w' fd' : got fd bs w w' -> source w fd' -> source w' fd'.
Proof. intros (_ & Hs & _). apply Hs. Qed.
End effects.

Create HintDb user.
#[export] Hint Resolve wrote_refl wrote_sink wrote_source got_sink got_source : user.

(** * A world of finite files

    Descriptor [fd] delivers the bytes [w_in w fd] in pieces of at most
    [w_piece w] and collects what is written in [w_out w fd].  [open] finds a
    file by name in [w_names]; the calls that no example uses fail. *)

Record world : Type := {
  w_in : Z -> list Z;
  w_out : Z -> list Z;
  w_piece : nat;
  w_names : list (list Z * Z)
}.

Fixpoint assoc {B : Type} (k : list Z) (l : list (list Z * B)) : option B :=
  match l with
  | [] => None
  | (k', b) :: l' => if decide (k = k') then Some b else assoc k l'
  end.

Definition world_read (fd n : Z) (w : world) : Z * list Z * world :=
  let bs := take (Nat.min (Z.to_nat n) (S (w_piece w))) (w_in w fd) in
  (Z.of_nat (length bs), bs,
   {| w_in := <[fd := drop (length bs) (w_in w fd)]> (w_in w); w_out := w_out w;
      w_piece := w_piece w; w_names := w_names w |}).

Definition world_write (fd : Z) (bs : list Z) (w : world) : Z * world :=
  (Z.of_nat (length bs),
   {| w_in := w_in w; w_out := <[fd := w_out w fd ++ bs]> (w_out w);
      w_piece := w_piece w; w_names := w_names w |}).

Definition fails {A : Type} (a : A) (w : world) : A * world := (a, w).

#[export] Instance world_unix : Unix world := {
  os_fork := fails (-1);
  os_wait := fails (-1);
  os_pipe := fails (-1, (0, 0));
  os_write := world_write;
  os_read := world_read;
  os_close _ := fails 0;
  os_kill _ := fails (-1);
  os_exec _ _ w := Some w;
  os_open path _ w := (match assoc path (w_names w) with Some fd => fd | None => -1 end, w);
  os_mknod _ _ _ := fails (-1);
  os_unlink _ := fails (-1);
  os_fstat _ := fails (-1, {| st_ino := 0; st_type := 0; st_nlink := 0; st_size := 0 |});
  os_link _ _ := fails (-1);
  os_mkdir _ := fails (-1);
  os_chdir _ := fails (-1);
  os_dup _ := fails (-1);
  os_sleep _ := fails 0;
  os_setpriority _ _ := fails (-1);
  os_setscheduler _ := fails (-1);
  os_getmetrics := fails (-1, (0, 0, 0));
  os_query _ := fails (-1);
  os_datetime := fails (-1, {| dt_year := 0; dt_month := 0; dt_day := 0; dt_hour := 0; dt_minute := 0; dt_second := 0; dt_weekday := 0 |});
  os_getptable _ := fails (-1, [])
}.

#[export] Instance world_ok : UnixOk world.
Proof.
  refine {| pending := w_in; sent := w_out; source _ _ := True; sink _ _ := True |}.
  - intros fd n w _ Hn. eexists _, _. split; [reflexivity|]. cbn [w_in w_out].
    rewrite fn_lookup_insert, length_take.
    set (k := Nat.min (Z.to_nat n) (S (w_piece w))). split; [lia|]. split_and!; try done.
    + rewrite <-(take_drop k (w_in w fd)) at 1. f_equal.
      destruct (decide (k <= length (w_in w fd))%nat); [by rewrite Nat.min_l by lia|].
      by rewrite !drop_ge by lia.
    + intros Ht. destruct (w_in w fd) as [|b l] eqn:E; [done|].
      subst k. replace (Z.to_nat n) with (S (Z.to_nat n - 1)) in Ht by lia. done.
    + intros fd' Hne. by rewrite fn_lookup_insert_ne.
  - intros fd [i o p n] _. unfold os_read; simpl. unfold world_read. simpl.
    by rewrite fn_insert_id by done.
  - intros fd bs w _. eexists. split; [reflexivity|]. cbn [w_in w_out].
    rewrite fn_lookup_insert. split_and!; try done.
    intros fd' Hne. by rewrite fn_lookup_insert_ne.
  - intros fd w fd' _. done.
Defined.
