(* ===== verification/Ulib.v ===== *)
(** The user library: user/ulib.c on the memory of a process, and the formatted
    output of user/printf.c.

    The string functions scan until they meet a NUL; [None] says that there is
    none in the first [fuel] bytes, or that the C is undefined.  Programs that
    only look at a string use the string itself, a list of non-zero bytes, and
    the functions on lists that this file proves equal to the C. *)

From Stdlib Require Import ZArith Lia List String Bool FunctionalExtensionality.
From stdpp Require Import base tactics numbers list functions.
From S2P Require Import Prelude.
From S2P Require Import Abi.
From S2P Require Import Cstring.
From S2P Require Import Printf.
From S2P Require Import User.

Definition INT_MAX : Z := 2 ^ 31 - 1.

(** * ulib.c: strings *)

(** [while(( *s++ = *t++) != 0);] *)
Fixpoint strcpy (fuel : nat) (s t : Z) (m : mem) : option mem :=
  match fuel with
  | O => None
  | S f =>
      let m' := store8 s (m t) m in
      if m' s =? 0 then Some m' else strcpy f (s + 1) (t + 1) m'
  end.

Fixpoint strcmp (fuel : nat) (p q : Z) (m : mem) : option Z :=
  match fuel with
  | O => None
  | S f => if negb (m p =? 0) && (m p =? m q)
           then strcmp f (p + 1) (q + 1) m
           else Some (u8 (m p) - u8 (m q))
  end.

Definition u_strlen (fuel : nat) (s : Z) (m : mem) : option Z := strlen_loop fuel s 0 m.

Definition u_memset (dst c n : Z) (m : mem) : mem :=
  memset_loop (Z.to_nat n) 0 dst c m.

(** The address of the first [c], or 0. *)
Fixpoint strchr (fuel : nat) (s c : Z) (m : mem) : option Z :=
  match fuel with
  | O => None
  | S f => if m s =? 0 then Some 0
           else if m s =? c then Some s
           else strchr f (s + 1) c m
  end.

(** [n = n*10 + *s++ - '0'] on ints: the sum [n*10 + *s] must not overflow. *)
Fixpoint atoi_loop (fuel : nat) (s n : Z) (m : mem) : option Z :=
  match fuel with
  | O => None
  | S f => if (48 <=? m s) && (m s <=? 57)
           then if INT_MAX <? n * 10 + m s then None
                else atoi_loop f (s + 1) (n * 10 + m s - 48) m
           else Some n
  end.
Definition atoi (fuel : nat) (s : Z) (m : mem) : option Z := atoi_loop fuel s 0 m.

Definition u_memmove (dst src n : Z) (m : mem) : mem :=
  if dst <? src
  then move_up (Z.to_nat n) dst src m
  else move_down (Z.to_nat n) (dst + n) (src + n) m.

Definition u_memcmp (s1 s2 n : Z) (m : mem) : Z := memcmp_loop (Z.to_nat n) s1 s2 m.

Definition u_memcpy (dst src n : Z) (m : mem) : mem := u_memmove dst src n m.

(** * ulib.c: system calls *)

Section ulib.
Context {W : Type} `{Unix W}.
Local Open Scope user_scope.

(** [start]: a program that returns from [main] exits with status 0. *)
Definition start (main : UM W unit) : UM W unit := main ;;; uexit 0.

(** The loop of [gets] with [k = max - 1 - i] bytes of the buffer left; it
    returns the final [i]. *)
Fixpoint gets_loop (k : nat) (buf i : Z) : UM W Z :=
  match k with
  | O => uret i
  | S k' =>
      cc <- ugetc 0 ;;
      if cc.1 <? 1 then uret i else
      upoke (store8 (buf + i) cc.2) ;;;
      if (u8 cc.2 =? 10) || (u8 cc.2 =? 13) then uret (i + 1)
      else gets_loop k' buf (i + 1)
  end.
Definition u_gets (buf max : Z) : UM W unit :=
  i <- gets_loop (Z.to_nat (max - 1)) buf 0 ;;
  upoke (store8 (buf + i) 0).

Definition u_stat (path : list Z) : UM W (Z * ustat) :=
  fd <- ucall (os_open path O_RDONLY) ;;
  if fd <? 0 then uret (-1, {| st_ino := 0; st_type := 0; st_nlink := 0; st_size := 0 |}) else
  r <- ucall (os_fstat fd) ;;
  ucall (os_close fd) ;;;
  uret r.

(** * printf.c *)

Definition putc (fd c : Z) : UM W unit := uput fd [c] ;;; uret tt.
End ulib.

Definition u_digits : list Z := str "0123456789ABCDEF".

(** [do { buf[i++] = digits[x % base]; } while((x /= base) != 0);] on a [uint] *)
Fixpoint u_digit_loop (fuel : nat) (x base : Z) : list Z :=
  match fuel with
  | O => []
  | S f => nth (Z.to_nat (x mod base)) u_digits 0 ::
           (if x / base =? 0 then [] else u_digit_loop f (x / base) base)
  end.

(** The bytes printed.  The parameter [xx] is an int, so 64-bit arguments are
    cut to 32 bits; the negation of the least int is undefined. *)
Definition u_printint (xx base : Z) (sgn : bool) : option (list Z) :=
  let neg := sgn && (xx <? 0) in
  if neg && (xx =? - 2 ^ 31) then None else
  let x := if neg then u32 (- xx) else u32 xx in
  let buf := u_digit_loop 32 x base ++ (if neg then [45] else []) in
  if (length buf <=? 16)%nat then Some (rev buf) else None.

Fixpoint u_printptr_loop (k : nat) (x : Z) : list Z :=
  match k with
  | O => []
  | S k' => nth (Z.to_nat (Z.shiftr x 60)) u_digits 0 :: u_printptr_loop k' (u64 (Z.shiftl x 4))
  end.
Definition u_printptr (x : Z) : list Z := str "0x" ++ u_printptr_loop 16 (u64 x).

(** One conversion of [vprintf], as [convert] is for the kernel: the bytes
    printed, the bytes of the format consumed after the percent sign and
    whether an argument was fetched. *)
Definition u_convert (c0 c1 c2 : Z) (a : arg) : option (list Z * nat * bool) :=
  let int_conv base sgn n :=
    match u_printint (va_int a) base sgn with Some bs => Some (bs, n, true) | None => None end in
  if c0 =? c_d then int_conv 10 true 1%nat
  else if (c0 =? c_l) && (c1 =? c_d) then int_conv 10 true 2%nat
  else if (c0 =? c_l) && (c1 =? c_l) && (c2 =? c_d) then int_conv 10 true 3%nat
  else if c0 =? c_u then int_conv 10 false 1%nat
  else if (c0 =? c_l) && (c1 =? c_u) then int_conv 10 false 2%nat
  else if (c0 =? c_l) && (c1 =? c_l) && (c2 =? c_u) then int_conv 10 false 3%nat
  else if c0 =? c_x then int_conv 16 false 1%nat
  else if (c0 =? c_l) && (c1 =? c_x) then int_conv 16 false 2%nat
  else if (c0 =? c_l) && (c1 =? c_l) && (c2 =? c_x) then int_conv 16 false 3%nat
  else if c0 =? c_p then Some (u_printptr (va_long a), 1%nat, true)
  else if c0 =? c_s then
    match a with ArgStr _ => Some (va_str a, 1%nat, true) | ArgInt _ => None end
  else if c0 =? c_pct then Some ([c_pct], 1%nat, false)
  else Some ([c_pct; c0], 1%nat, false).

(** The loop of [vprintf] over the rest of the format.  Fetching an argument
    that was not passed, or a number as a string, is undefined. *)
Fixpoint u_format (fuel : nat) (fmt : list Z) (args : list arg) : option (list Z) :=
  match fuel, fmt with
  | O, _ | _, [] => Some []
  | S f, c0 :: rest =>
      if negb (c0 =? c_pct) then
        match u_format f rest args with Some out => Some (c0 :: out) | None => None end
      else
        match rest with
        | [] => Some []
        | c :: _ =>
            match u_convert c (nth 1 rest 0) (nth 2 rest 0) (hd (ArgInt 0) args) with
            | None => None
            | Some (bs, n, used) =>
                if (used : bool) && (length args =? 0)%nat then None else
                match u_format f (drop n rest) (if used : bool then tl args else args) with
                | Some out => Some (bs ++ out)
                | None => None
                end
            end
        end
  end.

(** A string constant that ends in a newline. *)
Definition ln (s : string) : list Z := str s ++ [10].

Section uprintf.
Context {W : Type} `{Unix W}.

(** Every byte is a [write] of its own. *)
Definition vprintf (fd : Z) (fmt : list Z) (args : list arg) : UM W unit :=
  match u_format (length fmt) fmt args with
  | Some bs => ufor_each bs (putc fd)
  | None => ufault
  end.
Definition fprintf (fd : Z) (fmt : list Z) (args : list arg) : UM W unit :=
  vprintf fd fmt args.
Definition u_printf (fmt : list Z) (args : list arg) : UM W unit :=
  vprintf 1 fmt args.
End uprintf.

(** * Strings as lists *)

(** What [strcmp] and [atoi] compute on the strings themselves. *)
Fixpoint cmp_str (l1 l2 : list Z) : Z :=
  match l1, l2 with
  | [], [] => 0
  | [], c2 :: _ => - c2
  | c1 :: _, [] => c1
  | c1 :: l1', c2 :: l2' => if c1 =? c2 then cmp_str l1' l2' else c1 - c2
  end.

Definition is_digit (c : Z) : bool := (48 <=? c) && (c <=? 57).
Fixpoint leading (p : Z -> bool) (l : list Z) : list Z :=
  match l with
  | c :: l' => if p c then c :: leading p l' else []
  | [] => []
  end.
(** The decimal value of the leading digits, and what [atoi] makes of it. *)
Definition dec (l : list Z) : Z :=
  fold_left (fun n c => n * 10 + c - 48) (leading is_digit l) 0.
Definition atoi_str (l : list Z) : option Z :=
  if dec l + 48 <=? INT_MAX then Some (dec l) else None.

Definition str_byte (c : Z) : Prop := 0 < c < 2 ^ 8.

Lemma cstr_byte m s l : wf_mem m -> cstr m s l -> Forall str_byte l.
Proof.
  intros Hm. revert s. induction l as [|c l IH]; intros s; simpl; [constructor|].
  intros (<- & Hc & Hl). constructor; [|by eapply IH]. unfold str_byte. pose proof (Hm s). lia.
Qed.

Lemma strcmp_str fuel p q l1 l2 m :
  wf_mem m -> cstr m p l1 -> cstr m q l2 -> (length l1 < fuel)%nat ->
  strcmp fuel p q m = Some (cmp_str l1 l2).
Proof.
  intros Hm. revert p q l1 l2. induction fuel as [|f IH]; intros p q l1 l2 H1 H2 Hf; [lia|].
  simpl. rewrite !u8_small by apply Hm.
  destruct l1 as [|c1 l1], l2 as [|c2 l2]; simpl in H1, H2, Hf |- *.
  - by rewrite H1, H2.
  - destruct H2 as (-> & ? & _). rewrite H1. simpl. f_equal.
  - destruct H1 as (-> & ? & _). rewrite H2. destruct (Z.eqb_spec c1 0); [done|]. simpl. f_equal. lia.
  - destruct H1 as (-> & ? & H1), H2 as (-> & ? & H2). destruct (Z.eqb_spec c1 0); [done|]. simpl.
    destruct (Z.eqb_spec c1 c2); [|done]. apply IH; [done|done|lia].
Qed.

Lemma cmp_str_zero l1 l2 :
  Forall str_byte l1 -> Forall str_byte l2 -> cmp_str l1 l2 = 0 <-> l1 = l2.
Proof.
  unfold str_byte. revert l2. induction l1 as [|c1 l1 IH]; intros [|c2 l2] H1 H2; simpl.
  - done.
  - inversion H2; subst. split; [lia|done].
  - inversion H1; subst. split; [lia|done].
  - inversion H1; inversion H2; subst. destruct (Z.eqb_spec c1 c2) as [->|].
    + rewrite IH by done. split; congruence.
    + split; [lia|congruence].
Qed.

(** Where [strchr] finds a character that is not NUL: after the prefix
    without it. *)
Lemma strchr_found fuel s c l1 l2 m :
  cstr m s (l1 ++ c :: l2) -> c ∉ l1 -> (length l1 < fuel)%nat ->
  strchr fuel s c m = Some (s + Z.of_nat (length l1)).
Proof.
  revert s l1. induction fuel as [|f IH]; intros s l1 Hs Hc Hf; [lia|]. simpl.
  destruct l1 as [|b l1]; simpl in *.
  - destruct Hs as (-> & Hnz & _). destruct (Z.eqb_spec c 0); [done|]. rewrite Z.eqb_refl. f_equal. lia.
  - destruct Hs as (-> & Hnz & Hs). destruct (Z.eqb_spec b 0); [done|].
    apply not_elem_of_cons in Hc as [Hb Hc]. destruct (Z.eqb_spec b c); [congruence|].
    rewrite (IH _ l1) by (done || lia). f_equal. lia.
Qed.

Lemma strchr_none fuel s c l m :
  cstr m s l -> c ∉ l -> (length l < fuel)%nat -> strchr fuel s c m = Some 0.
Proof.
  revert s l. induction fuel as [|f IH]; intros s l Hs Hc Hf; [lia|]. simpl.
  destruct l as [|b l]; simpl in *.
  - by rewrite Hs.
  - destruct Hs as (-> & Hnz & Hs). destruct (Z.eqb_spec b 0); [done|].
    apply not_elem_of_cons in Hc as [Hb Hc]. destruct (Z.eqb_spec b c); [congruence|].
    apply (IH _ l); [done|done|lia].
Qed.

(** The value only grows while digits are read. *)
Lemma dec_fold_mono ds n :
  0 <= n -> Forall (fun c => is_digit c = true) ds ->
  n <= fold_left (fun n c => n * 10 + c - 48) ds n.
Proof.
  intros Hn Hd. revert n Hn. induction Hd as [|c ds Hc _ IH]; intros n Hn; simpl; [lia|].
  unfold is_digit in Hc. specialize (IH (n * 10 + c - 48)). lia.
Qed.

Lemma leading_all p l : Forall (fun c => p c = true) (leading p l).
Proof. induction l as [|c l IH]; simpl; [constructor|]. destruct (p c) eqn:E; by constructor. Qed.

Lemma atoi_loop_str fuel s n l m :
  cstr m s l -> (length l < fuel)%nat -> 0 <= n -> n + 48 <= INT_MAX ->
  atoi_loop fuel s n m =
  let v := fold_left (fun n c => n * 10 + c - 48) (leading is_digit l) n in
  if v + 48 <=? INT_MAX then Some v else None.
Proof.
  revert s n l. induction fuel as [|f IH]; intros s n l Hs Hf Hn Hm; [lia|]. simpl.
  destruct l as [|c l]; simpl in Hs |- *.
  - rewrite Hs. simpl. destruct (Z.leb_spec (n + 48) INT_MAX); [done|lia].
  - destruct Hs as (-> & _ & Hs). fold (is_digit c). destruct (is_digit c) eqn:Hc; simpl.
    + unfold is_digit in Hc.
      destruct (Z.ltb_spec INT_MAX (n * 10 + c)).
      * pose proof (dec_fold_mono (leading is_digit l) (n * 10 + c - 48) ltac:(lia) (leading_all _ _)).
        destruct (Z.leb_spec (fold_left (fun n c => n * 10 + c - 48) (leading is_digit l) (n * 10 + c - 48) + 48) INT_MAX);
          [lia|done].
      * simpl in Hf. apply IH; [done|lia|lia|lia].
    + destruct (Z.leb_spec (n + 48) INT_MAX); [done|lia].
Qed.

(** [atoi] is the value of the leading digits, as long as that stays 48 below
    the largest int. *)
Lemma atoi_is_str fuel s l m :
  cstr m s l -> (length l < fuel)%nat -> atoi fuel s m = atoi_str l.
Proof. intros Hs Hf. unfold atoi. by rewrite (atoi_loop_str _ _ _ l) by (done || unfold INT_MAX; lia). Qed.

(** The user and the kernel [memmove] choose the direction differently and do
    the same. *)
Lemma u_memmove_block_copy dst src n m a :
  0 <= n -> u_memmove dst src n m a = block_copy dst src n m a.
Proof.
  intros Hn. unfold u_memmove. destruct (Z.ltb_spec dst src).
  - rewrite move_up_spec by lia. by rewrite Z2Nat.id.
  - rewrite move_down_spec by lia. rewrite !Z2Nat.id by done. f_equal; lia.
Qed.

Lemma strcpy_copies fuel s t l m :
  wf_mem m -> cstr m t l -> (length l < fuel)%nat ->
  s + Z.of_nat (length l) < t \/ t + Z.of_nat (length l) < s ->
  exists m', strcpy fuel s t m = Some m' /\ wf_mem m' /\ cstr m' s l /\
    forall a, a < s \/ s + Z.of_nat (length l) < a -> m' a = m a.
Proof.
  revert s t l m. induction fuel as [|f IH]; intros s t l m Hm Ht Hf Hd; [lia|].
  cbn [strcpy]. rewrite store8_eq, u8_small by apply Hm. destruct l as [|c l]; simpl in Ht, Hd, Hf.
  - rewrite Ht. simpl. eexists. split; [done|]. split_and!.
    + by apply wf_store8.
    + simpl. by rewrite store8_eq.
    + intros a Ha. rewrite store8_ne; [done|]. simpl in Ha. lia.
  - destruct Ht as (Hc & Hnz & Ht). rewrite Hc. destruct (Z.eqb_spec c 0); [done|].
    destruct (IH (s + 1) (t + 1) l (store8 s c m)) as (m' & -> & Hw & Hl & Ho).
    + by apply wf_store8.
    + eapply cstr_ext; [|done]. intros x Hx. apply store8_ne. lia.
    + lia.
    + lia.
    + exists m'. split; [done|]. split_and!; [done| |].
      * simpl. rewrite Ho by lia. rewrite store8_eq, u8_small by (rewrite <-Hc; apply Hm). done.
      * intros a Ha. simpl in Ha. rewrite Ho by lia. apply store8_ne. lia.
Qed.

(** * Formatted output *)

Section uprintf_spec.
Context {W : Type} `{UnixOk W}.

(** [vprintf] sends what the format describes. *)
Lemma putc_each fd bs (u : ust W) :
  sink (uw u) fd ->
  exists w', ufor_each bs (putc fd) u = URet tt (UState (um u) w') /\ wrote fd bs (uw u) w'.
Proof.
  revert u. induction bs as [|b bs IH]; intros u Hs; simpl.
  - exists (uw u). destruct u. split; [done|]. apply wrote_refl.
  - destruct (uput_spec fd [b] u Hs) as (w1 & H1 & Hw1).
    assert (Hp : putc fd b u = URet tt (UState (um u) w1)).
    { unfold putc, ubind. by rewrite H1. }
    rewrite (ubind_URet _ _ _ _ _ Hp).
    destruct (IH (UState (um u) w1)) as (w2 & -> & Hw2); [simpl; eauto with user|].
    exists w2. split; [done|]. by apply (wrote_trans fd [b] bs (uw u) w1 w2).
Qed.

Lemma vprintf_sends fd fmt args bs (u : ust W) :
  sink (uw u) fd -> u_format (length fmt) fmt args = Some bs ->
  exists w', vprintf fd fmt args u = URet tt (UState (um u) w') /\ wrote fd bs (uw u) w'.
Proof. intros Hs Hf. unfold vprintf. rewrite Hf. by apply putc_each. Qed.
End uprintf_spec.

(** Below base 11 the digits of the user and of the kernel printf agree. *)
Lemma u_digit_loop_dec fuel x : u_digit_loop fuel x 10 = digit_loop fuel x 10.
Proof.
  revert x. induction fuel as [|f IH]; intros x; [done|]. cbn [u_digit_loop digit_loop].
  rewrite IH. f_equal. unfold digit. pose proof (Z.mod_pos_bound x 10).
  assert (Hc : In (x mod 10) (map Z.of_nat (seq 0 10))).
  { rewrite <-(Z2Nat.id (x mod 10)) by lia. apply in_map, in_seq. lia. }
  simpl in Hc. repeat destruct Hc as [<-|Hc]; done.
Qed.

Lemma digit_dec d : 0 <= d < 10 -> digit d = d + 48.
Proof.
  intros Hd. assert (Hc : In d (map Z.of_nat (seq 0 10))).
  { rewrite <-(Z2Nat.id d) by lia. apply in_map, in_seq. lia. }
  simpl in Hc. repeat destruct Hc as [<-|Hc]; done.
Qed.

Lemma digit_loop_dec fuel x : Forall (fun c => is_digit c = true) (digit_loop fuel x 10).
Proof.
  revert x. induction fuel as [|f IH]; intros x; cbn [digit_loop]; constructor.
  - pose proof (Z.mod_pos_bound x 10). rewrite digit_dec by lia. unfold is_digit. lia.
  - by destruct (x / 10 =? 0).
Qed.

Lemma leading_id p l : Forall (fun c => p c = true) l -> leading p l = l.
Proof. induction 1 as [|c l Hc _ IH]; simpl; [done|]. by rewrite Hc, IH. Qed.

Lemma dec_number l : Forall (fun c => is_digit c = true) l -> dec l = number 10 l.
Proof.
  intros Hl. unfold dec, number. rewrite leading_id by done. generalize 0.
  induction Hl as [|c l Hc _ IH]; intros n; simpl; [done|]. rewrite IH. f_equal.
  unfold is_digit in Hc. unfold undigit. destruct (Z.leb_spec c 57); lia.
Qed.

(** Non-negative ints in decimal. *)
Lemma u_printint_dec n :
  0 <= n <= INT_MAX -> exists out, u_printint n 10 true = Some out /\
    Forall (fun c => is_digit c = true) out /\ dec out = n /\ (length out <= 16)%nat.
Proof.
  unfold INT_MAX. intros Hn. unfold u_printint. cbv zeta. destruct (Z.ltb_spec n 0); [lia|]. cbn [andb].
  rewrite u32_small, app_nil_r, u_digit_loop_dec by lia.
  pose proof (digit_loop_length 32 n 10 15 ltac:(lia) ltac:(lia) ltac:(lia)) as [_ Hl].
  specialize (Hl ltac:(lia)). rewrite (proj2 (Nat.leb_le _ _)) by lia.
  eexists. split; [done|]. assert (Hd := Forall_rev (digit_loop_dec 32 n)).
  rewrite length_rev. split_and!; [done| |done]. rewrite dec_number by done. apply digit_loop_number; lia.
Qed.

(** Ordinary characters of a format are printed as they are, and %d as the
    digits of a non-negative int. *)
Lemma u_format_plain l n fmt args :
  forallb (fun c => negb (c =? c_pct)) l = true ->
  u_format (length l + n) (l ++ fmt) args = option_map (app l) (u_format n fmt args).
Proof.
  induction l as [|c l IH]; intros Hl; cbn [length Nat.add app]; [by destruct (u_format n fmt args)|].
  cbn [forallb] in Hl. apply andb_prop in Hl as [Hc Hl]. cbn [u_format]. rewrite Hc, (IH Hl).
  by destruct (u_format n fmt args).
Qed.

Lemma u_format_d n out f rest args :
  0 <= n <= INT_MAX -> u_printint n 10 true = Some out ->
  u_format (S f) (37 :: 100 :: rest) (ArgInt n :: args) = option_map (app out) (u_format f rest args).
Proof.
  intros Hn Hp. cbn -[u_convert]. unfold u_convert. cbv zeta.
  assert (Hi : va_int (ArgInt n) = n) by (apply s32_small; unfold INT_MAX in Hn; lia).
  rewrite Hi, Hp. simpl. rewrite drop_0. by destruct (u_format f rest args).
Qed.

(** Running out of the bound before the format ends only happens to formats
    longer than it. *)
Lemma u_format_nil f args : u_format f [] args = Some [].
Proof. by destruct f. Qed.

Lemma u_format_s s f rest args :
  u_format (S f) (37 :: 115 :: rest) (ArgStr (Some s) :: args) = option_map (app s) (u_format f rest args).
Proof. simpl. rewrite drop_0. by destruct (u_format f rest args). Qed.

(** * Properties *)

(** The user library's [memmove] and the kernel's agree on every range,
    overlapping or not, although they decide differently in which direction to
    copy: both copy the source as it was before the call. *)
Theorem memmove_user_kernel dst src n m :
  0 <= n -> u_memmove dst src n m = memmove dst src n m.
Proof.
  intros Hn. apply functional_extensionality. intros a.
  by rewrite u_memmove_block_copy, memmove_block_copy.
Qed.

Lemma memmove_user_kernel_witness : u_memmove 17 16 3 mem0 19 = 99.
Proof. rewrite (memmove_user_kernel 17 16 3 mem0) by lia. by vm_compute. Defined.

(** What [printf("%d")] prints for a non-negative int, [atoi] reads back,
    up to the last 48 ints below the maximum, on which its sum overflows and
    the C is undefined. *)
Theorem printf_atoi_round_trip n fuel s m out :
  0 <= n <= INT_MAX -> u_format 2 (str "%d") [ArgInt n] = Some out ->
  cstr m s out -> (16 < fuel)%nat ->
  atoi fuel s m = if n + 48 <=? INT_MAX then Some n else None.
Proof.
  intros Hn Hf Hs Hfu. destruct (u_printint_dec n Hn) as (ds & Hp & Hd & Hv & Hl).
  assert (Hi : va_int (ArgInt n) = n) by (apply s32_small; unfold INT_MAX in Hn; lia).
  assert (Hc : u_convert 100 0 0 (ArgInt n) = Some (ds, 1%nat, true)).
  { unfold u_convert. cbv zeta. by rewrite Hi, Hp. }
  change (str "%d") with [37; 100] in Hf. cbn -[u_convert] in Hf. rewrite Hc in Hf. cbn in Hf. rewrite app_nil_r in Hf. injection Hf as <-.
  rewrite (atoi_is_str _ _ ds) by (done || lia). unfold atoi_str. by rewrite Hv.
Qed.

Lemma printf_atoi_round_trip_witness :
  atoi 17 64 (store_bytes 64 [50; 48; 52; 56] (fun _ => 0)) = Some 2048.
Proof.
  apply (printf_atoi_round_trip 2048 17 64 _ [50; 48; 52; 56]); [unfold INT_MAX; lia|by vm_compute|by vm_compute|lia].
Defined.
