(* ===== verification/Lines.v ===== *)
(** The lines of a text, for the programs that work line by line. *)

From Stdlib Require Import ZArith Lia List Bool.
From stdpp Require Import base tactics numbers list.
From S2P Require Import Prelude.

(** The complete lines of a text, without their newlines, and the rest. *)
Fixpoint cut (l : list Z) : list (list Z) * list Z :=
  match l with
  | [] => ([], [])
  | c :: l' =>
      let '(ls, r) := cut l' in
      if c =? 10 then ([] :: ls, r)
      else match ls with
           | [] => ([], c :: r)
           | x :: ls' => ((c :: x) :: ls', r)
           end
  end.

Definition join (ls : list (list Z)) : list Z := concat (map (fun x => x ++ [10]) ls).

Lemma cut_join l : l = join (cut l).1 ++ (cut l).2.
Proof.
  induction l as [|c l IH]; [done|]. simpl. destruct (cut l) as [ls r]. simpl in IH. rewrite IH at 1.
  destruct (Z.eqb_spec c 10) as [->|]; [done|]. by destruct ls.
Qed.

Lemma cut_no_newline l : Forall (fun x => 10 ∉ x) (cut l).1 /\ 10 ∉ (cut l).2.
Proof.
  induction l as [|c l [IH1 IH2]]; simpl; [split; [constructor|apply not_elem_of_nil]|].
  destruct (cut l) as [ls r]. simpl in IH1, IH2. destruct (Z.eqb_spec c 10) as [->|Hc]; simpl.
  - split; [|done]. constructor; [apply not_elem_of_nil|done].
  - destruct ls as [|x ls]; simpl.
    + split; [constructor|]. apply not_elem_of_cons. done.
    + inversion IH1; subst. split; [|done]. constructor; [|done]. by apply not_elem_of_cons.
Qed.

(** Cutting what is left of a prefix and the rest of the text. *)
Lemma cut_app l1 l2 :
  cut (l1 ++ l2) = ((cut l1).1 ++ (cut ((cut l1).2 ++ l2)).1, (cut ((cut l1).2 ++ l2)).2).
Proof.
  induction l1 as [|c l1 IH]; simpl; [by destruct (cut l2)|]. rewrite IH.
  destruct (cut l1) as [ls r] eqn:E. simpl. destruct (Z.eqb_spec c 10) as [->|Hc]; [done|].
  destruct ls as [|x ls]; simpl; [|done]. destruct (cut (r ++ l2)) as [ls' r']. simpl.
  destruct (Z.eqb_spec c 10); [done|]. by destruct ls'.
Qed.

Lemma join_app ls ls' : join (ls ++ ls') = join ls ++ join ls'.
Proof. unfold join. by rewrite map_app, concat_app. Qed.

