(* ===== verification/Grep.v ===== *)
(** user/grep.c: the regular-expression matcher of Kernighan and Pike and the
    loop that cuts the input into lines.

    The C works on pointers into memory.  The specification is the language of
    the pattern ([lang], [matches]), and for the whole program the list of the
    complete lines of the input that match. *)

From Stdlib Require Import ZArith Lia List String Bool.
From stdpp Require Import base tactics numbers list functions.
From S2P Require Import Prelude.
From S2P Require Import Abi.
From S2P Require Import Cstring.
From S2P Require Import User.
From S2P Require Import Printf.
From S2P Require Import Ulib.
From S2P Require Import Lines.

(** The characters of patterns: '.', '*', '^' and '$'. *)
Definition c_dot : Z := 46.
Definition c_star : Z := 42.
Definition c_hat : Z := 94.
Definition c_end : Z := 36.

(** * The matcher *)

(** [None] is running out of [fuel]. *)
Fixpoint matchhere (fuel : nat) (re text : Z) (m : mem) : option bool :=
  match fuel with
  | O => None
  | S f =>
      if m re =? 0 then Some true
      else if m (re + 1) =? c_star then matchstar f (m re) (re + 2) text m
      else if (m re =? c_end) && (m (re + 1) =? 0) then Some (m text =? 0)
      else if negb (m text =? 0) && ((m re =? c_dot) || (m re =? m text))
           then matchhere f (re + 1) (text + 1) m
      else Some false
  end
with matchstar (fuel : nat) (c re text : Z) (m : mem) : option bool :=
  match fuel with
  | O => None
  | S f =>
      match matchhere f re text m with
      | None => None
      | Some true => Some true
      | Some false =>
          if negb (m text =? 0) && ((m text =? c) || (c =? c_dot))
          then matchstar f c re (text + 1) m
          else Some false
      end
  end.

(** The loop of [match]: [do if(matchhere(re, text)) return 1; while( *text++ != 0);] *)
Fixpoint match_loop (fuel : nat) (re text : Z) (m : mem) : option bool :=
  match fuel with
  | O => None
  | S f =>
      match matchhere f re text m with
      | None => None
      | Some true => Some true
      | Some false => if m text =? 0 then Some false else match_loop f re (text + 1) m
      end
  end.
Definition match_ (fuel : nat) (re text : Z) (m : mem) : option bool :=
  if m re =? c_hat then matchhere fuel (re + 1) text m
  else match_loop fuel re text m.

(** * The lines of the input *)

Section grep.
Context {W : Type} `{Unix W}.
Local Open Scope user_scope.

(** Address of [char buf[1024]], and a bound on the rounds of the string
    functions and of the matcher. *)
Variables (buf : Z) (bound : nat).
Definition GREP_BUF : Z := 1024.

(** [while((q = strchr(p, '\n')) != 0)]: print the matching lines from [p] on;
    returns the final [p]. *)
Fixpoint grep_lines (fuel : nat) (pattern p : Z) : UM W Z :=
  match fuel with
  | O => uhang
  | S f =>
      q <- uscan (strchr bound p 10) ;;
      if q =? 0 then uret p else
      upoke (store8 q 0) ;;;
      b <- uscan (match_ bound pattern p) ;;
      (if b : bool then
         upoke (store8 q 10) ;;;
         uwrite 1 p (q + 1 - p) ;;;
         uret tt
       else uret tt) ;;;
      grep_lines f pattern (q + 1)
  end.

(** The rounds of [grep], with [m] bytes of an incomplete line in the buffer. *)
Fixpoint grep_loop (fuel : nat) (pattern fd m : Z) : UM W unit :=
  match fuel with
  | O => uhang
  | S f =>
      n <- uread fd (buf + m) (GREP_BUF - m - 1) ;;
      if n <=? 0 then uret tt else
      let m := m + n in
      upoke (store8 (buf + m) 0) ;;;
      p <- grep_lines (S (Z.to_nat m)) pattern buf ;;
      if 0 <? m then
        let m := m - (p - buf) in
        upoke (u_memmove buf p m) ;;;
        grep_loop f pattern fd m
      else grep_loop f pattern fd m
  end.
Definition grep (fuel : nat) (pattern fd : Z) : UM W unit := grep_loop fuel pattern fd 0.

(** [main]: the pattern is [argv[1]], at address [pat]. *)
Fixpoint grep_files (fuel : nat) (pat : Z) (files : list (list Z)) : UM W unit :=
  match files with
  | [] => uexit 0
  | f :: files' =>
      fd <- ucall (os_open f O_RDONLY) ;;
      if fd <? 0 then
        u_printf (ln "grep: cannot open %s") [ArgStr (Some f)] ;;; uexit 1
      else
        grep fuel pat fd ;;;
        ucall (os_close fd) ;;;
        grep_files fuel pat files'
  end.
Definition grep_main (fuel : nat) (argv : list (list Z)) (pat : Z) : UM W unit :=
  if (length argv <=? 1)%nat then
    fprintf 2 (ln "usage: grep pattern [file ...]") [] ;;; uexit 1
  else if (length argv <=? 2)%nat then grep fuel pat 0 ;;; uexit 0
  else grep_files fuel pat (drop 2 argv).
End grep.

(** * Specification of the matcher *)

(** A pattern is a sequence of characters to be matched once or any number of
    times, where a dot stands for any character, possibly anchored at the end. *)
Inductive elem : Type :=
| Chr (c : Z)
| Rep (c : Z).

Definition fits (c b : Z) : bool := (c =? c_dot) || (b =? c).

Fixpoint elems (fuel : nat) (re : list Z) : list elem * bool :=
  match fuel, re with
  | O, _ | _, [] => ([], false)
  | S f, c :: re' =>
      match re' with
      | c' :: re'' =>
          if c' =? c_star then let '(es, e) := elems f re'' in (Rep c :: es, e)
          else let '(es, e) := elems f re' in (Chr c :: es, e)
      | [] => if c =? c_end then ([], true) else ([Chr c], false)
      end
  end.

(** The strings that a sequence of elements describes. *)
Inductive lang : list elem -> list Z -> Prop :=
| lang_nil : lang [] []
| lang_chr c b es w : fits c b = true -> lang es w -> lang (Chr c :: es) (b :: w)
| lang_rep c bs es w : Forall (fun b => fits c b = true) bs -> lang es w -> lang (Rep c :: es) (bs ++ w).

(** A match of [es] at the beginning of [t], up to its end if [e]. *)
Definition here (es : list elem) (e : bool) (t : list Z) : Prop :=
  exists w rest, t = w ++ rest /\ lang es w /\ (e = true -> rest = []).

(** What a pattern means: a leading '^' ties the match to the beginning of the
    text, otherwise it may start anywhere. *)
Definition matches (re t : list Z) : Prop :=
  match re with
  | c :: re' =>
      if c =? c_hat
      then let '(es, e) := elems (length re') re' in here es e t
      else let '(es, e) := elems (length re) re in exists pre suf, t = pre ++ suf /\ here es e suf
  | [] => True
  end.

(** A decision procedure by recursion on the elements. *)
Fixpoint hereb (es : list elem) (e : bool) (t : list Z) : bool :=
  match es with
  | [] => negb e || match t with [] => true | _ => false end
  | Chr c :: es' => match t with b :: t' => fits c b && hereb es' e t' | [] => false end
  | Rep c :: es' =>
      (fix star (t : list Z) : bool :=
         hereb es' e t || match t with b :: t' => fits c b && star t' | [] => false end) t
  end.
Fixpoint anywhere (es : list elem) (e : bool) (t : list Z) : bool :=
  hereb es e t || match t with _ :: t' => anywhere es e t' | [] => false end.
Definition matchesb (re t : list Z) : bool :=
  match re with
  | c :: re' =>
      if c =? c_hat
      then let '(es, e) := elems (length re') re' in hereb es e t
      else let '(es, e) := elems (length re) re in anywhere es e t
  | [] => true
  end.

(** * The matcher is right *)

Lemma hereb_rep c es e t :
  hereb (Rep c :: es) e t =
  hereb es e t || match t with b :: t' => fits c b && hereb (Rep c :: es) e t' | [] => false end.
Proof. by destruct t. Qed.

Lemma here_rep c es e t :
  here (Rep c :: es) e t <->
  here es e t \/ exists b t', t = b :: t' /\ fits c b = true /\ here (Rep c :: es) e t'.
Proof.
  unfold here. split.
  - intros (w & rest & -> & Hl & He). inversion Hl as [| |c' bs es' w' Hb Hw]; subst.
    destruct bs as [|b bs]; simpl.
    + left. by exists w', rest.
    + right. inversion Hb; subst. exists b, ((bs ++ w') ++ rest). split; [done|]. split; [done|].
      exists (bs ++ w'), rest. split_and!; [done| |done]. by constructor.
  - intros [(w & rest & -> & Hl & He)|(b & t' & -> & Hb & w & rest & -> & Hl & He)].
    + exists w, rest. split_and!; [done| |done]. by apply (lang_rep c [] es w).
    + inversion Hl as [| |c' bs es' w' Hbs Hw]; subst. exists (b :: bs ++ w'), rest.
      split_and!; [done| |done]. apply (lang_rep c (b :: bs) es w'); [by constructor|done].
Qed.

Lemma hereb_spec es e t : hereb es e t = true <-> here es e t.
Proof.
  revert t. induction es as [|[c|c] es IH]; intros t.
  - simpl. unfold here. split.
    + intros Hb. exists [], t. split_and!; [done|constructor|]. intros ->. simpl in Hb. by destruct t.
    + intros (w & rest & -> & Hl & He). inversion Hl; subst. simpl. destruct e; [|done].
      by rewrite He.
  - destruct t as [|b t]; simpl.
    + split; [done|]. intros (w & rest & Ht & Hl & _). inversion Hl; subst. done.
    + rewrite andb_true_iff, IH. unfold here. split.
      * intros [Hb (w & rest & -> & Hl & He)]. exists (b :: w), rest. split_and!; [done|by constructor|done].
      * intros (w & rest & Ht & Hl & He). inversion Hl; subst. simplify_eq/=. split; [done|]. eauto.
  - induction t as [|b t IHt]; rewrite hereb_rep, orb_true_iff, here_rep, IH.
    + split; [intros [?|?]; [by left|done]|]. intros [?|(b & t' & ? & _)]; [by left|done].
    + rewrite andb_true_iff, IHt. split.
      * intros [?|[? ?]]; [by left|right; eauto].
      * intros [?|(b' & t' & [= <- <-] & ? & ?)]; [by left|by right].
Qed.

Lemma anywhere_spec es e t :
  anywhere es e t = true <-> exists pre suf, t = pre ++ suf /\ here es e suf.
Proof.
  induction t as [|b t IH]; simpl; rewrite orb_true_iff, hereb_spec.
  - split; [intros [?|?]; [by exists [], []|done]|]. intros (pre & suf & E & Hh).
    symmetry in E. apply app_eq_nil in E as [-> ->]. by left.
  - rewrite IH. split.
    + intros [?|(pre & suf & -> & ?)]; [by exists [], (b :: t)|by exists (b :: pre), suf].
    + intros ([|b' pre] & suf & E & Hh); simplify_eq/=; [by left|right; eauto].
Qed.

Lemma matchesb_spec re t : matchesb re t = true <-> matches re t.
Proof.
  unfold matchesb, matches. destruct re as [|c re]; [done|]. case_match.
  - destruct (elems _ _). apply hereb_spec.
  - destruct (elems _ _). apply anywhere_spec.
Qed.

Lemma elems_fuel n re : (length re <= n)%nat -> elems n re = elems (length re) re.
Proof.
  revert re. induction n as [n IH] using lt_wf_ind. intros re Hn.
  destruct n as [|n], re as [|c re]; simpl in *; try done; [lia|].
  destruct re as [|c' re]; [done|]. simpl in Hn.
  destruct (c' =? c_star); [|rewrite (IH n) by (simpl; lia); done].
  rewrite (IH n), (IH (length (c' :: re))) by (simpl; lia). done.
Qed.

(** A pattern at the beginning of a text, and [c]* followed by a pattern. *)
Definition re_here (re t : list Z) : bool := let '(es, e) := elems (length re) re in hereb es e t.
Definition re_star (c : Z) (re t : list Z) : bool :=
  let '(es, e) := elems (length re) re in hereb (Rep c :: es) e t.

Lemma re_star_eq c re t :
  re_star c re t =
  re_here re t || match t with b :: t' => fits c b && re_star c re t' | [] => false end.
Proof.
  unfold re_star, re_here. destruct (elems (length re) re) as [es e]. by rewrite hereb_rep.
Qed.

Lemma re_here_star c re t : re_here (c :: c_star :: re) t = re_star c re t.
Proof.
  unfold re_here, re_star. cbn [length]. remember (S (length re)) as k. cbn [elems].
  rewrite Z.eqb_refl, (elems_fuel k) by lia. by destruct (elems _ re).
Qed.

Lemma re_here_chr c c' re t :
  c' <> c_star ->
  re_here (c :: c' :: re) t = match t with b :: t' => fits c b && re_here (c' :: re) t' | [] => false end.
Proof.
  intros Hc. unfold re_here. cbn [length]. remember (S (length re)) as k.
  cbn [elems]. destruct (Z.eqb_spec c' c_star); [done|]. by destruct (elems _ _).
Qed.

Lemma re_here_last c t :
  re_here [c] t = if c =? c_end then match t with [] => true | _ => false end
                  else match t with b :: _ => fits c b | [] => false end.
Proof.
  unfold re_here. simpl. destruct (c =? c_end); [done|]. simpl. destruct t; [done|]. by rewrite andb_true_r.
Qed.

Lemma matchhere_str fuel :
  (forall re text l t m, cstr m re l -> cstr m text t -> (length l + length t < fuel)%nat ->
     matchhere fuel re text m = Some (re_here l t)) /\
  (forall c re text l t m, cstr m re l -> cstr m text t -> (length l + length t + 1 < fuel)%nat ->
     matchstar fuel c re text m = Some (re_star c l t)).
Proof.
  induction fuel as [|f [IHh IHs]]; [split; intros; lia|]. split.
  - intros re text l t m Hl Ht Hf. cbn [matchhere].
    destruct l as [|c [|c' l]]; simpl in Hl, Hf.
    + by rewrite Hl.
    + destruct Hl as (-> & Hc & Hz). rewrite Hz. destruct (Z.eqb_spec c 0); [done|].
      change (0 =? c_star) with false. rewrite Z.eqb_refl, andb_true_r, re_here_last.
      destruct (Z.eqb_spec c c_end) as [->|].
      { destruct t as [|b t]; simpl in Ht; [by rewrite Ht|]. destruct Ht as (-> & Hb & _).
        by destruct (Z.eqb_spec b 0). }
      destruct t as [|b t]; simpl in Ht; [by rewrite Ht|]. destruct Ht as (-> & Hb & Ht).
      destruct (Z.eqb_spec b 0); [done|]. unfold fits. rewrite (Z.eqb_sym b c). cbn [negb andb].
      destruct ((c =? c_dot) || (c =? b)); [|done].
      rewrite (IHh _ _ [] t) by (done || simpl in *; lia). done.
    + destruct Hl as (-> & Hc & Hz & Hc' & Hl). rewrite Hz. destruct (Z.eqb_spec c 0); [done|].
      destruct (Z.eqb_spec c' c_star) as [->|Hs].
      { rewrite re_here_star. apply IHs; [|done|simpl in *; lia]. by replace (re + 2) with (re + 1 + 1) by lia. }
      destruct (Z.eqb_spec c' 0); [done|]. rewrite andb_false_r, re_here_chr by done.
      destruct t as [|b t]; simpl in Ht; [by rewrite Ht|]. destruct Ht as (-> & Hb & Ht).
      destruct (Z.eqb_spec b 0); [done|]. unfold fits. rewrite (Z.eqb_sym b c). cbn [negb andb].
      destruct ((c =? c_dot) || (c =? b)); [|done]. apply IHh; [by repeat split|done|simpl in *; lia].
  - intros c re text l t m Hl Ht Hf. cbn [matchstar]. rewrite (IHh _ _ l t) by (done || lia).
    rewrite re_star_eq. destruct (re_here l t); [done|]. cbn [orb].
    destruct t as [|b t]; simpl in Ht; [by rewrite Ht|]. destruct Ht as (-> & Hb & Ht).
    destruct (Z.eqb_spec b 0); [done|]. cbn [negb andb]. unfold fits. rewrite orb_comm.
    destruct ((c =? c_dot) || (b =? c)); [|done]. apply IHs; [done|done|simpl in *; lia].
Qed.

Lemma match_loop_str fuel re text l t m :
  cstr m re l -> cstr m text t -> (length l + length t + 1 < fuel)%nat ->
  match_loop fuel re text m = Some (let '(es, e) := elems (length l) l in anywhere es e t).
Proof.
  revert text t. induction fuel as [|f IH]; intros text t Hl Ht Hf; [lia|]. cbn [match_loop].
  rewrite (proj1 (matchhere_str f) re text l t) by (done || lia). unfold re_here in *.
  destruct (elems (length l) l) as [es e] eqn:Ee. destruct t as [|b t]; cbn [anywhere].
  - destruct (hereb es e []); [done|]. simpl in Ht. by rewrite Ht.
  - destruct (hereb es e (b :: t)); [done|]. simpl in Ht. destruct Ht as (-> & Hb & Ht).
    destruct (Z.eqb_spec b 0); [done|]. cbn [orb]. apply IH; [done|done|simpl in *; lia].
Qed.

(** [match] with enough fuel decides whether the text matches. *)
Lemma match_str fuel re text l t m :
  cstr m re l -> cstr m text t -> (length l + length t + 1 < fuel)%nat ->
  match_ fuel re text m = Some (matchesb l t).
Proof.
  intros Hl Ht Hf. unfold match_, matchesb. destruct l as [|c l].
  - simpl in Hl. rewrite Hl. change (0 =? c_hat) with false. cbn iota.
    rewrite (match_loop_str _ _ _ [] t) by (done || simpl; lia). simpl. by destruct t.
  - assert (Hc : m re = c) by apply Hl. rewrite Hc. destruct (Z.eqb_spec c c_hat) as [->|].
    + destruct Hl as (_ & _ & Hl). simpl in Hf. rewrite (proj1 (matchhere_str fuel) _ _ l t) by (done || lia).
      done.
    + by apply match_loop_str.
Qed.

(** C31: the matcher of grep is right: it terminates, and its answer is whether
    the text is in the language of the pattern, with '.', '*', a leading '^' and
    a final '$' as the comment at the top of the file says. *)
Theorem match_correct fuel re text l t m :
  cstr m re l -> cstr m text t -> (length l + length t + 1 < fuel)%nat ->
  exists b, match_ fuel re text m = Some b /\ (b = true <-> matches l t).
Proof.
  intros Hl Ht Hf. exists (matchesb l t). split; [by apply match_str|apply matchesb_spec].
Qed.

(** "^a.*c$" against "abbc". *)
Definition grep_mem : mem :=
  store_bytes 16 (str "^a.*c$") (store_bytes 64 (str "abbc") (fun _ => 0)).

Lemma match_correct_witness : matches (str "^a.*c$") (str "abbc").
Proof.
  destruct (match_correct 20 16 64 (str "^a.*c$") (str "abbc") grep_mem) as (b & Hb & [Hm _]).
  - by vm_compute.
  - by vm_compute.
  - simpl; lia.
  - apply Hm. assert (Hc : match_ 20 16 64 grep_mem = Some true) by by vm_compute. congruence.
Defined.

(** * Lines *)

(** What grep prints for the complete lines [ls]. *)
Definition selected (re : list Z) (ls : list (list Z)) : list Z := join (List.filter (matchesb re) ls).

Lemma selected_app re ls ls' : selected re (ls ++ ls') = selected re ls ++ selected re ls'.
Proof. unfold selected. by rewrite filter_app, join_app. Qed.

Lemma selected_cons re x ls :
  selected re (x :: ls) = (if matchesb re x then x ++ [10] else []) ++ selected re ls.
Proof. unfold selected. simpl. by destruct (matchesb re x). Qed.

Section grep_ok.
Context {W : Type} `{UnixOk W}.
Variables (bound : nat) (pat : Z) (pl : list Z).

(** The pattern lies outside the [n] bytes at [p]. *)
Definition apart (p n : Z) : Prop := pat + Z.of_nat (length pl) < p \/ p + n <= pat.

(** One line: find its end, test it, print it. *)
Lemma grep_line fuel x r p (u : ust W) :
  cstr (um u) p (x ++ 10 :: r) -> 10 ∉ x -> cstr (um u) pat pl ->
  apart p (Z.of_nat (length x) + 1) -> 0 < p -> sink (uw u) 1 ->
  (length pl + length x + 1 < bound)%nat ->
  exists m' w', grep_lines bound (S fuel) pat p u =
      grep_lines bound fuel pat (p + Z.of_nat (length x) + 1) (UState m' w') /\
    wrote 1 (if matchesb pl x then x ++ [10] else []) (uw u) w' /\
    (forall a, a < p \/ p + Z.of_nat (length x) < a -> m' a = um u a).
Proof.
  intros Hs Hx Hp Ha Hp0 Hk Hb. cbn [grep_lines]. set (q := p + Z.of_nat (length x)) in *.
  pose proof (proj1 (cstr_app _ _ _ _) Hs) as (Hl & Hnz & Hq & _).
  assert (Hf : uscan (strchr bound p 10) u = URet q u).
  { unfold uscan. by rewrite (strchr_found _ _ _ x r) by (done || lia). }
  rewrite (ubind_URet _ _ _ _ _ Hf). destruct (Z.eqb_spec q 0); [lia|].
  unfold ubind at 1, upoke at 1. set (m1 := store8 q 0 (um u)).
  assert (Hm : uscan (match_ bound pat p) (UState m1 (uw u)) = URet (matchesb pl x) (UState m1 (uw u))).
  { unfold uscan. cbn [um]. rewrite (match_str _ _ _ pl x); [done| | |lia].
    - eapply cstr_ext; [|done]. intros a Har. apply store8_ne. unfold apart in Ha. lia.
    - apply cstr_load. split_and!; [|apply store8_eq|done]. rewrite <-Hl at 2.
      apply load_bytes_ext. intros a Har. apply store8_ne. lia. }
  rewrite (ubind_URet _ _ _ _ _ Hm). destruct (matchesb pl x).
  - rewrite ubind_assoc. unfold ubind at 1, upoke at 1. cbn [um uw]. rewrite ubind_assoc.
    destruct (uwrite_spec 1 p (q + 1 - p) (UState (store8 q 10 m1) (uw u)) Hk ltac:(lia)) as (w' & Hw & Hr).
    rewrite (ubind_URet _ _ _ _ _ Hw). eexists _, w'. split; [done|]. split.
    + cbn [um uw] in Hr. replace (Z.to_nat (q + 1 - p)) with (length x + 1)%nat in Hr by lia.
      rewrite load_bytes_app in Hr. fold q in Hr. cbn [load_bytes] in Hr. rewrite store8_eq in Hr.
      rewrite (load_bytes_ext _ _ _ (um u)), Hl in Hr; [done|].
      intros a Har. unfold m1. rewrite !store8_ne by lia. done.
    + intros a Har. cbn [um]. unfold m1. rewrite !store8_ne by lia. done.
  - eexists m1, (uw u). split; [done|]. split; [apply wrote_refl|].
    intros a Har. apply store8_ne. lia.
Qed.

Lemma grep_lines_ok ls : forall r fuel p (u : ust W),
  cstr (um u) p (join ls ++ r) -> Forall (fun x => 10 ∉ x) ls -> 10 ∉ r ->
  cstr (um u) pat pl -> apart p (Z.of_nat (length (join ls))) -> 0 < p -> sink (uw u) 1 ->
  (length pl + length (join ls ++ r) + 1 < bound)%nat -> (length ls < fuel)%nat ->
  exists m' w', grep_lines bound fuel pat p u = URet (p + Z.of_nat (length (join ls))) (UState m' w') /\
    wrote 1 (selected pl ls) (uw u) w' /\
    (forall a, a < p \/ p + Z.of_nat (length (join ls)) <= a -> m' a = um u a).
Proof.
  induction ls as [|x ls IH]; intros r fuel p u Hs Hls Hr Hp Ha Hp0 Hk Hb Hf.
  - destruct fuel as [|f]; [simpl in Hf; lia|]. cbn [grep_lines].
    assert (Hn : uscan (strchr bound p 10) u = URet 0 u).
    { unfold uscan. rewrite (strchr_none _ _ _ r); [done|done|done|simpl in Hb; lia]. }
    rewrite (ubind_URet _ _ _ _ _ Hn). exists (um u), (uw u). destruct u. simpl. rewrite Z.add_0_r.
    split; [done|]. split; [apply wrote_refl|done].
  - change (join (x :: ls)) with ((x ++ [10]) ++ join ls) in *. rewrite !length_app in *. simpl in Hf.
    change (length [10]) with 1%nat in *.
    inversion Hls as [|? ? Hx Hls']; subst. destruct fuel as [|f]; [lia|].
    rewrite <-!app_assoc in Hs. cbn [app] in Hs.
    destruct (grep_line f x (join ls ++ r) p u Hs Hx Hp) as (m1 & w1 & -> & Hw & Hm); [unfold apart in *; lia|done|done|lia|].
    apply cstr_app in Hs as (_ & _ & Hs). destruct Hs as (_ & _ & Hs).
    destruct (IH r f (p + Z.of_nat (length x) + 1) (UState m1 w1)) as (m2 & w2 & -> & Hw2 & Hm2).
    + cbn [um]. eapply cstr_ext; [|exact Hs]. intros a Har. apply Hm. lia.
    + done.
    + done.
    + cbn [um]. eapply cstr_ext; [|exact Hp]. intros a Har. apply Hm. unfold apart in Ha. lia.
    + unfold apart in *. lia.
    + lia.
    + cbn [uw]. eauto with user.
    + rewrite length_app. lia.
    + lia.
    + exists m2, w2. split; [f_equal; lia|]. split; [rewrite selected_cons; by eapply wrote_trans|].
      intros a Har. rewrite Hm2 by lia. apply Hm. lia.
Qed.

Variables (buf fd : Z).

(** The state between two rounds: [r], the beginning of a line, is in the
    buffer. *)
Definition round (r : list Z) (u : ust W) : Prop :=
  load_bytes (length r) buf (um u) = r /\ Forall str_byte r /\ (10 ∉ r) /\
  cstr (um u) pat pl /\ apart buf GREP_BUF /\ 0 < buf /\
  source (uw u) fd /\ sink (uw u) 1 /\ Forall str_byte (pending (uw u) fd).

(** Lines that fit into the buffer with a newline and a NUL. *)
Definition short (l : list Z) : Prop :=
  Forall (fun x => (length x <= 1022)%nat) (cut l).1 /\ (length (cut l).2 <= 1022)%nat.

Lemma short_prefix r l : 10 ∉ r -> short (r ++ l) -> (length r <= 1022)%nat.
Proof.
  intros Hr [H1 H2]. assert (Hc : cut r = ([], r)).
  { clear -Hr. induction r as [|c r IH]; [done|]. apply not_elem_of_cons in Hr as [? Hr]. simpl.
    rewrite IH by done. by destruct (Z.eqb_spec c 10). }
  assert (Hp : forall l', (length r <= length (match cut (r ++ l') with ([], r') => r' | (x :: _, _) => x end))%nat).
  { clear -Hr. intros l'. induction r as [|c r IH]; simpl; [destruct (cut l') as [[]]; lia|].
    apply not_elem_of_cons in Hr as [? Hr]. specialize (IH Hr). destruct (cut (r ++ l')) as [[|x ls] r'];
      destruct (Z.eqb_spec c 10); simpl in *; try lia; done. }
  specialize (Hp l). destruct (cut (r ++ l)) as [[|x ls] r']; simpl in *; [lia|].
  inversion H1; subst. lia.
Qed.

Lemma length_join ls : (length ls <= length (join ls))%nat.
Proof. induction ls as [|x ls IH]; [done|]. change (join (x :: ls)) with ((x ++ [10]) ++ join ls).
  rewrite !length_app. simpl. lia. Qed.

(** What a read leaves in the buffer. *)
Lemma fill_buffer r bs m :
  load_bytes (length r) buf m = r -> Forall str_byte (r ++ bs) ->
  cstr (store8 (buf + Z.of_nat (length (r ++ bs))) 0 (store_bytes (buf + Z.of_nat (length r)) bs m)) buf (r ++ bs).
Proof.
  intros Hl Hb. rewrite length_app. apply cstr_load. rewrite length_app. split_and!.
  - rewrite load_bytes_app. f_equal.
    + etransitivity; [|exact Hl]. apply load_bytes_ext. intros x Hx. rewrite store8_ne by lia.
      apply store_bytes_outside. lia.
    + etransitivity; [|apply (load_store_bytes (buf + Z.of_nat (length r)) bs m)].
      * apply load_bytes_ext. intros x Hx. apply store8_ne. lia.
      * apply Forall_app in Hb as [_ Hb]. eapply Forall_impl; [|exact Hb]. unfold str_byte. lia.
  - apply store8_eq.
  - eapply Forall_impl; [|exact Hb]. unfold str_byte. lia.
Qed.

(** Moving a range of bytes with [memmove]. *)
Lemma move_back n p m m' :
  Forall str_byte (load_bytes n p m) ->
  (forall a, p <= a < p + Z.of_nat n -> m' a = m a) ->
  load_bytes n buf (u_memmove buf p (Z.of_nat n) m') = load_bytes n p m.
Proof.
  intros Hb Hm. rewrite !load_bytes_spec in *. apply map_ext_in. intros i Hi%in_seq.
  rewrite u_memmove_block_copy by lia. unfold block_copy. zb; try lia.
  replace (p + (buf + Z.of_nat i - buf)) with (p + Z.of_nat i) by lia.
  rewrite Hm by lia. apply u8_small. rewrite Forall_map, Forall_forall in Hb.
  unfold str_byte in Hb. specialize (Hb i ltac:(apply in_seq; lia)). lia.
Qed.

(** One round of the loop: [bs] is read, the complete lines of [r ++ bs] are
    done and what is left moves to the beginning of the buffer. *)
Lemma grep_round fuel r (u : ust W) :
  round r u -> short (r ++ pending (uw u) fd) -> pending (uw u) fd <> [] ->
  (length pl + 1025 < bound)%nat ->
  exists bs w1 m' w', bs <> [] /\ got fd bs (uw u) w1 /\
    wrote 1 (selected pl (cut (r ++ bs)).1) w1 w' /\ round (cut (r ++ bs)).2 (UState m' w') /\
    grep_loop buf bound (S fuel) pat fd (Z.of_nat (length r)) u =
    grep_loop buf bound fuel pat fd (Z.of_nat (length (cut (r ++ bs)).2)) (UState m' w').
Proof.
  intros (Hl & Hnz & Hr & Hp & Ha & Hb & Hso & Hsi & Hby) Hsh Hne Hbd.
  pose proof (short_prefix _ _ Hr Hsh) as Hlr. cbn [grep_loop]. unfold GREP_BUF in *.
  destruct (uread_spec fd (buf + Z.of_nat (length r)) (1024 - Z.of_nat (length r) - 1) u Hso ltac:(lia))
    as (bs & w1 & Hrd & Hbs & Hgot & He).
  assert (Hbne : bs <> []) by (intros ->; by apply Hne, He).
  assert (Hbb : Forall str_byte bs /\ Forall str_byte (pending w1 fd)).
  { destruct Hgot as [Hg _]. rewrite Hg in Hby. by apply Forall_app in Hby. }
  rewrite (ubind_URet _ _ _ _ _ Hrd). assert (0 < length bs)%nat by (destruct bs; [done|simpl; lia]).
  destruct (Z.leb_spec (Z.of_nat (length bs)) 0); [lia|]. unfold ubind at 1, upoke at 1. cbn [um uw].
  replace (Z.of_nat (length r) + Z.of_nat (length bs)) with (Z.of_nat (length (r ++ bs))) by (rewrite length_app; lia).
  set (m1 := store8 _ 0 _). pose proof (fill_buffer r bs (um u) Hl ltac:(apply Forall_app; by destruct Hbb)) as Hs. fold m1 in Hs.
  assert (Hp1 : cstr m1 pat pl).
  { eapply cstr_ext; [|exact Hp]. intros x Hx. unfold m1. unfold apart in Ha. rewrite length_app in *.
    rewrite store8_ne by lia. apply store_bytes_outside. lia. }
  pose proof (cut_no_newline (r ++ bs)) as [Hn1 Hn2]. pose proof (cut_join (r ++ bs)) as Hj.
  assert (Hlen : (0 < length (r ++ bs) <= 1023)%nat) by (rewrite length_app; lia).
  destruct (cut (r ++ bs)) as [ls r'] eqn:Ec. simpl in Hn1, Hn2, Hj |- *.
  assert (Hjl : length (r ++ bs) = (length (join ls) + length r')%nat) by (by rewrite Hj, length_app). pose proof (length_join ls).
  destruct (grep_lines_ok ls r' (S (Z.to_nat (Z.of_nat (length (r ++ bs))))) buf (UState m1 w1)) as (m2 & w2 & Hg & Hw & Hm2).
  { cbn [um]. by rewrite <-Hj. } { done. } { done. } { done. } { unfold apart in *. lia. } { done. }
  { cbn [uw]. eauto with user. } { rewrite <-Hj. lia. } { lia. }
  rewrite (ubind_URet _ _ _ _ _ Hg). destruct (Z.ltb_spec 0 (Z.of_nat (length (r ++ bs)))); [|lia].
  unfold ubind at 1, upoke at 1. cbn [um uw].
  replace (Z.of_nat (length (r ++ bs)) - (buf + Z.of_nat (length (join ls)) - buf)) with (Z.of_nat (length r')) by lia.
  exists bs, w1, (u_memmove buf (buf + Z.of_nat (length (join ls))) (Z.of_nat (length r')) m2), w2.
  rewrite Ec. cbn [fst snd]. split_and!; [done|done|done| |done].
  cbn [um] in Hm2. rewrite Hj in Hs. apply cstr_app in Hs as (_ & _ & Hs).
  apply cstr_load in Hs as (Hs & _ & _).
  assert (Hr' : Forall str_byte r').
  { assert (Hall : Forall str_byte (r ++ bs)) by (apply Forall_app; by destruct Hbb).
    rewrite Hj in Hall. by apply Forall_app in Hall as [_ ?]. }
  split_and!; cbn [um uw].
  - etransitivity; [|exact Hs]. apply move_back; [by rewrite Hs|]. intros a Har. apply Hm2. lia.
  - done. - done.
  - eapply cstr_ext; [|exact Hp1]. intros x Hx. rewrite u_memmove_block_copy by lia. unfold block_copy, apart in *.
    zb; try lia; apply Hm2; lia.
  - done. - done. - eauto with user. - eauto with user.
  - destruct Hw as (_ & _ & _ & _ & Hpe). rewrite Hpe. apply Hbb.
Qed.

Lemma grep_loop_ok fuel : forall r (u : ust W),
  round r u -> short (r ++ pending (uw u) fd) ->
  (length pl + 1025 < bound)%nat -> (length (pending (uw u) fd) < fuel)%nat ->
  exists u', grep_loop buf bound fuel pat fd (Z.of_nat (length r)) u = URet tt u' /\
    pending (uw u') fd = [] /\
    sent (uw u') 1 = sent (uw u) 1 ++ selected pl (cut (r ++ pending (uw u) fd)).1 /\
    (forall fd', fd' <> 1 -> sent (uw u') fd' = sent (uw u) fd').
Proof.
  induction fuel as [|f IH]; intros r u Hr Hsh Hb Hf; [lia|].
  destruct (decide (pending (uw u) fd = [])) as [Hp|Hp].
  - destruct Hr as (_ & _ & Hr & _ & _ & _ & Hso & _). rewrite Hp, app_nil_r in Hsh |- *.
    pose proof (short_prefix r [] Hr ltac:(by rewrite app_nil_r)).
    cbn [grep_loop]. unfold GREP_BUF.
    destruct (uread_spec fd (buf + Z.of_nat (length r)) (1024 - Z.of_nat (length r) - 1) u Hso ltac:(lia))
      as (bs & w1 & Hrd & Hbs & (Hg1 & _ & _ & Hg4 & Hg5) & _).
    rewrite Hp in Hg1. symmetry in Hg1. apply app_eq_nil in Hg1 as [-> Hg1].
    rewrite (ubind_URet _ _ _ _ _ Hrd). eexists. split; [done|]. cbn [uw].
    assert (Hc : (cut r).1 = []).
    { clear -Hr. induction r as [|c r IHr]; [done|]. apply not_elem_of_cons in Hr as [? Hr]. simpl.
      specialize (IHr Hr). destruct (cut r) as [ls r']. simpl in IHr. subst. by destruct (Z.eqb_spec c 10). }
    rewrite Hc, app_nil_r, Hg5. done.
  - destruct (grep_round f r u Hr Hsh Hp Hb) as (bs & w1 & m' & w' & Hbs & Hg & Hw & Hr' & ->).
    pose proof Hg as (Hg1 & _ & _ & _ & Hg5). pose proof Hw as (Hw1 & _ & _ & Hw4 & Hw5).
    unfold short in Hsh. rewrite Hg1, app_assoc, (cut_app (r ++ bs)) in Hsh |- *. rewrite Hg1 in Hf. cbn [fst snd] in *.
    destruct (IH (cut (r ++ bs)).2 (UState m' w') Hr') as (u' & -> & Hu1 & Hu2 & Hu3); cbn [uw] in *.
    + rewrite Hw5. destruct Hsh as [Hsh1 Hsh2]. apply Forall_app in Hsh1 as [_ ?]. done.
    + done.
    + rewrite Hw5. rewrite length_app in Hf. destruct bs; [done|]. simpl in Hf. lia.
    + exists u'. split; [done|]. split; [done|]. rewrite Hu2, Hw1, Hg5, Hw5, selected_app, app_assoc.
      split; [done|]. intros fd' ?. by rewrite Hu3, Hw4, Hg5.
Qed.
End grep_ok.

#[export] Instance matches_dec re t : Decision (matches re t).
Proof.
  refine (match matchesb re t as b return matchesb re t = b -> _ with
          | true => fun E => left (proj1 (matchesb_spec re t) E)
          | false => fun E => right _
          end eq_refl).
  intros Hm%matchesb_spec. congruence.
Defined.

Lemma selected_filter re ls : selected re ls = join (filter (matches re) ls).
Proof.
  induction ls as [|x ls IH]; [done|]. rewrite selected_cons, IH, filter_cons.
  pose proof (matchesb_spec re x) as Hm. destruct (matchesb re x).
  - by rewrite decide_True by by apply Hm.
  - by rewrite decide_False by (intros ?%Hm; done).
Qed.


(** "a.c" on a standard input of three lines read in pieces of three bytes. *)
Definition grep_input : list Z := ln "xabc" ++ ln "foo" ++ ln "adc" ++ str "abc".
Definition grep_world : ust world :=
  UState (store_bytes 16 (str "a.c") (fun _ => 0))
    {| w_in := <[0 := grep_input]> (fun _ => []); w_out := fun _ => []; w_piece := 2; w_names := [] |}.

