(* ===== verification/Umalloc.v ===== *)
(** The user heap: [malloc] and [free] of user/umalloc.c, Kernighan and
    Ritchie's first-fit allocator.

    A header is a record with its two fields; [hs] gives the header at each
    address, and pointers to headers are addresses that advance by 16 bytes, the
    size of a header.  What programs store in their blocks is not modelled: the
    theorems say that blocks do not overlap each other or the headers of free
    blocks.  The kernel's side of [sbrk] is the parameter [grant]: whether it
    extends a process that ends at a given address by a given number of bytes. *)

From Stdlib Require Import ZArith Lia List Bool Sorted Permutation.
From stdpp Require Import base tactics numbers list functions sets.
From S2P Require Import Prelude.

Record uheader : Type := Hdr { h_ptr : Z; h_size : Z }.
Record heap : Type := Heap { hs : Z -> uheader; freep : Z; brk : Z }.

(** sizeof(Header) *)
Definition HEADER : Z := 16.

Definition hptr (h : heap) (p : Z) : Z := h_ptr (hs h p).
Definition hsize (h : heap) (p : Z) : Z := h_size (hs h p).
Definition set_hdr (p ptr size : Z) (h : heap) : heap :=
  Heap (<[p := Hdr ptr size]> (hs h)) (freep h) (brk h).
Definition set_freep (p : Z) (h : heap) : heap := Heap (hs h) p (brk h).

Section umalloc.
(** Address of the static [base], and the kernel's answer to [sbrk]. *)
Variables (base : Z) (grant : Z -> Z -> bool).

Definition sbrk (n : Z) (h : heap) : Z * heap :=
  if grant (brk h) n then (brk h, Heap (hs h) (freep h) (brk h + n)) else (-1, h).

(** The loop of [free]: the free block after which [bp] belongs. *)
Fixpoint free_find (fuel : nat) (bp p : Z) (h : heap) : option Z :=
  match fuel with
  | O => None
  | S f =>
      if (p <? bp) && (bp <? hptr h p) then Some p
      else if (hptr h p <=? p) && ((p <? bp) || (bp <? hptr h p)) then Some p
      else free_find f bp (hptr h p) h
  end.

Definition free (fuel : nat) (ap : Z) (h : heap) : option heap :=
  let bp := ap - HEADER in
  if freep h =? 0 then None else
  match free_find fuel bp (freep h) h with
  | None => None
  | Some p =>
      let s := hptr h p in
      let h1 :=
        if bp + HEADER * hsize h bp =? s
        then set_hdr bp (hptr h s) (u32 (hsize h bp + hsize h s)) h
        else set_hdr bp s (hsize h bp) h in
      let h2 :=
        if p + HEADER * hsize h1 p =? bp
        then set_hdr p (hptr h1 bp) (u32 (hsize h1 p + hsize h1 bp)) h1
        else set_hdr p bp (hsize h1 p) h1 in
      Some (set_freep p h2)
  end.

(** The byte count passed to [sbrk] is an int. *)
Definition morecore (fuel : nat) (nu : Z) (h : heap) : option (Z * heap) :=
  let nu := if nu <? 4096 then 4096 else nu in
  let '(p, h) := sbrk (s32 (nu * HEADER)) h in
  if p =? -1 then Some (0, h) else
  match free fuel (p + HEADER) (set_hdr p (hptr h p) nu h) with
  | None => None
  | Some h => Some (freep h, h)
  end.

(** The loop of [malloc]; [ffuel] bounds the loop of [free]. *)
Fixpoint malloc_loop (fuel ffuel : nat) (nunits prevp p : Z) (h : heap) : option (Z * heap) :=
  match fuel with
  | O => None
  | S f =>
      if nunits <=? hsize h p then
        let '(p, h) :=
          if hsize h p =? nunits
          then (p, set_hdr prevp (hptr h p) (hsize h prevp) h)
          else
            let h := set_hdr p (hptr h p) (u32 (hsize h p - nunits)) h in
            let p := p + HEADER * hsize h p in
            (p, set_hdr p (hptr h p) nunits h) in
        Some (p + HEADER, set_freep prevp h)
      else if p =? freep h then
        match morecore ffuel nunits h with
        | None => None
        | Some (p, h) =>
            if p =? 0 then Some (0, h) else malloc_loop f ffuel nunits p (hptr h p) h
        end
      else malloc_loop f ffuel nunits p (hptr h p) h
  end.

Definition malloc (fuel : nat) (nbytes : Z) (h : heap) : option (Z * heap) :=
  let nunits := u32 ((nbytes + HEADER - 1) / HEADER + 1) in
  let h := if freep h =? 0 then set_hdr base base 0 (set_freep base h) else h in
  malloc_loop fuel fuel nunits (freep h) (hptr h (freep h)) h.
End umalloc.

(** * Blocks *)

(** The units of a list of blocks. *)
Definition units (h : heap) (bs : list Z) : Z := foldr (fun p n => hsize h p + n) 0 bs.

(** The blocks [bs] tile the heap from [lo] to [hi]: they are not empty, lie in
    it, do not overlap and together have its size. *)
Record blocks (lo hi : Z) (h : heap) (bs : list Z) : Prop := {
  bk_nodup : NoDup bs;
  bk_in : forall p, p ∈ bs -> lo <= p /\ 1 <= hsize h p /\ p + HEADER * hsize h p <= hi;
  bk_disj : forall p q, p ∈ bs -> q ∈ bs -> p < q -> p + HEADER * hsize h p <= q;
  bk_total : HEADER * units h bs = hi - lo
}.

Lemma units_perm h bs bs' : bs ≡ₚ bs' -> units h bs = units h bs'.
Proof. induction 1; simpl; lia. Qed.

Lemma units_ext h h' bs : (forall p, p ∈ bs -> hsize h' p = hsize h p) -> units h' bs = units h bs.
Proof.
  induction bs as [|p bs IH]; intros He; [done|]. simpl. rewrite He by by left.
  rewrite IH; [done|]. intros q ?. apply He. by right.
Qed.

Lemma blocks_perm lo hi h bs bs' : bs ≡ₚ bs' -> blocks lo hi h bs -> blocks lo hi h bs'.
Proof.
  intros Hp [H1 H2 H3 H4]. split.
  - by rewrite <-Hp.
  - intros p. rewrite <-Hp. apply H2.
  - intros p q. rewrite <-Hp. apply H3.
  - by rewrite <-(units_perm _ _ _ Hp).
Qed.

Lemma blocks_ext lo hi h h' bs :
  (forall p, p ∈ bs -> hsize h' p = hsize h p) -> blocks lo hi h bs -> blocks lo hi h' bs.
Proof.
  intros He [H1 H2 H3 H4]. split; [done|..].
  - intros p Hp. rewrite He by done. by apply H2.
  - intros p q Hp Hq. rewrite He by done. by apply H3.
  - by rewrite (units_ext h).
Qed.

Lemma units_nonneg lo hi h bs : blocks lo hi h bs -> forall bs', (forall p, p ∈ bs' -> p ∈ bs) -> 0 <= units h bs'.
Proof.
  intros Hb bs'. induction bs' as [|p bs' IH]; intros Hi; simpl; [lia|].
  destruct (bk_in _ _ _ _ Hb p) as (_ & ? & _); [apply Hi; by left|].
  assert (0 <= units h bs') by (apply IH; intros q ?; apply Hi; by right). lia.
Qed.

(** Two blocks with nothing between them become one. *)
Lemma blocks_merge lo hi h h' p s bs :
  blocks lo hi h (p :: s :: bs) -> p + HEADER * hsize h p = s ->
  hsize h' p = hsize h p + hsize h s -> (forall q, q ∈ bs -> hsize h' q = hsize h q) ->
  blocks lo hi h' (p :: bs).
Proof.
  intros [H1 H2 H3 H4] Hs Hp He. apply NoDup_cons in H1 as [H1a H1b]. apply NoDup_cons in H1b as [H1b H1c].
  destruct (H2 p) as (? & ? & ?); [by left|]. destruct (H2 s) as (? & ? & ?); [by right; left|].
  unfold HEADER in *. split; unfold HEADER.
  - apply NoDup_cons. split; [|done]. intros ?. apply H1a. by right.
  - intros q [->|Hq]%elem_of_cons; [rewrite Hp; lia|]. rewrite He by done. apply H2. by do 2 right.
  - intros a b [->|Ha]%elem_of_cons [->|Hb]%elem_of_cons Hlt.
    + lia.
    + rewrite Hp. pose proof (H3 p b ltac:(by left) ltac:(by do 2 right) Hlt).
      assert (s <> b) by (by intros ->).
      specialize (H3 s b ltac:(by right; left) ltac:(by do 2 right)). lia.
    + rewrite He by done. apply H3; [by do 2 right|by left|done].
    + rewrite He by done. apply H3; [by do 2 right|by do 2 right|done].
  - simpl in *. rewrite Hp, (units_ext h) by done. lia.
Qed.

(** A block gives up its last [n] units, which become a block of their own. *)
Lemma blocks_split lo hi h h' p n bs :
  blocks lo hi h (p :: bs) -> 1 <= n < hsize h p ->
  let b := p + HEADER * (hsize h p - n) in
  hsize h' p = hsize h p - n -> hsize h' b = n -> (forall q, q ∈ bs -> hsize h' q = hsize h q) ->
  blocks lo hi h' (b :: p :: bs).
Proof.
  intros [H1 H2 H3 H4] Hn b Hp Hb He. apply NoDup_cons in H1 as [H1a H1b].
  destruct (H2 p) as (? & ? & ?); [by left|]. unfold HEADER in *.
  assert (Hin : forall q, q ∈ bs -> q < p \/ p + 16 * hsize h p <= q).
  { intros q Hq. assert (q <> p) by (by intros ->). destruct (decide (q < p)); [by left|right].
    apply (H3 p q); [by left|by right|lia]. }
  assert (Hbb : b ∉ bs) by (intros Hbi; specialize (Hin b Hbi); lia). split; unfold HEADER.
  - apply NoDup_cons. split; [|by apply NoDup_cons]. intros [?|?]%elem_of_cons; [lia|done].
  - intros q [->|[->|Hq]%elem_of_cons]%elem_of_cons; [rewrite Hb; lia|rewrite Hp; lia|].
    rewrite He by done. apply H2. by right.
  - intros x y Hx Hy Hlt.
    assert (Hcase : forall z, z ∈ b :: p :: bs -> z = b /\ hsize h' z = n \/ z = p /\ hsize h' z = hsize h p - n \/
              z ∈ bs /\ hsize h' z = hsize h z /\ (z < p \/ p + 16 * hsize h p <= z)).
    { intros z [->|[->|Hz]%elem_of_cons]%elem_of_cons; [by left|by right; left|right; right]. split; auto. }
    destruct (Hcase x Hx) as [[-> ->]|[[-> ->]|(Hxi & -> & ?)]], (Hcase y Hy) as [[-> _]|[[-> _]|(Hyi & _ & ?)]]; try lia.
    + specialize (H3 x p ltac:(by right) ltac:(by left)). lia.
    + apply H3; [by right|by left|lia].
    + apply H3; [by right|by right|lia].
  - simpl in *. rewrite Hp, Hb, (units_ext h) by done. lia.
Qed.

(** * The ring of free blocks *)

(** Each header of [C] points to the next, the last one to [q]. *)
Fixpoint chain (h : heap) (C : list Z) (q : Z) : Prop :=
  match C with
  | [] => True
  | p :: C' => hptr h p = hd q C' /\ chain h C' q
  end.

Lemma walk_app h C1 C2 q : chain h (C1 ++ C2) q <-> chain h C1 (hd q C2) /\ chain h C2 q.
Proof.
  induction C1 as [|p C1 IH]; simpl; [by split; [|intros [_ ?]]|]. rewrite IH.
  destruct C1 as [|p' C1]; simpl; tauto.
Qed.

Lemma walk_ext h h' C q : (forall p, p ∈ C -> hptr h' p = hptr h p) -> chain h C q -> chain h' C q.
Proof.
  induction C as [|p C IH]; simpl; [done|]. intros He [Hp Hw].
  split; [by rewrite He by by left|]. apply IH; [|done]. intros x ?. apply He. by right.
Qed.

Lemma hd_cons_app (q p : Z) C1 C2 : hd q (C1 ++ p :: C2) = hd p C1.
Proof. by destruct C1. Qed.

Lemma sorted_app (R : Z -> Z -> Prop) C1 C2 :
  StronglySorted R (C1 ++ C2) <->
  StronglySorted R C1 /\ StronglySorted R C2 /\ (forall x y, x ∈ C1 -> y ∈ C2 -> R x y).
Proof.
  induction C1 as [|p C1 IH]; simpl.
  - split; [intros ?; split_and!; [constructor|done|]|tauto]. intros x y Hx. by apply elem_of_nil in Hx.
  - split.
    + intros Hs. inversion Hs as [|? ? Hs' Hf]; subst. apply IH in Hs' as (H1 & H2 & H3).
      rewrite Forall_app in Hf. destruct Hf as [Hf1 Hf2]. split_and!; [by constructor|done|].
      intros x y [->|Hx]%elem_of_cons Hy; [|by apply H3]. rewrite Forall_forall in Hf2. by apply Hf2.
    + intros (Hs & H2 & H3). inversion Hs as [|? ? Hs' Hf]; subst. constructor.
      * apply IH. split_and!; [done|done|]. intros x y ? ?. apply H3; [by right|done].
      * apply Forall_app. split; [done|]. apply Forall_forall. intros y Hy. apply H3; [by left|done].
Qed.

Lemma sorted_cons (R : Z -> Z -> Prop) p C :
  StronglySorted R (p :: C) <-> StronglySorted R C /\ (forall y, y ∈ C -> R p y).
Proof.
  split.
  - intros Hs. inversion Hs as [|? ? Hs' Hf]; subst. by rewrite Forall_forall in Hf.
  - intros [Hs Hf]. constructor; [done|]. by apply Forall_forall.
Qed.

Lemma sorted_impl (R R' : Z -> Z -> Prop) C :
  (forall x y, x ∈ C -> R x y -> R' x y) -> StronglySorted R C -> StronglySorted R' C.
Proof.
  induction C as [|p C IH]; intros Hi; [constructor|]. rewrite !sorted_cons. intros [Hs Hf]. split.
  - apply IH; [|done]. intros x y ?. apply Hi. by right.
  - intros y Hy. apply Hi; [by left|auto].
Qed.

(** Increasing addresses, and blocks in increasing order with a gap after each. *)
Definition increasing (C : list Z) : Prop := StronglySorted Z.lt C.
Definition spaced (h : heap) (C : list Z) : Prop :=
  StronglySorted (fun a b => a + HEADER * hsize h a < b) C.

(** An increasing list is divided by a number that is not in it. *)
Lemma increasing_divide C b :
  increasing C -> b ∉ C -> exists C1 C2, C = C1 ++ C2 /\ (forall x, x ∈ C1 -> x < b) /\ (forall x, x ∈ C2 -> b < x).
Proof.
  unfold increasing. induction C as [|p C IH]; intros Hs Hb.
  - exists [], []. split; [done|]. split; intros x Hx; by apply elem_of_nil in Hx.
  - inversion Hs as [|? ? Hs' Hf]; subst. apply not_elem_of_cons in Hb as [Hp Hb].
    destruct (decide (p < b)).
    + destruct (IH Hs' Hb) as (C1 & C2 & -> & H1 & H2). exists (p :: C1), C2. split_and!; [done| |done].
      intros x [->|?]%elem_of_cons; auto.
    + exists [], (p :: C). split; [done|]. split; [intros x Hx; by apply elem_of_nil in Hx|].
      intros x [->|Hx]%elem_of_cons; [lia|]. rewrite Forall_forall in Hf. specialize (Hf x Hx). lia.
Qed.

Section umalloc_ok.
Variables (base lo : Z).

(** The invariant of the allocator, with the free blocks [L] in the order of
    their addresses and the allocated blocks [A]: [base] and the free blocks
    form a ring that [freep] points into; free and allocated blocks tile the
    memory obtained from the kernel; no two free blocks are adjacent. *)
Record hinv (h : heap) (L A : list Z) : Prop := {
  hi_base : 0 < base /\ base + HEADER <= lo /\ hsize h base = 0;
  hi_ring : chain h (base :: L) base;
  hi_spaced : spaced h (base :: L);
  hi_freep : freep h ∈ base :: L;
  hi_blocks : blocks lo (brk h) h (L ++ A);
  hi_limit : brk h <= 2 ^ 36
}.

Lemma hinv_size h L A p : hinv h L A -> p ∈ base :: L -> 0 <= hsize h p.
Proof.
  intros Hi [->|Hp]%elem_of_cons; [pose proof (hi_base _ _ _ Hi); lia|].
  destruct (bk_in _ _ _ _ (hi_blocks _ _ _ Hi) p) as (_ & ? & _); [apply elem_of_app; by left|lia].
Qed.

Lemma hinv_freep h L A : hinv h L A -> freep h <> 0.
Proof.
  intros Hi. pose proof (hi_base _ _ _ Hi). pose proof (hi_freep _ _ _ Hi) as [->|Hin]%elem_of_cons; [lia|].
  destruct (bk_in _ _ _ _ (hi_blocks _ _ _ Hi) (freep h)) as [? _]; [set_solver|]. unfold HEADER in *. lia.
Qed.

Lemma hinv_increasing h L A : hinv h L A -> increasing (base :: L).
Proof.
  intros Hi. eapply sorted_impl; [|apply (hi_spaced _ _ _ Hi)]. intros x y Hx. cbv beta.
  pose proof (hinv_size _ _ _ x Hi Hx). unfold HEADER. lia.
Qed.

(** A stretch of the ring at which [free] does not stop. *)
Lemma free_find_walk h C q bp f :
  chain h C q ->
  (forall p, p ∈ C -> hptr h p <= p \/ p < bp < hptr h p -> ~ (p < bp) /\ ~ (bp < hptr h p)) ->
  free_find (length C + f) bp (hd q C) h = free_find f bp q h.
Proof.
  induction C as [|p C IH]; [done|]. intros [Hp Hw] Hs. cbn [length Nat.add free_find hd].
  specialize (Hs p ltac:(by left)) as Hsp.
  rewrite (proj2 (andb_false_iff _ _)), (proj2 (andb_false_iff ((hptr h p <=? p)) _)).
  - rewrite Hp. apply IH; [done|]. intros x ?. apply Hs. by right.
  - destruct (Z.leb_spec (hptr h p) p); [|by left]. right. apply orb_false_iff. rewrite !Z.ltb_ge. lia.
  - rewrite !Z.ltb_ge. lia.
Qed.

Lemma walk_next h C1 p C2 q : chain h (C1 ++ p :: C2) q -> hptr h p = hd q C2.
Proof. intros [_ [Hp _]]%walk_app. done. Qed.

Lemma below_next h X pk bp p :
  chain h X pk -> increasing (X ++ [pk]) -> pk < bp -> p ∈ X -> p < hptr h p < bp.
Proof.
  intros Hw Hi Hpk (X1 & X2 & ->)%list_elem_of_split. rewrite (walk_next _ _ _ _ _ Hw).
  rewrite <-app_assoc in Hi. apply sorted_app in Hi as (_ & Hi & _). simpl in Hi.
  inversion Hi as [|? ? Hi2 Hf]; subst. rewrite Forall_forall in Hf.
  destruct X2 as [|x X2]; simpl in *; [specialize (Hf pk ltac:(set_solver)); lia|].
  inversion Hi2 as [|? ? _ Hf2]; subst. rewrite Forall_forall in Hf2.
  specialize (Hf x ltac:(set_solver)). specialize (Hf2 pk ltac:(set_solver)). lia.
Qed.

Lemma above_next h L2 p : chain h L2 base -> increasing L2 -> p ∈ L2 -> p < hptr h p \/ hptr h p = base.
Proof.
  intros Hw Hi (X1 & X2 & ->)%list_elem_of_split. rewrite (walk_next _ _ _ _ _ Hw).
  apply sorted_app in Hi as (_ & Hi & _). inversion Hi as [|? ? _ Hf]; subst. rewrite Forall_forall in Hf.
  destruct X2 as [|x X2]; simpl; [by right|left]. apply Hf. by left.
Qed.

Lemma free_find_below h X pk bp f x :
  chain h X pk -> increasing (X ++ [pk]) -> pk < bp ->
  (forall f, free_find (S f) bp pk h = Some pk) -> x ∈ X ++ [pk] -> (length X < f)%nat ->
  free_find f bp x h = Some pk.
Proof.
  intros Hw Hi Hpk Hstop [Hx| ->%list_elem_of_singleton]%elem_of_app Hf;
    [|destruct f; [lia|by rewrite Hstop]].
  apply list_elem_of_split in Hx as (X1 & X2 & ->). rewrite length_app in Hf.
  apply walk_app in Hw as [_ Hw]. rewrite <-app_assoc in Hi. apply sorted_app in Hi as (_ & Hi & _).
  replace f with (length (x :: X2) + S (f - length (x :: X2) - 1))%nat by lia.
  rewrite <-(Hstop (f - length (x :: X2) - 1)%nat). apply (free_find_walk h (x :: X2) pk); [done|].
  intros p Hp. pose proof (below_next h (x :: X2) pk bp p Hw Hi Hpk Hp). lia.
Qed.

(** [free] finds the last free block below [bp]. *)
Lemma free_find_spec h L A bp fuel :
  hinv h L A -> bp ∈ A -> (length L + 1 < fuel)%nat ->
  exists X pk L2, base :: L = X ++ pk :: L2 /\ (forall x, x ∈ X ++ [pk] -> x < bp) /\
    (forall x, x ∈ L2 -> bp < x) /\ free_find fuel bp (freep h) h = Some pk.
Proof.
  intros Hi Hbp Hf. pose proof (hinv_increasing _ _ _ Hi) as Hinc. pose proof (hi_blocks _ _ _ Hi) as Hb.
  assert (Hbase : base < bp).
  { destruct (bk_in _ _ _ _ Hb bp) as [? _]; [apply elem_of_app; by right|].
    pose proof (hi_base _ _ _ Hi). unfold HEADER in *. lia. }
  assert (HbL : bp ∉ L).
  { intros HbL. pose proof (bk_nodup _ _ _ _ Hb) as Hn. apply NoDup_app in Hn as (_ & Hn & _). by apply (Hn bp). }
  destruct (increasing_divide L bp (proj1 (proj1 (sorted_cons _ _ _) Hinc)) HbL) as (L1 & L2 & -> & HL1 & HL2).
  assert (HX : exists X pk, base :: L1 = X ++ [pk]).
  { destruct (exists_last (l := base :: L1) ltac:(done)) as (X & pk & ->). eauto. }
  destruct HX as (X & pk & HX). pose proof (hi_ring _ _ _ Hi) as Hw. pose proof (hi_freep _ _ _ Hi) as Hfp.
  assert (HC : base :: L1 ++ L2 = X ++ pk :: L2).
  { change (base :: L1 ++ L2) with ((base :: L1) ++ L2). by rewrite HX, <-app_assoc. }
  exists X, pk, L2. split; [done|]. split.
  { rewrite <-HX. intros x [->|?]%elem_of_cons; [done|by apply HL1]. } split; [done|].
  assert (Hlen : length X = length L1).
  { apply (f_equal length) in HX. rewrite length_app in HX. simpl in HX. lia. }
  assert (HhX : hd pk X = base) by (destruct X; simpl in *; congruence).
  assert (Hpk : pk < bp). { assert (pk ∈ base :: L1) as [->|?]%elem_of_cons by (rewrite HX; set_solver); auto. }
  rewrite HC in Hw, Hfp, Hinc. apply walk_app in Hw as [HwX [Hpp HwL]]. cbn [hd] in HwX.
  apply sorted_app in Hinc as (HiX & HiL & HXL).
  assert (HiX' : increasing (X ++ [pk])).
  { apply sorted_app. split_and!; [done|constructor; constructor|].
    intros x y ? ->%list_elem_of_singleton. apply HXL; [done|by left]. }
  assert (Hstop : forall f, free_find (S f) bp pk h = Some pk).
  { intros f. cbn [free_find]. rewrite Hpp. destruct L2 as [|b L2]; simpl.
    - assert (base <= pk).
      { destruct X as [|x X]; simpl in HhX; subst; [lia|]. inversion HiX' as [|? ? _ Hall]; subst.
        rewrite Forall_forall in Hall. specialize (Hall pk ltac:(set_solver)). lia. }
      rewrite (proj2 (andb_true_iff (base <=? pk) _)); [by case_match|]. split; [lia|]. apply orb_true_iff. left. lia.
    - rewrite (proj2 (andb_true_iff (pk <? bp) _)); [done|]. specialize (HL2 b ltac:(by left)). lia. }
  change (X ++ pk :: L2) with (X ++ [pk] ++ L2) in Hfp. rewrite app_assoc in Hfp.
  apply elem_of_app in Hfp as [Hfp|(Y & Z & HY)%list_elem_of_split].
  - apply (free_find_below h X pk bp fuel); try done. rewrite length_app in Hf. lia.
  - subst L2. apply walk_app in HwL as [_ HwL]. inversion HiL as [|? ? HiL' _]; subst.
    apply sorted_app in HiL' as (_ & HiL' & _). rewrite !length_app in Hf. simpl in Hf.
    replace fuel with (length (freep h :: Z) + (fuel - length (freep h :: Z)))%nat by (simpl; lia).
    etransitivity; [apply (free_find_walk h (freep h :: Z) base); [done|]|].
    + intros p Hp. pose proof (above_next h _ p HwL HiL' Hp). specialize (HL2 p ltac:(apply elem_of_app; by right)). lia.
    + apply (free_find_below h X pk bp); try done; [|simpl; lia].
      rewrite <-HX. by left.
Qed.

Lemma hsize_set p a n h x : hsize (set_hdr p a n h) x = if decide (p = x) then n else hsize h x.
Proof. unfold hsize, set_hdr, insert, fn_insert. simpl. by destruct (decide (p = x)). Qed.
Lemma hptr_set p a n h x : hptr (set_hdr p a n h) x = if decide (p = x) then a else hptr h x.
Proof. unfold hptr, set_hdr, insert, fn_insert. simpl. by destruct (decide (p = x)). Qed.

(** The first half of [free]: [bp] absorbs the free block that follows it, if
    there is no gap. *)
Definition join_upper (bp s : Z) (h : heap) : heap :=
  if bp + HEADER * hsize h bp =? s
  then set_hdr bp (hptr h s) (u32 (hsize h bp + hsize h s)) h
  else set_hdr bp s (hsize h bp) h.

(** The second half: the free block [p] below absorbs [bp], or points to it. *)
Definition join_lower (p bp : Z) (h : heap) : heap :=
  if p + HEADER * hsize h p =? bp
  then set_hdr p (hptr h bp) (u32 (hsize h p + hsize h bp)) h
  else set_hdr p bp (hsize h p) h.

Lemma join_upper_ok h L A A' X pk L2 bp :
  hinv h L A -> A ≡ₚ bp :: A' -> base :: L = X ++ pk :: L2 ->
  (forall x, x ∈ X ++ [pk] -> x < bp) -> (forall x, x ∈ L2 -> bp < x) ->
  exists n L2', join_upper bp (hptr h pk) h = set_hdr bp (hd base L2') n h /\ hsize h bp <= n /\
    blocks lo (brk h) (set_hdr bp (hd base L2') n h) (bp :: tl (X ++ [pk]) ++ L2' ++ A') /\
    chain h L2' base /\ (length L2' <= length L2)%nat /\ spaced h (X ++ pk :: L2') /\
    (forall y, y ∈ L2' -> bp + HEADER * n < y).
Proof.
  intros Hi HA HC Hlo Hhi. pose proof (hi_ring _ _ _ Hi) as Hw. rewrite HC in Hw.
  apply walk_app in Hw as [_ [Hpk Hw]]. rewrite Hpk. pose proof (hi_spaced _ _ _ Hi) as Hsp. rewrite HC in Hsp.
  assert (HL : L = tl (X ++ [pk]) ++ L2).
  { destruct X as [|x X]; simpl in *; [congruence|]. injection HC as _ ->. by rewrite <-app_assoc. }
  pose proof (hi_blocks _ _ _ Hi) as Hb. set (L1 := tl (X ++ [pk])) in *.
  assert (HP : L ++ A ≡ₚ bp :: L1 ++ L2 ++ A').
  { rewrite HL, HA, <-app_assoc. rewrite Permutation_middle. f_equiv. by rewrite Permutation_middle. }
  apply (blocks_perm _ _ _ _ _ HP) in Hb. unfold join_upper.
  destruct L2 as [|s L2]; simpl hd.
  - exists (hsize h bp), []. destruct (Z.eqb_spec (bp + HEADER * hsize h bp) base).
    { exfalso. destruct (bk_in _ _ _ _ Hb bp) as (? & ? & _); [by left|].
      pose proof (hi_base _ _ _ Hi). unfold HEADER in *. lia. }
    split_and!; [done|lia| |done|lia|done|intros y Hy; by apply elem_of_nil in Hy].
    eapply blocks_ext; [|exact Hb]. intros p Hp. rewrite hsize_set. by case_decide; subst.
  - assert (Hbs : bp + HEADER * hsize h bp <= s).
    { apply (bk_disj _ _ _ _ Hb); [by left|set_solver|apply Hhi; by left]. }
    destruct (Z.eqb_spec (bp + HEADER * hsize h bp) s) as [Heq|Hne].
    + destruct Hw as [Hs Hw]. rewrite Hs.
      assert (HP2 : bp :: L1 ++ (s :: L2) ++ A' ≡ₚ bp :: s :: L1 ++ L2 ++ A').
      { constructor. symmetry. apply Permutation_middle. }
      apply (blocks_perm _ _ _ _ _ HP2) in Hb.
      destruct (bk_in _ _ _ _ Hb bp) as (? & ? & _); [by left|].
      destruct (bk_in _ _ _ _ Hb s) as (? & ? & ?); [by right; left|].
      pose proof (hi_base _ _ _ Hi). pose proof (hi_limit _ _ _ Hi). unfold HEADER in *.
      rewrite u32_small by lia. exists (hsize h bp + hsize h s), L2. split; [done|].
      pose proof (bk_nodup _ _ _ _ Hb) as Hnd. apply NoDup_cons in Hnd as [Hnb _].
      change (X ++ pk :: s :: L2) with (X ++ [pk] ++ [s] ++ L2) in Hsp. unfold spaced in *.
      rewrite !sorted_app in Hsp. destruct Hsp as (S1 & (S2 & (S3 & S4 & S5) & S6) & S7).
      split_and!; [lia| |done|simpl; lia| |].
      * eapply blocks_merge; [exact Hb|done|by rewrite hsize_set, decide_True|].
        intros q Hq. rewrite hsize_set, decide_False; [done|]. intros ->. apply Hnb. by right.
      * change (X ++ pk :: L2) with (X ++ [pk] ++ L2). rewrite !sorted_app. split_and!; try done.
        -- intros x y Hx Hy. apply S6; [done|set_solver].
        -- intros x y Hx Hy. apply S7; [done|set_solver].
      * intros y Hy. specialize (S5 s y ltac:(set_solver) Hy). cbv beta in S5. unfold HEADER in *. lia.
    + exists (hsize h bp), (s :: L2). split_and!; [done|lia| |done|lia|done|].
      * eapply blocks_ext; [|exact Hb]. intros p Hp. rewrite hsize_set. by case_decide; subst.
      * intros y [->|Hy]%elem_of_cons; [lia|].
        change (X ++ pk :: s :: L2) with (X ++ [pk] ++ [s] ++ L2) in Hsp. unfold spaced in *.
        rewrite !sorted_app in Hsp. destruct Hsp as (S1 & (S2 & (S3 & S4 & S5) & S6) & S7).
        specialize (S5 s y ltac:(set_solver) Hy). cbv beta in S5.
        destruct (bk_in _ _ _ _ Hb s) as (? & ? & ?); [set_solver|]. unfold HEADER in *. lia.
Qed.

Lemma free_eq fuel bp p h :
  freep h <> 0 -> free_find fuel bp (freep h) h = Some p ->
  free fuel (bp + HEADER) h = Some (set_freep p (join_lower p bp (join_upper bp (hptr h p) h))).
Proof.
  intros Hf Hp. unfold free. replace (bp + HEADER - HEADER) with bp by lia.
  destruct (Z.eqb_spec (freep h) 0); [done|]. by rewrite Hp.
Qed.

Lemma hinv_build h X pk R A' :
  0 < base /\ base + HEADER <= lo /\ hsize h base = 0 -> brk h <= 2 ^ 36 -> hd pk X = base -> freep h = pk ->
  chain h (X ++ pk :: R) base -> spaced h (X ++ pk :: R) -> blocks lo (brk h) h (tl (X ++ pk :: R) ++ A') ->
  hinv h (tl (X ++ pk :: R)) A'.
Proof.
  intros Hb Hl HX Hf Hw Hs Hbl.
  assert (HC : base :: tl (X ++ pk :: R) = X ++ pk :: R) by (destruct X; simpl in *; congruence).
  split; rewrite ?HC; try done. rewrite Hf. set_solver.
Qed.

(** The second half of [free], from the state [h1] that the first half leaves:
    [bp] has [n] units and points to the free blocks [L2] above it. *)
Section join_lower.
Variables (h : heap) (X : list Z) (pk : Z) (L2 A' : list Z) (bp n : Z).
Let h1 := set_hdr bp (hd base L2) n h.
Hypotheses
  (Hbase : 0 < base /\ base + HEADER <= lo /\ hsize h base = 0) (Hlim : brk h <= 2 ^ 36)
  (HhX : hd pk X = base) (Hlo : forall x, x ∈ X ++ [pk] -> 0 <= hsize h x /\ x < bp)
  (HwX : chain h X pk) (Hw2 : chain h L2 base) (Hsp : spaced h (X ++ pk :: L2))
  (Hend : forall y, y ∈ L2 -> bp + HEADER * n < y) (Hn : 0 < n)
  (Hb : blocks lo (brk h) h1 (bp :: tl (X ++ [pk]) ++ L2 ++ A')).

Lemma lower_pk : 0 <= hsize h pk /\ pk < bp.
Proof. apply Hlo. set_solver. Qed.

Lemma lower_X x : x ∈ X -> 0 <= hsize h x /\ x + HEADER * hsize h x < pk.
Proof.
  intros Hx. split; [apply Hlo; set_solver|]. unfold spaced in Hsp. rewrite sorted_app in Hsp.
  apply Hsp; [done|by left].
Qed.

Lemma lower_base : base < bp.
Proof.
  assert (Hin : base ∈ X ++ [pk]) by (destruct X; simpl in *; subst; set_solver).
  by apply Hlo in Hin as [_ ?].
Qed.

(** Other headers are apart from the two that change. *)
Lemma lower_ne x : x ∈ X \/ x ∈ L2 -> x <> pk /\ x <> bp.
Proof.
  pose proof lower_pk. intros [Hx|Hx]; [destruct (lower_X x Hx)|specialize (Hend x Hx)]; unfold HEADER in *; lia.
Qed.

Lemma lower_size x : x <> bp -> hsize h1 x = hsize h x.
Proof. intros ?. unfold h1. rewrite hsize_set. by case_decide. Qed.

Lemma lower_ptr x : x <> bp -> hptr h1 x = hptr h x.
Proof. intros ?. unfold h1. rewrite hptr_set. by case_decide. Qed.

Lemma lower_bp : hptr h1 bp = hd base L2 /\ hsize h1 bp = n.
Proof. unfold h1. by rewrite hptr_set, hsize_set, !decide_True. Qed.

Definition lowered (h2 : heap) : Prop :=
  exists L', hinv (set_freep pk h2) L' A' /\ (exists q, q ∈ L' /\ n <= hsize h2 q) /\
    (length L' <= length X + 1 + length L2)%nat /\ forall a, a <> bp -> a <> pk -> hsize h2 a = hsize h a.

Lemma lower_absorb :
  pk + HEADER * hsize h pk = bp -> lowered (set_hdr pk (hd base L2) (u32 (hsize h pk + n)) h1).
Proof.
  intros Heq. pose proof lower_pk as Hpk. pose proof lower_base as Hbb. pose proof lower_X as HX.
  pose proof lower_ne as Hne2. pose proof lower_size as Hs1. pose proof lower_ptr as Hp1.
  unfold spaced in Hsp. rewrite sorted_app, (sorted_cons _ pk) in Hsp. destruct Hsp as (SX & [S2 Spk] & SX2).
  assert (HX0 : exists X0, X = base :: X0).
  { destruct X as [|x X0]; simpl in *; [subst pk; unfold HEADER in *; lia|subst x; eauto]. }
  destruct HX0 as [X0 HX0]. assert (HbX : base ∈ X) by (rewrite HX0; by left).
  assert (HP : bp :: tl (X ++ [pk]) ++ L2 ++ A' ≡ₚ pk :: bp :: tl X ++ L2 ++ A').
  { rewrite HX0. simpl. rewrite <-app_assoc. simpl. rewrite <-Permutation_middle. constructor. }
  apply (blocks_perm _ _ _ _ _ HP) in Hb. destruct (bk_in _ _ _ _ Hb bp) as (? & ? & Hbe); [by right; left|].
  destruct (HX base HbX). rewrite (proj2 lower_bp) in Hbe. rewrite u32_small by (unfold HEADER in *; lia).
  set (h2 := set_hdr pk (hd base L2) (hsize h pk + n) h1).
  assert (Hs2 : forall x, x <> pk -> x <> bp -> hsize h2 x = hsize h x /\ hptr h2 x = hptr h x).
  { intros x ? ?. unfold h2. rewrite hsize_set, hptr_set, !decide_False, Hs1, Hp1 by done. done. }
  assert (Hpk2 : hptr h2 pk = hd base L2 /\ hsize h2 pk = hsize h pk + n).
  { unfold h2. by rewrite hptr_set, hsize_set, !decide_True. }
  exists (tl (X ++ pk :: L2)). split; [apply hinv_build; try done|split_and!].
  - destruct Hbase as (? & ? & ?). split_and!; [done|done|]. change (hsize h2 base = 0).
    by rewrite (proj1 (Hs2 base ltac:(apply Hne2; by left) ltac:(lia))).
  - apply (walk_ext h2); [done|]. apply walk_app. split; [|split; [apply Hpk2|]].
    + eapply walk_ext; [|exact HwX]. intros x Hx. apply Hs2; apply Hne2; by left.
    + eapply walk_ext; [|exact Hw2]. intros x Hx. apply Hs2; apply Hne2; by right.
  - change (spaced h2 (X ++ pk :: L2)). unfold spaced. rewrite sorted_app, (sorted_cons _ pk).
    assert (He : forall x, x ∈ X \/ x ∈ L2 -> hsize h2 x = hsize h x) by (intros x ?; apply Hs2; by apply Hne2).
    split_and!.
    + eapply sorted_impl; [|exact SX]. intros x y Hx. by rewrite He by by left.
    + eapply sorted_impl; [|exact S2]. intros x y Hx. by rewrite He by by right.
    + intros y Hy. rewrite (proj2 Hpk2). specialize (Hend y Hy). unfold HEADER in *. lia.
    + intros x y Hx Hy. rewrite He by by left. by apply SX2.
  - apply (blocks_perm _ _ _ (pk :: tl X ++ L2 ++ A')).
    { rewrite HX0. simpl. rewrite <-app_assoc. apply Permutation_middle. }
    apply (blocks_merge _ _ h1 (set_freep pk h2) pk bp _ Hb).
    + by rewrite Hs1 by lia.
    + change (hsize h2 pk = hsize h1 pk + hsize h1 bp). by rewrite (proj2 Hpk2), Hs1, (proj2 lower_bp) by lia.
    + intros q Hq. change (hsize h2 q = hsize h1 q). pose proof (bk_nodup _ _ _ _ Hb) as Hnd.
      apply NoDup_cons in Hnd as [Hnp Hnd]. apply NoDup_cons in Hnd as [Hnb _].
      assert (q <> pk) by (intros ->; apply Hnp; by right). assert (q <> bp) by (by intros ->).
      by rewrite (proj1 (Hs2 q ltac:(done) ltac:(done))), Hs1.
  - exists pk. split; [rewrite HX0; set_solver|lia].
  - rewrite HX0. simpl. rewrite length_app. simpl. lia.
  - intros x ? ?. by apply Hs2.
Qed.

Lemma lower_link :
  pk + HEADER * hsize h pk <> bp -> lowered (set_hdr pk bp (hsize h pk) h1).
Proof.
  intros Hne. pose proof lower_pk as Hpk. pose proof lower_base as Hbb. pose proof lower_X as HX.
  pose proof lower_ne as Hne2. pose proof lower_size as Hs1. pose proof lower_ptr as Hp1.
  unfold spaced in Hsp. rewrite sorted_app, (sorted_cons _ pk) in Hsp. destruct Hsp as (SX & [S2 Spk] & SX2).
  set (h2 := set_hdr pk bp (hsize h pk) h1).
  assert (Hs2 : forall x, hsize h2 x = hsize h1 x).
  { intros x. unfold h2. rewrite hsize_set. case_decide; [subst; by rewrite Hs1 by lia|done]. }
  assert (Hp2 : forall x, x <> pk -> hptr h2 x = hptr h1 x).
  { intros x ?. unfold h2. rewrite hptr_set. by rewrite decide_False. }
  assert (Hgap : pk + HEADER * hsize h pk < bp).
  { destruct (decide (pk = base)) as [->|Hpb]; [unfold HEADER in *; lia|].
    assert (pk + HEADER * hsize h1 pk <= bp); [|rewrite Hs1 in *; lia].
    apply (bk_disj _ _ _ _ Hb); [|by left|lia]. destruct X; simpl in *; [congruence|set_solver]. }
  exists (tl (X ++ pk :: bp :: L2)). split; [apply hinv_build; try done|split_and!].
  - destruct Hbase as (? & ? & ?). split_and!; [done|done|]. change (hsize h2 base = 0). by rewrite Hs2, Hs1 by lia.
  - apply (walk_ext h2); [done|]. apply walk_app. cbn [hd chain]. split_and!.
    + eapply walk_ext; [|exact HwX]. intros x Hx. rewrite Hp2, Hp1 by (apply Hne2; by left). done.
    + unfold h2. by rewrite hptr_set, decide_True.
    + rewrite Hp2 by lia. unfold h1. by rewrite hptr_set, decide_True.
    + eapply walk_ext; [|exact Hw2]. intros x Hx. rewrite Hp2, Hp1 by (apply Hne2; by right). done.
  - change (spaced h2 (X ++ pk :: bp :: L2)). unfold spaced. rewrite sorted_app, (sorted_cons _ pk), (sorted_cons _ bp). split_and!.
    + eapply sorted_impl; [|exact SX]. intros x y Hx. by rewrite Hs2, Hs1 by (apply Hne2; by left).
    + eapply sorted_impl; [|exact S2]. intros x y Hx. by rewrite Hs2, Hs1 by (apply Hne2; by right).
    + intros y Hy. rewrite Hs2. unfold h1. rewrite hsize_set, decide_True by done. by apply Hend.
    + intros y [->|Hy]%elem_of_cons; rewrite Hs2, Hs1 by lia; [done|]. by apply Spk.
    + intros x y Hx Hy. rewrite Hs2, Hs1 by (apply Hne2; by left). destruct (HX x Hx).
      apply elem_of_cons in Hy as [->|[->|Hy]%elem_of_cons]; [done|lia|]. apply SX2; [done|by right].
  - eapply blocks_perm; [|apply (blocks_ext _ _ h1 (set_freep pk h2) _ (fun p _ => Hs2 p) Hb)].
    destruct X as [|x X0]; simpl; [done|]. rewrite <-!app_assoc. simpl.
    rewrite (Permutation_middle X0 _ bp). f_equiv. constructor.
  - exists bp. split; [destruct X; set_solver|]. rewrite Hs2. unfold h1. rewrite hsize_set, decide_True by done. lia.
  - destruct X as [|x X0]; simpl; [lia|]. rewrite length_app. simpl. lia.
  - intros x ? ?. by rewrite Hs2, Hs1.
Qed.

Lemma join_lower_ok : lowered (join_lower pk bp h1).
Proof.
  unfold join_lower. pose proof lower_pk. rewrite (lower_size pk) by lia. destruct lower_bp as [-> ->].
  destruct (Z.eqb_spec (pk + HEADER * hsize h pk) bp); [by apply lower_absorb|by apply lower_link].
Qed.
End join_lower.

(** What [free] leaves: the invariant, with the block gone from the allocated
    ones; every other allocated block is untouched, and some free block is at
    least as large as the one that was free_result. *)
Definition free_result (h h' : heap) (L L' A' : list Z) (bp : Z) : Prop :=
  hinv h' L' A' /\ brk h' = brk h /\ (forall a, a ∈ A' -> hsize h' a = hsize h a) /\
  (exists q, q ∈ L' /\ hsize h bp <= hsize h' q) /\ (length L' <= length L + 1)%nat.

Lemma free_ok h L A A' bp fuel :
  hinv h L A -> A ≡ₚ bp :: A' -> (length L + 1 < fuel)%nat ->
  exists h' L', free fuel (bp + HEADER) h = Some h' /\ free_result h h' L L' A' bp.
Proof.
  intros Hi HA Hf.
  destruct (free_find_spec h L A bp fuel Hi) as (X & pk & L2 & HC & Hlo & Hhi & Hfind); [rewrite HA; by left|done|].
  assert (Hfp : freep h <> 0) by (by eapply hinv_freep).
  rewrite (free_eq _ _ _ _ Hfp Hfind).
  destruct (join_upper_ok h L A A' X pk L2 bp Hi HA HC Hlo Hhi) as (n & L2' & -> & Hn & Hb & Hw2 & Hlen & Hsp & Hend).
  assert (HhX : hd pk X = base) by (destruct X; simpl in *; congruence).
  assert (Hlen' : length (X ++ pk :: L2) = S (length L)) by (by rewrite <-HC). rewrite length_app in Hlen'. simpl in Hlen'.
  pose proof (hi_ring _ _ _ Hi) as Hw. rewrite HC in Hw. apply walk_app in Hw as [HwX _].
  assert (1 <= hsize h bp).
  { destruct (bk_in _ _ _ _ (hi_blocks _ _ _ Hi) bp) as (_ & ? & _); [|done]. rewrite HA. set_solver. }
  destruct (join_lower_ok h X pk L2' A' bp n) as (L' & Hi' & (q & Hq & Hnq) & Hl & Hs); try done.
  - apply (hi_base _ _ _ Hi).
  - apply (hi_limit _ _ _ Hi).
  - intros x Hx. split; [|by apply Hlo]. apply (hinv_size h L A); [done|]. rewrite HC. set_solver.
  - lia.
  - eexists _, L'. split; [done|]. split_and!; [done| | |exists q; split; [done|transitivity n; [lia|exact Hnq]]|lia].
    + unfold join_lower. by case_match.
    + intros a Ha. apply Hs.
      * pose proof (bk_nodup _ _ _ _ Hb) as Hnd. apply NoDup_cons in Hnd as [Hnd _]. set_solver.
      * intros ->. pose proof (bk_nodup _ _ _ _ (hi_blocks _ _ _ Hi)) as Hnd. rewrite HA in Hnd.
        apply NoDup_app in Hnd as (_ & Hnd & _).
        assert (pk ∈ base :: L) as [->|HpL]%elem_of_cons by (rewrite HC; set_solver).
        -- destruct (bk_in _ _ _ _ (hi_blocks _ _ _ Hi) base) as [? _]; [rewrite HA; set_solver|].
           pose proof (hi_base _ _ _ Hi). unfold HEADER in *. lia.
        -- apply (Hnd pk HpL). set_solver.
Qed.
(** * Taking a block *)

(** What a successful [malloc] leaves: the invariant with a new allocated block
    [b] of [n] units, and the other allocated blocks untouched. *)
Definition taken (h h' : heap) (A : list Z) (b n : Z) : Prop :=
  (exists L', hinv h' L' (b :: A)) /\ hsize h' b = n /\ forall a, a ∈ A -> hsize h' a = hsize h a.

Lemma ring_split h L A prevp p :
  hinv h L A -> prevp ∈ base :: L -> hptr h prevp = p -> p ∈ L ->
  exists X L2, base :: L = X ++ prevp :: p :: L2 /\ hd prevp X = base.
Proof.
  intros Hi (X & L2 & HC)%list_elem_of_split Hp HpL.
  pose proof (hi_ring _ _ _ Hi) as Hw. rewrite HC in Hw. apply walk_next in Hw. rewrite Hp in Hw.
  assert (p <> base).
  { intros ->. pose proof (hi_base _ _ _ Hi).
    destruct (bk_in _ _ _ _ (hi_blocks _ _ _ Hi) base) as [? _]; [set_solver|]. unfold HEADER in *. lia. }
  destruct L2 as [|p' L2]; simpl in Hw; [congruence|]. subst p'. exists X, L2. split; [done|].
  destruct X; simpl in *; congruence.
Qed.

Lemma take_exact h L A prevp p :
  hinv h L A -> prevp ∈ base :: L -> hptr h prevp = p -> p ∈ L ->
  taken h (set_freep prevp (set_hdr prevp (hptr h p) (hsize h prevp) h)) A p (hsize h p).
Proof.
  intros Hi Hpr Hp HpL. destruct (ring_split _ _ _ _ _ Hi Hpr Hp HpL) as (X & L2 & HC & HX).
  set (h' := set_freep prevp _).
  assert (Hs : forall x, hsize h' x = hsize h x).
  { intros x. change (hsize (set_hdr prevp (hptr h p) (hsize h prevp) h) x = hsize h x). rewrite hsize_set.
    by case_decide; subst. }
  pose proof (hi_ring _ _ _ Hi) as Hw. pose proof (hi_spaced _ _ _ Hi) as Hsp. pose proof (hinv_increasing _ _ _ Hi) as Hinc.
  unfold increasing in Hinc. rewrite HC in *. apply walk_app in Hw as [HwX [_ [Hpp Hw2]]].
  unfold spaced in Hsp. rewrite sorted_app, !sorted_cons in Hsp, Hinc.
  destruct Hsp as (SX & [[S2 Sp] Spr] & SX2), Hinc as (_ & [_ Ipr] & IX2).
  assert (Hpt : forall x, x <> prevp -> hptr h' x = hptr h x).
  { intros x Hx. change (hptr (set_hdr prevp (hptr h p) (hsize h prevp) h) x = hptr h x). rewrite hptr_set.
    by case_decide. }
  split; [exists (tl (X ++ prevp :: L2)); apply hinv_build; try done|split; intros; apply Hs].
  - rewrite Hs. apply (hi_base _ _ _ Hi).
  - apply (hi_limit _ _ _ Hi).
  - apply walk_app. split; [|split].
    + eapply walk_ext; [|exact HwX]. intros x Hx. apply Hpt. specialize (IX2 x prevp Hx ltac:(by left)). lia.
    + change (hptr (set_hdr prevp (hptr h p) (hsize h prevp) h) prevp = hd base L2). by rewrite hptr_set, decide_True.
    + eapply walk_ext; [|exact Hw2]. intros x Hx. apply Hpt. specialize (Ipr x ltac:(by right)). lia.
  - unfold spaced. rewrite sorted_app, sorted_cons. split_and!.
    + eapply sorted_impl; [|exact SX]. intros x y _. by rewrite Hs.
    + eapply sorted_impl; [|exact S2]. intros x y _. by rewrite Hs.
    + intros y Hy. rewrite Hs. apply Spr. by right.
    + intros x y Hx Hy. rewrite Hs. apply SX2; [done|set_solver].
  - apply (blocks_ext _ _ h); [done|]. eapply blocks_perm; [|apply (hi_blocks _ _ _ Hi)].
    assert (HL : L = tl (X ++ prevp :: p :: L2)) by (by rewrite <-HC). rewrite HL.
    destruct X as [|x X]; simpl; [by rewrite Permutation_middle|].
    rewrite <-!app_assoc. simpl. f_equiv. constructor. by rewrite Permutation_middle.
Qed.

Lemma take_split h L A prevp p n :
  hinv h L A -> prevp ∈ base :: L -> p ∈ L -> 1 <= n < hsize h p ->
  let h1 := set_hdr p (hptr h p) (u32 (hsize h p - n)) h in
  let b := p + HEADER * hsize h1 p in
  taken h (set_freep prevp (set_hdr b (hptr h1 b) n h1)) A b n.
Proof.
  intros Hi Hpr HpL Hn h1 b. pose proof (hi_blocks _ _ _ Hi) as Hb.
  destruct (bk_in _ _ _ _ Hb p) as (Hlo & _ & Hhi); [set_solver|].
  pose proof (hi_base _ _ _ Hi) as (HB1 & HB2 & HB3). pose proof (hi_limit _ _ _ Hi) as Hlim.
  assert (Hp1 : hsize h1 p = hsize h p - n).
  { unfold h1. rewrite hsize_set, decide_True by done. apply u32_small. unfold HEADER in *. lia. }
  apply list_elem_of_split in HpL as (La & Lb & HL).
  assert (HP : L ++ A ≡ₚ p :: La ++ Lb ++ A) by (rewrite HL, <-app_assoc; symmetry; apply Permutation_middle).
  apply (blocks_perm _ _ _ _ _ HP) in Hb. set (h' := set_freep prevp _).
  assert (Hbp : b = p + HEADER * (hsize h p - n)) by (unfold b; by rewrite Hp1).
  assert (Hs : forall x, x <> p -> x <> b -> hsize h' x = hsize h x).
  { intros x ? ?. change (hsize (set_hdr b (hptr h1 b) n h1) x = hsize h x). unfold h1. by rewrite !hsize_set, !decide_False. }
  assert (Hpt : forall x, hptr h' x = hptr h x).
  { assert (H1 : forall x, hptr h1 x = hptr h x).
    { intros x. unfold h1. rewrite hptr_set. destruct (decide (p = x)) as [E|]; [by rewrite E|done]. }
    intros x. change (hptr (set_hdr b (hptr h1 b) n h1) x = hptr h x). rewrite hptr_set.
    destruct (decide (b = x)) as [E|]; [rewrite <-E|]; apply H1. }
  assert (Hsb : hsize h' b = n).
  { change (hsize (set_hdr b (hptr h1 b) n h1) b = n). by rewrite hsize_set, decide_True. }
  assert (Hsp : hsize h' p = hsize h p - n).
  { change (hsize (set_hdr b (hptr h1 b) n h1) p = hsize h p - n). rewrite hsize_set, decide_False; [done|].
    unfold HEADER in *. lia. }
  assert (Hoth : forall q, q ∈ La ++ Lb ++ A -> q <> p /\ q <> b).
  { intros q Hq. pose proof (bk_nodup _ _ _ _ Hb) as [Hnd _]%NoDup_cons. assert (q <> p) by (by intros ->). split; [done|].
    intros ->. pose proof (bk_disj _ _ _ _ Hb p b ltac:(by left) ltac:(by right)). unfold HEADER in *. lia. }
  split; [exists L; split|split; [done|]].
  - split_and!; [done|done|]. rewrite Hs; [done|unfold HEADER in *; lia|unfold HEADER in *; lia].
  - eapply walk_ext; [|apply (hi_ring _ _ _ Hi)]. intros; apply Hpt.
  - eapply sorted_impl; [|apply (hi_spaced _ _ _ Hi)]. intros x y Hx. cbv beta.
    assert (hsize h' x <= hsize h x); [|unfold HEADER in *; lia].
    destruct (decide (x = p)) as [->|]; [lia|]. rewrite Hs; [lia|done|].
    apply elem_of_cons in Hx as [->|Hx]; [unfold HEADER in *; lia|]. apply Hoth. set_solver.
  - done.
  - apply (blocks_perm _ _ _ (b :: p :: La ++ Lb ++ A)); [rewrite <-Permutation_middle; by rewrite HP|].
    assert (Hsb' := Hsb). rewrite Hbp in Hsb' |- *. apply (blocks_split _ _ h h' p n _ Hb Hn Hsp Hsb').
    intros q Hq. apply Hs; by apply Hoth.
  - done.
  - intros a Ha. apply Hs; apply Hoth; set_solver.
Qed.
(** * Growing the heap *)

Variable grant : Z -> Z -> bool.
Hypothesis grant_ok : forall b n, grant b n = true -> b + n <= 2 ^ 36.

(** The kernel's memory becomes a block at the end of the heap. *)
Lemma hinv_extend h L A n :
  hinv h L A -> 1 <= n -> brk h + HEADER * n <= 2 ^ 36 ->
  let p := brk h in
  let h' := set_hdr p (hptr h p) n (Heap (hs h) (freep h) (p + HEADER * n)) in
  hinv h' L (p :: A) /\ hsize h' p = n /\ forall a, a ∈ L ++ A -> hsize h' a = hsize h a.
Proof.
  intros Hi Hn Hlim p h'. pose proof (hi_blocks _ _ _ Hi) as Hb. pose proof (hi_base _ _ _ Hi) as (HB1 & HB2 & HB3).
  assert (Hlt : forall a, a ∈ L ++ A -> a < p).
  { intros a Ha. destruct (bk_in _ _ _ _ Hb a Ha) as (? & ? & ?). unfold p, HEADER in *. lia. }
  assert (Hlop : lo <= p).
  { pose proof (bk_total _ _ _ _ Hb). pose proof (units_nonneg _ _ _ _ Hb (L ++ A) ltac:(done)). unfold p, HEADER in *. lia. }
  assert (Hs : forall a, a <> p -> hsize h' a = hsize h a).
  { intros a Ha. unfold h'. rewrite hsize_set. by case_decide. }
  assert (Hpp : hsize h' p = n) by (unfold h'; by rewrite hsize_set, decide_True).
  assert (Hpt : forall a, hptr h' a = hptr h a).
  { intros a. unfold h'. rewrite hptr_set. destruct (decide (p = a)) as [<-|]; done. }
  assert (Ha : forall a, a ∈ L ++ A -> hsize h' a = hsize h a).
  { intros a Ha. apply Hs. specialize (Hlt a Ha). lia. }
  split_and!; [split|done|done].
  - split_and!; [done|done|]. rewrite Hs; [done|]. unfold HEADER in *. lia.
  - eapply walk_ext; [|apply (hi_ring _ _ _ Hi)]. intros; apply Hpt.
  - eapply sorted_impl; [|apply (hi_spaced _ _ _ Hi)]. intros x y [->|Hx]%elem_of_cons; cbv beta.
    + rewrite Hs; [done|]. unfold HEADER in *. lia.
    + rewrite Ha; [done|set_solver].
  - apply (hi_freep _ _ _ Hi).
  - apply (blocks_perm _ _ _ (p :: L ++ A)); [apply Permutation_middle|]. change (brk h') with (p + HEADER * n).
    unfold HEADER in *. split; unfold HEADER.
    + apply NoDup_cons. split; [intros ?%Hlt; lia|apply (bk_nodup _ _ _ _ Hb)].
    + intros q [->|Hq]%elem_of_cons; [lia|]. rewrite Ha by done. destruct (bk_in _ _ _ _ Hb q Hq) as (? & ? & ?).
      unfold HEADER, p in *. lia.
    + intros q r [->|Hq]%elem_of_cons [->|Hr]%elem_of_cons Hlt2; try (specialize (Hlt r Hr)); try lia.
      * rewrite Ha by done. destruct (bk_in _ _ _ _ Hb q Hq) as (? & ? & ?). unfold HEADER, p in *. lia.
      * rewrite Ha by done. by apply (bk_disj _ _ _ _ Hb).
    + simpl. rewrite Hpp, (units_ext h) by done. pose proof (bk_total _ _ _ _ Hb). unfold HEADER, p in *. lia.
  - done.
Qed.

(** [morecore] fails without effect, or leaves a free block that is large
    enough. *)
Lemma morecore_ok h L A nu fuel :
  hinv h L A -> 1 <= nu < 2 ^ 27 -> (length L + 1 < fuel)%nat ->
  (morecore grant fuel nu h = Some (0, h) /\ grant (brk h) (HEADER * Z.max nu 4096) = false) \/
  exists h' L', morecore grant fuel nu h = Some (freep h', h') /\ hinv h' L' A /\
    (forall a, a ∈ A -> hsize h' a = hsize h a) /\
    (exists q, q ∈ L' /\ nu <= hsize h' q) /\ (length L' <= length L + 1)%nat.
Proof.
  intros Hi Hnu Hf. unfold morecore. cbv zeta.
  replace (if nu <? 4096 then 4096 else nu) with (Z.max nu 4096) by (destruct (Z.ltb_spec nu 4096); lia).
  set (n := Z.max nu 4096) in *. unfold sbrk. rewrite (Z.mul_comm n), s32_small by (unfold HEADER; lia).
  destruct (grant (brk h) (HEADER * n)) eqn:Hg; [right|by left].
  apply grant_ok in Hg. destruct (hinv_extend h L A n Hi ltac:(lia) Hg) as (Hi1 & Hn1 & Hs1).
  destruct (Z.eqb_spec (brk h) (-1)).
  { pose proof (bk_total _ _ _ _ (hi_blocks _ _ _ Hi)). pose proof (units_nonneg _ _ _ _ (hi_blocks _ _ _ Hi) (L ++ A) ltac:(done)).
    pose proof (hi_base _ _ _ Hi). unfold HEADER in *. lia. }
  set (h1 := set_hdr _ _ _ _) in *. change (set_hdr (brk h) (hptr _ (brk h)) n _) with h1.
  destruct (free_ok h1 L (brk h :: A) A (brk h) fuel Hi1 ltac:(done) Hf) as (h2 & L2 & -> & Hi2 & Hb2 & Hs2 & (q & Hq & Hnq) & Hl).
  exists h2, L2. split; [done|]. split_and!; [done| |exists q; split; [done|lia]|done].
  intros a Ha. rewrite Hs2, Hs1; [done|set_solver|done].
Qed.
(** * The loop of malloc *)

Fixpoint lastd (a : Z) (D : list Z) : Z := match D with [] => a | d :: D' => lastd d D' end.

Lemma lastd_in a D : lastd a D ∈ a :: D.
Proof. revert a. induction D as [|d D IH]; intros a; simpl; [by left|]. right. apply IH. Qed.

Lemma lastd_ptr h a D q : chain h D q -> hptr h a = hd q D -> hptr h (lastd a D) = q.
Proof. revert a. induction D as [|d D IH]; intros a; simpl; [done|]. intros [Hd Hw] _. by apply IH. Qed.

(** A stretch of the ring in which no block is large enough. *)
Lemma malloc_scan h D q n ff f prevp :
  chain h D q -> (forall d, d ∈ D -> hsize h d < n /\ d <> freep h) ->
  malloc_loop grant (length D + f) ff n prevp (hd q D) h = malloc_loop grant f ff n (lastd prevp D) q h.
Proof.
  revert prevp. induction D as [|d D IH]; intros prevp Hw Hd; [done|]. destruct Hw as [Hp Hw].
  destruct (Hd d ltac:(by left)) as [Hs Hf]. cbn [length Nat.add malloc_loop hd lastd].
  destruct (Z.leb_spec n (hsize h d)); [lia|]. destruct (Z.eqb_spec d (freep h)); [done|].
  rewrite Hp. apply IH; [done|]. intros x ?. apply Hd. by right.
Qed.

(** A block that is large enough. *)
Lemma malloc_fit h L A prevp p n ff f :
  hinv h L A -> prevp ∈ base :: L -> hptr h prevp = p -> p ∈ base :: L -> 1 <= n <= hsize h p ->
  exists b h', malloc_loop grant (S f) ff n prevp p h = Some (b + HEADER, h') /\ taken h h' A b n.
Proof.
  intros Hi Hpr Hp HpL Hn. cbn [malloc_loop]. destruct (Z.leb_spec n (hsize h p)); [|lia].
  apply elem_of_cons in HpL as [->|HpL]; [pose proof (hi_base _ _ _ Hi); lia|].
  destruct (Z.eqb_spec (hsize h p) n) as [<-|Hne].
  - eexists p, _. split; [done|]. by apply (take_exact h L).
  - eexists _, _. split; [done|]. apply (take_split h L); [done|done|done|lia].
Qed.

(** The blocks in the order in which the loop sees them, beginning after
    [freep]; the last one is [freep] itself. *)
Lemma ring_order h L A :
  hinv h L A -> exists D, chain h D (freep h) /\ hptr h (freep h) = hd (freep h) D /\ length D = length L /\
    (forall d, d ∈ base :: L <-> d ∈ D \/ d = freep h) /\ freep h ∉ D.
Proof.
  intros Hi. pose proof (hi_freep _ _ _ Hi) as Hfp. apply list_elem_of_split in Hfp as (X & Y & HC).
  pose proof (hi_ring _ _ _ Hi) as Hw. pose proof (hinv_increasing _ _ _ Hi) as Hinc. unfold increasing in Hinc.
  assert (Hlen : S (length L) = length (X ++ freep h :: Y)) by (by rewrite <-HC).
  rewrite length_app in Hlen. simpl in Hlen. rewrite HC in *.
  apply walk_app in Hw as [HwX [Hfy HwY]]. simpl in HwX. rewrite sorted_app, sorted_cons in Hinc.
  destruct Hinc as (_ & [_ HY] & HX).
  assert (HhX : hd (freep h) X = base) by (destruct X; simpl in *; congruence).
  exists (Y ++ X). split_and!.
  - apply walk_app. by rewrite HhX.
  - rewrite Hfy. destruct Y; simpl; [by rewrite HhX|done].
  - rewrite length_app. lia.
  - intros d. rewrite !elem_of_app, elem_of_cons. tauto.
  - rewrite elem_of_app. intros [?%HY|Hx]; [lia|]. specialize (HX _ _ Hx ltac:(by left)). lia.
Qed.

(** One tour of the ring: a block is taken if one is large enough, otherwise
    [malloc] asks for more memory. *)
Lemma malloc_tour h L A n ff f :
  hinv h L A -> 1 <= n ->
  (exists b h', malloc_loop grant (length L + S f) ff n (freep h) (hptr h (freep h)) h = Some (b + HEADER, h') /\
     taken h h' A b n) \/
  ((forall q, q ∈ L -> hsize h q < n) /\
   malloc_loop grant (length L + S f) ff n (freep h) (hptr h (freep h)) h =
   match morecore grant ff n h with
   | None => None
   | Some (p, h') => if p =? 0 then Some (0, h') else malloc_loop grant f ff n p (hptr h' p) h'
   end).
Proof.
  intros Hi Hn. destruct (ring_order h L A Hi) as (D & Hw & Hnext & Hlen & HD & HfD). rewrite <-Hlen.
  assert (Hsplit : Forall (fun d => hsize h d < n) D \/
            exists D1 d D2, D = D1 ++ d :: D2 /\ Forall (fun d => hsize h d < n) D1 /\ n <= hsize h d).
  { clear -D. induction D as [|d D [IH|(D1 & e & D2 & -> & H1 & H2)]]; [by left|..];
      destruct (decide (hsize h d < n)); try (right; exists [], d; eexists; split_and!; [done|constructor|lia]).
    - left. by constructor.
    - right. exists (d :: D1), e, D2. split_and!; [done|by constructor|done]. }
  rewrite Hnext. destruct Hsplit as [Hall|(D1 & d & D2 & -> & H1 & H2)].
  - rewrite Forall_forall in Hall. rewrite malloc_scan; [|done|intros d Hd; split; [by apply Hall|by intros ->]].
    destruct (decide (n <= hsize h (freep h))) as [Hfit|Hno].
    + left. apply (malloc_fit h L); [done| | |by apply HD; right|done].
      * pose proof (lastd_in (freep h) D) as [?|?]%elem_of_cons; apply HD; [by right|by left].
      * by apply lastd_ptr.
    + right. split.
      * intros q Hq. assert (q ∈ base :: L) as [Hqd| ->]%HD by (by right); [by apply Hall|lia].
      * cbn [malloc_loop]. destruct (Z.leb_spec n (hsize h (freep h))); [lia|]. by rewrite Z.eqb_refl.
  - left. rewrite hd_cons_app, length_app. apply walk_app in Hw as [Hw1 _]. simpl in Hw1. rewrite Forall_forall in H1.
    replace (length D1 + length (d :: D2) + S f)%nat with (length D1 + S (length (d :: D2) + f))%nat by lia.
    rewrite malloc_scan; [|done|intros e He; split; [by apply H1|intros ->; set_solver]].
    apply (malloc_fit h L); [done| | |apply HD; left; set_solver|done].
    + pose proof (lastd_in (freep h) D1) as [?|?]%elem_of_cons; apply HD; [by right|left; set_solver].
    + apply lastd_ptr; [done|]. by rewrite Hnext, hd_cons_app.
Qed.
(** [malloc] on a heap that satisfies the invariant: it takes a block that holds
    the bytes asked for; or it returns 0, and then no free block was large enough
    and the kernel has refused to extend the heap. *)
Definition units_for (nbytes : Z) : Z := (nbytes + HEADER - 1) / HEADER + 1.

Lemma units_for_bound nbytes :
  0 <= nbytes <= 2 ^ 31 - 32 -> 1 <= units_for nbytes < 2 ^ 27 /\ nbytes <= HEADER * (units_for nbytes - 1).
Proof. unfold units_for, HEADER. intros Hn. Z.to_euclidean_division_equations. lia. Qed.

Definition malloc_result (h : heap) (L A : list Z) (nbytes : Z) (r : Z) (h' : heap) : Prop :=
  (exists b L', r = b + HEADER /\ hinv h' L' (b :: A) /\ hsize h' b = units_for nbytes /\
     forall a, a ∈ A -> hsize h' a = hsize h a) \/
  (r = 0 /\ h' = h /\ (forall q, q ∈ L -> hsize h q < units_for nbytes) /\
   grant (brk h) (HEADER * Z.max (units_for nbytes) 4096) = false).

Lemma malloc_ok h L A nbytes fuel :
  hinv h L A -> 0 <= nbytes <= 2 ^ 31 - 32 -> (2 * length L + 4 < fuel)%nat ->
  exists r h', malloc base grant fuel nbytes h = Some (r, h') /\ malloc_result h L A nbytes r h'.
Proof.
  intros Hi Hn Hf. destruct (units_for_bound nbytes Hn) as [Hu _].
  assert (Hfp : freep h <> 0) by (by eapply hinv_freep).
  unfold malloc. destruct (Z.eqb_spec (freep h) 0) as [|_]; [done|]. fold (units_for nbytes). rewrite u32_small by lia.
  set (n := units_for nbytes) in *. unfold malloc_result. fold n. cbv zeta.
  assert (Hfl : exists f, fuel = (length L + S f)%nat) by (exists (fuel - length L - 1)%nat; lia).
  destruct Hfl as [f Hfl].
  replace (malloc_loop grant fuel fuel n (freep h) (hptr h (freep h)) h)
    with (malloc_loop grant (length L + S f) fuel n (freep h) (hptr h (freep h)) h) by (by rewrite <-Hfl).
  destruct (malloc_tour h L A n fuel f Hi ltac:(lia)) as [(b & h' & -> & (L' & HL') & Hb & Ha)|[Hsmall ->]].
  { eexists _, h'. split; [done|]. left. eauto 10. }
  destruct (morecore_ok h L A n fuel Hi ltac:(lia) ltac:(lia)) as [[-> Hg]|(h1 & L1 & -> & Hi1 & Hs1 & (q & Hq & Hnq) & Hl1)].
  { eexists 0, h. split; [done|]. right. done. }
  assert (Hfp1 : freep h1 <> 0) by (by eapply hinv_freep).
  destruct (Z.eqb_spec (freep h1) 0) as [|_]; [done|].
  replace f with (length L1 + S (f - length L1 - 1))%nat by lia.
  destruct (malloc_tour h1 L1 A n fuel (f - length L1 - 1) Hi1 ltac:(lia)) as [(b & h' & -> & (L' & HL') & Hb & Ha)|[Hsm _]].
  - eexists _, h'. split; [done|]. left. exists b, L'. split_and!; [done|done|done|].
    intros a Hin. by rewrite Ha, Hs1.
  - specialize (Hsm q Hq). lia.
Qed.

(** The first call sets up the ring. *)
Lemma malloc_first h nbytes fuel :
  0 < base -> base + HEADER <= lo <= 2 ^ 36 -> freep h = 0 -> brk h = lo ->
  let h0 := set_hdr base base 0 (set_freep base h) in
  hinv h0 [] [] /\ malloc base grant fuel nbytes h = malloc base grant fuel nbytes h0.
Proof.
  intros Hb Hlo Hf Hbrk h0. split.
  - split; simpl.
    + split_and!; [done|lia|]. unfold h0. by rewrite hsize_set, decide_True.
    + split; [|done]. unfold h0. by rewrite hptr_set, decide_True.
    + repeat constructor.
    + by left.
    + split; try done; [constructor|set_solver|set_solver|simpl; lia].
    + lia.
  - unfold malloc. rewrite Hf. cbn [Z.eqb]. destruct (Z.eqb_spec (freep h0) 0) as [E|]; [|done].
    change (freep h0) with base in E. lia.
Qed.
End umalloc_ok.

(** * More fuel does not change the answer *)

Lemma free_find_mono f f' bp p h r :
  free_find f bp p h = Some r -> (f <= f')%nat -> free_find f' bp p h = Some r.
Proof.
  revert f' p. induction f as [|f IH]; intros f' p Hr Hl; [done|]. destruct f' as [|f']; [lia|].
  cbn [free_find] in *. repeat case_match; try done. apply IH; [done|lia].
Qed.

Lemma free_mono f f' ap h r : free f ap h = Some r -> (f <= f')%nat -> free f' ap h = Some r.
Proof.
  unfold free. intros Hr Hl. destruct (freep h =? 0); [done|].
  destruct (free_find f (ap - HEADER) (freep h) h) eqn:E; [|done].
  by rewrite (free_find_mono _ _ _ _ _ _ E Hl).
Qed.

Lemma morecore_mono grant f f' nu h r :
  morecore grant f nu h = Some r -> (f <= f')%nat -> morecore grant f' nu h = Some r.
Proof.
  unfold morecore. intros Hr Hl. destruct (sbrk _ _ h) as [p h1]. destruct (p =? -1); [done|].
  destruct (free f _ _) eqn:E; [|done]. by rewrite (free_mono _ _ _ _ _ E Hl).
Qed.

Lemma malloc_loop_mono grant f f' ff ff' n prevp p h r :
  malloc_loop grant f ff n prevp p h = Some r -> (f <= f')%nat -> (ff <= ff')%nat ->
  malloc_loop grant f' ff' n prevp p h = Some r.
Proof.
  revert f' prevp p h. induction f as [|f IH]; intros f' prevp p h Hr Hl Hl'; [done|].
  destruct f' as [|f']; [lia|]. cbn [malloc_loop] in *. destruct (n <=? hsize h p); [done|].
  destruct (p =? freep h).
  - destruct (morecore grant ff n h) as [[p1 h1]|] eqn:E; [|done].
    rewrite (morecore_mono _ _ _ _ _ _ E Hl'). destruct (p1 =? 0); [done|]. apply IH; [done|lia|done].
  - apply IH; [done|lia|done].
Qed.

Lemma malloc_mono base grant f f' n h r :
  malloc base grant f n h = Some r -> (f <= f')%nat -> malloc base grant f' n h = Some r.
Proof. unfold malloc. intros Hr Hl. by eapply malloc_loop_mono. Qed.

(** * Programs that use the heap *)

Section clients.
Variables (base : Z) (grant : Z -> Z -> bool) (lo : Z).

(** The states a program can reach that calls [malloc] with up to 2 GiB and
    [free] on what [malloc] gave it, with the live pointers and the sizes that
    were asked for. *)
Inductive run : heap -> list (Z * Z) -> Prop :=
| run_start h : freep h = 0 -> brk h = lo -> run h []
| run_malloc fuel n h live r h' :
    run h live -> 0 <= n <= 2 ^ 31 - 32 -> malloc base grant fuel n h = Some (r, h') ->
    run h' (if r =? 0 then live else (r, n) :: live)
| run_free fuel h l1 ap n l2 h' :
    run h (l1 ++ (ap, n) :: l2) -> free fuel ap h = Some h' -> run h' (l1 ++ l2).

Definition block_of (x : Z * Z) : Z := x.1 - HEADER.

(** The invariant of these states. *)
Definition live_ok (h : heap) (live : list (Z * Z)) : Prop :=
  (exists L, hinv base lo h L (map block_of live)) /\
  (forall ap n, (ap, n) ∈ live -> n <= HEADER * (hsize h (ap - HEADER) - 1)).

Definition reach_ok (h : heap) (live : list (Z * Z)) : Prop :=
  live_ok h live \/ (freep h = 0 /\ brk h = lo /\ live = []).

Hypothesis grant_ok : forall b n, grant b n = true -> b + n <= 2 ^ 36.
Hypothesis base_ok : 0 < base /\ base + HEADER <= lo <= 2 ^ 36.

Lemma malloc_live h live n :
  reach_ok h live -> 0 <= n <= 2 ^ 31 - 32 ->
  exists fuel r h', malloc base grant fuel n h = Some (r, h') /\
    live_ok h' (if r =? 0 then live else (r, n) :: live).
Proof.
  intros Hr Hn.
  assert (Hgen : forall h, live_ok h live -> exists fuel r h', malloc base grant fuel n h = Some (r, h') /\
    live_ok h' (if r =? 0 then live else (r, n) :: live)).
  { intros g [[L Hi] Hsz]. destruct (malloc_ok base lo grant grant_ok g L (map block_of live) n (2 * length L + 5) Hi Hn ltac:(lia))
      as (r & h' & Hm & [(b & L' & -> & Hi' & Hb & Ha)|(-> & -> & _)]); eexists _, _, _.
    - split; [exact Hm|]. pose proof (hi_base _ _ _ _ _ Hi').
      destruct (bk_in _ _ _ _ (hi_blocks _ _ _ _ _ Hi') b) as [? _]; [set_solver|].
      destruct (Z.eqb_spec (b + HEADER) 0); [unfold HEADER in *; lia|]. split.
      + exists L'. simpl. unfold block_of at 1. simpl. by replace (b + HEADER - HEADER) with b by lia.
      + intros ap k [[= -> ->]|Hin]%elem_of_cons.
        * replace (b + HEADER - HEADER) with b by lia. rewrite Hb. by apply units_for_bound.
        * rewrite Ha; [by apply Hsz|]. apply list_elem_of_In, in_map_iff. exists (ap, k). split; [done|].
          by apply list_elem_of_In.
    - split; [exact Hm|]. simpl. split; [by exists L|done]. }
  destruct Hr as [Hr|(Hf & Hb & ->)]; [by apply Hgen|].
  destruct base_ok as [B1 B2].
  destruct (malloc_first base lo grant grant_ok h n 0 B1 B2 Hf Hb) as [Hi _].
  destruct (Hgen (set_hdr base base 0 (set_freep base h))) as (fuel & r & h' & Hm & Hl).
  { split; [by exists []|]. intros ap k Hin. by apply elem_of_nil in Hin. }
  exists fuel, r, h'. split; [|done]. by destruct (malloc_first base lo grant grant_ok h n fuel B1 B2 Hf Hb) as [_ ->].
Qed.

Lemma free_live h l1 ap n l2 :
  live_ok h (l1 ++ (ap, n) :: l2) ->
  exists fuel h', free fuel ap h = Some h' /\ live_ok h' (l1 ++ l2).
Proof.
  intros [[L Hi] Hsz]. rewrite map_app in Hi. simpl in Hi.
  destruct (free_ok base lo h L _ (map block_of (l1 ++ l2)) (block_of (ap, n)) (length L + 2) Hi) as (h' & L' & Hf & Hi' & _ & Hs & _).
  - rewrite map_app. symmetry. apply Permutation_middle.
  - lia.
  - exists (length L + 2)%nat, h'. unfold block_of in Hf. simpl in Hf. replace (ap - HEADER + HEADER) with ap in Hf by lia.
    split; [done|]. split; [by exists L'|]. intros a k Hin. rewrite Hs.
    + apply Hsz. apply elem_of_app in Hin as [?|?]; apply elem_of_app; [by left|right; by right].
    + apply list_elem_of_In, in_map_iff. exists (a, k). split; [done|]. by apply list_elem_of_In.
Qed.

Lemma run_ok h live : run h live -> reach_ok h live.
Proof.
  induction 1 as [h Hf Hb|fuel n h live r h' _ IH Hn Hm|fuel h l1 ap n l2 h' _ IH Hf].
  - by right.
  - left. destruct (malloc_live h live n IH Hn) as (fuel' & r' & h'' & Hm' & Hl).
    apply (malloc_mono _ _ _ (Nat.max fuel fuel')) in Hm; [|lia].
    apply (malloc_mono _ _ _ (Nat.max fuel fuel')) in Hm'; [|lia]. by simplify_eq.
  - left. destruct IH as [IH|(_ & _ & IH)]; [|by destruct l1].
    destruct (free_live h l1 ap n l2 IH) as (fuel' & h'' & Hf' & Hl).
    apply (free_mono _ (Nat.max fuel fuel')) in Hf; [|lia].
    apply (free_mono _ (Nat.max fuel fuel')) in Hf'; [|lia]. by simplify_eq.
Qed.
End clients.

(** * Properties *)


(** A heap at address 4096, a kernel that gives it up to 1 MiB, and a program
    that allocates three blocks and frees the middle one. *)
Definition heap0 : heap := Heap (fun _ => Hdr 0 0) 0 4096.
Definition grant0 (b n : Z) : bool := b + n <=? 2 ^ 20.

(** [malloc] fails only when it must.  If a reachable heap answers 0, the
    kernel has refused to extend it, no free block is large enough, and nothing
    has been lost: the free and the live blocks still tile the whole heap, and
    no two free blocks are neighbours. *)
Theorem malloc_null base grant lo h live fuel n h' :
  (forall b n, grant b n = true -> b + n <= 2 ^ 36) -> 0 < base -> base + HEADER <= lo <= 2 ^ 36 ->
  run base grant lo h live -> 0 <= n <= 2 ^ 31 - 32 -> malloc base grant fuel n h = Some (0, h') ->
  grant (brk h) (HEADER * Z.max (units_for n) 4096) = false /\
  exists L, blocks lo (brk h') h' (L ++ map block_of live) /\ spaced h' L /\
    (forall q, q ∈ L -> hsize h' q < units_for n).
Proof.
  intros Hg Hb Hlo Hrun Hn Hm. pose proof (run_ok _ _ _ Hg (conj Hb Hlo) _ _ Hrun) as Hr.
  assert (Hgen : forall g, brk g = brk h -> malloc base grant fuel n g = Some (0, h') -> live_ok base lo g live ->
    grant (brk h) (HEADER * Z.max (units_for n) 4096) = false /\
    exists L, blocks lo (brk h') h' (L ++ map block_of live) /\ spaced h' L /\ (forall q, q ∈ L -> hsize h' q < units_for n)).
  { intros g Hbrk Hmg [[L Hi] _]. set (f := (2 * length L + 5 + fuel)%nat).
    apply (malloc_mono _ _ _ f) in Hmg; [|lia].
    destruct (malloc_ok base lo grant Hg g L (map block_of live) n f Hi Hn ltac:(lia)) as (r & g' & Hm' & Hres).
    rewrite Hmg in Hm'. injection Hm' as <- <-. destruct Hres as [(b & L' & E & Hi' & _)|(_ & -> & Hsm & Hgr)].
    - destruct (bk_in _ _ _ _ (hi_blocks _ _ _ _ _ Hi') b) as [? _]; [set_solver|]. unfold HEADER in *. lia.
    - rewrite <-Hbrk. split; [done|]. exists L. split; [apply (hi_blocks _ _ _ _ _ Hi)|]. split; [|done].
      apply (sorted_cons _ base), (hi_spaced _ _ _ _ _ Hi). }
  destruct Hr as [Hr|(Hf & Hbrk & ->)]; [by apply (Hgen h)|].
  destruct (malloc_first base lo grant Hg h n fuel Hb Hlo Hf Hbrk) as [Hi E]. rewrite E in Hm.
  eapply Hgen; [|exact Hm|]; [done|]. split; [by exists []|]. intros ap k Hin. by apply elem_of_nil in Hin.
Qed.

(** A kernel without memory. *)
Lemma malloc_null_witness :
  exists h', malloc 64 (fun _ _ => false) 10 100 heap0 = Some (0, h') /\
    exists L, blocks 4096 (brk h') h' (L ++ []) /\ spaced h' L.
Proof.
  destruct (malloc 64 (fun _ _ => false) 10 100 heap0) as [[r h']|] eqn:E; [|by vm_compute in E].
  assert (Hr : r = 0) by (vm_compute in E; congruence). subst r. exists h'. split; [done|].
  destruct (malloc_null 64 (fun _ _ => false) 4096 heap0 [] 10 100 h') as [_ (L & HL & Hs & _)].
  - done.
  - lia.
  - unfold HEADER. lia.
  - by apply run_start.
  - lia.
  - done.
  - eauto.
Defined.

(** The [int] that a request of 2 GiB passes to [sbrk] is negative. *)
Lemma morecore_wraps nu : 2 ^ 27 <= nu < 2 ^ 28 -> s32 (nu * HEADER) < 0.
Proof.
  intros Hn. unfold s32, HEADER.
  replace (nu * 16 + 2 ^ 31) with (nu * 16 - 2 ^ 31 + 1 * 2 ^ 32) by lia.
  rewrite Z.mod_add, Z.mod_small; lia.
Qed.
