(* ===== verification/Sh.v ===== *)
(** The shell, user/sh.c: its parser, which builds a tree of command structures
    whose strings are pointers into the command line, and the execution of such
    a tree.

    The structures of a parse are the list [nodes]; a pointer to a structure is
    its index.  Each constructor allocates a new structure: [malloc] returning 0
    is not modelled.  [panic] of the shell is the outcome [Panic] while parsing
    and an exit with status 1 while running. *)

From Stdlib Require Import ZArith Lia List String Bool.
From stdpp Require Import base tactics numbers list functions sets.
From S2P Require Import Prelude.
From S2P Require Import Abi.
From S2P Require Import Cstring.
From S2P Require Import User.
From S2P Require Import Printf.
From S2P Require Import Ulib.

Definition MAXARGS : nat := 10.

(** The five structures.  The arrays [argv] and [eargv] are the pointers before
    the terminating 0. *)
Inductive node : Type :=
| EXEC (argv eargv : list Z)
| REDIR (cmd : nat) (file efile mode fd : Z)
| PIPE (left right : nat)
| LIST (left right : nat)
| BACK (cmd : nat).

(** * Parsing *)

(** The pointer [*ps] into the line and the structures built so far. *)
Record pstate : Type := PState { ps : Z; nodes : list node }.

(** " \t\r\n\v" and "<|>&;()" *)
Definition whitespace : list Z := [32; 9; 13; 10; 11].
Definition symbols : list Z := [60; 124; 62; 38; 59; 40; 41].
Definition one_of (l : list Z) (c : Z) : bool := existsb (Z.eqb c) l.

Definition alloc (n : node) : M pstate nat :=
  fun s => Ok (length (nodes s)) (PState (ps s) (nodes s ++ [n])).

(** The constructors. *)
Definition execcmd : M pstate nat := alloc (EXEC [] []).
Definition redircmd (subcmd : nat) (file efile mode fd : Z) : M pstate nat :=
  alloc (REDIR subcmd file efile mode fd).
Definition pipecmd (left right : nat) : M pstate nat := alloc (PIPE left right).
Definition listcmd (left right : nat) : M pstate nat := alloc (LIST left right).
Definition backcmd (subcmd : nat) : M pstate nat := alloc (BACK subcmd).

Section parser.
(** The memory with the line, and the address of its NUL. *)
Variables (m : mem) (es : Z).

(** [while(s < es && p( *s)) s++;] *)
Fixpoint scan_while (p : Z -> bool) (k : nat) (s : Z) : Z :=
  match k with
  | O => s
  | S k' => if p (m s) then scan_while p k' (s + 1) else s
  end.
Definition skip (p : Z -> bool) (s : Z) : Z := scan_while p (Z.to_nat (es - s)) s.

(** The token code and its two ends [q] and [eq]. *)
Definition gettoken : M pstate (Z * Z * Z) :=
  fun st =>
    let s := skip (one_of whitespace) (ps st) in
    let q := s in
    let c := m s in
    let '(r, s) :=
      if c =? 0 then (0, s)
      else if one_of [124; 40; 41; 59; 38; 60] c then (c, s + 1)
      else if c =? 62 then (if m (s + 1) =? 62 then (43, s + 2) else (c, s + 1))
      else (97, skip (fun c => negb (one_of whitespace c) && negb (one_of symbols c)) s) in
    let eq := s in
    let s := skip (one_of whitespace) s in
    Ok (r, q, eq) (PState s (nodes st)).

Definition peek (toks : list Z) : M pstate bool :=
  fun st =>
    let s := skip (one_of whitespace) (ps st) in
    Ok (negb (m s =? 0) && one_of toks (m s)) (PState s (nodes st)).

(** Opens of the three redirections. *)
Definition mode_in : Z := O_RDONLY.
Definition mode_out : Z := Z.lor (Z.lor O_WRONLY O_CREATE) O_TRUNC.
Definition mode_app : Z := Z.lor O_WRONLY O_CREATE.

Fixpoint parseredirs (fuel : nat) (cmd : nat) : M pstate nat :=
  match fuel with
  | O => spin
  | S f =>
      more <- peek [60; 62] ;;
      if negb more then ret cmd else
      tok <- gettoken ;;
      t <- gettoken ;;
      let '(r, q, eq) := t in
      if negb (r =? 97) then panic "missing file for redirection" else
      cmd <- (if tok.1.1 =? 60 then redircmd cmd q eq mode_in 0
              else if tok.1.1 =? 62 then redircmd cmd q eq mode_out 1
              else if tok.1.1 =? 43 then redircmd cmd q eq mode_app 1
              else ret cmd) ;;
      parseredirs f cmd
  end.

(** [cmd->argv[argc] = q; cmd->eargv[argc] = eq; argc++;] *)
Definition add_arg (c : nat) (q eq : Z) : M pstate unit :=
  modify (fun st =>
    match nodes st !! c with
    | Some (EXEC argv eargv) => PState (ps st) (<[c := EXEC (argv ++ [q]) (eargv ++ [eq])]> (nodes st))
    | _ => st
    end).

(** The loop of [parseexec], with the execcmd [c] and the command [cmd] that
    wraps it. *)
Fixpoint parseargs (fuel : nat) (c cmd : nat) (argc : nat) : M pstate nat :=
  match fuel with
  | O => spin
  | S f =>
      stop <- peek [124; 41; 38; 59] ;;
      if stop : bool then ret cmd else
      t <- gettoken ;;
      let '(r, q, eq) := t in
      if r =? 0 then ret cmd else
      if negb (r =? 97) then panic "syntax" else
      add_arg c q eq ;;;
      if (MAXARGS <=? S argc)%nat then panic "too many args" else
      cmd <- parseredirs f cmd ;;
      parseargs f c cmd (S argc)
  end.

(** [while(peek(ps, es, "&"))] of [parseline] *)
Fixpoint parseback (fuel : nat) (cmd : nat) : M pstate nat :=
  match fuel with
  | O => spin
  | S f =>
      more <- peek [38] ;;
      if negb more then ret cmd else
      gettoken ;;;
      cmd <- backcmd cmd ;;
      parseback f cmd
  end.

Fixpoint parseline (fuel : nat) : M pstate nat :=
  match fuel with
  | O => spin
  | S f =>
      cmd <- parsepipe f ;;
      cmd <- parseback f cmd ;;
      more <- peek [59] ;;
      if more : bool then
        gettoken ;;;
        rest <- parseline f ;;
        listcmd cmd rest
      else ret cmd
  end
with parsepipe (fuel : nat) : M pstate nat :=
  match fuel with
  | O => spin
  | S f =>
      cmd <- parseexec f ;;
      more <- peek [124] ;;
      if more : bool then
        gettoken ;;;
        rest <- parsepipe f ;;
        pipecmd cmd rest
      else ret cmd
  end
with parseexec (fuel : nat) : M pstate nat :=
  match fuel with
  | O => spin
  | S f =>
      block <- peek [40] ;;
      if block : bool then parseblock f else
      c <- execcmd ;;
      cmd <- parseredirs f c ;;
      parseargs f c cmd 0
  end
with parseblock (fuel : nat) : M pstate nat :=
  match fuel with
  | O => spin
  | S f =>
      open <- peek [40] ;;
      if negb open then panic "parseblock" else
      gettoken ;;;
      cmd <- parseline f ;;
      close <- peek [41] ;;
      if negb close then panic "syntax - missing )" else
      gettoken ;;;
      parseredirs f cmd
  end.
End parser.

(** [nulterminate]: a NUL after every counted string.  A pointer that is no
    structure of the tree, which the C has not, stops it. *)
Fixpoint nulterminate (fuel : nat) (ns : list node) (cmd : nat) (m : mem) : option mem :=
  match fuel with
  | O => None
  | S f =>
      match ns !! cmd with
      | None => None
      | Some (EXEC argv eargv) => Some (fold_left (fun m e => store8 e 0 m) eargv m)
      | Some (REDIR c _ efile _ _) =>
          match nulterminate f ns c m with Some m => Some (store8 efile 0 m) | None => None end
      | Some (PIPE l r) | Some (LIST l r) =>
          match nulterminate f ns l m with Some m => nulterminate f ns r m | None => None end
      | Some (BACK c) => nulterminate f ns c m
      end
  end.

(** [parsecmd]: the command, its structures and the memory with the NULs. *)
Definition parsecmd (fuel : nat) (s : Z) (m : mem) : res pstate (nat * mem) :=
  match strlen_loop fuel s 0 m with
  | None => Undef
  | Some n =>
      let es := s + n in
      (cmd <- parseline m es fuel ;;
       peek m es [] ;;;
       st <- get ;;
       if negb (ps st =? es) then panic "syntax" else
       match nulterminate fuel (nodes st) cmd m with
       | Some m' => ret (cmd, m')
       | None => spin
       end) (PState s [])
  end.

(** * Running a command *)

Section runcmd.
Context {W : Type} `{Unix W}.
Local Open Scope user_scope.

(** Bound on the lengths of strings. *)
Variable bound : nat.

(** The C string at an address. *)
Definition ustr (a : Z) : UM W (list Z) :=
  n <- uscan (strlen_loop bound a 0) ;; upeek (load_bytes (Z.to_nat n) a).
Fixpoint ustrs (l : list Z) : UM W (list (list Z)) :=
  match l with
  | [] => uret []
  | a :: l' => s <- ustr a ;; ss <- ustrs l' ;; uret (s :: ss)
  end.

Definition sh_panic {A : Type} (s : string) : UM W A :=
  fprintf 2 (ln "%s") [ArgStr (Some (str s))] ;;; uexit 1.

Definition fork1 : UM W Z :=
  pid <- ucall os_fork ;;
  if pid =? -1 then sh_panic "fork" else uret pid.

(** The child of a fork runs a command and never returns; [None] for the
    pointer [cmd == 0]. *)
Fixpoint runcmd (fuel : nat) (ns : list node) (cmd : option nat) : UM W unit :=
  match fuel with
  | O => uhang
  | S f =>
      match cmd with
      | None => uexit 1
      | Some cmd =>
          match ns !! cmd with
          | None => ufault
          | Some (EXEC argv _) =>
              match argv with
              | [] => uexit 1
              | _ :: _ =>
                  args <- ustrs argv ;;
                  uexec (hd [] args) args ;;;
                  fprintf 2 (ln "exec %s failed") [ArgStr (Some (hd [] args))] ;;;
                  uexit 0
              end
          | Some (REDIR c file _ mode fd) =>
              ucall (os_close fd) ;;;
              path <- ustr file ;;
              r <- ucall (os_open path mode) ;;
              if r <? 0 then
                fprintf 2 (ln "open %s failed") [ArgStr (Some path)] ;;; uexit 1
              else runcmd f ns (Some c)
          | Some (LIST l r) =>
              pid <- fork1 ;;
              if pid =? 0 then runcmd f ns (Some l) else
              ucall os_wait ;;;
              runcmd f ns (Some r)
          | Some (PIPE l r) =>
              p <- ucall os_pipe ;;
              if p.1 <? 0 then sh_panic "pipe" else
              pid <- fork1 ;;
              if pid =? 0 then
                ucall (os_close 1) ;;; ucall (os_dup p.2.2) ;;;
                ucall (os_close p.2.1) ;;; ucall (os_close p.2.2) ;;;
                runcmd f ns (Some l)
              else
              pid <- fork1 ;;
              if pid =? 0 then
                ucall (os_close 0) ;;; ucall (os_dup p.2.1) ;;;
                ucall (os_close p.2.1) ;;; ucall (os_close p.2.2) ;;;
                runcmd f ns (Some r)
              else
              ucall (os_close p.2.1) ;;; ucall (os_close p.2.2) ;;;
              ucall os_wait ;;; ucall os_wait ;;;
              uexit 0
          | Some (BACK c) =>
              pid <- fork1 ;;
              if pid =? 0 then runcmd f ns (Some c) else uexit 0
          end
      end
  end.

Definition getcmd (buf nbuf : Z) : UM W Z :=
  uput 2 (str "$ ") ;;;
  upoke (u_memset buf 0 nbuf) ;;;
  u_gets buf nbuf ;;;
  c <- upeek (fun m => m buf) ;;
  uret (if c =? 0 then -1 else 0).

(** [while((fd = open("console", O_RDWR)) >= 0)]: three descriptors are open. *)
Fixpoint open_console (fuel : nat) : UM W unit :=
  match fuel with
  | O => uhang
  | S f =>
      fd <- ucall (os_open (str "console") O_RDWR) ;;
      if fd <? 0 then uret tt
      else if 3 <=? fd then ucall (os_close fd) ;;; uret tt
      else open_console f
  end.

(** [runcmd(parsecmd(buf))] in the child; the message about leftovers is not
    modelled. *)
Definition run_line (fuel : nat) (buf : Z) : UM W unit :=
  r <- upeek (parsecmd fuel buf) ;;
  match r with
  | Ok (cmd, m') st => upoke (fun _ => m') ;;; runcmd fuel (nodes st) (Some cmd)
  | Panic msg => sh_panic msg
  | Spin | Asleep => uhang
  | Undef => ufault
  end.

(** The loop of [main] with the line buffer at [buf]. *)
Fixpoint sh_loop (fuel : nat) (buf : Z) : UM W unit :=
  match fuel with
  | O => uhang
  | S f =>
      r <- getcmd buf 100 ;;
      if r <? 0 then uexit 0 else
      cd <- upeek (fun m => (m buf =? 99) && (m (buf + 1) =? 100) && (m (buf + 2) =? 32)) ;;
      if cd : bool then
        n <- uscan (strlen_loop bound buf 0) ;;
        upoke (store8 (buf + n - 1) 0) ;;;
        path <- ustr (buf + 3) ;;
        r <- ucall (os_chdir path) ;;
        uwhen (r <? 0) (fprintf 2 (ln "cannot cd %s") [ArgStr (Some path)]) ;;;
        sh_loop f buf
      else
        pid <- fork1 ;;
        if pid =? 0 then run_line f buf else
        ucall os_wait ;;;
        sh_loop f buf
  end.
Definition sh_main (fuel : nat) (buf : Z) : UM W unit :=
  open_console fuel ;;; sh_loop fuel buf.
End runcmd.
