(* ===== verification/Shparse.v ===== *)
(** The shell's parser (user/sh.c) against the grammar of its command language:
    the tokens of a line, the structure that a sequence of tokens has, and the
    tree that [parsecmd] must build for it. *)

From Stdlib Require Import ZArith Lia List String Bool.
From stdpp Require Import base tactics numbers list functions sets.
From S2P Require Import Prelude.
From S2P Require Import Abi.
From S2P Require Import Cstring.
From S2P Require Import User.
From S2P Require Import Ulib.
From S2P Require Import Sh.

(** * Tokens and their spelling *)

Inductive token : Type :=
| TWord (w : list Z)
| TSym (c : Z)
| TApp.

Definition is_ws : Z -> bool := one_of whitespace.
Definition wordc (c : Z) : bool := negb (one_of whitespace c) && negb (one_of symbols c).
(** The characters that are tokens by themselves; '>' may begin a ">>". *)
Definition single : list Z := [124; 40; 41; 59; 38; 60].

Definition starts (p : Z -> bool) (txt : list Z) : Prop :=
  match txt with [] => False | c :: _ => p c = true end.

(** The texts that spell a sequence of tokens: any white space between tokens,
    where a word is as long as possible and '>' is not followed by another. *)
Inductive spells : list Z -> list token -> Prop :=
| spells_end ws : Forall (fun c => is_ws c = true) ws -> spells ws []
| spells_word ws w txt toks :
    Forall (fun c => is_ws c = true) ws -> w <> [] -> Forall (fun c => wordc c = true) w ->
    ~ starts wordc txt -> spells txt toks -> spells (ws ++ w ++ txt) (TWord w :: toks)
| spells_single ws c txt toks :
    Forall (fun c => is_ws c = true) ws -> one_of single c = true -> spells txt toks ->
    spells (ws ++ c :: txt) (TSym c :: toks)
| spells_gt ws txt toks :
    Forall (fun c => is_ws c = true) ws -> ~ starts (Z.eqb 62) txt -> spells txt toks ->
    spells (ws ++ 62 :: txt) (TSym 62 :: toks)
| spells_app ws txt toks :
    Forall (fun c => is_ws c = true) ws -> spells txt toks ->
    spells (ws ++ 62 :: 62 :: txt) (TApp :: toks).

Definition code (t : token) : Z := match t with TWord _ => 97 | TSym c => c | TApp => 43 end.
Definition first (t : token) : Z := match t with TWord w => hd 0 w | TSym c => c | TApp => 62 end.

Lemma spells_length txt toks : spells txt toks -> (length toks <= length txt)%nat.
Proof.
  induction 1; simpl; rewrite ?length_app; simpl; try lia.
  destruct w; [done|]. simpl in *. lia.
Qed.

(** White space in front does not matter. *)
Lemma spells_skip txt toks :
  spells txt toks -> exists ws txt', txt = ws ++ txt' /\ Forall (fun c => is_ws c = true) ws /\
    spells txt' toks /\ ~ starts is_ws txt'.
Proof.
  assert (Hsym : forall c, one_of single c = true -> is_ws c = false).
  { intros c Hc. unfold one_of in Hc. apply existsb_exists in Hc as (x & Hx & E%Z.eqb_eq). subst x.
    simpl in Hx. by repeat destruct Hx as [<-|Hx]. }
  destruct 1 as [ws H|ws w txt toks H Hw Hf Hn Hs|ws c txt toks H Hc Hs|ws txt toks H Hn Hs|ws txt toks H Hs].
  - exists ws, []. rewrite app_nil_r. split_and!; [done|done|by apply spells_end|by intros []].
  - exists ws, (w ++ txt). split_and!; [done|done|by apply (spells_word [])|].
    destruct w as [|c w]; [done|]. simpl. inversion Hf as [|? ? Hc _]; subst. unfold wordc in Hc.
    unfold is_ws. by destruct (one_of whitespace c).
  - exists ws, (c :: txt). split_and!; [done|done|by apply (spells_single [])|]. simpl. by rewrite Hsym.
  - exists ws, (62 :: txt). split_and!; [done|done|by apply (spells_gt [])|done].
  - exists ws, (62 :: 62 :: txt). split_and!; [done|done|by apply (spells_app [])|done].
Qed.

Lemma wordc_head w :
  w <> [] -> Forall (fun c => wordc c = true) w ->
  exists c w', w = c :: w' /\ one_of single c = false /\ c <> 62.
Proof.
  intros Hne Hf. destruct w as [|c w]; [done|]. exists c, w. split; [done|]. inversion Hf as [|? ? Hc _]; subst.
  apply andb_true_iff in Hc as [_ Hc]. apply negb_true_iff in Hc. unfold one_of, symbols, single in *. simpl in *. lia.
Qed.

(** * Reading tokens *)

Section tokens.
Variables (m : mem) (es : Z).

(** The rest of the line from [s] on spells [toks]. *)
Definition text (s : Z) (txt : list Z) : Prop := cstr m s txt /\ s + Z.of_nat (length txt) = es.
Definition at_ (s : Z) (toks : list token) : Prop := exists txt, text s txt /\ spells txt toks.

(** The word [w] occupies the bytes from [q] to [e], where it ends. *)
Definition word_at (q e : Z) (w : list Z) : Prop :=
  load_bytes (length w) q m = w /\ e = q + Z.of_nat (length w) /\
  Forall (fun c => c <> 0 /\ wordc c = true) w /\ (m e = 0 \/ wordc (m e) = false).

Lemma text_app s l1 l2 : text s (l1 ++ l2) -> text (s + Z.of_nat (length l1)) l2.
Proof.
  intros [Hs He]. apply cstr_app in Hs as (_ & _ & Hs). split; [done|]. rewrite length_app in He. lia.
Qed.

Lemma text_head s txt : text s txt -> m s = hd 0 txt /\ Forall (fun c => c <> 0) txt.
Proof.
  intros [Hs _]. apply cstr_load in Hs as Hl. split; [|apply Hl]. destruct txt; simpl in *; [done|]. apply Hs.
Qed.

Lemma skip_text p s l1 l2 :
  text s (l1 ++ l2) -> Forall (fun c => p c = true) l1 -> ~ starts p l2 ->
  skip m es p s = s + Z.of_nat (length l1).
Proof.
  intros Ht Hp Hn. unfold skip.
  assert (Hk : Z.to_nat (es - s) = length (l1 ++ l2)) by (destruct Ht; lia). rewrite Hk. clear Hk.
  revert s Ht. induction Hp as [|c l1 Hc _ IH]; intros s Ht.
  - simpl. rewrite Z.add_0_r. pose proof (text_head _ _ Ht) as [Hh _]. destruct l2 as [|c l2]; [done|].
    simpl in *. rewrite Hh. by destruct (p c).
  - pose proof (text_head _ _ Ht) as [Hh _]. simpl in *. rewrite Hh, Hc, IH.
    + lia.
    + apply (text_app s [c] (l1 ++ l2) Ht).
Qed.

(** [peek] looks at the first character of the next token. *)
Lemma peek_at cs s toks ns :
  at_ s toks -> exists s', peek m es cs (PState s ns) =
    Ok (match toks with [] => false | t :: _ => one_of cs (first t) end) (PState s' ns) /\ at_ s' toks.
Proof.
  intros (txt & Ht & Hs). destruct (spells_skip _ _ Hs) as (ws & txt' & -> & Hw & Hs' & Hn).
  exists (s + Z.of_nat (length ws)). pose proof (text_app _ _ _ Ht) as Ht'.
  split; [|by exists txt']. unfold peek. cbn [ps nodes]. fold is_ws. rewrite (skip_text _ s ws txt' Ht Hw Hn).
  pose proof (text_head _ _ Ht') as [-> Hnz]. do 2 f_equal.
  assert (Hc : match toks with [] => txt' = [] | t :: _ => hd 0 txt' = first t /\ txt' <> [] end).
  { clear -Hs' Hn. destruct Hs' as [ws H|ws w txt toks H Hw Hf _ _|ws c txt toks H _ _|ws txt toks H _ _|ws txt toks H _];
      destruct ws as [|c' ws]; simpl in *; try (inversion H; subst; done); try done.
    destruct w; done. }
  destruct toks as [|t toks]; [by subst txt'|]. destruct Hc as [<- Hne].
  destruct txt' as [|c txt']; [done|]. inversion Hnz; subst. simpl. by destruct (Z.eqb_spec c 0).
Qed.

(** The end of a token, from which [gettoken] skips white space. *)
Lemma at_skip s txt toks : text s txt -> spells txt toks -> at_ (skip m es is_ws s) toks.
Proof.
  intros Ht Hs. destruct (spells_skip _ _ Hs) as (ws & txt' & -> & Hw & Hs' & Hn).
  rewrite (skip_text _ s ws txt' Ht Hw Hn). exists txt'. split; [by apply (text_app s ws)|done].
Qed.

(** [gettoken] returns the next token and moves behind it. *)
Lemma gettoken_at s t toks ns :
  at_ s (t :: toks) -> exists q e s', gettoken m es (PState s ns) = Ok (code t, q, e) (PState s' ns) /\
    at_ s' toks /\ match t with TWord w => word_at q e w | _ => True end.
Proof.
  intros (txt & Ht & Hs). destruct (spells_skip _ _ Hs) as (ws & txt' & -> & Hw & Hs' & Hn).
  pose proof (text_app _ _ _ Ht) as Ht'. pose proof (text_head _ _ Ht') as [Hh Hnz].
  unfold gettoken. cbn [ps nodes]. fold is_ws. rewrite (skip_text _ s ws txt' Ht Hw Hn). cbv zeta.
  set (p := s + Z.of_nat (length ws)) in *. rewrite Hh. clear Hs Ht Hh.
  inversion Hs' as [|ws' w txt toks' Hws Hwne Hf Hnw Hsp|ws' c txt toks' Hws Hc Hsp|ws' txt toks' Hws Hng Hsp|ws' txt toks' Hws Hsp];
    subst; (assert (ws' = []) as -> by (destruct ws'; [done|inversion Hws; subst; simpl in Hn; congruence])); simpl app in *.
  - pose proof (wordc_head w Hwne Hf) as (c & w' & -> & Hc1 & Hc2). simpl hd.
    assert (c <> 0) by (by inversion Hnz). destruct (Z.eqb_spec c 0); [done|].
    unfold single in Hc1. rewrite Hc1. destruct (Z.eqb_spec c 62); [done|].
    change (fun c => negb (is_ws c) && negb (one_of symbols c)) with wordc.
    rewrite (skip_text wordc p (c :: w') txt Ht' Hf Hnw). eexists _, _, _. split; [done|].
    pose proof (text_app p (c :: w') txt Ht') as Ht2. split; [by eapply at_skip|].
    pose proof (proj1 (cstr_app _ _ _ _) (proj1 Ht')) as (Hl & Hz & _). split_and!; [done|done| |].
    + rewrite Forall_forall in *. intros x Hx. split; [by apply Hz|by apply Hf].
    + rewrite (proj1 (text_head _ _ Ht2)). destruct txt as [|b txt]; [by left|right]. simpl in *. by destruct (wordc b).
  - simpl hd. assert (Hcz : c <> 0) by (by inversion Hnz). destruct (Z.eqb_spec c 0); [done|]. unfold single in Hc. rewrite Hc.
    eexists _, _, _. split; [done|]. split; [|done]. apply (at_skip _ txt); [apply (text_app p [c] txt Ht')|done].
  - simpl hd. change (62 =? 0) with false. change (one_of _ 62) with false. change (62 =? 62) with true. cbn iota.
    pose proof (text_app p [62] txt Ht') as Ht2. change (Z.of_nat (length [62])) with 1 in Ht2. rewrite (proj1 (text_head _ _ Ht2)).
    assert (E : (hd 0 txt =? 62) = false) by (destruct txt as [|b txt]; [done|]; simpl in *; destruct (Z.eqb_spec b 62); [subst; done|done]).
    rewrite E. eexists _, _, _. split; [done|]. split; [|done]. by apply (at_skip _ txt).
  - simpl hd. change (62 =? 0) with false. change (one_of _ 62) with false. change (62 =? 62) with true. cbn iota.
    pose proof (text_app p [62] (62 :: txt) Ht') as Ht2. change (Z.of_nat (length [62])) with 1 in Ht2. rewrite (proj1 (text_head _ _ Ht2)). simpl hd.
    change (62 =? 62) with true. cbn iota. pose proof (text_app p [62; 62] txt Ht') as Ht3. change (Z.of_nat (length [62; 62])) with 2 in Ht3.
    eexists _, _, _. split; [done|]. split; [|done]. by apply (at_skip _ txt).
Qed.

(** At the end of the line [gettoken] returns 0. *)
Lemma gettoken_end s ns :
  at_ s [] -> exists q e s', gettoken m es (PState s ns) = Ok (0, q, e) (PState s' ns) /\ at_ s' [].
Proof.
  intros (txt & Ht & Hs). destruct (spells_skip _ _ Hs) as (ws & txt' & -> & Hw & Hs' & Hn).
  assert (txt' = []) as ->. { inversion Hs'; subst. destruct txt'; [done|]. inversion H; subst. done. }
  pose proof (text_app _ _ _ Ht) as Ht'. pose proof (text_head _ _ Ht') as [Hh _].
  unfold gettoken. cbn [ps nodes]. fold is_ws. rewrite (skip_text _ s ws [] Ht Hw Hn). cbv zeta. rewrite Hh. simpl.
  eexists _, _, _. split; [done|]. by apply (at_skip _ []).
Qed.
End tokens.

(** * The grammar *)

Inductive rkind : Type := RIn | ROut | RApp.
Definition redir : Type := rkind * list Z.

(** A line is a sequence of pipelines separated by ';', each followed by any
    number of '&'; a pipeline is a sequence of commands; a command is a block or
    words with redirections before, between and after them. *)
Inductive line : Type :=
| LineLast (p : pipeline) (backs : nat)
| LineSeq (p : pipeline) (backs : nat) (l : line)
with pipeline : Type :=
| PipeLast (c : command)
| PipeSeq (c : command) (p : pipeline)
with command : Type :=
| Block (l : line) (rs : list redir)
| Simple (rs : list redir) (args : list (list Z * list redir)).

Definition rtok (k : rkind) : token := match k with RIn => TSym 60 | ROut => TSym 62 | RApp => TApp end.
Definition toks_redirs (rs : list redir) : list token :=
  concat (map (fun r => [rtok r.1; TWord r.2]) rs).
Definition toks_args (args : list (list Z * list redir)) : list token :=
  concat (map (fun a => TWord a.1 :: toks_redirs a.2) args).
Fixpoint toks_line (l : line) : list token :=
  match l with
  | LineLast p n => toks_pipe p ++ repeat (TSym 38) n
  | LineSeq p n l => toks_pipe p ++ repeat (TSym 38) n ++ TSym 59 :: toks_line l
  end
with toks_pipe (p : pipeline) : list token :=
  match p with
  | PipeLast c => toks_cmd c
  | PipeSeq c p => toks_cmd c ++ TSym 124 :: toks_pipe p
  end
with toks_cmd (c : command) : list token :=
  match c with
  | Block l rs => TSym 40 :: toks_line l ++ TSym 41 :: toks_redirs rs
  | Simple rs args => toks_redirs rs ++ toks_args args
  end.

Lemma length_toks_redirs rs : length (toks_redirs rs) = (2 * length rs)%nat.
Proof.
  induction rs as [|r rs IH]; [done|].
  change (toks_redirs (r :: rs)) with (rtok r.1 :: TWord r.2 :: toks_redirs rs). simpl length. lia.
Qed.

(** The commands that the parser builds. *)
Inductive tree : Type :=
| Exec (argv : list (list Z))
| Redir (c : tree) (k : rkind) (file : list Z)
| Pipe (l r : tree)
| Lst (l r : tree)
| Back (c : tree).

Definition redirect (c : tree) (rs : list redir) : tree := fold_left (fun c r => Redir c r.1 r.2) rs c.
Fixpoint back (n : nat) (c : tree) : tree := match n with O => c | S n' => back n' (Back c) end.
Fixpoint tree_line (l : line) : tree :=
  match l with
  | LineLast p n => back n (tree_pipe p)
  | LineSeq p n l => Lst (back n (tree_pipe p)) (tree_line l)
  end
with tree_pipe (p : pipeline) : tree :=
  match p with
  | PipeLast c => tree_cmd c
  | PipeSeq c p => Pipe (tree_cmd c) (tree_pipe p)
  end
with tree_cmd (c : command) : tree :=
  match c with
  | Block l rs => redirect (tree_line l) rs
  | Simple rs args => redirect (Exec (map fst args)) (rs ++ concat (map snd args))
  end.

(** At most nine words in a command: [argv] has ten places. *)
Fixpoint few_line (l : line) : Prop :=
  match l with
  | LineLast p _ => few_pipe p
  | LineSeq p _ l => few_pipe p /\ few_line l
  end
with few_pipe (p : pipeline) : Prop :=
  match p with
  | PipeLast c => few_cmd c
  | PipeSeq c p => few_cmd c /\ few_pipe p
  end
with few_cmd (c : command) : Prop :=
  match c with
  | Block l _ => few_line l
  | Simple _ args => (length args < MAXARGS)%nat
  end.

(** The mode and the descriptor of a redirection. *)
Definition rmode (k : rkind) : Z := match k with RIn => mode_in | ROut => mode_out | RApp => mode_app end.
Definition rfd (k : rkind) : Z := match k with RIn => 0 | _ => 1 end.

(** * The parser builds the tree *)

Section parse.
Variables (m : mem) (es : Z).

(** The structures [ns] hold the tree [t] at [p], with strings in the line. *)
Fixpoint holds (ns : list node) (p : nat) (t : tree) : Prop :=
  match t with
  | Exec ws => exists argv eargv, ns !! p = Some (EXEC argv eargv) /\
      Forall2 (fun qe w => word_at m qe.1 qe.2 w) (combine argv eargv) ws /\ length argv = length eargv
  | Redir c k w => exists p' q e, ns !! p = Some (REDIR p' q e (rmode k) (rfd k)) /\ word_at m q e w /\ holds ns p' c
  | Pipe l r => exists p1 p2, ns !! p = Some (PIPE p1 p2) /\ holds ns p1 l /\ holds ns p2 r
  | Lst l r => exists p1 p2, ns !! p = Some (LIST p1 p2) /\ holds ns p1 l /\ holds ns p2 r
  | Back c => exists p', ns !! p = Some (BACK p') /\ holds ns p' c
  end.

(** Structures once built stay. *)
Lemma holds_mono ns ns' p t : ns `prefix_of` ns' -> holds ns p t -> holds ns' p t.
Proof.
  intros Hp. revert p. induction t as [ws|c IH k w|l IHl r IHr|l IHl r IHr|c IH]; simpl; intros p.
  - intros (av & ev & Hn & H). exists av, ev. split; [by eapply prefix_lookup_Some|done].
  - intros (p' & q & e & Hn & Hw & Hc). exists p', q, e. split_and!; [by eapply prefix_lookup_Some|done|auto].
  - intros (p1 & p2 & Hn & Hl & Hr). exists p1, p2. split_and!; [by eapply prefix_lookup_Some|auto|auto].
  - intros (p1 & p2 & Hn & Hl & Hr). exists p1, p2. split_and!; [by eapply prefix_lookup_Some|auto|auto].
  - intros (p' & Hn & Hc). exists p'. split; [by eapply prefix_lookup_Some|auto].
Qed.

(** A chain of redirections [rs] from [p] down to [c]. *)
Inductive wraps (ns : list node) (c : nat) : nat -> list redir -> Prop :=
| wraps_nil : wraps ns c c []
| wraps_snoc p p' rs k w q e :
    wraps ns c p rs -> ns !! p' = Some (REDIR p q e (rmode k) (rfd k)) -> word_at m q e w ->
    wraps ns c p' (rs ++ [(k, w)]).

Lemma wraps_mono ns ns' c p rs :
  (forall i p' q e a b, ns !! i = Some (REDIR p' q e a b) -> ns' !! i = Some (REDIR p' q e a b)) ->
  wraps ns c p rs -> wraps ns' c p rs.
Proof. intros He. induction 1; econstructor; eauto. Qed.

Lemma wraps_app ns c p p' rs rs' : wraps ns c p rs -> wraps ns p p' rs' -> wraps ns c p' (rs ++ rs').
Proof.
  intros H1. induction 1; [by rewrite app_nil_r|]. rewrite app_assoc. by econstructor.
Qed.

Lemma wraps_holds ns c p rs t : wraps ns c p rs -> holds ns c t -> holds ns p (redirect t rs).
Proof.
  induction 1 as [|p p' rs k w q e _ IH Hn Hw]; intros Hc; [done|]. unfold redirect. rewrite fold_left_app. simpl.
  exists p, q, e. split_and!; [done|done|by apply IH].
Qed.

(** Tokens at which a chain of redirections, or the words of a command, end. *)
Definition follows (cs : list Z) (k : list token) : Prop :=
  match k with [] => True | t :: _ => one_of cs (first t) = true end.
Definition no_redir (k : list token) : Prop :=
  match k with [] => True | t :: _ => one_of [60; 62] (first t) = false end.

Lemma parseredirs_ok rs : forall f cmd s ns k,
  at_ m es s (toks_redirs rs ++ k) -> no_redir k -> (length rs < f)%nat ->
  exists cmd' s' ns', parseredirs m es f cmd (PState s ns) = Ok cmd' (PState s' (ns ++ ns')) /\
    at_ m es s' k /\ wraps (ns ++ ns') cmd cmd' rs.
Proof.
  induction rs as [|[kd w] rs IH]; intros f cmd s ns k Ha Hk Hf; (destruct f as [|f]; [simpl in Hf; lia|]); cbn [parseredirs].
  - destruct (peek_at m es [60; 62] s k ns Ha) as (s1 & Hp & Ha1). rewrite (bind_Ok _ _ _ _ _ Hp).
    assert (E : match k with [] => false | t :: _ => one_of [60; 62] (first t) end = false) by (by destruct k).
    rewrite E. exists cmd, s1, []. rewrite app_nil_r. split_and!; [done|done|constructor].
  - cbn [toks_redirs map concat app fst snd] in Ha. fold (toks_redirs rs) in Ha.
    destruct (peek_at m es [60; 62] s _ ns Ha) as (s1 & Hp & Ha1). rewrite (bind_Ok _ _ _ _ _ Hp).
    assert (E : one_of [60; 62] (first (rtok kd)) = true) by (by destruct kd). cbn iota beta. rewrite E. cbn [negb].
    destruct (gettoken_at m es s1 _ _ ns Ha1) as (q0 & e0 & s2 & Hg & Ha2 & _). rewrite (bind_Ok _ _ _ _ _ Hg).
    destruct (gettoken_at m es s2 _ _ ns Ha2) as (q & e & s3 & Hg2 & Ha3 & Hw). rewrite (bind_Ok _ _ _ _ _ Hg2).
    cbn [code fst]. change (negb (97 =? 97)) with false. cbn iota.
    assert (Hr : (if code (rtok kd) =? 60 then redircmd cmd q e mode_in 0
              else if code (rtok kd) =? 62 then redircmd cmd q e mode_out 1
              else if code (rtok kd) =? 43 then redircmd cmd q e mode_app 1
              else ret cmd) (PState s3 ns) =
              Ok (length ns) (PState s3 (ns ++ [REDIR cmd q e (rmode kd) (rfd kd)]))) by (by destruct kd).
    rewrite (bind_Ok _ _ _ _ _ Hr). simpl in Hf.
    destruct (IH f (length ns) s3 (ns ++ [REDIR cmd q e (rmode kd) (rfd kd)]) k Ha3 Hk ltac:(lia)) as (cmd' & s' & ns' & -> & Ha' & Hw').
    rewrite <-app_assoc in *. exists cmd', s', (REDIR cmd q e (rmode kd) (rfd kd) :: ns'). split_and!; [done|done|].
    apply (wraps_app _ _ (length ns) _ [(kd, w)]); [|done]. apply (wraps_snoc _ _ cmd _ [] kd w q e); [constructor| |done].
    by apply list_lookup_middle.
Qed.
(** Words do not look like symbols. *)
Lemma spells_words txt toks w : spells txt toks -> TWord w ∈ toks -> w <> [] /\ Forall (fun c => wordc c = true) w.
Proof.
  induction 1 as [|ws w' txt toks _ Hne Hf _ _ IH|ws c txt toks _ _ _ IH|ws txt toks _ _ _ IH|ws txt toks _ _ IH];
    rewrite ?elem_of_nil, ?elem_of_cons; try done; intros [E|?]; try done; auto. by simplify_eq.
Qed.

Lemma word_first s toks w cs :
  at_ m es s toks -> TWord w ∈ toks -> (forall c, one_of cs c = true -> one_of symbols c = true) ->
  one_of cs (first (TWord w)) = false.
Proof.
  intros (txt & _ & Hs) Hw Hcs. destruct (spells_words _ _ _ Hs Hw) as [Hne Hf].
  destruct w as [|c w]; [done|]. inversion Hf as [|? ? Hc _]; subst. simpl.
  destruct (one_of cs c) eqn:E; [|done]. apply Hcs in E. unfold wordc in Hc. rewrite E in Hc. simpl in Hc.
  by rewrite andb_false_r in Hc.
Qed.

Lemma one_of_sub cs c : Forall (fun x => x ∈ symbols) cs -> one_of cs c = true -> one_of symbols c = true.
Proof.
  intros Hcs (x & Hx & E%Z.eqb_eq)%existsb_exists. subst x. apply existsb_exists. exists c.
  rewrite Z.eqb_refl. split; [|done]. rewrite Forall_forall in Hcs. apply list_elem_of_In, Hcs. by apply list_elem_of_In.
Qed.

Ltac sym_sub := intros ? ?; eapply one_of_sub; [|eassumption]; repeat constructor.

Lemma no_redir_args s x args k :
  at_ m es s (x ++ toks_args args ++ k) -> follows [124; 41; 38; 59] k -> no_redir (toks_args args ++ k).
Proof.
  intros Ha Hk. destruct args as [|[w ra] args].
  - destruct k as [|t k]; [done|]. unfold follows in Hk. unfold no_redir, toks_args. cbn [map concat app].
    unfold one_of in *. simpl in *. lia.
  - change (one_of [60; 62] (first (TWord w)) = false). apply (word_first s _ w _ Ha); [|sym_sub].
    apply elem_of_app. right. by left.
Qed.

(** The structures other than the one at [c] stay. *)
Definition keeps_but (c : nat) (ns ns' : list node) : Prop :=
  (length ns <= length ns')%nat /\ forall i, (i < length ns)%nat -> i <> c -> ns' !! i = ns !! i.

(** The words collected so far in the EXEC structure at [c]. *)
Definition collected (ns : list node) (c : nat) (ws : list (list Z)) : Prop := holds ns c (Exec ws).

Lemma add_arg_ok c q e s ns ws w :
  collected ns c ws -> word_at m q e w ->
  exists n, add_arg c q e (PState s ns) = Ok tt (PState s (<[c := n]> ns)) /\
    collected (<[c := n]> ns) c (ws ++ [w]) /\ (exists av ev, ns !! c = Some (EXEC av ev)).
Proof.
  intros (av & ev & Hn & Hw & Hl) Hwa. exists (EXEC (av ++ [q]) (ev ++ [e])).
  unfold add_arg, modify. cbn [nodes ps]. rewrite Hn. split; [done|]. split; [|eauto].
  exists (av ++ [q]), (ev ++ [e]). rewrite !length_app, Hl. split_and!; [|..|done].
  - rewrite list_lookup_insert_eq; [done|]. by eapply lookup_lt_Some.
  - assert (Hc : combine (av ++ [q]) (ev ++ [e]) = combine av ev ++ [(q, e)]).
    { clear -Hl. revert ev Hl. induction av as [|a av IH]; intros [|b ev] Hl; simpl in *; try done; try lia.
      rewrite IH by lia. done. }
    rewrite Hc. apply Forall2_app; [done|]. constructor; [exact Hwa|done].
Qed.

Lemma keeps_but_trans c ns1 ns2 ns3 : keeps_but c ns1 ns2 -> keeps_but c ns2 ns3 -> keeps_but c ns1 ns3.
Proof. intros [H1 H2] [H3 H4]. split; [lia|]. intros i Hi Hc. rewrite H4, H2 by (done || lia). done. Qed.

Lemma keeps_but_insert c ns n : keeps_but c ns (<[c := n]> ns).
Proof. split; [by rewrite length_insert|]. intros i _ Hc. by rewrite list_lookup_insert_ne. Qed.

Lemma keeps_but_app c ns ns' : keeps_but c ns (ns ++ ns').
Proof. split; [rewrite length_app; lia|]. intros i Hi _. by rewrite lookup_app_l. Qed.

Lemma parseargs_ok args : forall f c cmd argc s ns k ws rs,
  at_ m es s (toks_args args ++ k) -> follows [124; 41; 38; 59] k ->
  collected ns c ws -> wraps ns c cmd rs ->
  (argc + length args < MAXARGS)%nat -> (length (toks_args args) < f)%nat ->
  exists cmd' s' ns', parseargs m es f c cmd argc (PState s ns) = Ok cmd' (PState s' ns') /\
    at_ m es s' k /\ collected ns' c (ws ++ map fst args) /\
    wraps ns' c cmd' (rs ++ concat (map snd args)) /\ keeps_but c ns ns'.
Proof.
  induction args as [|[w ra] args IH]; intros f c cmd argc s ns k ws rs Ha Hk Hc Hw Hn Hf;
    (destruct f as [|f]; [simpl in Hf; lia|]); cbn [parseargs].
  - simpl in Ha. destruct (peek_at m es [124; 41; 38; 59] s k ns Ha) as (s1 & Hp & Ha1). rewrite (bind_Ok _ _ _ _ _ Hp).
    rewrite !app_nil_r. destruct k as [|t k].
    + destruct (gettoken_end m es s1 ns Ha1) as (q & e & s2 & Hg & Ha2). rewrite (bind_Ok _ _ _ _ _ Hg). simpl.
      exists cmd, s2, ns. split_and!; try done.
    + unfold follows in Hk. rewrite Hk. exists cmd, s1, ns. split_and!; try done.
  - cbn [toks_args map concat app fst snd] in Ha, Hf. fold (toks_args args) in Ha, Hf. simpl in Hn. rewrite <-app_assoc in Ha.
    destruct (peek_at m es [124; 41; 38; 59] s _ ns Ha) as (s1 & Hp & Ha1). rewrite (bind_Ok _ _ _ _ _ Hp). cbn iota beta.
    rewrite (word_first s _ w _ Ha ltac:(by left)) by sym_sub.
    destruct (gettoken_at m es s1 _ _ ns Ha1) as (q & e & s2 & Hg & Ha2 & Hwa). rewrite (bind_Ok _ _ _ _ _ Hg). cbn [code].
    change (97 =? 0) with false. change (negb (97 =? 97)) with false. cbn iota.
    destruct (add_arg_ok c q e s2 ns ws w Hc Hwa) as (n & Had & Hc1 & av & ev & Hav). rewrite (bind_Ok _ _ _ _ _ Had).
    destruct (Nat.leb_spec MAXARGS (S argc)); [lia|].
    assert (Hw1 : wraps (<[c := n]> ns) c cmd rs).
    { eapply wraps_mono; [|exact Hw]. intros i p' q' e' x y Hi. rewrite list_lookup_insert_ne; [done|]. congruence. }
    simpl in Hf. rewrite length_app in Hf.
    pose proof (length_toks_redirs ra).
    destruct (parseredirs_ok ra f cmd s2 (<[c := n]> ns) (toks_args args ++ k) Ha2) as (cmd2 & s3 & ns2 & Hr & Ha3 & Hw2).
    { by eapply no_redir_args. } { lia. }
    rewrite (bind_Ok _ _ _ _ _ Hr).
    destruct (IH f c cmd2 (S argc) s3 (<[c := n]> ns ++ ns2) k (ws ++ [w]) (rs ++ ra) Ha3 Hk) as (cmd' & s' & ns' & -> & Ha' & Hc' & Hw' & Hkb).
    { eapply holds_mono; [|exact Hc1]. by apply prefix_app_r. }
    { eapply wraps_app; [|exact Hw2]. eapply wraps_mono; [|exact Hw1]. intros i p' q' e' x y Hi. by apply lookup_app_l_Some. }
    { lia. } { lia. }
    exists cmd', s', ns'. split_and!; [done|done| | |].
    + cbn [map fst]. by rewrite <-app_assoc in Hc'.
    + cbn [map snd concat]. by rewrite <-app_assoc in Hw'.
    + eapply keeps_but_trans; [apply keeps_but_insert|]. eapply keeps_but_trans; [apply keeps_but_app|exact Hkb].
Qed.
(** [peek] when the next token is known to be, or not to be, one of [cs]. *)
Lemma peek_yes cs s t k ns :
  at_ m es s (t :: k) -> one_of cs (first t) = true ->
  exists s', peek m es cs (PState s ns) = Ok true (PState s' ns) /\ at_ m es s' (t :: k).
Proof. intros Ha E. destruct (peek_at m es cs s _ ns Ha) as (s' & Hp & Ha'). rewrite E in Hp. eauto. Qed.

Lemma peek_no cs cs' s k ns :
  at_ m es s k -> follows cs' k -> (forall c, one_of cs' c = true -> one_of cs c = false) ->
  exists s', peek m es cs (PState s ns) = Ok false (PState s' ns) /\ at_ m es s' k.
Proof.
  intros Ha Hk Hc. destruct (peek_at m es cs s _ ns Ha) as (s' & Hp & Ha'). exists s'. split; [|done]. rewrite Hp.
  destruct k as [|t k]; [done|]. by rewrite (Hc _ Hk).
Qed.

(** The outcome of a parser that builds the tree [t] and stops at [k]. *)
Definition builds (r : res pstate nat) (ns : list node) (k : list token) (t : tree) : Prop :=
  exists p s' ns', r = Ok p (PState s' ns') /\ at_ m es s' k /\ ns `prefix_of` ns' /\ holds ns' p t.

Definition line_ok (f : nat) : Prop := forall l k s ns,
  few_line l -> follows [41] k -> at_ m es s (toks_line l ++ k) -> (4 * length (toks_line l) + 4 <= f)%nat ->
  builds (parseline m es f (PState s ns)) ns k (tree_line l).
Definition pipe_ok (f : nat) : Prop := forall p k s ns,
  few_pipe p -> follows [41; 38; 59] k -> at_ m es s (toks_pipe p ++ k) -> (4 * length (toks_pipe p) + 3 <= f)%nat ->
  builds (parsepipe m es f (PState s ns)) ns k (tree_pipe p).
Definition cmd_ok (f : nat) : Prop := forall c k s ns,
  few_cmd c -> follows [124; 41; 38; 59] k -> at_ m es s (toks_cmd c ++ k) -> (4 * length (toks_cmd c) + 2 <= f)%nat ->
  builds (parseexec m es f (PState s ns)) ns k (tree_cmd c).
Definition block_ok (f : nat) : Prop := forall l rs k s ns,
  few_line l -> follows [124; 41; 38; 59] k -> at_ m es s (toks_cmd (Block l rs) ++ k) ->
  (4 * length (toks_cmd (Block l rs)) + 1 <= f)%nat ->
  builds (parseblock m es f (PState s ns)) ns k (tree_cmd (Block l rs)).

Lemma follows_weaken cs cs' k : (forall c, one_of cs c = true -> one_of cs' c = true) -> follows cs k -> follows cs' k.
Proof. intros Hc. destruct k; simpl; auto. Qed.

Ltac chars := intros ?c; unfold one_of; simpl; lia.

(** A new structure on top of trees that are already there. *)
Lemma builds_alloc n p s ns ns' k t :
  at_ m es s k -> ns `prefix_of` ns' -> (forall ns2, ns' ++ [n] = ns2 -> holds ns2 p t) -> p = length ns' ->
  builds (alloc n (PState s ns')) ns k t.
Proof.
  intros Ha Hp Hh ->. exists (length ns'), s, (ns' ++ [n]). split_and!; [done|done| |by apply Hh].
  by apply prefix_app_r.
Qed.

Lemma parseback_ok n : forall f cmd s ns k t,
  at_ m es s (repeat (TSym 38) n ++ k) -> follows [41; 59] k -> (n < f)%nat -> holds ns cmd t ->
  builds (parseback m es f cmd (PState s ns)) ns k (back n t).
Proof.
  induction n as [|n IH]; intros f cmd s ns k t Ha Hk Hf Ht; (destruct f as [|f]; [lia|]); cbn [parseback].
  - destruct (peek_no [38] [41; 59] s k ns Ha Hk ltac:(chars)) as (s1 & Hp & Ha1). rewrite (bind_Ok _ _ _ _ _ Hp).
    exists cmd, s1, ns. split_and!; done.
  - cbn [repeat app] in Ha. destruct (peek_yes [38] s _ _ ns Ha eq_refl) as (s1 & Hp & Ha1).
    rewrite (bind_Ok _ _ _ _ _ Hp). cbn [negb].
    destruct (gettoken_at m es s1 _ _ ns Ha1) as (q & e & s2 & Hg & Ha2 & _). rewrite (bind_Ok _ _ _ _ _ Hg).
    assert (Hb : backcmd cmd (PState s2 ns) = Ok (length ns) (PState s2 (ns ++ [BACK cmd]))) by done.
    rewrite (bind_Ok _ _ _ _ _ Hb).
    destruct (IH f (length ns) s2 (ns ++ [BACK cmd]) k (Back t) Ha2 Hk ltac:(lia)) as (p & s' & ns' & -> & Ha' & Hp' & Ht').
    { exists cmd. split; [by apply list_lookup_middle|]. eapply holds_mono; [|exact Ht]. by apply prefix_app_r. }
    exists p, s', ns'. split_and!; [done|done| |done]. etransitivity; [|exact Hp']. by apply prefix_app_r.
Qed.

Lemma line_step f : pipe_ok f -> line_ok f -> line_ok (S f).
Proof.
  intros HP HL l k s ns Hfew Hk Ha Hf. cbn [parseline].
  assert (Hcut : exists p n r, toks_line l = toks_pipe p ++ repeat (TSym 38) n ++ r /\ few_pipe p /\
    ((l = LineLast p n /\ r = []) \/ exists l', l = LineSeq p n l' /\ r = TSym 59 :: toks_line l' /\ few_line l')).
  { destruct l as [p n|p n l']; simpl in Hfew |- *.
    - exists p, n, []. rewrite app_nil_r. eauto.
    - destruct Hfew. exists p, n, (TSym 59 :: toks_line l'). eauto 10. }
  destruct Hcut as (p & n & r & Hl & Hfp & Hcase). rewrite Hl in Ha, Hf. rewrite <-!app_assoc in Ha.
  rewrite !length_app, repeat_length in Hf.
  assert (Hkr : follows [41; 59] (r ++ k)).
  { destruct Hcase as [[_ ->]|(l' & _ & -> & _)]; [eapply follows_weaken; [|exact Hk]; chars|done]. }
  destruct (HP p (repeat (TSym 38) n ++ r ++ k) s ns Hfp) as (p1 & s1 & ns1 & Hr1 & Ha1 & Hp1 & Ht1); [|done|lia|].
  { destruct n; [eapply follows_weaken; [|exact Hkr]; chars|done]. }
  rewrite (bind_Ok _ _ _ _ _ Hr1).
  destruct (parseback_ok n f p1 s1 ns1 (r ++ k) _ Ha1 Hkr ltac:(lia) Ht1) as (p2 & s2 & ns2 & Hr2 & Ha2 & Hp2 & Ht2).
  rewrite (bind_Ok _ _ _ _ _ Hr2).
  destruct Hcase as [[-> ->]|(l' & -> & -> & Hfl)].
  - destruct (peek_no [59] [41] s2 k ns2 Ha2 Hk ltac:(chars)) as (s3 & Hr3 & Ha3). rewrite (bind_Ok _ _ _ _ _ Hr3).
    exists p2, s3, ns2. split_and!; [done|done|by etransitivity|done].
  - destruct (peek_yes [59] s2 _ _ ns2 Ha2 eq_refl) as (s3 & Hr3 & Ha3). rewrite (bind_Ok _ _ _ _ _ Hr3).
    destruct (gettoken_at m es s3 _ _ ns2 Ha3) as (q & e & s4 & Hg & Ha4 & _). rewrite (bind_Ok _ _ _ _ _ Hg).
    simpl in Hf. destruct (HL l' k s4 ns2 Hfl Hk Ha4 ltac:(lia)) as (p5 & s5 & ns5 & Hr5 & Ha5 & Hp5 & Ht5).
    rewrite (bind_Ok _ _ _ _ _ Hr5). eapply builds_alloc; [done|by do 2 etransitivity| |done].
    intros ns6 <-. exists p2, p5. split_and!; [by apply list_lookup_middle| |]; (eapply holds_mono; [|done]).
    + by apply prefix_app_r.
    + by apply prefix_app_r.
Qed.
Lemma pipe_step f : cmd_ok f -> pipe_ok f -> pipe_ok (S f).
Proof.
  intros HC HP p k s ns Hfew Hk Ha Hf. cbn [parsepipe]. destruct p as [c|c p']; cbn [toks_pipe few_pipe tree_pipe] in *.
  - destruct (HC c k s ns Hfew) as (p1 & s1 & ns1 & Hr1 & Ha1 & Hp1 & Ht1); [eapply follows_weaken; [|exact Hk]; chars|done|lia|].
    rewrite (bind_Ok _ _ _ _ _ Hr1).
    destruct (peek_no [124] [41; 38; 59] s1 k ns1 Ha1 Hk ltac:(chars)) as (s2 & Hr2 & Ha2). rewrite (bind_Ok _ _ _ _ _ Hr2).
    exists p1, s2, ns1. done.
  - destruct Hfew as [Hf1 Hf2]. rewrite <-app_assoc in Ha. rewrite length_app in Hf. simpl in Hf.
    destruct (HC c (TSym 124 :: toks_pipe p' ++ k) s ns Hf1) as (p1 & s1 & ns1 & Hr1 & Ha1 & Hp1 & Ht1); [done|done|lia|].
    rewrite (bind_Ok _ _ _ _ _ Hr1).
    destruct (peek_yes [124] s1 _ _ ns1 Ha1 eq_refl) as (s2 & Hr2 & Ha2). rewrite (bind_Ok _ _ _ _ _ Hr2).
    destruct (gettoken_at m es s2 _ _ ns1 Ha2) as (q & e & s3 & Hg & Ha3 & _). rewrite (bind_Ok _ _ _ _ _ Hg).
    destruct (HP p' k s3 ns1 Hf2 Hk Ha3 ltac:(lia)) as (p4 & s4 & ns4 & Hr4 & Ha4 & Hp4 & Ht4).
    rewrite (bind_Ok _ _ _ _ _ Hr4). eapply builds_alloc; [done|by etransitivity| |done].
    intros ns5 <-. exists p1, p4. split_and!; [by apply list_lookup_middle| |]; (eapply holds_mono; [|done]); by apply prefix_app_r.
Qed.

Lemma block_step f : line_ok f -> block_ok (S f).
Proof.
  intros HL l rs k s ns Hfew Hk Ha Hf. cbn [parseblock toks_cmd app] in *. rewrite <-app_assoc in Ha.
  simpl in Hf. rewrite length_app in Hf. simpl in Hf. pose proof (length_toks_redirs rs).
  destruct (peek_yes [40] s _ _ ns Ha eq_refl) as (s1 & Hr1 & Ha1). rewrite (bind_Ok _ _ _ _ _ Hr1). cbn [negb].
  destruct (gettoken_at m es s1 _ _ ns Ha1) as (q & e & s2 & Hg & Ha2 & _). rewrite (bind_Ok _ _ _ _ _ Hg).
  destruct (HL l (TSym 41 :: toks_redirs rs ++ k) s2 ns Hfew eq_refl Ha2 ltac:(lia)) as (p3 & s3 & ns3 & Hr3 & Ha3 & Hp3 & Ht3).
  rewrite (bind_Ok _ _ _ _ _ Hr3).
  destruct (peek_yes [41] s3 _ _ ns3 Ha3 eq_refl) as (s4 & Hr4 & Ha4). rewrite (bind_Ok _ _ _ _ _ Hr4). cbn [negb].
  destruct (gettoken_at m es s4 _ _ ns3 Ha4) as (q' & e' & s5 & Hg5 & Ha5 & _). rewrite (bind_Ok _ _ _ _ _ Hg5).
  destruct (parseredirs_ok rs f p3 s5 ns3 k Ha5) as (p6 & s6 & ns6 & -> & Ha6 & Hw6); [|lia|].
  { apply (no_redir_args s5 (toks_redirs rs) []); done. }
  exists p6, s6, (ns3 ++ ns6). split_and!; [done|done|by apply prefix_app_r|].
  eapply wraps_holds; [exact Hw6|]. eapply holds_mono; [|exact Ht3]. by apply prefix_app_r.
Qed.

(** The beginning of a simple command is not a parenthesis. *)
Lemma simple_peek s rs args k ns :
  at_ m es s (toks_cmd (Simple rs args) ++ k) -> follows [124; 41; 38; 59] k ->
  exists s', peek m es [40] (PState s ns) = Ok false (PState s' ns) /\ at_ m es s' (toks_cmd (Simple rs args) ++ k).
Proof.
  intros Ha Hk. destruct (peek_at m es [40] s _ ns Ha) as (s' & Hp & Ha'). exists s'. split; [|done]. rewrite Hp. f_equal.
  cbn [toks_cmd]. destruct rs as [|[kd w] rs].
  - destruct args as [|[w ra] args].
    + destruct k as [|t k]; [done|]. unfold follows, one_of in *. simpl in *. lia.
    + change (one_of [40] (first (TWord w)) = false). apply (word_first s _ w _ Ha); [by left|sym_sub].
  - change (one_of [40] (first (rtok kd)) = false). by destruct kd.
Qed.

Lemma cmd_step f : block_ok f -> cmd_ok (S f).
Proof.
  intros HB c k s ns Hfew Hk Ha Hf. cbn [parseexec]. destruct c as [l rs|rs args].
  - destruct (peek_yes [40] s _ _ ns Ha eq_refl) as (s1 & Hr1 & Ha1). rewrite (bind_Ok _ _ _ _ _ Hr1).
    apply HB; [done|done|exact Ha1|lia].
  - destruct (simple_peek s rs args k ns Ha Hk) as (s1 & Hr1 & Ha1). rewrite (bind_Ok _ _ _ _ _ Hr1).
    cbn [toks_cmd tree_cmd few_cmd] in *. rewrite <-app_assoc in Ha1. rewrite length_app in Hf.
    pose proof (length_toks_redirs rs). set (c := length ns).
    assert (Hx : execcmd (PState s1 ns) = Ok c (PState s1 (ns ++ [EXEC [] []]))) by done. rewrite (bind_Ok _ _ _ _ _ Hx).
    destruct (parseredirs_ok rs f c s1 (ns ++ [EXEC [] []]) (toks_args args ++ k) Ha1) as (p2 & s2 & ns2 & Hr2 & Ha2 & Hw2).
    { by eapply no_redir_args. } { lia. }
    rewrite (bind_Ok _ _ _ _ _ Hr2).
    destruct (parseargs_ok args f c p2 0 s2 ((ns ++ [EXEC [] []]) ++ ns2) k [] rs Ha2 Hk) as (p3 & s3 & ns3 & -> & Ha3 & Hc3 & Hw3 & [Hl3 Hk3]).
    { exists [], []. split_and!; [|constructor|done]. rewrite <-app_assoc. by apply list_lookup_middle. }
    { done. } { simpl. lia. } { lia. }
    exists p3, s3, ns3. split_and!; [done|done| |by eapply wraps_holds].
    rewrite !length_app in Hl3, Hk3. simpl in Hl3, Hk3. exists (drop (length ns) ns3).
    rewrite <-(take_drop (length ns) ns3) at 1. f_equal. apply list_eq_same_length with (length ns); [done|rewrite length_take; lia|].
    intros i x y Hi Hx1 Hy. rewrite lookup_take_lt in Hx1 by done. rewrite Hk3, <-app_assoc, lookup_app_l in Hx1 by (unfold c; lia).
    congruence.
Qed.

Lemma parse_ok f : line_ok f /\ pipe_ok f /\ cmd_ok f /\ block_ok f.
Proof.
  induction f as [|f (HL & HP & HC & HB)].
  - split_and!; repeat intro; lia.
  - split_and!; [by apply line_step|by apply pipe_step|by apply cmd_step|by apply block_step].
Qed.
(** * Terminating the strings *)

(** [mm] is the line with NULs in some places between words. *)
Definition cut_ok (mm : mem) : Prop :=
  forall a, mm a = m a \/ (mm a = 0 /\ (m a = 0 \/ wordc (m a) = false)).
Definition lower (mm mm' : mem) : Prop := forall a, mm' a = mm a \/ mm' a = 0.

(** The tree with its strings as C strings in [mm]. *)
Fixpoint tree_at (mm : mem) (ns : list node) (p : nat) (t : tree) : Prop :=
  match t with
  | Exec ws => exists argv eargv, ns !! p = Some (EXEC argv eargv) /\ Forall2 (cstr mm) argv ws
  | Redir c k w => exists p' q e, ns !! p = Some (REDIR p' q e (rmode k) (rfd k)) /\ cstr mm q w /\ tree_at mm ns p' c
  | Pipe l r => exists p1 p2, ns !! p = Some (PIPE p1 p2) /\ tree_at mm ns p1 l /\ tree_at mm ns p2 r
  | Lst l r => exists p1 p2, ns !! p = Some (LIST p1 p2) /\ tree_at mm ns p1 l /\ tree_at mm ns p2 r
  | Back c => exists p', ns !! p = Some (BACK p') /\ tree_at mm ns p' c
  end.

Lemma word_cstr mm q e w : cut_ok mm -> word_at m q e w -> mm e = 0 -> cstr mm q w.
Proof.
  intros Hc (Hl & -> & Hf & _) He. apply cstr_load. split_and!; [|done|].
  - etransitivity; [|exact Hl]. rewrite !load_bytes_spec. rewrite load_bytes_spec in Hl. apply map_ext_in. intros i Hi.
    destruct (Hc (q + Z.of_nat i)) as [E|[_ Hn]]; [done|]. rewrite <-Hl in Hf. rewrite Forall_map, Forall_forall in Hf.
    destruct (Hf i) as [? ?]; [by apply list_elem_of_In|]. destruct Hn; congruence.
  - eapply Forall_impl; [exact Hf|]. by intros c [? _].
Qed.

(** A word keeps its terminator when further ones are written. *)
Lemma cstr_lower mm mm' q e w : cut_ok mm' -> lower mm mm' -> word_at m q e w -> cstr mm q w -> cstr mm' q w.
Proof.
  intros Hc Hlo Hw Hs. apply (word_cstr mm' q e); [done|done|]. apply cstr_load in Hs as (_ & Hz & _).
  destruct Hw as (_ & -> & _). destruct (Hlo (q + Z.of_nat (length w))); congruence.
Qed.

Lemma exec_lower mm mm' argv eargv ws :
  cut_ok mm' -> lower mm mm' -> Forall2 (fun qe w => word_at m qe.1 qe.2 w) (combine argv eargv) ws ->
  length argv = length eargv -> Forall2 (cstr mm) argv ws -> Forall2 (cstr mm') argv ws.
Proof.
  intros Hc Hlo. revert eargv ws. induction argv as [|q argv IH]; intros [|e eargv] ws Hw Hl Hs; simpl in *; try done.
  - by inversion Hs; subst.
  - inversion Hw; subst. inversion Hs; subst. constructor; [by eapply cstr_lower|]. eapply IH; [done|lia|done].
Qed.

Lemma tree_at_lower mm mm' ns p t :
  cut_ok mm' -> lower mm mm' -> holds ns p t -> tree_at mm ns p t -> tree_at mm' ns p t.
Proof.
  intros Hc Hlo. revert p. induction t as [ws|c IH k w|l IHl r IHr|l IHl r IHr|c IH]; simpl; intros p.
  - intros (av & ev & Hn & Hw & Hl) (av' & ev' & Hn' & Hs). simplify_eq. eexists _, _. split; [done|]. by eapply exec_lower.
  - intros (p' & q & e & Hn & Hw & Hh) (p2 & q2 & e2 & Hn2 & Hs & Ht). simplify_eq. eexists _, _, _.
    split_and!; [done|by eapply cstr_lower|auto].
  - intros (p1 & p2 & Hn & Hl & Hr) (p1' & p2' & Hn' & Hl' & Hr'). simplify_eq. eauto 10.
  - intros (p1 & p2 & Hn & Hl & Hr) (p1' & p2' & Hn' & Hl' & Hr'). simplify_eq. eauto 10.
  - intros (p' & Hn & Hh) (p2 & Hn' & Ht). simplify_eq. eauto.
Qed.

Lemma cut_store mm e q w : cut_ok mm -> word_at m q e w -> cut_ok (store8 e 0 mm) /\ lower mm (store8 e 0 mm) /\ store8 e 0 mm e = 0.
Proof.
  intros Hc (_ & _ & _ & He). split_and!; [| |apply store8_eq]; intros a; (destruct (decide (e = a)) as [<-|]; [rewrite store8_eq|rewrite store8_ne by done]).
  - right. split; [done|]. destruct He; auto.
  - apply Hc.
  - by right.
  - by left.
Qed.

Lemma lower_trans m1 m2 m3 : lower m1 m2 -> lower m2 m3 -> lower m1 m3.
Proof. intros H1 H2 a. destruct (H1 a), (H2 a); intuition congruence. Qed.

(** All words of an EXEC structure are terminated. *)
Lemma exec_nul argv eargv ws : forall mm,
  cut_ok mm -> Forall2 (fun qe w => word_at m qe.1 qe.2 w) (combine argv eargv) ws -> length argv = length eargv ->
  let mm' := fold_left (fun m e => store8 e 0 m) eargv mm in
  cut_ok mm' /\ lower mm mm' /\ Forall2 (cstr mm') argv ws.
Proof.
  revert eargv ws. induction argv as [|q argv IH]; intros [|e eargv] ws mm Hc Hw Hl; simpl in *; try done.
  - inversion Hw; subst. split_and!; [done|by left|constructor].
  - inversion Hw as [|? w ? ws' Hqe Hws]; subst. simpl in Hqe. destruct (cut_store mm e q w Hc Hqe) as (Hc1 & Hl1 & Hz).
    destruct (IH eargv ws' (store8 e 0 mm) Hc1 Hws ltac:(lia)) as (Hc2 & Hl2 & Hs2).
    split_and!; [done|by eapply lower_trans|]. constructor; [|done]. apply (word_cstr _ q e); [done|done|].
    destruct (Hl2 e); congruence.
Qed.

Fixpoint depth (t : tree) : nat :=
  match t with
  | Exec _ => 1
  | Redir c _ _ | Back c => S (depth c)
  | Pipe l r | Lst l r => S (Nat.max (depth l) (depth r))
  end.

Lemma nulterminate_ok t : forall f p ns mm,
  holds ns p t -> cut_ok mm -> (depth t <= f)%nat ->
  exists mm', nulterminate f ns p mm = Some mm' /\ cut_ok mm' /\ lower mm mm' /\ tree_at mm' ns p t.
Proof.
  induction t as [ws|c IH k w|l IHl r IHr|l IHl r IHr|c IH]; intros f p ns mm Hh Hc Hd;
    (destruct f as [|f]; [simpl in Hd; lia|]); cbn [nulterminate]; simpl in Hh, Hd.
  - destruct Hh as (av & ev & Hn & Hw & Hl). rewrite Hn. destruct (exec_nul av ev ws mm Hc Hw Hl) as (H1 & H2 & H3).
    eexists. split; [done|]. split_and!; [done|done|]. by exists av, ev.
  - destruct Hh as (p' & q & e & Hn & Hw & Hh). rewrite Hn. destruct (IH f p' ns mm Hh Hc ltac:(lia)) as (m1 & -> & Hc1 & Hl1 & Ht1).
    destruct (cut_store m1 e q w Hc1 Hw) as (Hc2 & Hl2 & Hz). eexists. split; [done|]. split_and!; [done|by eapply lower_trans|].
    exists p', q, e. split_and!; [done|apply (word_cstr _ q e w Hc2 Hw Hz)|by eapply tree_at_lower].
  - destruct Hh as (p1 & p2 & Hn & Hl & Hr). rewrite Hn. destruct (IHl f p1 ns mm Hl Hc ltac:(lia)) as (m1 & -> & Hc1 & Hl1 & Ht1).
    destruct (IHr f p2 ns m1 Hr Hc1 ltac:(lia)) as (m2 & -> & Hc2 & Hl2 & Ht2). eexists. split; [done|].
    split_and!; [done|by eapply lower_trans|]. exists p1, p2. split_and!; [done|by eapply tree_at_lower|done].
  - destruct Hh as (p1 & p2 & Hn & Hl & Hr). rewrite Hn. destruct (IHl f p1 ns mm Hl Hc ltac:(lia)) as (m1 & -> & Hc1 & Hl1 & Ht1).
    destruct (IHr f p2 ns m1 Hr Hc1 ltac:(lia)) as (m2 & -> & Hc2 & Hl2 & Ht2). eexists. split; [done|].
    split_and!; [done|by eapply lower_trans|]. exists p1, p2. split_and!; [done|by eapply tree_at_lower|done].
  - destruct Hh as (p' & Hn & Hh). rewrite Hn. destruct (IH f p' ns mm Hh Hc ltac:(lia)) as (m1 & -> & Hc1 & Hl1 & Ht1).
    eexists. split; [done|]. split_and!; [done|done|]. by exists p'.
Qed.
End parse.

(** A tree is not deeper than its tokens are many. *)
Scheme line_mind := Induction for line Sort Prop
  with pipeline_mind := Induction for pipeline Sort Prop
  with command_mind := Induction for command Sort Prop.
Combined Scheme grammar_ind from line_mind, pipeline_mind, command_mind.

Lemma depth_redirect t rs : depth (redirect t rs) = (depth t + length rs)%nat.
Proof. revert t. induction rs as [|r rs IH]; intros t; simpl; [lia|]. unfold redirect in *. simpl. rewrite IH. simpl. lia. Qed.

Lemma depth_back n t : depth (back n t) = (depth t + n)%nat.
Proof. revert t. induction n as [|n IH]; intros t; simpl; [lia|]. rewrite IH. simpl. lia. Qed.

Lemma length_toks_args args : (length (concat (map snd args)) <= length (toks_args args))%nat.
Proof.
  induction args as [|[w ra] args IH]; [done|].
  change (toks_args ((w, ra) :: args)) with ((TWord w :: toks_redirs ra) ++ toks_args args).
  cbn [map snd concat]. rewrite !length_app. simpl. rewrite length_toks_redirs. lia.
Qed.

Lemma depth_tokens :
  (forall l, depth (tree_line l) <= length (toks_line l) + 1)%nat /\
  (forall p, depth (tree_pipe p) <= length (toks_pipe p) + 1)%nat /\
  (forall c, depth (tree_cmd c) <= length (toks_cmd c) + 1)%nat.
Proof.
  apply grammar_ind; intros; cbn [tree_line tree_pipe tree_cmd toks_line toks_pipe toks_cmd depth];
    rewrite ?depth_back, ?depth_redirect; simpl length; rewrite ?length_app; simpl length;
    rewrite ?length_app, ?repeat_length, ?length_toks_redirs; simpl length; rewrite ?length_app, ?length_toks_redirs; simpl; try lia.
  pose proof (length_toks_args args). lia.
Qed.

(** C29: the shell's parser is right.  For every line of the grammar, however it
    is laid out with white space, as long as no command has more than nine
    words, [parsecmd] terminates and returns the tree of the line, and every
    string of the tree, an argument or the file of a redirection, is afterwards
    a C string in the line buffer: exactly its word.  Only characters between
    words are overwritten, with NULs. *)
Theorem parsecmd_correct fuel s m txt l :
  cstr m s txt -> spells txt (toks_line l) -> few_line l -> (4 * length txt + 4 < fuel)%nat ->
  exists p m' st, parsecmd fuel s m = Ok (p, m') st /\ tree_at m' (nodes st) p (tree_line l) /\
    forall a, m' a = m a \/ (m' a = 0 /\ (m a = 0 \/ wordc (m a) = false)).
Proof.
  intros Hs Hsp Hfew Hf. pose proof (spells_length _ _ Hsp) as Hl. unfold parsecmd.
  rewrite (strlen_loop_spec fuel s 0 txt) by (by rewrite ?Z.add_0_r || lia). rewrite Z.add_0_l. cbv zeta.
  set (es := s + Z.of_nat (length txt)).
  destruct (proj1 (parse_ok m es fuel) l [] s []) as (p & s1 & ns1 & Hr1 & Ha1 & _ & Hh); [done|done| |lia|].
  { rewrite app_nil_r. by exists txt. }
  rewrite (bind_Ok _ _ _ _ _ Hr1).
  destruct Ha1 as (txt1 & Ht1 & Hsp1). destruct (spells_skip _ _ Hsp1) as (ws & txt2 & -> & Hw & Hsp2 & Hn).
  assert (txt2 = []) as ->. { inversion Hsp2 as [ws' Hws E1 E2| | | |]; subst. destruct txt2; [done|]. inversion Hws; subst. done. }
  assert (Hpk : peek m es [] (PState s1 ns1) = Ok (negb (m es =? 0) && one_of [] (m es)) (PState es ns1)).
  { unfold peek. cbn [ps nodes]. fold is_ws. rewrite (skip_text m es is_ws s1 ws [] Ht1 Hw Hn).
    destruct Ht1 as [_ Ht1]. rewrite length_app in Ht1. simpl in Ht1. rewrite Nat.add_0_r in Ht1. by rewrite Ht1. }
  rewrite (bind_Ok _ _ _ _ _ Hpk). unfold bind at 1, get at 1. cbn [ps nodes]. rewrite Z.eqb_refl. cbn [negb].
  destruct (nulterminate_ok m (tree_line l) fuel p ns1 m Hh) as (m' & -> & Hc & _ & Ht).
  { intros a. by left. } { pose proof (proj1 depth_tokens l). lia. }
  exists p, m', (PState es ns1). done.
Qed.

(** "cat<in | (wc;ls) >o &" in memory. *)
Definition sh_text : list Z := str "cat<in | (wc;ls) >o &".
Definition sh_mem : mem := store_bytes 16 sh_text (fun _ => 0).
Definition sh_line : line :=
  LineLast (PipeSeq (Simple [] [(str "cat", [(RIn, str "in")])])
    (PipeLast (Block (LineSeq (PipeLast (Simple [] [(str "wc", [])])) 0 (LineLast (PipeLast (Simple [] [(str "ls", [])])) 0))
                [(ROut, str "o")]))) 1.

Lemma parsecmd_correct_witness :
  exists p m' st, parsecmd 100 16 sh_mem = Ok (p, m') st /\
    tree_at m' (nodes st) p (Back (Pipe (Redir (Exec [str "cat"]) RIn (str "in"))
                                      (Redir (Lst (Exec [str "wc"]) (Exec [str "ls"])) ROut (str "o")))).
Proof.
  destruct (parsecmd_correct 100 16 sh_mem sh_text sh_line) as (p & m' & st & H1 & H2 & _).
  - by vm_compute.
  - change (spells sh_text [TWord (str "cat"); TSym 60; TWord (str "in"); TSym 124; TSym 40; TWord (str "wc"); TSym 59;
      TWord (str "ls"); TSym 41; TSym 62; TWord (str "o"); TSym 38]).
    assert (Hws : forall l, forallb is_ws l = true -> Forall (fun c => is_ws c = true) l) by (intros l; by rewrite forallb_forall, List.Forall_forall).
    assert (Hwd : forall l, forallb wordc l = true -> Forall (fun c => wordc c = true) l) by (intros l; by rewrite forallb_forall, List.Forall_forall).
    apply (spells_word [] (str "cat") (str "<in | (wc;ls) >o &")); [by apply Hws|done|by apply Hwd|done|].
    apply (spells_single [] 60 (str "in | (wc;ls) >o &")); [by apply Hws|done|].
    apply (spells_word [] (str "in") (str " | (wc;ls) >o &")); [by apply Hws|done|by apply Hwd|done|].
    apply (spells_single (str " ") 124 (str " (wc;ls) >o &")); [by apply Hws|done|].
    apply (spells_single (str " ") 40 (str "wc;ls) >o &")); [by apply Hws|done|].
    apply (spells_word [] (str "wc") (str ";ls) >o &")); [by apply Hws|done|by apply Hwd|done|].
    apply (spells_single [] 59 (str "ls) >o &")); [by apply Hws|done|].
    apply (spells_word [] (str "ls") (str ") >o &")); [by apply Hws|done|by apply Hwd|done|].
    apply (spells_single [] 41 (str " >o &")); [by apply Hws|done|].
    apply (spells_gt (str " ") (str "o &")); [by apply Hws|done|].
    apply (spells_word [] (str "o") (str " &")); [by apply Hws|done|by apply Hwd|done|].
    apply (spells_single (str " ") 38 []); [by apply Hws|done|]. by apply spells_end.
  - simpl. unfold MAXARGS. lia.
  - apply Nat.ltb_lt. by vm_compute.
  - exists p, m', st. split; [exact H1|exact H2].
Defined.
