(* ===== verification/Uprogs.v ===== *)
(** The small user programs: user/*.c apart from the shell, grep and the test
    programs.

    [argv] is the list of argument strings.  Looking at an argument that is not
    there follows a null pointer: the program faults.  Loops over the rest of a
    file have a bound on their rounds.  Signed overflow is a fault as well. *)

From Stdlib Require Import ZArith Lia List String Bool.
From stdpp Require Import base tactics numbers list functions.
From S2P Require Import Prelude.
From S2P Require Import Abi.
From S2P Require Import Cstring.
From S2P Require Import Printf.
From S2P Require Import User.
From S2P Require Import Ulib.
From S2P Require Import Lines.

Section programs.
Context {W : Type} `{Unix W}.
Local Open Scope user_scope.

Definition argv_at (argv : list (list Z)) (i : nat) : UM W (list Z) :=
  match argv !! i with Some s => uret s | None => ufault end.
(** [s[0]] of a string *)
Definition ch0 (s : list Z) : Z := hd 0 s.
Definition AStr (s : list Z) : arg := ArgStr (Some s).
(** [atoi(s)] *)
Definition uatoi (s : list Z) : UM W Z :=
  match atoi_str s with Some n => uret n | None => ufault end.
(** An int result that must not overflow. *)
Definition uint (z : Z) : UM W Z :=
  if (- 2 ^ 31 <=? z) && (z <=? INT_MAX) then uret z else ufault.

(** * echo, cat, rm, mkdir, ln, kill *)

Fixpoint echo_loop (args : list (list Z)) : UM W unit :=
  match args with
  | [] => uexit 0
  | a :: args' =>
      uput 1 a ;;;
      uput 1 (match args' with [] => [10] | _ => [32] end) ;;;
      echo_loop args'
  end.
Definition echo_main (argv : list (list Z)) : UM W unit := echo_loop (drop 1 argv).

(** [cat(fd)] with the 512-byte buffer at [buf] *)
Fixpoint cat (fuel : nat) (buf fd : Z) : UM W unit :=
  match fuel with
  | O => uhang
  | S f =>
      n <- uread fd buf 512 ;;
      if 0 <? n then
        r <- uwrite 1 buf n ;;
        if negb (r =? n) then fprintf 2 (ln "cat: write error") [] ;;; uexit 1
        else cat f buf fd
      else if n <? 0 then fprintf 2 (ln "cat: read error") [] ;;; uexit 1
      else uret tt
  end.
Fixpoint cat_files (fuel : nat) (buf : Z) (files : list (list Z)) : UM W unit :=
  match files with
  | [] => uexit 0
  | p :: files' =>
      fd <- ucall (os_open p O_RDONLY) ;;
      if fd <? 0 then fprintf 2 (ln "cat: cannot open %s") [AStr p] ;;; uexit 1
      else cat fuel buf fd ;;; ucall (os_close fd) ;;; cat_files fuel buf files'
  end.
Definition cat_main (fuel : nat) (buf : Z) (argv : list (list Z)) : UM W unit :=
  if (length argv <=? 1)%nat then cat fuel buf 0 ;;; uexit 0
  else cat_files fuel buf (drop 1 argv).

(** [for(i = 1; i < argc; i++) if(call(argv[i]) < 0){ message; break; }] *)
Fixpoint each_file (call : list Z -> W -> Z * W) (msg : string) (files : list (list Z)) : UM W unit :=
  match files with
  | [] => uret tt
  | p :: files' =>
      r <- ucall (call p) ;;
      if r <? 0 then fprintf 2 (ln msg) [AStr p] else each_file call msg files'
  end.
Definition rm_main (argv : list (list Z)) : UM W unit :=
  if (length argv <? 2)%nat then fprintf 2 (ln "Usage: rm files...") [] ;;; uexit 1
  else each_file os_unlink "rm: %s failed to delete" (drop 1 argv) ;;; uexit 0.
Definition mkdir_main (argv : list (list Z)) : UM W unit :=
  if (length argv <? 2)%nat then fprintf 2 (ln "Usage: mkdir files...") [] ;;; uexit 1
  else each_file os_mkdir "mkdir: %s failed to create" (drop 1 argv) ;;; uexit 0.

Definition ln_main (argv : list (list Z)) : UM W unit :=
  if negb (length argv =? 3)%nat then fprintf 2 (ln "Usage: ln old new") [] ;;; uexit 1 else
  a <- argv_at argv 1 ;; b <- argv_at argv 2 ;;
  r <- ucall (os_link a b) ;;
  uwhen (r <? 0) (fprintf 2 (ln "link %s %s: failed") [AStr a; AStr b]) ;;;
  uexit 0.

Definition kill_main (argv : list (list Z)) : UM W unit :=
  if (length argv <? 2)%nat then fprintf 2 (ln "usage: kill pid...") [] ;;; uexit 1
  else
    ufor_each (drop 1 argv) (fun a => pid <- uatoi a ;; ucall (os_kill pid) ;;; uret tt) ;;;
    uexit 0.

(** * touch, cp, mv *)

Definition touch_main (argv : list (list Z)) : UM W unit :=
  if negb (length argv =? 2)%nat then fprintf 2 (ln "Usage: touch filename") [] ;;; uexit 1 else
  a <- argv_at argv 1 ;;
  if ch0 a =? 63 then
    u_printf (ln "Usage: touch filename") [] ;;;
    u_printf (ln "Create an empty file if it doesn't exist") [] ;;;
    uexit 0
  else
  fd <- ucall (os_open a O_RDONLY) ;;
  if 0 <=? fd then
    ucall (os_close fd) ;;; u_printf (ln "touch: file already exists") [] ;;; uexit 1
  else
  fd <- ucall (os_open a (Z.lor O_CREATE O_RDWR)) ;;
  if fd <? 0 then fprintf 2 (ln "touch: cannot create %s") [AStr a] ;;; uexit 1 else
  ucall (os_close fd) ;;;
  uexit 0.

(** The copy loop of cp; the result is the last return value of [read]. *)
Fixpoint cp_loop (fuel : nat) (buf src_fd dst_fd : Z) : UM W Z :=
  match fuel with
  | O => uhang
  | S f =>
      n <- uread src_fd buf 512 ;;
      if 0 <? n then
        r <- uwrite dst_fd buf n ;;
        if negb (r =? n) then
          fprintf 2 (ln "cp: write error") [] ;;;
          ucall (os_close src_fd) ;;; ucall (os_close dst_fd) ;;; uexit 1
        else cp_loop f buf src_fd dst_fd
      else uret n
  end.
Definition cp_main (fuel : nat) (buf : Z) (argv : list (list Z)) : UM W unit :=
  if negb (length argv =? 3)%nat then fprintf 2 (ln "Usage: cp source destination") [] ;;; uexit 1 else
  a <- argv_at argv 1 ;; b <- argv_at argv 2 ;;
  if ch0 a =? 63 then
    u_printf (ln "Usage: cp source destination") [] ;;;
    u_printf (ln "Copy source file to destination") [] ;;;
    uexit 0
  else
  src_fd <- ucall (os_open a O_RDONLY) ;;
  if src_fd <? 0 then fprintf 2 (ln "cp: cannot open %s") [AStr a] ;;; uexit 1 else
  dst_fd <- ucall (os_open b (Z.lor O_CREATE O_WRONLY)) ;;
  if dst_fd <? 0 then
    fprintf 2 (ln "cp: cannot create %s") [AStr b] ;;; ucall (os_close src_fd) ;;; uexit 1
  else
  n <- cp_loop fuel buf src_fd dst_fd ;;
  uwhen (n <? 0) (fprintf 2 (ln "cp: read error") []) ;;;
  ucall (os_close src_fd) ;;;
  ucall (os_close dst_fd) ;;;
  uexit 0.

(** The part of a path after its last slash. *)
Fixpoint last_name (s acc : list Z) : list Z :=
  match s with
  | [] => acc
  | c :: s' => if c =? 47 then last_name s' s' else last_name s' acc
  end.
(** [dirname/filename] in [char dest_path[512]]: a longer path, or an empty
    directory name, writes or reads outside it. *)
Definition dest_path (dir name : list Z) : UM W (list Z) :=
  match list.last dir with
  | None => ufault
  | Some c =>
      let p := (if c =? 47 then dir else dir ++ [47]) ++ name in
      if (length p <? 512)%nat then uret p else ufault
  end.
Definition mv_main (argv : list (list Z)) : UM W unit :=
  if negb (length argv =? 3)%nat then fprintf 2 (ln "Usage: mv source destination") [] ;;; uexit 1 else
  a <- argv_at argv 1 ;; b <- argv_at argv 2 ;;
  if ch0 a =? 63 then
    u_printf (ln "Usage: mv source destination") [] ;;;
    u_printf (ln "Move or rename source file to destination") [] ;;;
    uexit 0
  else
  r <- u_stat a ;;
  if r.1 <? 0 then fprintf 2 (ln "mv: cannot move %s") [AStr a] ;;; uexit 1 else
  r <- u_stat b ;;
  dest <- (if (r.1 =? 0) && (st_type r.2 =? T_DIR) then dest_path b (last_name a a)
           else if (length b <? 512)%nat then uret b else ufault) ;;
  r <- ucall (os_link a dest) ;;
  if r <? 0 then fprintf 2 (ln "mv: cannot move %s") [AStr a] ;;; uexit 1 else
  r <- ucall (os_unlink a) ;;
  if r <? 0 then
    fprintf 2 (ln "mv: failed to remove original file %s") [AStr a] ;;;
    ucall (os_unlink dest) ;;; uexit 1
  else uexit 0.

(** * add, fact, sleep, spin *)

Definition isnumber (s : list Z) : bool :=
  let s := match s with c :: s' => if (c =? 45) || (c =? 43) then s' else s | [] => [] end in
  match s with [] => false | _ => forallb is_digit s end.
Definition add_main (argv : list (list Z)) : UM W unit :=
  if negb (length argv =? 3)%nat then fprintf 2 (ln "Usage: add number1 number2") [] ;;; uexit 1 else
  a <- argv_at argv 1 ;; b <- argv_at argv 2 ;;
  if ch0 a =? 63 then
    u_printf (ln "Usage: add number1 number2") [] ;;;
    u_printf (ln "Add two integers and print the result") [] ;;;
    uexit 0
  else if negb (isnumber a) || negb (isnumber b) then
    u_printf (ln "Invalid number") [] ;;; uexit 1
  else
  num1 <- uatoi a ;; num2 <- uatoi b ;;
  result <- uint (num1 + num2) ;;
  u_printf (ln "%d + %d = %d") [ArgInt num1; ArgInt num2; ArgInt result] ;;;
  uexit 0.

(** [for(int i=1;i<x+1;i++) sum=sum*i;] with [k] rounds left *)
Fixpoint fact_loop (k : nat) (i sum : Z) : UM W Z :=
  match k with
  | O => uret sum
  | S k' => sum' <- uint (sum * i) ;; fact_loop k' (i + 1) sum'
  end.
Definition fact_main (argv : list (list Z)) : UM W unit :=
  a <- argv_at argv 1 ;;
  if ch0 a =? 45 then u_printf (ln "You Can`t Put Negative Value") [] ;;; uexit 1 else
  if cmp_str a (str "?") =? 0 then u_printf (ln "Usage: fact number") [] ;;; uexit 1 else
  x <- uatoi a ;;
  if negb (length argv =? 2)%nat then
    u_printf (ln "error you cant put more than one number") [] ;;; uexit 1
  else if 12 <? x then
    u_printf (ln "Can`t Handel Large Value (Due to Overflow)") [] ;;; uexit 1
  else
    sum <- fact_loop (Z.to_nat x) 1 1 ;;
    u_printf (ln "Factorial = %d") [ArgInt sum] ;;;
    uexit 0.

Definition sleep_main (argv : list (list Z)) : UM W unit :=
  if negb (length argv =? 2)%nat then fprintf 2 (ln "Usage: sleep ticks") [] ;;; uexit 1 else
  a <- argv_at argv 1 ;;
  if ch0 a =? 63 then
    u_printf (ln "Usage: sleep ticks") [] ;;;
    u_printf (ln "Pause execution for specified number of ticks") [] ;;;
    uexit 0
  else
  ticks <- uatoi a ;;
  if ticks <? 0 then fprintf 2 (ln "sleep: ticks must be non-negative") [] ;;; uexit 1 else
  ucall (os_sleep ticks) ;;;
  uexit 0.

(** [for(j = 0; j < 1000000; j++) x += j;] with [k] rounds left, and the loop
    around it *)
Fixpoint spin_inner (k : nat) (j x : Z) : UM W Z :=
  match k with
  | O => uret x
  | S k' => x' <- uint (x + j) ;; spin_inner k' (j + 1) x'
  end.
Fixpoint spin_outer (t : nat) (x : Z) : UM W Z :=
  match t with
  | O => uret x
  | S t' => x' <- spin_inner (Z.to_nat 1000000) 0 x ;; spin_outer t' x'
  end.
Definition spin_main (argv : list (list Z)) : UM W unit :=
  if negb (length argv =? 2)%nat then fprintf 2 (ln "Usage: spin <iterations>") [] ;;; uexit 1 else
  a <- argv_at argv 1 ;;
  t <- uatoi a ;;
  pid <- ucall (os_query Getpid) ;;
  u_printf (ln "(%d) spin started") [ArgInt pid] ;;;
  x <- spin_outer (Z.to_nat t) 0 ;;
  u_printf (ln "(%d) spin finished val=%d") [ArgInt pid; ArgInt x] ;;;
  uexit 0.

(** * Programs around one system call *)

Definition rand_main : UM W unit :=
  n <- ucall (os_query Rand) ;; u_printf (ln "Random: %d") [ArgInt n] ;;; uexit 0.
(** returns from [main] *)
Definition shutdown_main : UM W unit :=
  u_printf (ln "Calling shutdown...") [] ;;; ucall (os_query Shutdown) ;;; uret tt.
Definition uptime_main : UM W unit :=
  t <- ucall (os_query Uptime) ;; u_printf (ln "Ticks since boot: %d") [ArgInt t] ;;; uexit 0.
Definition kbdint_main : UM W unit :=
  n <- ucall (os_query Kbdint) ;;
  u_printf (ln "Keyboard interrupts since boot: %d") [ArgInt n] ;;; uexit 0.
Definition countsyscall_main : UM W unit :=
  c <- ucall (os_query Countsyscall) ;;
  u_printf (ln "Total system calls since boot: %d") [ArgInt c] ;;; uexit 0.
Definition zombie_main : UM W unit :=
  pid <- ucall os_fork ;;
  uwhen (0 <? pid) (ucall (os_sleep 5) ;;; uret tt) ;;;
  uexit 0.
Definition datetime_main : UM W unit :=
  r <- ucall os_datetime ;;
  if r.1 <? 0 then u_printf (ln "Failed to get datetime") [] ;;; uexit 1 else
  u_printf (ln "Current Date and Time: %d-%d-%d %d:%d:%d")
    [ArgInt (dt_year r.2); ArgInt (dt_month r.2); ArgInt (dt_day r.2);
     ArgInt (dt_hour r.2); ArgInt (dt_minute r.2); ArgInt (dt_second r.2)] ;;;
  uexit 0.
Definition chprio_main (argv : list (list Z)) : UM W unit :=
  if negb (length argv =? 3)%nat then fprintf 2 (ln "Usage: chprio <pid> <priority>") [] ;;; uexit 1 else
  a <- argv_at argv 1 ;; b <- argv_at argv 2 ;;
  pid <- uatoi a ;; priority <- uatoi b ;;
  r <- ucall (os_setpriority pid priority) ;;
  if r <? 0 then fprintf 2 (ln "Error: PID %d not found.") [ArgInt pid] ;;; uexit 1 else
  u_printf (ln "Priority of PID %d changed to %d") [ArgInt pid; ArgInt priority] ;;;
  uexit 0.
Definition chsched_main (argv : list (list Z)) : UM W unit :=
  if negb (length argv =? 2)%nat then
    fprintf 2 (ln "Usage: chsched <0:RR, 1:FCFS, 2:PRIO>") [] ;;; uexit 1
  else
  a <- argv_at argv 1 ;;
  policy <- uatoi a ;;
  r <- ucall (os_setscheduler policy) ;;
  if r <? 0 then fprintf 2 (ln "Error: Invalid policy.") [] ;;; uexit 1 else
  (if policy =? 0 then u_printf (ln "Scheduler: Round Robin") []
   else if policy =? 1 then u_printf (ln "Scheduler: FCFS") []
   else if policy =? 2 then u_printf (ln "Scheduler: Priority") []
   else uret tt) ;;;
  uexit 0.
(** [struct sched_metrics] is (turnaround, waiting, finished). *)
Definition metrics_main : UM W unit :=
  r <- ucall os_getmetrics ;;
  if r.1 <? 0 then fprintf 2 (ln "Error getting metrics.") [] ;;; uexit 1 else
  let '(turnaround, waiting, finished) := r.2 in
  u_printf (ln "Scheduler Metrics:") [] ;;;
  u_printf (ln "  Finished Processes: %lu") [ArgInt finished] ;;;
  (if 0 <? finished then
     u_printf (ln "  Avg Turnaround Time: %lu ticks") [ArgInt (turnaround / finished)] ;;;
     u_printf (ln "  Avg Waiting Time: %lu ticks") [ArgInt (waiting / finished)]
   else u_printf (ln "  No processes finished yet.") []) ;;;
  uexit 0.

(** * ps *)

(** The string in a [char] array; there is no NUL: undefined. *)
Fixpoint in_array (l : list Z) : option (list Z) :=
  match l with
  | [] => None
  | c :: l' => if c =? 0 then Some [] else option_map (cons c) (in_array l')
  end.
Definition uarray (l : list Z) : UM W (list Z) :=
  match in_array l with Some s => uret s | None => ufault end.
Definition MAX_PROCS : Z := 64.
(** Columns separated by tabs. *)
Definition tabs (cols : list string) : list Z :=
  match map str cols with
  | [] => []
  | c :: cs => c ++ concat (map (fun x => 9 :: x) cs)
  end.
Definition ps_row (p : uprocinfo) : UM W unit :=
  name <- uarray (pi_name p) ;;
  u_printf (tabs ["%d"; "%d"; "%d"; "%lu"; "%s"]%string ++ [10])
    [ArgInt (pi_pid p); ArgInt (pi_ppid p); ArgInt (pi_state p); ArgInt (pi_sz p); AStr name].
Definition ps_main : UM W unit :=
  pid <- ucall (os_query Getpid) ;;
  ppid <- ucall (os_query Getppid) ;;
  u_printf (ln "Current Process:") [] ;;;
  u_printf (ln "  PID:  %d") [ArgInt pid] ;;;
  u_printf (ln "  PPID: %d" ++ [10]) [ArgInt ppid] ;;;
  r <- ucall (os_getptable MAX_PROCS) ;;
  let n := r.1 in
  if n <=? 0 then u_printf (ln "getptable failed.") [] ;;; uexit 0 else
  u_printf (ln "Process Table (%d processes):") [ArgInt n] ;;;
  u_printf (tabs ["PID"; "PPID"; "STATE"; "SIZE"; "NAME"]%string ++ [10]) [] ;;;
  u_printf (ln "---------------------------------------------") [] ;;;
  ufor_each (seq 0 (Z.to_nat n))
    (fun i => match r.2 !! i with Some p => ps_row p | None => ufault end) ;;;
  uexit 0.

(** * init *)

(** The inner loop: wait until the shell, process [pid], exits. *)
Fixpoint init_wait (fuel : nat) (pid : Z) : UM W unit :=
  match fuel with
  | O => uhang
  | S f =>
      wpid <- ucall os_wait ;;
      if wpid =? pid then uret tt
      else if wpid <? 0 then u_printf (ln "init: wait returned an error") [] ;;; uexit 1
      else init_wait f pid
  end.
(** [rounds] shells are started, each outlived by at most [fuel] orphans. *)
Fixpoint init_loop (rounds fuel : nat) : UM W unit :=
  match rounds with
  | O => uhang
  | S r =>
      u_printf (ln "init: starting sh") [] ;;;
      pid <- ucall os_fork ;;
      if pid <? 0 then u_printf (ln "init: fork failed") [] ;;; uexit 1 else
      if pid =? 0 then
        uexec (str "sh") [str "sh"] ;;;
        u_printf (ln "init: exec sh failed") [] ;;;
        uexit 1
      else
      init_wait fuel pid ;;;
      init_loop r fuel
  end.
Definition init_main (rounds fuel : nat) : UM W unit :=
  fd <- ucall (os_open (str "console") O_RDWR) ;;
  uwhen (fd <? 0)
    (ucall (os_mknod (str "console") CONSOLE 0) ;;;
     ucall (os_open (str "console") O_RDWR) ;;; uret tt) ;;;
  ucall (os_dup 0) ;;;
  ucall (os_dup 0) ;;;
  init_loop rounds fuel.

(** * Test programs: forktest, stressfs, schedtest *)

Definition print (s : list Z) : UM W unit := uput 1 s ;;; uret tt.
(** The fork loop of forktest from [n], with [k] rounds left; the result is
    [n] after it. *)
Fixpoint forktest_fork (k : nat) (n : Z) : UM W Z :=
  match k with
  | O => uret n
  | S k' =>
      pid <- ucall os_fork ;;
      if pid <? 0 then uret n
      else if pid =? 0 then uexit 0
      else forktest_fork k' (n + 1)
  end.
Fixpoint forktest_wait (n : nat) : UM W unit :=
  match n with
  | O => uret tt
  | S n' =>
      r <- ucall os_wait ;;
      if r <? 0 then print (ln "wait stopped early") ;;; uexit 1 else forktest_wait n'
  end.
Definition FORKTEST_N : Z := 1000.
Definition forktest : UM W unit :=
  print (ln "fork test") ;;;
  n <- forktest_fork (Z.to_nat FORKTEST_N) 0 ;;
  if n =? FORKTEST_N then print (ln "fork claimed to work N times!") ;;; uexit 1 else
  forktest_wait (Z.to_nat n) ;;;
  r <- ucall os_wait ;;
  if negb (r =? -1) then print (ln "wait got too many") ;;; uexit 1 else
  print (ln "fork test OK").
Definition forktest_main : UM W unit := forktest ;;; uexit 0.

Fixpoint stressfs_fork (k : nat) (i : Z) : UM W Z :=
  match k with
  | O => uret i
  | S k' => pid <- ucall os_fork ;; if 0 <? pid then uret i else stressfs_fork k' (i + 1)
  end.
(** [data] is the address of the 512-byte array. *)
Definition stressfs_main (data : Z) : UM W unit :=
  u_printf (ln "stressfs starting") [] ;;;
  upoke (u_memset data 97 512) ;;;
  i <- stressfs_fork 4 0 ;;
  u_printf (ln "write %d") [ArgInt i] ;;;
  let path := str "stressfs" ++ [48 + i] in
  fd <- ucall (os_open path (Z.lor O_CREATE O_RDWR)) ;;
  ufor_each (seq 0 20) (fun _ => uwrite fd data 512 ;;; uret tt) ;;;
  ucall (os_close fd) ;;;
  u_printf (ln "read") [] ;;;
  fd <- ucall (os_open path O_RDONLY) ;;
  ufor_each (seq 0 20) (fun _ => uread fd data 512 ;;; uret tt) ;;;
  ucall (os_close fd) ;;;
  ucall os_wait ;;;
  uexit 0.

(** The child copies the 1024-byte arrays at [src] and [dst] to and fro. *)
Fixpoint schedtest_spin (steps : nat) (src dst : Z) : UM W unit :=
  match steps with
  | O => uret tt
  | S k =>
      upoke (u_memmove dst src 1024) ;;;
      upoke (u_memmove src dst 1024) ;;;
      schedtest_spin k src dst
  end.
Fixpoint schedtest_fork (k : nat) (src dst : Z) : UM W unit :=
  match k with
  | O => uret tt
  | S k' =>
      ucall (os_sleep 2) ;;;
      pid <- ucall os_fork ;;
      if pid <? 0 then
        me <- ucall (os_query Getpid) ;; u_printf (ln "%d failed in fork!") [ArgInt me] ;;; uexit 0
      else if pid =? 0 then
        me <- ucall (os_query Getpid) ;;
        u_printf (ln "[pid=%d] created") [ArgInt me] ;;;
        schedtest_spin (Z.to_nat 1000000) src dst ;;;
        uexit 0
      else schedtest_fork k' src dst
  end.
Definition schedtest_main (src dst : Z) : UM W unit :=
  schedtest_fork 10 src dst ;;;
  ufor_each (seq 0 10)
    (fun _ => pid <- ucall os_wait ;; u_printf (ln "[pid=%d] terminated") [ArgInt pid]) ;;;
  uexit 0.
End programs.

(** * Copying *)

Section copying.
Context {W : Type} `{UnixOk W}.

Definition bytes (l : list Z) : Prop := Forall (fun b => 0 <= b < 2 ^ 8) l.

Lemma bytes_app l1 l2 : bytes (l1 ++ l2) -> bytes l1 /\ bytes l2.
Proof. apply Forall_app. Qed.

(** Both copy loops: read a piece of at most 512 bytes, write it, until the
    end of the file. *)
Lemma copy_piece buf fd out (u : ust W) :
  source (uw u) fd -> sink (uw u) out -> bytes (pending (uw u) fd) ->
  exists bs u1, uread fd buf 512 u = URet (Z.of_nat (length bs)) u1 /\
    (bs = [] -> pending (uw u) fd = [] /\ got fd [] (uw u) (uw u1)) /\
    (bs <> [] -> exists w2, uwrite out buf (Z.of_nat (length bs)) u1 =
                    URet (Z.of_nat (length bs)) (UState (um u1) w2) /\
       source w2 fd /\ sink w2 out /\
       pending (uw u) fd = bs ++ pending w2 fd /\ sent w2 out = sent (uw u) out ++ bs).
Proof.
  intros Hso Hsi Hby. destruct (uread_spec fd buf 512 u Hso ltac:(lia)) as (bs & w1 & Hr & Hl & Hg & He).
  exists bs, (UState (store_bytes buf bs (um u)) w1). split; [done|]. split.
  - intros ->. auto.
  - intros Hne. destruct (uwrite_spec out buf (Z.of_nat (length bs)) (UState (store_bytes buf bs (um u)) w1))
      as (w2 & Hw & Hwr); [simpl; eauto with user|lia|].
    exists w2. rewrite Hw. split; [done|]. simpl in Hwr. rewrite Nat2Z.id, load_store_bytes in Hwr
      by (destruct Hg as (G1 & _); rewrite G1 in Hby; apply (bytes_app _ _ Hby)).
    destruct Hg as (G1 & G2 & G3 & G4 & G5), Hwr as (K1 & K2 & K3 & K4 & K5). split_and!.
    + by apply K2, G2. + by apply K3, G3. + by rewrite K5, G1. + by rewrite K1, G5.
Qed.

Lemma copy_cat fuel buf fd (u : ust W) :
  source (uw u) fd -> sink (uw u) 1 -> bytes (pending (uw u) fd) -> (length (pending (uw u) fd) < fuel)%nat ->
  exists u', cat fuel buf fd u = URet tt u' /\ pending (uw u') fd = [] /\
    sent (uw u') 1 = sent (uw u) 1 ++ pending (uw u) fd.
Proof.
  revert u. induction fuel as [|fuel IH]; intros u Hso Hsi Hby Hf; [lia|].
  destruct (copy_piece buf fd 1 u Hso Hsi Hby) as (bs & u1 & Hr & He & Hn). simpl.
  rewrite (ubind_URet _ _ _ _ _ Hr). destruct bs as [|b bs].
  - destruct (He eq_refl) as (Hp & G1 & G2 & G3 & G4 & G5). exists u1. simpl. split; [done|].
    rewrite Hp in G1 |- *. simpl in *. by rewrite G5, app_nil_r.
  - destruct Hn as (w2 & Hw & Ho & Hi & Hp & Hs); [done|].
    destruct (Z.ltb_spec 0 (Z.of_nat (length (b :: bs)))); [|simpl in *; lia].
    rewrite (ubind_URet _ _ _ _ _ Hw), Z.eqb_refl. cbn [negb].
    destruct (IH (UState (um u1) w2)) as (u' & -> & Hp' & Hs'); [done|done| | |].
    { simpl. rewrite Hp in Hby. apply (bytes_app _ _ Hby). }
    { simpl. rewrite Hp, length_app in Hf. simpl in Hf. lia. }
    exists u'. split; [done|]. split; [done|]. rewrite Hs'. simpl uw. by rewrite Hs, Hp, app_assoc.
Qed.

Lemma copy_cp fuel buf fd out (u : ust W) :
  source (uw u) fd -> sink (uw u) out -> bytes (pending (uw u) fd) -> (length (pending (uw u) fd) < fuel)%nat ->
  exists u', cp_loop fuel buf fd out u = URet 0 u' /\ pending (uw u') fd = [] /\
    sent (uw u') out = sent (uw u) out ++ pending (uw u) fd.
Proof.
  revert u. induction fuel as [|fuel IH]; intros u Hso Hsi Hby Hf; [lia|].
  destruct (copy_piece buf fd out u Hso Hsi Hby) as (bs & u1 & Hr & He & Hn). simpl.
  rewrite (ubind_URet _ _ _ _ _ Hr). destruct bs as [|b bs].
  - destruct (He eq_refl) as (Hp & G1 & G2 & G3 & G4 & G5). exists u1. simpl. split; [done|].
    rewrite Hp in G1 |- *. simpl in *. by rewrite G5, app_nil_r.
  - destruct Hn as (w2 & Hw & Ho & Hi & Hp & Hs); [done|].
    destruct (Z.ltb_spec 0 (Z.of_nat (length (b :: bs)))); [|simpl in *; lia].
    rewrite (ubind_URet _ _ _ _ _ Hw), Z.eqb_refl. cbn [negb].
    destruct (IH (UState (um u1) w2)) as (u' & -> & Hp' & Hs'); [done|done| | |].
    { simpl. rewrite Hp in Hby. apply (bytes_app _ _ Hby). }
    { simpl. rewrite Hp, length_app in Hf. simpl in Hf. lia. }
    exists u'. split; [done|]. split; [done|]. rewrite Hs'. simpl uw. by rewrite Hs, Hp, app_assoc.
Qed.
End copying.

(** * Arithmetic of the small programs *)

Fixpoint factorial (n : nat) : Z :=
  match n with O => 1 | S k => Z.of_nat n * factorial k end.

(** 12! is the last one that an int holds. *)
Lemma factorial_int n : (n <= 12)%nat -> 0 <= factorial n <= INT_MAX.
Proof.
  intros Hn. do 13 (destruct n as [|n]; [by vm_compute|]). lia.
Qed.

Section arithmetic.
Context {W : Type} `{Unix W}.

Lemma uint_ok z (u : ust W) : - 2 ^ 31 <= z <= INT_MAX -> uint z u = URet z u.
Proof.
  intros [H1 H2]. unfold uint. by rewrite (proj2 (Z.leb_le _ _) H1), (proj2 (Z.leb_le _ _) H2).
Qed.
Lemma uint_overflow z (u : ust W) : INT_MAX < z -> uint z u = UFault.
Proof.
  intros Hz. unfold uint. rewrite (proj2 (Z.leb_gt z INT_MAX) Hz). by rewrite andb_false_r.
Qed.

Lemma fact_loop_fact k i (u : ust W) :
  (i + k <= 12)%nat -> fact_loop k (Z.of_nat i + 1) (factorial i) u = URet (factorial (i + k)) u.
Proof.
  revert i. induction k as [|k IH]; intros i Hi; cbn [fact_loop]; [by rewrite Nat.add_0_r|].
  assert (Hs : factorial i * (Z.of_nat i + 1) = factorial (S i)) by (cbn [factorial]; lia).
  pose proof (factorial_int (S i) ltac:(lia)).
  rewrite (ubind_URet _ _ _ _ _ (uint_ok (factorial i * (Z.of_nat i + 1)) u ltac:(rewrite Hs; lia))), Hs.
  replace (Z.of_nat i + 1 + 1) with (Z.of_nat (S i) + 1) by lia.
  rewrite IH by lia. by replace (S i + k)%nat with (i + S k)%nat by lia.
Qed.

(** Adding up [j], [j+1], ... past the greatest int. *)
Lemma spin_inner_overflow k j x (u : ust W) :
  0 <= j -> 0 <= x <= INT_MAX ->
  2 * INT_MAX < 2 * x + 2 * Z.of_nat k * j + Z.of_nat k * (Z.of_nat k - 1) ->
  spin_inner k j x u = UFault.
Proof.
  revert j x. induction k as [|k IH]; intros j x Hj Hx Hs; [lia|]. cbn [spin_inner].
  destruct (decide (x + j <= INT_MAX)).
  - rewrite (ubind_URet _ _ _ _ _ (uint_ok (x + j) u ltac:(lia))). apply IH; nia.
  - unfold ubind. by rewrite uint_overflow by lia.
Qed.
End arithmetic.

(** [add] accepts a sign, [atoi] reads 0. *)
Lemma atoi_sign c l : is_digit c = false -> atoi_str (c :: l) = Some 0.
Proof. intros Hc. unfold atoi_str, dec. cbn [leading]. by rewrite Hc. Qed.

Lemma add_ignores_minus l :
  l <> [] -> Forall (fun c => is_digit c = true) l ->
  isnumber (45 :: l) = true /\ atoi_str (45 :: l) = Some 0.
Proof.
  intros Hl Hd. split; [|by apply atoi_sign]. unfold isnumber. simpl. destruct l; [done|].
  apply forallb_forall. by apply List.Forall_forall.
Qed.

(** * Properties *)

Section properties.
Context {W : Type} `{UnixOk W}.

(** [cat] without arguments copies its input to its output, whatever the
    sizes of the pieces in which the reads deliver it, and exits with status
    0. *)
Theorem cat_copies_input fuel buf prog (u : ust W) :
  source (uw u) 0 -> sink (uw u) 1 -> bytes (pending (uw u) 0) ->
  (length (pending (uw u) 0) < fuel)%nat ->
  exists u', cat_main fuel buf [prog] u = UExit 0 u' /\ pending (uw u') 0 = [] /\
    sent (uw u') 1 = sent (uw u) 1 ++ pending (uw u) 0.
Proof.
  intros Hso Hsi Hby Hf. destruct (copy_cat fuel buf 0 u Hso Hsi Hby Hf) as (u' & Hc & Hp & Hs).
  exists u'. unfold cat_main. cbn [length Nat.leb]. by rewrite (ubind_URet _ _ _ _ _ Hc).
Qed.

(** [fact] of an argument that reads as a number [x] up to 12 prints the
    digits of the factorial of [x] and exits with status 0; no product
    overflows an int. *)
Theorem fact_prints_factorial prog a x (u : ust W) :
  sink (uw u) 1 -> ch0 a <> 45 -> cmp_str a (str "?") <> 0 ->
  atoi_str a = Some x -> x <= 12 ->
  exists u' out, fact_main [prog; a] u = UExit 0 u' /\
    wrote 1 (str "Factorial = " ++ out ++ [10]) (uw u) (uw u') /\
    Forall (fun c => is_digit c = true) out /\ dec out = factorial (Z.to_nat x).
Proof.
  intros Hs H1 H2 Ha Hx. set (r := factorial (Z.to_nat x)).
  assert (Hr : 0 <= r <= INT_MAX) by (apply factorial_int; lia).
  assert (Hl := fact_loop_fact (Z.to_nat x) 0 u ltac:(lia)). change (factorial (0 + Z.to_nat x)) with r in Hl.
  clearbody r. destruct (u_printint_dec r Hr) as (out & Hp & Hd & Hv & _).
  assert (Hf : u_format 15 (ln "Factorial = %d") [ArgInt r] = Some (str "Factorial = " ++ out ++ [10])).
  { change (ln "Factorial = %d") with (str "Factorial = " ++ [37; 100; 10]).
    rewrite (u_format_plain (str "Factorial = ") 3), (u_format_d r out) by done. done. }
  destruct (vprintf_sends 1 (ln "Factorial = %d") [ArgInt r] _ u Hs Hf) as (w' & Hv' & Hw).
  exists (UState (um u) w'), out. split; [|done].
  unfold fact_main, argv_at. cbn [lookup list_lookup]. unfold ubind at 1, uret at 1.
  rewrite (proj2 (Z.eqb_neq _ _) H1), (proj2 (Z.eqb_neq _ _) H2).
  unfold uatoi. rewrite Ha. unfold ubind at 1, uret at 1. cbn [length Nat.eqb negb].
  rewrite (proj2 (Z.ltb_ge _ _) Hx).
  change (fact_loop (Z.to_nat x) (Z.of_nat 0 + 1) (factorial 0)) with (fact_loop (W := W) (Z.to_nat x) 1 1) in Hl.
  rewrite (ubind_URet _ _ _ _ _ Hl). unfold u_printf. by rewrite (ubind_URet _ _ _ _ _ Hv').
Qed.

(** [spin] with a positive count always runs into signed overflow: the sum
    of the numbers below a million is not an int. *)
Theorem spin_overflows t x (u : ust W) :
  0 <= x <= INT_MAX -> 1 <= t -> spin_outer (Z.to_nat t) x u = UFault.
Proof.
  intros Hx Ht. replace (Z.to_nat t) with (S (Z.to_nat (t - 1))) by lia. cbn [spin_outer].
  unfold ubind. rewrite spin_inner_overflow; [done|lia|done|]. unfold INT_MAX. rewrite Z2Nat.id by lia. lia.
Qed.
End properties.

Definition cat_world : ust world :=
  UState (fun _ => 0)
    {| w_in := fun fd => if fd =? 0 then str "some text" else []; w_out := fun _ => [];
       w_piece := 3; w_names := [] |}.

Lemma cat_copies_input_witness :
  exists u', cat_main 10 4096 [str "cat"] cat_world = UExit 0 u' /\ pending (uw u') 0 = [] /\
    sent (uw u') 1 = str "some text".
Proof.
  destruct (cat_copies_input 10 4096 (str "cat") cat_world) as (u' & H1 & H2 & H3);
    [done|done|unfold bytes; repeat constructor; vm_compute; discriminate|vm_compute; lia|].
  exists u'. split_and!; [exact H1|exact H2|exact H3].
Defined.

Lemma fact_prints_factorial_witness :
  exists u' out, fact_main [str "fact"; str "12"] cat_world = UExit 0 u' /\
    wrote 1 (str "Factorial = " ++ out ++ [10]) (uw cat_world) (uw u') /\
    Forall (fun c => is_digit c = true) out /\ dec out = 479001600.
Proof. apply (fact_prints_factorial (str "fact") (str "12") 12 cat_world); by vm_compute. Defined.

Lemma spin_overflows_witness : spin_outer (Z.to_nat 1) 0 cat_world = UFault.
Proof. apply (spin_overflows 1 0 cat_world); unfold INT_MAX; lia. Defined.

