(* ===== verification/Utext.v ===== *)
(** The user programs that read files and directories: user/wc.c, user/tail.c,
    user/diff.c, user/find.c and user/ls.c.

    Local arrays that a program fills and reads back as a whole are lists; the
    bytes of a string in an array stop at its first NUL ([c_string]). *)

From Stdlib Require Import ZArith Lia List String Bool.
From stdpp Require Import base tactics numbers list functions.
From S2P Require Import Prelude.
From S2P Require Import Abi.
From S2P Require Import Cstring.
From S2P Require Import Printf.
From S2P Require Import User.
From S2P Require Import Ulib.
From S2P Require Import Lines.
From S2P Require Import Uprogs.

Definition c_string (l : list Z) : list Z := leading (fun c => negb (c =? 0)) l.

(** * wc *)

(** The local variables of the loop over one file. *)
Record wcst : Type := {
  wc_lines : Z; wc_words : Z; wc_chars : Z; wc_max_line : Z; wc_curr_line : Z;
  wc_in_word : bool; wc_last_nl : bool
}.
Definition wc0 : wcst :=
  {| wc_lines := 0; wc_words := 0; wc_chars := 0; wc_max_line := 0; wc_curr_line := 0;
     wc_in_word := false; wc_last_nl := false |}.
Definition wc_space (c : Z) : bool := (c =? 32) || (c =? 10) || (c =? 9) || (c =? 13).

(** The body of the loop on the character [ch]. *)
Definition wc_step (ch : Z) (s : wcst) : wcst :=
  let nl := ch =? 10 in
  {| wc_lines := if nl then wc_lines s + 1 else wc_lines s;
     wc_words := if wc_space ch then wc_words s
                 else if wc_in_word s then wc_words s else wc_words s + 1;
     wc_chars := wc_chars s + 1;
     wc_max_line := if nl && (wc_max_line s <? wc_curr_line s) then wc_curr_line s else wc_max_line s;
     wc_curr_line := if nl then 0 else wc_curr_line s + 1;
     wc_in_word := negb (wc_space ch);
     wc_last_nl := nl |}.
(** What follows the loop: the last line without a newline, the empty file. *)
Definition wc_finish (s : wcst) : wcst :=
  let tail := (0 <? wc_chars s) && negb (wc_last_nl s) in
  let lines := if tail then wc_lines s + 1 else wc_lines s in
  let max_line := if tail && (wc_max_line s <? wc_curr_line s) then wc_curr_line s else wc_max_line s in
  let empty := wc_chars s =? 0 in
  {| wc_lines := if empty then 0 else lines;
     wc_words := if empty then 0 else wc_words s;
     wc_chars := wc_chars s;
     wc_max_line := if empty then 0 else max_line;
     wc_curr_line := wc_curr_line s; wc_in_word := wc_in_word s; wc_last_nl := wc_last_nl s |}.

(** [show_lines], [show_words], [show_chars], [show_max_line] and the totals *)
Record wcshow : Type := { sh_l : bool; sh_w : bool; sh_c : bool; sh_L : bool }.
Record wctot : Type := { tot_l : Z; tot_w : Z; tot_c : Z; tot_L : Z; tot_files : Z }.

Definition wc_flag (c : Z) (f : wcshow) : wcshow :=
  if c =? 108 then {| sh_l := true; sh_w := sh_w f; sh_c := sh_c f; sh_L := sh_L f |}
  else if c =? 119 then {| sh_l := sh_l f; sh_w := true; sh_c := sh_c f; sh_L := sh_L f |}
  else if c =? 99 then {| sh_l := sh_l f; sh_w := sh_w f; sh_c := true; sh_L := sh_L f |}
  else if c =? 76 then {| sh_l := sh_l f; sh_w := sh_w f; sh_c := sh_c f; sh_L := true |}
  else f.
Definition wc_valid (c : Z) : bool := (c =? 108) || (c =? 119) || (c =? 99) || (c =? 76).
Definition wc_default (f : wcshow) : wcshow :=
  if negb (sh_l f) && negb (sh_w f) && negb (sh_c f) && negb (sh_L f)
  then {| sh_l := true; sh_w := true; sh_c := true; sh_L := sh_L f |} else f.

Section wc.
Context {W : Type} `{Unix W}.
Local Open Scope user_scope.

Definition wc_usage : UM W unit :=
  u_printf (ln "Usage: wc [OPTION]... [FILE]...") [] ;;;
  u_printf (ln "Print newline, word, and character counts for each FILE.") [] ;;;
  u_printf (ln "Options:") [] ;;;
  u_printf (ln "  -l    print the line counts") [] ;;;
  u_printf (ln "  -w    print the word counts") [] ;;;
  u_printf (ln "  -c    print the character counts") [] ;;;
  u_printf (ln "  -L    print the maximum line length") [] ;;;
  u_printf (ln "With no FILE, read standard input.") [] ;;;
  u_printf (ln "With no options, print -l, -w, -c.") [].

Fixpoint wc_loop (fuel : nat) (fd : Z) (s : wcst) : UM W wcst :=
  match fuel with
  | O => uhang
  | S f =>
      r <- ugetc fd ;;
      if r.1 =? 1 then
        uint (wc_chars s + 1) ;;; wc_loop f fd (wc_step r.2 s)
      else uret s
  end.

(** The counts a line shows, for a file and for the totals. *)
Definition wc_counts (f : wcshow) (l w c m : Z) : UM W unit :=
  uwhen (sh_l f) (u_printf (str "%d ") [ArgInt l]) ;;;
  uwhen (sh_w f) (u_printf (str "%d ") [ArgInt w]) ;;;
  uwhen (sh_c f) (u_printf (str "%d ") [ArgInt c]) ;;;
  uwhen (sh_L f) (u_printf (str "%d ") [ArgInt m]).

(** One round of the loop over the files. *)
Definition wc_file (fuel : nat) (f : wcshow) (path : list Z) (t : wctot) : UM W wctot :=
  fd <- ucall (os_open path O_RDONLY) ;;
  if fd <? 0 then u_printf (ln "wc: cannot open '%s'") [AStr path] ;;; uret t else
  s <- wc_loop fuel fd wc0 ;;
  let s := wc_finish s in
  ucall (os_close fd) ;;;
  wc_counts f (wc_lines s) (wc_words s) (wc_chars s) (wc_max_line s) ;;;
  u_printf (ln "%s") [AStr path] ;;;
  tl <- uint (tot_l t + wc_lines s) ;;
  tw <- uint (tot_w t + wc_words s) ;;
  tc <- uint (tot_c t + wc_chars s) ;;
  uret {| tot_l := tl; tot_w := tw; tot_c := tc;
          tot_L := if tot_L t <? wc_max_line s then wc_max_line s else tot_L t;
          tot_files := tot_files t + 1 |}.
Fixpoint wc_files (fuel : nat) (f : wcshow) (paths : list (list Z)) (t : wctot) : UM W wctot :=
  match paths with
  | [] => uret t
  | p :: paths' => t' <- wc_file fuel f p t ;; wc_files fuel f paths' t'
  end.

Definition wc_main (fuel : nat) (argv : list (list Z)) : UM W unit :=
  let none := {| sh_l := false; sh_w := false; sh_c := false; sh_L := false |} in
  let dflt := {| sh_l := true; sh_w := true; sh_c := true; sh_L := false |} in
  let a := default [] (argv !! 1%nat) in
  let has_arg := (1 <? length argv)%nat in
  if has_arg && (cmp_str a (str "?") =? 0) then wc_usage ;;; uexit 0 else
  let has_flags := has_arg && (ch0 a =? 45) in
  match (if has_flags then List.find (fun c => negb (wc_valid c)) (tl a) else None) with
  | Some c =>
      u_printf (ln "wc: invalid option -- '%c'") [ArgInt c] ;;; wc_usage ;;; uexit 1
  | None =>
      let f := wc_default (if has_flags then fold_left (fun f c => wc_flag c f) (tl a) none else dflt) in
      let file_start := if has_flags then 2%nat else 1%nat in
      if (length argv <=? file_start)%nat then
        u_printf (ln "wc: missing file operand") [] ;;;
        u_printf (ln "Try 'wc ?' for more information.") [] ;;;
        uexit 1
      else
      t <- wc_files fuel f (drop file_start argv)
             {| tot_l := 0; tot_w := 0; tot_c := 0; tot_L := 0; tot_files := 0 |} ;;
      uwhen (1 <? tot_files t)
        (wc_counts f (tot_l t) (tot_w t) (tot_c t) (tot_L t) ;;; u_printf (ln "total") []) ;;;
      uexit 0
  end.
End wc.

(** * tail *)

Definition DEFAULT_LINES : Z := 10.
Definition TAIL_BUF : Z := 10000.
Definition TAIL_LINES : nat := 100.

(** [lines], the strings that the loop over the file makes of the bytes after
    the [count] first lines have been found. *)
Fixpoint tail_split (count : nat) (bs : list Z) : list (list Z) :=
  match bs with
  | [] => [[]]
  | c :: bs' =>
      if (c =? 10) && (count <? TAIL_LINES)%nat then [] :: tail_split (S count) bs'
      else match tail_split count bs' with
           | l :: ls => (c :: l) :: ls
           | [] => [[c]]
           end
  end.

Section tail.
Context {W : Type} `{Unix W}.
Local Open Scope user_scope.

(** Read the file into the array at [buf]; the result is [total_chars]. *)
Fixpoint tail_read (fuel : nat) (buf fd total : Z) : UM W Z :=
  match fuel with
  | O => uhang
  | S f =>
      n <- uread fd (buf + total) (TAIL_BUF - total - 1) ;;
      if 0 <? n then tail_read f buf fd (total + n) else uret total
  end.
(** The lines are the formats of [printf]. *)
Definition tail_show (l : list Z) : UM W unit :=
  u_printf (c_string l) [ArgInt (Z.of_nat (length (c_string l)))] ;;;
  u_printf [10] [].
Definition tail_main (fuel : nat) (buf : Z) (argv : list (list Z)) : UM W unit :=
  let argc := length argv in
  let a := default [] (argv !! 1%nat) in
  if (1 <? argc)%nat && (cmp_str a (str "?") =? 0) then
    u_printf (ln "Usage: tail [-n number] [filename]") [] ;;;
    u_printf (ln "Display the last N lines of a file or standard input") [] ;;;
    uexit 0
  else
  p <- (if (1 <? argc)%nat && (cmp_str a (str "-n") =? 0) && (2 <? argc)%nat then
          s <- argv_at argv 2 ;;
          n <- uatoi s ;;
          uret (if n <=? 0 then DEFAULT_LINES else n, argv !! 3%nat)
        else uret (DEFAULT_LINES, argv !! 1%nat)) ;;
  let '(num_lines, filename) := p in
  fd <- (match filename with
         | Some path =>
             fd <- ucall (os_open path O_RDONLY) ;;
             if fd <? 0 then u_printf (ln "tail: cannot open file") [] ;;; uexit 1 else uret fd
         | None => uret 0
         end) ;;
  total <- tail_read fuel buf fd 0 ;;
  upoke (store8 (buf + total) 0) ;;;
  bs <- upeek (load_bytes (Z.to_nat total) buf) ;;
  let lines := tail_split 1 bs in
  let line_count := Z.of_nat (length lines) in
  let start := if num_lines <? line_count then line_count - num_lines else 0 in
  ufor_each (drop (Z.to_nat start) lines) tail_show ;;;
  (match filename with Some _ => ucall (os_close fd) ;;; uret tt | None => uret tt end) ;;;
  uexit 0.
End tail.

(** * diff *)

Definition MAX_LINE : nat := 256.

Section diff.
Context {W : Type} `{Unix W}.
Local Open Scope user_scope.

Definition diff_usage : UM W unit :=
  u_printf (ln "Usage: diff file1 file2") [] ;;;
  u_printf (ln "Compare two files line by line.") [] ;;;
  u_printf (ln "Example: diff a.txt b.txt") [] ;;;
  u_printf (ln "         diff ? (for help)") [].

(** The loop of [read_line] with room for [k] bytes; [ch] is the variable [ch],
    which is not initialised.  The result is the line and the final [ch]. *)
Fixpoint read_line_loop (k : nat) (fd ch : Z) : UM W (list Z * Z) :=
  match k with
  | O => uret ([], ch)
  | S k' =>
      r <- ugetc fd ;;
      if r.1 <=? 0 then uret ([], ch)
      else if r.2 =? 10 then uret ([], 10)
      else x <- read_line_loop k' fd r.2 ;; uret (r.2 :: x.1, x.2)
  end.
Definition read_line (junk fd : Z) (max_size : nat) : UM W (list Z * bool) :=
  x <- read_line_loop (max_size - 1) fd junk ;;
  uret (x.1, (0 <? length x.1)%nat || (length x.1 =? 0)%nat && (x.2 =? 10)).

(** The comparison of a round; [d] is [differences], the result its value
    after it. *)
Definition diff_compare (a b line1 line2 : list Z) (has1 has2 : bool) (line_num d : Z) : UM W Z :=
  if has1 && has2 then
    if negb (cmp_str line1 line2 =? 0) then
      uwhen (0 <? d) (u_printf [10] []) ;;;
      u_printf (ln "Line %d differs:") [ArgInt line_num] ;;;
      u_printf (ln "< %s") [AStr line1] ;;;
      u_printf (ln "> %s") [AStr line2] ;;;
      uint (d + 1)
    else uret d
  else if has1 && negb has2 then
    uwhen (0 <? d) (u_printf [10] []) ;;;
    u_printf (ln "Line %d only in %s:") [ArgInt line_num; AStr a] ;;;
    u_printf (ln "< %s") [AStr line1] ;;;
    uint (d + 1)
  else if negb has1 && has2 then
    uwhen (0 <? d) (u_printf [10] []) ;;;
    u_printf (ln "Line %d only in %s:") [ArgInt line_num; AStr b] ;;;
    u_printf (ln "> %s") [AStr line2] ;;;
    uint (d + 1)
  else uret d.
(** The loop of [main].  [junk] gives the stack byte that each call of
    [read_line] starts with. *)
Fixpoint diff_loop (fuel : nat) (junk : Z -> Z * Z) (a b : list Z) (fd1 fd2 line_num d : Z)
    (eof1 eof2 : bool) : UM W Z :=
  match fuel with
  | O => uhang
  | S f =>
      x <- read_line (junk line_num).1 fd1 MAX_LINE ;;
      y <- read_line (junk line_num).2 fd2 MAX_LINE ;;
      let eof1 := eof1 || negb x.2 in
      let eof2 := eof2 || negb y.2 in
      if eof1 && eof2 then uret d else
      d' <- diff_compare a b (c_string x.1) (c_string y.1) x.2 y.2 line_num d ;;
      line_num' <- uint (line_num + 1) ;;
      diff_loop f junk a b fd1 fd2 line_num' d' eof1 eof2
  end.
Definition diff_main (fuel : nat) (junk : Z -> Z * Z) (argv : list (list Z)) : UM W unit :=
  if (length argv =? 2)%nat && (cmp_str (default [] (argv !! 1%nat)) (str "?") =? 0) then
    diff_usage ;;; uexit 0
  else if negb (length argv =? 3)%nat then
    u_printf (ln "Usage: diff file1 file2") [] ;;;
    u_printf (ln "Try 'diff ?' for more information.") [] ;;;
    uexit 1
  else
  a <- argv_at argv 1 ;; b <- argv_at argv 2 ;;
  fd1 <- ucall (os_open a O_RDONLY) ;;
  if fd1 <? 0 then u_printf (ln "diff: cannot open '%s'") [AStr a] ;;; uexit 1 else
  fd2 <- ucall (os_open b O_RDONLY) ;;
  if fd2 <? 0 then
    u_printf (ln "diff: cannot open '%s'") [AStr b] ;;; ucall (os_close fd1) ;;; uexit 1
  else
  d <- diff_loop fuel junk a b fd1 fd2 1 0 false false ;;
  ucall (os_close fd1) ;;;
  ucall (os_close fd2) ;;;
  uwhen (d =? 0) (u_printf (ln "Files are identical") []) ;;;
  uexit 0.
End diff.

(** * Directories: find and ls *)

(** [strcmp] of the array [de.name] with a string: comparing past the end of
    the array is undefined. *)
Fixpoint cmp_name (name s : list Z) : option Z :=
  match name with
  | [] => None
  | c :: name' =>
      if c =? 0 then Some (- hd 0 s)
      else match s with
           | [] => Some c
           | d :: s' => if c =? d then cmp_name name' s' else Some (c - d)
           end
  end.
(** [struct dirent] in the 16 bytes that [read] stored. *)
Definition ude_inum (de : list Z) : Z := nth 0 de 0 + 2 ^ 8 * nth 1 de 0.
Definition ude_name (de : list Z) : list Z := take (Z.to_nat DIRSIZ) (drop 2 de).

Section dirs.
Context {W : Type} `{Unix W}.
Local Open Scope user_scope.

Definition ucmp_name (name s : list Z) : UM W Z :=
  match cmp_name name s with Some r => uret r | None => ufault end.
(** [read(fd, &de, sizeof(de)) == sizeof(de)] *)
Definition read_dirent (fd : Z) : UM W (option (list Z)) :=
  rb <- ucall (os_read fd DIRENT_SIZE) ;;
  uret (if rb.1 =? DIRENT_SIZE then Some rb.2 else None).

(** [find], with at most [depth] nested directories of at most [fuel] entries;
    [find_entries] is its loop over the directory open as [fd]. *)
Fixpoint find_entries (rec : list Z -> UM W unit) (fuel : nat) (path filename : list Z) (fd : Z) : UM W unit :=
  match fuel with
  | O => uhang
  | S f =>
      e <- read_dirent fd ;;
      match e with
      | None => uret tt
      | Some de =>
          if ude_inum de =? 0 then find_entries rec f path filename fd else
          r1 <- ucmp_name (ude_name de) (str ".") ;;
          r2 <- (if r1 =? 0 then uret 0 else ucmp_name (ude_name de) (str "..")) ;;
          if (r1 =? 0) || (r2 =? 0) then find_entries rec f path filename fd else
          let buf := path ++ [47] ++ c_string (ude_name de) in
          st <- u_stat buf ;;
          if st.1 <? 0 then
            u_printf (ln "find: cannot stat %s") [AStr buf] ;;; find_entries rec f path filename fd
          else
          r <- ucmp_name (ude_name de) filename ;;
          uwhen (r =? 0) (u_printf (ln "%s") [AStr buf]) ;;;
          uwhen (st_type st.2 =? T_DIR) (rec buf) ;;;
          find_entries rec f path filename fd
      end
  end.
Fixpoint find (depth fuel : nat) (path filename : list Z) : UM W unit :=
  match depth with
  | O => uhang
  | S d =>
      fd <- ucall (os_open path O_RDONLY) ;;
      if fd <? 0 then fprintf 2 (ln "find: cannot open %s") [AStr path] else
      st <- ucall (os_fstat fd) ;;
      if st.1 <? 0 then
        fprintf 2 (ln "find: cannot stat %s") [AStr path] ;;; ucall (os_close fd) ;;; uret tt
      else if negb (st_type st.2 =? T_DIR) then
        fprintf 2 (ln "find: %s is not a directory") [AStr path] ;;; ucall (os_close fd) ;;; uret tt
      else if 512 <? Z.of_nat (length path) + 1 + DIRSIZ + 1 then
        fprintf 2 (ln "find: path too long") [] ;;; ucall (os_close fd) ;;; uret tt
      else
      find_entries (fun buf => find d fuel buf filename) fuel path filename fd ;;;
      ucall (os_close fd) ;;; uret tt
  end.
Definition find_main (depth fuel : nat) (argv : list (list Z)) : UM W unit :=
  if negb (length argv =? 3)%nat then fprintf 2 (ln "Usage: find directory filename") [] ;;; uexit 1 else
  a <- argv_at argv 1 ;; b <- argv_at argv 2 ;;
  if cmp_str a (str "?") =? 0 then
    u_printf (ln "Usage: find directory filename") [] ;;;
    u_printf (ln "Recursively search for filename in directory and subdirectories") [] ;;;
    uexit 0
  else find depth fuel a b ;;; uexit 0.

(** The name after the last slash, blank-padded to 14 characters. *)
Definition fmtname (path : list Z) : list Z :=
  let p := last_name path path in
  if (Z.to_nat DIRSIZ <=? length p)%nat then p
  else p ++ replicate (Z.to_nat DIRSIZ - length p) 32.
Definition ls_line (path : list Z) (st : ustat) : UM W unit :=
  u_printf (ln "%s %d %d %d")
    [AStr (fmtname path); ArgInt (st_type st); ArgInt (st_ino st); ArgInt (s32 (st_size st))].
Fixpoint ls_entries (fuel : nat) (path : list Z) (fd : Z) : UM W unit :=
  match fuel with
  | O => uhang
  | S f =>
      e <- read_dirent fd ;;
      match e with
      | None => uret tt
      | Some de =>
          if ude_inum de =? 0 then ls_entries f path fd else
          let buf := path ++ [47] ++ c_string (ude_name de) in
          st <- u_stat buf ;;
          (if st.1 <? 0 then u_printf (ln "ls: cannot stat %s") [AStr buf] else ls_line buf st.2) ;;;
          ls_entries f path fd
      end
  end.
Definition ls (fuel : nat) (path : list Z) : UM W unit :=
  fd <- ucall (os_open path O_RDONLY) ;;
  if fd <? 0 then fprintf 2 (ln "ls: cannot open %s") [AStr path] else
  st <- ucall (os_fstat fd) ;;
  if st.1 <? 0 then
    fprintf 2 (ln "ls: cannot stat %s") [AStr path] ;;; ucall (os_close fd) ;;; uret tt
  else
  (if (st_type st.2 =? T_DEVICE) || (st_type st.2 =? T_FILE) then ls_line path st.2
   else if st_type st.2 =? T_DIR then
     if 512 <? Z.of_nat (length path) + 1 + DIRSIZ + 1 then u_printf (ln "ls: path too long") []
     else ls_entries fuel path fd
   else uret tt) ;;;
  ucall (os_close fd) ;;; uret tt.
Definition ls_main (fuel : nat) (argv : list (list Z)) : UM W unit :=
  if (length argv <? 2)%nat then ls fuel (str ".") ;;; uexit 0
  else ufor_each (drop 1 argv) (ls fuel) ;;; uexit 0.
End dirs.

(** * What wc counts *)

Definition wc_run (l : list Z) (s : wcst) : wcst := fold_left (fun s c => wc_step c s) l s.

(** The lines of a text; the last one need not end in a newline. *)
Definition lines_of (l : list Z) : list (list Z) :=
  (cut l).1 ++ match (cut l).2 with [] => [] | r => [r] end.
Definition longest (ls : list (list Z)) : Z :=
  foldr (fun l n => Z.max (Z.of_nat (length l)) n) 0 ls.
(** The words: the nonempty runs between blanks. *)
Fixpoint runs (l : list Z) : list (list Z) :=
  match l with
  | [] => [[]]
  | c :: l' =>
      if wc_space c then [] :: runs l'
      else match runs l' with r :: rs => (c :: r) :: rs | [] => [[c]] end
  end.
Definition nonempty (r : list Z) : bool := match r with [] => false | _ => true end.
Definition words (l : list Z) : list (list Z) := List.filter nonempty (runs l).

Fixpoint word_starts (b : bool) (l : list Z) : Z :=
  match l with
  | [] => 0
  | c :: l' => if wc_space c then word_starts false l'
               else (if b then 0 else 1) + word_starts true l'
  end.

Lemma word_starts_words l :
  Z.of_nat (length (words l)) = word_starts false l /\
  Z.of_nat (length (List.filter nonempty (tl (runs l)))) = word_starts true l.
Proof.
  unfold words. induction l as [|c l [IH1 IH2]]; [done|]. simpl.
  destruct (wc_space c); [done|].
  destruct (runs l) as [|r rs]; simpl in *; [lia|]. split; lia.
Qed.

Lemma wc_run_words l s : wc_words (wc_run l s) = wc_words s + word_starts (wc_in_word s) l.
Proof.
  unfold wc_run. revert s. induction l as [|c l IH]; intros s; cbn [fold_left word_starts]; [lia|].
  rewrite IH. cbn [wc_step wc_words wc_in_word]. destruct (wc_space c), (wc_in_word s); simpl; lia.
Qed.

Lemma cut_line p l : 10 ∉ p -> cut (p ++ 10 :: l) = (p :: (cut l).1, (cut l).2).
Proof.
  induction p as [|c p IH]; intros Hp; simpl; [by destruct (cut l)|].
  apply not_elem_of_cons in Hp as [Hc Hp]. rewrite (IH Hp).
  destruct (Z.eqb_spec c 10); [congruence|done].
Qed.

Lemma cut_short p : 10 ∉ p -> cut p = ([], p).
Proof.
  induction p as [|c p IH]; intros Hp; simpl; [done|].
  apply not_elem_of_cons in Hp as [Hc Hp]. rewrite (IH Hp).
  destruct (Z.eqb_spec c 10); [congruence|done].
Qed.

Lemma longest_app ls ls' : longest (ls ++ ls') = Z.max (longest ls) (longest ls').
Proof.
  induction ls as [|l ls IH]; simpl; [|rewrite IH; lia].
  enough (0 <= longest ls') by lia. induction ls'; simpl; lia.
Qed.

(** The loop is in the middle of a line that starts with [p]. *)
Definition in_line (p : list Z) (s : wcst) : Prop :=
  wc_curr_line s = Z.of_nat (length p) /\ 0 <= wc_chars s /\
  (0 <? wc_chars s) && negb (wc_last_nl s) = nonempty p.

Lemma wc_run_lines l p s :
  10 ∉ p -> in_line p s -> 0 <= wc_max_line s ->
  in_line (cut (p ++ l)).2 (wc_run l s) /\
  wc_lines (wc_run l s) = wc_lines s + Z.of_nat (length (cut (p ++ l)).1) /\
  wc_max_line (wc_run l s) = Z.max (wc_max_line s) (longest (cut (p ++ l)).1) /\
  wc_chars (wc_run l s) = wc_chars s + Z.of_nat (length l).
Proof.
  unfold wc_run. revert p s. induction l as [|c l IH]; intros p s Hp (Hc & H0 & Hn) Hm; cbn [fold_left].
  { rewrite app_nil_r, cut_short by done. simpl. split_and!; [done..|lia|lia|lia]. }
  destruct (Z.eqb_spec c 10) as [->|Hne].
  - rewrite cut_line by done. cbn [fst snd longest foldr length].
    destruct (IH [] (wc_step 10 s)) as (J1 & J2 & J3 & J4).
    + apply not_elem_of_nil.
    + split_and!; cbn; [done|lia|]. by rewrite andb_false_r.
    + cbn. destruct (Z.ltb_spec (wc_max_line s) (wc_curr_line s)); lia.
    + rewrite J2, J3, J4. cbn [app] in *. split_and!; [done|cbn; lia| |cbn; lia].
      cbn [wc_step wc_max_line Z.eqb Pos.eqb andb]. fold (longest (cut l).1).
      destruct (Z.ltb_spec (wc_max_line s) (wc_curr_line s)); lia.
  - assert (E : (c =? 10) = false) by lia.
    destruct (IH (p ++ [c]) (wc_step c s)) as (J1 & J2 & J3 & J4).
    + rewrite elem_of_app, list_elem_of_singleton. naive_solver.
    + split_and!; cbn [wc_step wc_curr_line wc_chars wc_last_nl]; rewrite ?E.
      * rewrite length_app. simpl. lia.
      * lia.
      * destruct (Z.ltb_spec 0 (wc_chars s + 1)); [|lia]. by destruct p.
    + cbn [wc_step wc_max_line]. by rewrite E.
    + rewrite <-app_assoc in *. cbn [app] in *.
      cbn [wc_step wc_lines wc_max_line wc_chars] in J2, J3, J4. rewrite E in J2, J3. cbn [andb] in J3.
      rewrite J2, J3, J4. split_and!; [done..|cbn [length]; lia].
Qed.

(** What [wc] makes of a file of the bytes [l]. *)
Lemma wc_finish_counts l :
  let s := wc_finish (wc_run l wc0) in
  wc_lines s = Z.of_nat (length (lines_of l)) /\ wc_words s = Z.of_nat (length (words l)) /\
  wc_chars s = Z.of_nat (length l) /\ wc_max_line s = longest (lines_of l).
Proof.
  destruct (wc_run_lines l [] wc0) as ((J0 & _ & Jn) & J2 & J3 & J4);
    [apply not_elem_of_nil|done|done|].
  pose proof (wc_run_words l wc0) as Jw. cbn [wc0 wc_in_word] in Jw.
  rewrite <-(proj1 (word_starts_words l)) in Jw.
  cbn [app wc0 wc_lines wc_max_line wc_chars wc_words wc_in_word] in *.
  unfold wc_finish, lines_of. cbv zeta. cbn [wc_lines wc_words wc_chars wc_max_line].
  rewrite Jn, J0, J2, J3, J4, Jw, length_app, longest_app. destruct l as [|c l]; [done|].
  destruct (Z.eqb_spec (0 + Z.of_nat (length (c :: l))) 0); [simpl in *; lia|].
  assert (0 <= longest (cut (c :: l)).1).
  { clear. induction (cut (c :: l)).1; simpl; lia. }
  destruct (cut (c :: l)).2 as [|d r]; cbn [nonempty andb longest foldr length].
  - split_and!; simpl length; lia.
  - split_and!; [simpl length; lia..|].
    destruct (Z.ltb_spec (Z.max 0 (longest (cut (c :: l)).1)) (Z.of_nat (S (length r)))); lia.
Qed.

Lemma words_le l : Z.of_nat (length (words l)) <= Z.of_nat (length l).
Proof.
  rewrite (proj1 (word_starts_words l)). generalize false.
  induction l as [|c l IH]; intros b; simpl; [lia|].
  destruct (wc_space c); [specialize (IH false); lia|]. specialize (IH true). destruct b; lia.
Qed.

Lemma lines_le l : Z.of_nat (length (lines_of l)) <= Z.of_nat (length l).
Proof.
  unfold lines_of. induction l as [|c l IH]; [done|]. simpl cut. destruct (cut l) as [ls r].
  cbn [fst snd] in IH. rewrite !length_app in *. destruct (c =? 10); [cbn [fst snd length] in *; lia|].
  destruct ls, r; cbn [fst snd length] in *; lia.
Qed.

(** * Runs of the programs *)

Section runs.
Context {W : Type} `{UnixOk W}.
Local Open Scope user_scope.

Lemma wc_loop_run fuel fd s (u : ust W) :
  source (uw u) fd -> (length (pending (uw u) fd) < fuel)%nat ->
  0 <= wc_chars s -> wc_chars s + Z.of_nat (length (pending (uw u) fd)) <= INT_MAX ->
  exists u', wc_loop fuel fd s u = URet (wc_run (pending (uw u) fd) s) u' /\
    got fd (pending (uw u) fd) (uw u) (uw u').
Proof.
  revert s u. induction fuel as [|f IH]; intros s u Hs Hf Hz Hc; [lia|]. cbn [wc_loop].
  destruct (ugetc_spec fd u Hs) as (r & w1 & Hg & Hr). rewrite (ubind_URet _ _ _ _ _ Hg).
  destruct (pending (uw u) fd) as [|c l] eqn:Ep.
  - destruct Hr as [-> Hr]. exists (UState (um u) w1). done.
  - destruct Hr as [-> Hr]. cbn [fst snd Z.eqb Pos.eqb].
    cbn [length] in Hf, Hc. rewrite (ubind_URet _ _ _ _ _ (uint_ok (wc_chars s + 1) _ ltac:(lia))).
    assert (Hp : pending w1 fd = l) by (destruct Hr as (Hr & _); rewrite Ep in Hr; by injection Hr).
    destruct (IH (wc_step c s) (UState (um u) w1)) as (u' & Hl & Hg'); simpl uw; rewrite ?Hp.
    + eauto with user. + lia. + cbn; lia. + cbn; lia.
    + simpl uw in Hl, Hg'. rewrite Hp in Hl, Hg'. exists u'. split; [exact Hl|].
      by apply (got_trans fd [c] l _ w1).
Qed.

(** [printf("%d ", n)] and [printf("%s\n", s)] *)
Lemma print_count n (u : ust W) :
  sink (uw u) 1 -> 0 <= n <= INT_MAX ->
  exists ds w', u_printf (str "%d ") [ArgInt n] u = URet tt (UState (um u) w') /\
    wrote 1 (ds ++ [32]) (uw u) w' /\ Forall (fun c => is_digit c = true) ds /\ dec ds = n.
Proof.
  intros Hs Hn. destruct (u_printint_dec n Hn) as (ds & Hp & Hd & Hv & _).
  destruct (vprintf_sends 1 (str "%d ") [ArgInt n] (ds ++ [32]) u Hs) as (w' & Hw & Hr).
  { exact (u_format_d n ds 2 [32] [] Hn Hp). }
  exists ds, w'. done.
Qed.

Lemma print_path s (u : ust W) :
  sink (uw u) 1 ->
  exists w', u_printf (ln "%s") [AStr s] u = URet tt (UState (um u) w') /\ wrote 1 (s ++ [10]) (uw u) w'.
Proof. intros Hs. apply (vprintf_sends 1 (ln "%s") [AStr s] (s ++ [10]) u Hs). exact (u_format_s s 2 [10] []). Qed.

(** [n] as digits *)
Definition shows (ds : list Z) (n : Z) : Prop := Forall (fun c => is_digit c = true) ds /\ dec ds = n.

(** The line for a file with the default options. *)
Lemma wc_counts_default l w c m path (u : ust W) :
  sink (uw u) 1 -> 0 <= l <= INT_MAX -> 0 <= w <= INT_MAX -> 0 <= c <= INT_MAX ->
  let f := {| sh_l := true; sh_w := true; sh_c := true; sh_L := false |} in
  exists dl dw dc w', ubind (wc_counts f l w c m) (fun _ => u_printf (ln "%s") [AStr path]) u =
    URet tt (UState (um u) w') /\
    wrote 1 (dl ++ [32] ++ dw ++ [32] ++ dc ++ [32] ++ path ++ [10]) (uw u) w' /\
    shows dl l /\ shows dw w /\ shows dc c.
Proof.
  intros Hs Hl Hw Hc f. unfold wc_counts, uwhen. cbn [f sh_l sh_w sh_c sh_L]. rewrite !ubind_assoc.
  destruct (print_count l u Hs Hl) as (dl & w1 & H1 & R1 & D1). rewrite (ubind_URet _ _ _ _ _ H1), !ubind_assoc.
  destruct (print_count w (UState (um u) w1)) as (dw & w2 & H2 & R2 & D2); [simpl; eauto with user|done|].
  rewrite (ubind_URet _ _ _ _ _ H2), !ubind_assoc.
  destruct (print_count c (UState (um u) w2)) as (dc & w3 & H3 & R3 & D3); [simpl; eauto with user|done|].
  rewrite (ubind_URet _ _ _ _ _ H3).
  destruct (print_path path (UState (um u) w3)) as (w4 & H4 & R4); [simpl; eauto with user|].
  exists dl, dw, dc, w4. split; [exact H4|]. split; [|done].
  simpl in *. change (32 :: dw ++ ?x) with ([32] ++ dw ++ x).
  pose proof (wrote_trans _ _ _ _ _ _ (wrote_trans _ _ _ _ _ _ (wrote_trans _ _ _ _ _ _ R1 R2) R3) R4) as R.
  rewrite <-!app_assoc in R. exact R.
Qed.

(** One file with the default options. *)
Lemma wc_file_default fuel path t fd (u : ust W) w1 :
  os_open path O_RDONLY (uw u) = (fd, w1) -> 0 <= fd -> fd <> 1 ->
  source w1 fd -> sink w1 1 -> (length (pending w1 fd) < fuel)%nat ->
  Z.of_nat (length (pending w1 fd)) <= INT_MAX ->
  tot_l t = 0 -> tot_w t = 0 -> tot_c t = 0 -> tot_files t = 0 ->
  let f := {| sh_l := true; sh_w := true; sh_c := true; sh_L := false |} in
  let bs := pending w1 fd in
  exists dl dw dc u' t', wc_file fuel f path t u = URet t' u' /\ tot_files t' = 1 /\
    sent (uw u') 1 = sent w1 1 ++ dl ++ [32] ++ dw ++ [32] ++ dc ++ [32] ++ path ++ [10] /\
    shows dl (Z.of_nat (length (lines_of bs))) /\ shows dw (Z.of_nat (length (words bs))) /\
    shows dc (Z.of_nat (length bs)).
Proof.
  intros Ho Hfd Hne Hs Hk Hf Hb Tl Tw Tc Tf f bs. unfold wc_file.
  pose proof (lines_le bs) as Bl. pose proof (words_le bs) as Bw. fold bs in Hb.
  assert (Hc : ucall (os_open path O_RDONLY) u = URet fd (UState (um u) w1)) by (unfold ucall; by rewrite Ho).
  rewrite (ubind_URet _ _ _ _ _ Hc). rewrite (proj2 (Z.ltb_ge fd 0)) by done.
  destruct (wc_loop_run fuel fd wc0 (UState (um u) w1)) as (u2 & Hl & Hg); [done|done|done|exact Hb|].
  rewrite (ubind_URet _ _ _ _ _ Hl). cbv zeta. simpl uw in *. fold bs. fold bs in Hg.
  destruct (wc_finish_counts bs) as (-> & -> & -> & _).
  destruct (close_law fd (uw u2) 1 ltac:(lia)) as (_ & C2 & _ & C4).
  set (u3 := UState (um u2) (os_close fd (uw u2)).2).
  assert (Hcl : ucall (os_close fd) u2 = URet (os_close fd (uw u2)).1 u3).
  { unfold ucall, u3. by destruct (os_close fd (uw u2)). }
  rewrite (ubind_URet _ _ _ _ _ Hcl).
  destruct (wc_counts_default (Z.of_nat (length (lines_of bs))) (Z.of_nat (length (words bs)))
              (Z.of_nat (length bs)) (wc_max_line (wc_finish (wc_run bs wc0))) path u3)
    as (dl & dw & dc & w4 & Hp & Hw & Dl & Dw & Dc); [apply C2; eauto with user|lia..|].
  rewrite <-ubind_assoc. rewrite (ubind_URet _ _ _ _ _ Hp). rewrite Tl, Tw, Tc.
  rewrite (ubind_URet _ _ _ _ _ (uint_ok (0 + Z.of_nat (length (lines_of bs))) _ ltac:(lia))).
  rewrite (ubind_URet _ _ _ _ _ (uint_ok (0 + Z.of_nat (length (words bs))) _ ltac:(lia))).
  rewrite (ubind_URet _ _ _ _ _ (uint_ok (0 + Z.of_nat (length bs)) _ ltac:(lia))). unfold uret.
  eexists dl, dw, dc, _, _. split; [reflexivity|]. cbn [tot_files uw]. split; [lia|]. split; [|done].
  destruct Hw as (-> & _). unfold u3. simpl uw. rewrite C4. by destruct Hg as (_ & _ & _ & _ & ->).
Qed.
End runs.

(** * tail *)

Lemma tail_split_cut count bs :
  (count + length (cut bs).1 <= TAIL_LINES)%nat -> tail_split count bs = (cut bs).1 ++ [(cut bs).2].
Proof.
  revert count. induction bs as [|c bs IH]; intros count Hc; [done|]. simpl in *.
  destruct (cut bs) as [ls r]. cbn [fst snd] in IH. destruct (Z.eqb_spec c 10) as [->|Hne]; cbn [fst snd] in *.
  - cbn [length] in Hc. rewrite (proj2 (Nat.ltb_lt _ _)) by lia. cbn [andb]. rewrite IH by lia. done.
  - cbn [andb]. destruct ls as [|x ls]; cbn [fst snd length] in *; by rewrite IH by lia.
Qed.

(** Text that [printf] prints as it is. *)
Definition plain (l : list Z) : Prop := Forall (fun c => 0 < c < 2 ^ 8 /\ c <> 37) l.

Lemma plain_app l l' : plain (l ++ l') <-> plain l /\ plain l'.
Proof. apply Forall_app. Qed.

Lemma plain_cut l : plain l -> Forall plain (cut l).1 /\ plain (cut l).2.
Proof.
  intros Hl. rewrite (cut_join l) in Hl. apply plain_app in Hl as [Hl Hr]. split; [|done].
  generalize dependent (cut l).1. intros ls Hl. clear Hr. induction ls as [|x ls IH]; constructor.
  - unfold join in Hl. simpl in Hl. by apply plain_app in Hl as [[Hx _]%plain_app _].
  - apply IH. unfold join in *. simpl in Hl. by apply plain_app in Hl as [_ Hl].
Qed.

Section tail_runs.
Context {W : Type} `{UnixOk W}.

Lemma tail_show_plain l (u : ust W) :
  plain l -> sink (uw u) 1 ->
  exists w', tail_show l u = URet tt (UState (um u) w') /\ wrote 1 (l ++ [10]) (uw u) w'.
Proof.
  intros Hl Hs. assert (Hc : c_string l = l).
  { apply leading_id. eapply Forall_impl; [|exact Hl]. intros c Hc. simpl in Hc. destruct (Z.eqb_spec c 0); [lia|done]. }
  assert (Hp : forallb (fun c => negb (c =? c_pct)) l = true).
  { clear Hc. induction Hl as [|c l' Hc _ IH]; [done|]. cbn [forallb]. rewrite IH.
    unfold c_pct. destruct (Z.eqb_spec c 37); [lia|done]. }
  unfold tail_show. rewrite Hc.
  destruct (vprintf_sends 1 l [ArgInt (Z.of_nat (length l))] l u Hs) as (w1 & H1 & R1).
  { pose proof (u_format_plain l 0 [] [ArgInt (Z.of_nat (length l))] Hp) as Hf.
    rewrite Nat.add_0_r, app_nil_r in Hf. rewrite Hf. simpl. by rewrite app_nil_r. }
  unfold u_printf. rewrite (ubind_URet _ _ _ _ _ H1).
  destruct (vprintf_sends 1 [10] [] [10] (UState (um u) w1)) as (w2 & H2 & R2); [simpl; eauto with user|done|].
  exists w2. split; [exact H2|]. by apply (wrote_trans 1 l [10] _ w1).
Qed.

Lemma tail_show_lines ls (u : ust W) :
  Forall plain ls -> sink (uw u) 1 ->
  exists w', ufor_each ls tail_show u = URet tt (UState (um u) w') /\ wrote 1 (join ls) (uw u) w'.
Proof.
  intros Hl. revert u. induction Hl as [|l ls Hl _ IH]; intros u Hs; simpl.
  - exists (uw u). split; [by destruct u|apply wrote_refl].
  - destruct (tail_show_plain l u Hl Hs) as (w1 & H1 & R1). rewrite (ubind_URet _ _ _ _ _ H1).
    destruct (IH (UState (um u) w1)) as (w2 & -> & R2); [simpl; eauto with user|].
    exists w2. split; [done|]. by apply (wrote_trans 1 (l ++ [10]) (join ls) _ w1).
Qed.

(** The array holds the bytes read so far. *)
Lemma tail_read_all fuel buf fd pre (u : ust W) :
  source (uw u) fd -> bytes (pending (uw u) fd) ->
  load_bytes (length pre) buf (um u) = pre ->
  Z.of_nat (length pre) + Z.of_nat (length (pending (uw u) fd)) < TAIL_BUF ->
  (length (pending (uw u) fd) < fuel)%nat ->
  let all := pre ++ pending (uw u) fd in
  exists u', tail_read fuel buf fd (Z.of_nat (length pre)) u = URet (Z.of_nat (length all)) u' /\
    load_bytes (length all) buf (um u') = all /\ got fd (pending (uw u) fd) (uw u) (uw u').
Proof.
  revert pre u. induction fuel as [|f IH]; intros pre u Hs Hby Hm Hn Hf all; [lia|]. cbn [tail_read].
  destruct (decide (TAIL_BUF - Z.of_nat (length pre) - 1 = 0)) as [E|E].
  { assert (Hp : pending (uw u) fd = []) by (destruct (pending (uw u) fd); [done|simpl in Hn; lia]).
    assert (Hr : uread fd (buf + Z.of_nat (length pre)) 0 u = URet 0 u).
    { unfold uread, ubind, ucall, upoke, uret. rewrite read_none by done. by destruct u. }
    rewrite E, (ubind_URet _ _ _ _ _ Hr). exists u. unfold all. rewrite Hp, app_nil_r.
    split_and!; [done..|]. unfold got. by rewrite Hp. }
  destruct (uread_spec fd (buf + Z.of_nat (length pre)) (TAIL_BUF - Z.of_nat (length pre) - 1) u Hs ltac:(lia))
    as (bs & w1 & Hr & Hl & Hg & He). rewrite (ubind_URet _ _ _ _ _ Hr).
  destruct bs as [|b bs].
  - specialize (He eq_refl). exists (UState (um u) w1). unfold all. rewrite He, app_nil_r. simpl.
    rewrite He in *. done.
  - assert (Hp : pending (uw u) fd = (b :: bs) ++ pending w1 fd) by (by destruct Hg).
    destruct (Z.ltb_spec 0 (Z.of_nat (length (b :: bs)))); [|simpl in *; lia].
    rewrite Hp in Hby, Hn, Hf. apply bytes_app in Hby as [Hb1 Hb2]. rewrite length_app in Hn, Hf. cbn [length] in Hf.
    destruct (IH (pre ++ b :: bs) (UState (store_bytes (buf + Z.of_nat (length pre)) (b :: bs) (um u)) w1))
      as (u' & Ht & Hm' & Hg'); [simpl uw; eauto with user|done| | |simpl uw; lia|].
    + rewrite length_app, load_bytes_app. f_equal; [|by apply load_store_bytes].
      transitivity (load_bytes (length pre) buf (um u)); [|done].
      apply load_bytes_ext. intros a Ha. apply store_bytes_outside. lia.
    + rewrite length_app. simpl uw. lia.
    + exists u'. rewrite length_app, Nat2Z.inj_add in Ht. rewrite Ht. simpl uw in *. unfold all. rewrite Hp, app_assoc.
      split_and!; [done..|]. rewrite <-app_assoc in *. by apply (got_trans fd _ _ _ w1).
Qed.
End tail_runs.

(** * diff *)

(** The next line of a text, cut at [k] bytes, and what follows; the pieces
    that [read_line] makes of a text; and how many of them differ. *)
Fixpoint take_line (k : nat) (l : list Z) : list Z * list Z :=
  match k, l with
  | O, _ => ([], l)
  | _, [] => ([], [])
  | S k', c :: l' => if c =? 10 then ([], l') else let '(x, r) := take_line k' l' in (c :: x, r)
  end.
Fixpoint diff_lines (fuel : nat) (l : list Z) : list (list Z) :=
  match fuel, l with
  | S f, _ :: _ => let '(x, r) := take_line (MAX_LINE - 1) l in c_string x :: diff_lines f r
  | _, _ => []
  end.
Fixpoint differences (a b : list (list Z)) : Z :=
  match a, b with
  | [], [] => 0
  | x :: a', y :: b' => (if decide (x = y) then 0 else 1) + differences a' b'
  | _ :: a', [] => 1 + differences a' []
  | [], _ :: b' => 1 + Z.of_nat (length b')
  end.

Lemma differences_nil_l b : differences [] b = Z.of_nat (length b).
Proof. destruct b; simpl; lia. Qed.

Lemma differences_zero a b : differences a b = 0 <-> a = b.
Proof.
  assert (Hp : forall a b, 0 <= differences a b).
  { clear. induction a as [|x a IH]; intros [|y b]; simpl; [lia|lia|specialize (IH []); lia|].
    specialize (IH b). destruct (decide _); lia. }
  revert b. induction a as [|x a IH]; intros [|y b]; simpl; [done|split; [lia|done]| |].
  - specialize (Hp a []). split; [lia|done].
  - specialize (Hp a b). destruct (decide (x = y)) as [->|Hne].
    + rewrite Z.add_0_l, IH. split; [by intros ->|by intros [= ->]].
    + split; [lia|congruence].
Qed.

Lemma take_line_rest k l : (length (take_line k l).2 <= length l)%nat.
Proof.
  revert l. induction k as [|k IH]; intros [|c l]; simpl; [lia..|]. destruct (c =? 10); simpl; [lia|].
  specialize (IH l). destruct (take_line k l). simpl in *. lia.
Qed.

Lemma take_line_shorter k c l : (length (take_line (S k) (c :: l)).2 <= length l)%nat.
Proof.
  simpl. destruct (c =? 10); [done|]. pose proof (take_line_rest k l). by destruct (take_line k l).
Qed.

Section diff_runs.
Context {W : Type} `{UnixOk W}.
Local Open Scope user_scope.

(** The line and the [ch] that [read_line] ends with. *)
Lemma read_line_loop_take k fd ch (u : ust W) :
  source (uw u) fd ->
  let '(x, r) := take_line k (pending (uw u) fd) in
  exists ch' w', read_line_loop k fd ch u = URet (x, ch') (UState (um u) w') /\
    pending w' fd = r /\ (exists bs, got fd bs (uw u) w') /\
    (x = [] -> k <> O -> if decide (pending (uw u) fd = []) then ch' = ch else ch' = 10).
Proof.
  revert ch u. induction k as [|k IH]; intros ch u Hs; cbn [take_line read_line_loop].
  { exists ch, (uw u). destruct u. split_and!; [done..| |done]. exists []. done. }
  destruct (ugetc_spec fd u Hs) as (r & w1 & Hg & Hr). rewrite (ubind_URet _ _ _ _ _ Hg).
  destruct (pending (uw u) fd) as [|c l] eqn:Ep.
  { destruct Hr as [-> Hr]. exists ch, w1. split_and!; [done| |by exists []|done].
    destruct Hr as (Hr & _). rewrite Ep in Hr. done. }
  destruct Hr as [-> Hr]. cbn [fst snd].
  assert (Hp : pending w1 fd = l) by (destruct Hr as (Hr & _); rewrite Ep in Hr; by injection Hr).
  change (1 <=? 0) with false. destruct (Z.eqb_spec c 10) as [->|Hc].
  { exists 10, w1. split_and!; [done|done|by exists [10]|done]. }
  specialize (IH c (UState (um u) w1) ltac:(simpl; eauto with user)). simpl uw in IH. rewrite Hp in IH.
  destruct (take_line k l) as [x r]. destruct IH as (ch' & w2 & H2 & Hp2 & (bs & Hb) & _).
  rewrite (ubind_URet _ _ _ _ _ H2). exists ch', w2. split_and!; [done..| |done].
  exists ([c] ++ bs). by apply (got_trans fd _ _ _ w1).
Qed.

(** A line is reported unless the file is at its end, provided the byte that
    [ch] happens to hold is not a newline. *)
Lemma read_line_take junk fd (u : ust W) :
  source (uw u) fd -> junk <> 10 ->
  let '(x, r) := take_line (MAX_LINE - 1) (pending (uw u) fd) in
  exists w', read_line junk fd MAX_LINE u =
    URet (x, nonempty (pending (uw u) fd)) (UState (um u) w') /\
    pending w' fd = r /\ exists bs, got fd bs (uw u) w'.
Proof.
  intros Hs Hj. pose proof (read_line_loop_take (MAX_LINE - 1) fd junk u Hs) as Hl.
  destruct (take_line (MAX_LINE - 1) (pending (uw u) fd)) as [x r] eqn:Et.
  destruct Hl as (ch & w' & Hl & Hp & Hg & Hx). exists w'. split; [|done].
  unfold read_line. rewrite (ubind_URet _ _ _ _ _ Hl). unfold uret. do 2 f_equal. cbn [fst snd].
  destruct x as [|c x]; cbn [length Nat.ltb Nat.leb Nat.eqb orb andb].
  - specialize (Hx eq_refl ltac:(done)). destruct (decide _) as [->|Hne].
    + subst. simpl. apply Z.eqb_neq. done.
    + subst. by destruct (pending (uw u) fd).
  - destruct (pending (uw u) fd); [|done]. done.
Qed.

(** Programs that only print on descriptor 1. *)
Definition prints (m : UM W unit) : Prop :=
  forall u, sink (uw u) 1 -> exists bs w', m u = URet tt (UState (um u) w') /\ wrote 1 bs (uw u) w'.

Lemma prints_seq m m' : prints m -> prints m' -> prints (m ;;; m').
Proof.
  intros Hm Hm' u Hs. destruct (Hm u Hs) as (b1 & w1 & H1 & R1). rewrite (ubind_URet _ _ _ _ _ H1).
  destruct (Hm' (UState (um u) w1)) as (b2 & w2 & H2 & R2); [simpl; eauto with user|].
  exists (b1 ++ b2), w2. split; [done|]. by apply (wrote_trans 1 _ _ _ w1).
Qed.
Lemma prints_when b m : prints m -> prints (uwhen b m).
Proof.
  intros Hm. destruct b; [done|]. intros u _. exists [], (uw u). split; [by destruct u|apply wrote_refl].
Qed.
Lemma prints_format fmt args bs : u_format (length fmt) fmt args = Some bs -> prints (u_printf fmt args).
Proof. intros Hf u Hs. destruct (vprintf_sends 1 fmt args bs u Hs Hf) as (w' & ? & ?). by exists bs, w'. Qed.

Lemma print_line_d s rest n :
  forallb (fun c => negb (c =? c_pct)) (str s) = true -> forallb (fun c => negb (c =? c_pct)) rest = true ->
  0 <= n <= INT_MAX -> prints (u_printf (str s ++ 37 :: 100 :: rest) [ArgInt n]).
Proof.
  intros Hs Hr Hn. destruct (u_printint_dec n Hn) as (ds & Hp & _).
  pose proof (u_format_plain rest 1 [] [] Hr) as Hf. rewrite app_nil_r, Nat.add_1_r in Hf.
  eapply prints_format. rewrite length_app, u_format_plain by done. cbn [length].
  rewrite (u_format_d n ds) by done. rewrite Hf. done.
Qed.
Lemma print_only_in n s : 0 <= n <= INT_MAX -> prints (u_printf (ln "Line %d only in %s:") [ArgInt n; AStr s]).
Proof.
  intros Hn. destruct (u_printint_dec n Hn) as (ds & Hp & _). eapply prints_format.
  change (ln "Line %d only in %s:") with (str "Line " ++ 37 :: 100 :: str " only in " ++ 37 :: 115 :: [58; 10]).
  change (length _) with (length (str "Line ") + S (length (str " only in ") + 5))%nat.
  rewrite u_format_plain by done. rewrite (u_format_d n ds) by done.
  rewrite u_format_plain by done. unfold AStr. by rewrite u_format_s.
Qed.
Lemma print_side c s : c <> 37 -> prints (u_printf ([c; 32; 37; 115; 10]) [AStr s]).
Proof.
  intros Hc. eapply prints_format. change [c; 32; 37; 115; 10] with ([c; 32] ++ 37 :: 115 :: [10]).
  change (length _) with (Nat.add (length [c; 32]) 3). rewrite u_format_plain; [unfold AStr; by rewrite u_format_s|].
  simpl. unfold c_pct. by destruct (Z.eqb_spec c 37).
Qed.

(** A report of a difference and the count after it. *)
Lemma diff_report d m (u : ust W) :
  prints m -> sink (uw u) 1 -> 0 <= d < INT_MAX ->
  exists bs w', ubind (uwhen (0 <? d) (u_printf [10] [])) (fun _ => ubind m (fun _ => uint (d + 1))) u =
    URet (d + 1) (UState (um u) w') /\ wrote 1 bs (uw u) w'.
Proof.
  intros Hm Hs Hd. assert (Hw : prints (uwhen (0 <? d) (u_printf [10] []))).
  { apply prints_when. by apply (prints_format [10] [] [10]). }
  destruct (prints_seq _ _ Hw Hm u Hs) as (bs & w' & Hr & R). exists bs, w'. split; [|done].
  rewrite <-ubind_assoc, (ubind_URet _ _ _ _ _ Hr). apply uint_ok. lia.
Qed.

(** Both files are read a line further. *)
Lemma diff_read j1 j2 fd1 fd2 (u : ust W) :
  source (uw u) fd1 -> source (uw u) fd2 -> sink (uw u) 1 -> fd1 <> fd2 -> j1 <> 10 -> j2 <> 10 ->
  let p1 := pending (uw u) fd1 in
  let p2 := pending (uw u) fd2 in
  exists w1 w2, read_line j1 fd1 MAX_LINE u = URet ((take_line (MAX_LINE - 1) p1).1, nonempty p1) (UState (um u) w1) /\
    read_line j2 fd2 MAX_LINE (UState (um u) w1) =
      URet ((take_line (MAX_LINE - 1) p2).1, nonempty p2) (UState (um u) w2) /\
    source w2 fd1 /\ source w2 fd2 /\ sink w2 1 /\
    pending w2 fd1 = (take_line (MAX_LINE - 1) p1).2 /\ pending w2 fd2 = (take_line (MAX_LINE - 1) p2).2.
Proof.
  intros S1 S2 Sk Hne J1 J2 p1 p2.
  pose proof (read_line_take j1 fd1 u S1 J1) as R1. fold p1 in R1.
  destruct (take_line (MAX_LINE - 1) p1) as [x r]. destruct R1 as (w1 & H1 & P1 & bs1 & G1).
  pose proof (read_line_take j2 fd2 (UState (um u) w1) ltac:(simpl; eauto with user) J2) as R2. simpl uw in R2.
  assert (E : pending w1 fd2 = p2) by (destruct G1 as (_ & _ & _ & G1 & _); rewrite G1; done).
  rewrite E in R2. destruct (take_line (MAX_LINE - 1) p2) as [y r']. destruct R2 as (w2 & H2 & P2 & bs2 & G2).
  exists w1, w2. simpl um in H2. split_and!; [done|done|eauto with user..| |done].
  destruct G2 as (_ & _ & _ & G2 & _). by rewrite G2.
Qed.

(** What a round adds to the count. *)
Definition round_diff (l1 l2 : list Z) (h1 h2 : bool) : Z :=
  if h1 && h2 then if decide (l1 = l2) then 0 else 1 else if h1 || h2 then 1 else 0.

Lemma diff_compare_counts a b l1 l2 h1 h2 n d (u : ust W) :
  sink (uw u) 1 -> 0 <= d < INT_MAX -> 0 <= n <= INT_MAX ->
  Forall str_byte l1 -> Forall str_byte l2 ->
  exists bs w', diff_compare a b l1 l2 h1 h2 n d u = URet (d + round_diff l1 l2 h1 h2) (UState (um u) w') /\
    wrote 1 bs (uw u) w'.
Proof.
  intros Hs Hd Hn Z1 Z2.
  assert (Hsame : exists bs w', uret d u = URet (W := W) (d + 0) (UState (um u) w') /\ wrote 1 bs (uw u) w').
  { exists [], (uw u). rewrite Z.add_0_r. split; [by destruct u|apply wrote_refl]. }
  assert (P1 : forall s, prints (u_printf (ln "< %s") [AStr s])) by (intros s; by apply print_side).
  assert (P2 : forall s, prints (u_printf (ln "> %s") [AStr s])) by (intros s; by apply print_side).
  unfold diff_compare, round_diff. destruct h1, h2; cbn [andb orb negb]; [| | |done].
  - destruct (decide (l1 = l2)) as [<-|Hne].
    + rewrite (proj2 (cmp_str_zero l1 l1 Z1 Z1)) by done. done.
    + rewrite (proj2 (Z.eqb_neq (cmp_str l1 l2) 0)) by (rewrite cmp_str_zero; done). cbn [negb].
      destruct (diff_report d (u_printf (ln "Line %d differs:") [ArgInt n] ;;;
        (u_printf (ln "< %s") [AStr l1] ;;; u_printf (ln "> %s") [AStr l2])) u) as (bs & w' & Hr & R); [|done..|].
      { apply prints_seq; [by apply (print_line_d "Line " (ln " differs:"))|by apply prints_seq]. }
      exists bs, w'. split; [|done]. rewrite <-Hr. unfold ubind. by repeat case_match.
  - destruct (diff_report d (u_printf (ln "Line %d only in %s:") [ArgInt n; AStr a] ;;;
        u_printf (ln "< %s") [AStr l1]) u) as (bs & w' & Hr & R); [|done..|].
    { apply prints_seq; [by apply print_only_in|done]. }
    exists bs, w'. split; [|done]. rewrite <-Hr. unfold ubind. by repeat case_match.
  - destruct (diff_report d (u_printf (ln "Line %d only in %s:") [ArgInt n; AStr b] ;;;
        u_printf (ln "> %s") [AStr l2]) u) as (bs & w' & Hr & R); [|done..|].
    { apply prints_seq; [by apply print_only_in|done]. }
    exists bs, w'. split; [|done]. rewrite <-Hr. unfold ubind. by repeat case_match.
Qed.

Lemma c_string_bytes l : bytes l -> Forall str_byte (c_string l).
Proof.
  induction 1 as [|c l Hc _ IH]; [constructor|]. unfold c_string. cbn [leading].
  destruct (Z.eqb_spec c 0); cbn [negb]; constructor; [unfold str_byte; lia|done].
Qed.
Lemma take_line_bytes k l : bytes l -> bytes (take_line k l).1 /\ bytes (take_line k l).2.
Proof.
  intros Hl. revert k. induction Hl as [|c l Hc Hl IH]; intros [|k]; simpl; [by split; constructor..|].
  destruct (c =? 10); [by split; [constructor|]|]. destruct (IH k). destruct (take_line k l).
  split; [by constructor|done].
Qed.

Lemma diff_lines_fuel f l : (length l <= f)%nat -> diff_lines f l = diff_lines (length l) l.
Proof.
  revert l. induction (lt_wf f) as [f _ IH]. intros [|c l] Hl; [by destruct f|]. destruct f; simpl in Hl; [lia|].
  pose proof (take_line_shorter (MAX_LINE - 2) c l) as Hr. change (S (MAX_LINE - 2)) with (MAX_LINE - 1)%nat in Hr.
  cbn [diff_lines length]. destruct (take_line (MAX_LINE - 1) (c :: l)) as [x r]. simpl in Hr. f_equal.
  rewrite (IH f) by lia. destruct (decide (length l = f)) as [->|]; [symmetry; apply IH; lia|].
  symmetry. apply IH; lia.
Qed.

Lemma diff_lines_cons c l :
  let '(x, r) := take_line (MAX_LINE - 1) (c :: l) in
  diff_lines (length (c :: l)) (c :: l) = c_string x :: diff_lines (length r) r.
Proof.
  pose proof (take_line_shorter (MAX_LINE - 2) c l) as Hr. change (S (MAX_LINE - 2)) with (MAX_LINE - 1)%nat in Hr.
  cbn [diff_lines length]. destruct (take_line (MAX_LINE - 1) (c :: l)) as [x r]. simpl in Hr.
  by rewrite diff_lines_fuel.
Qed.

(** The lines of a file as [diff] sees them. *)
Definition lines_at (l : list Z) : list (list Z) := diff_lines (length l) l.

(** A round of the specification. *)
Lemma differences_round p1 p2 :
  let '(x, r1) := take_line (MAX_LINE - 1) p1 in
  let '(y, r2) := take_line (MAX_LINE - 1) p2 in
  differences (lines_at p1) (lines_at p2) =
    round_diff (c_string x) (c_string y) (nonempty p1) (nonempty p2) +
    differences (lines_at r1) (lines_at r2).
Proof.
  unfold lines_at, round_diff. destruct p1 as [|c1 p1], p2 as [|c2 p2]; [done| | |].
  - pose proof (diff_lines_cons c2 p2) as E2. destruct (take_line _ (c2 :: p2)) as [y r2]. rewrite E2.
    simpl take_line. cbn [nonempty andb orb]. by rewrite !differences_nil_l; simpl length; lia.
  - pose proof (diff_lines_cons c1 p1) as E1. destruct (take_line _ (c1 :: p1)) as [x r1]. by rewrite E1.
  - pose proof (diff_lines_cons c1 p1) as E1. destruct (take_line _ (c1 :: p1)) as [x r1].
    pose proof (diff_lines_cons c2 p2) as E2. destruct (take_line _ (c2 :: p2)) as [y r2].
    rewrite E1, E2. done.
Qed.

Lemma take_line_facts p :
  bytes p -> let '(x, r) := take_line (MAX_LINE - 1) p in
  bytes x /\ bytes r /\ (p = [] -> r = []) /\ (length r <= length p)%nat /\
  (p <> [] -> (length r < length p)%nat).
Proof.
  intros Hb. destruct (take_line_bytes (MAX_LINE - 1) p Hb) as [Hx Hr].
  pose proof (take_line_rest (MAX_LINE - 1) p) as Hl.
  destruct (take_line (MAX_LINE - 1) p) as [x r] eqn:Et. cbn [fst snd] in *. split_and!; [done|done| |done|].
  - intros ->. by injection Et.
  - intros Hp. destruct p as [|c p]; [done|]. pose proof (take_line_shorter (MAX_LINE - 2) c p) as Hs.
    change (S (MAX_LINE - 2)) with (MAX_LINE - 1)%nat in Hs. rewrite Et in Hs. simpl in *. lia.
Qed.

Lemma diff_loop_counts fuel junk a b fd1 fd2 n d e1 e2 (u : ust W) :
  let p1 := pending (uw u) fd1 in
  let p2 := pending (uw u) fd2 in
  (forall i, (junk i).1 <> 10 /\ (junk i).2 <> 10) ->
  source (uw u) fd1 -> source (uw u) fd2 -> sink (uw u) 1 -> fd1 <> fd2 ->
  bytes p1 -> bytes p2 -> (e1 = true -> p1 = []) -> (e2 = true -> p2 = []) ->
  (length p1 < fuel)%nat -> (length p2 < fuel)%nat ->
  0 <= d <= n -> n + Z.of_nat (length p1) + Z.of_nat (length p2) < INT_MAX ->
  exists u', diff_loop fuel junk a b fd1 fd2 n d e1 e2 u = URet (d + differences (lines_at p1) (lines_at p2)) u' /\
    sink (uw u') 1.
Proof.
  revert n d e1 e2 u. induction fuel as [|f IH]; intros n d e1 e2 u p1 p2 Hj S1 S2 Sk Hne B1 B2 E1 E2 F1 F2 Hd Hn; [lia|].
  destruct (Hj n) as [J1 J2]. cbn [diff_loop].
  destruct (diff_read (junk n).1 (junk n).2 fd1 fd2 u S1 S2 Sk Hne J1 J2) as (w1 & w2 & R1 & R2 & S1' & S2' & Sk' & P1 & P2).
  fold p1 p2 in R1, R2, P1, P2. rewrite (ubind_URet _ _ _ _ _ R1), (ubind_URet _ _ _ _ _ R2). cbn [fst snd].
  pose proof (differences_round p1 p2) as Hr.
  pose proof (take_line_facts p1 B1) as F3. pose proof (take_line_facts p2 B2) as F4.
  destruct (take_line (MAX_LINE - 1) p1) as [x r1], (take_line (MAX_LINE - 1) p2) as [y r2].
  destruct F3 as (X1 & Y1 & N1 & L1 & M1), F4 as (X2 & Y2 & N2 & L2 & M2). cbn [fst snd] in *.
  destruct (nonempty p1 || nonempty p2) eqn:En.
  2:{ destruct p1, p2; try done. cbn [nonempty negb]. rewrite !orb_true_r. simpl.
      exists (UState (um u) w2). by rewrite Z.add_0_r. }
  assert (Hne' : (e1 || negb (nonempty p1)) && (e2 || negb (nonempty p2)) = false).
  { destruct e1, e2, p1, p2; naive_solver. }
  rewrite Hne'.
  assert (Hpos : 0 < Z.of_nat (length p1) + Z.of_nat (length p2)) by (destruct p1, p2; simpl in *; [done|lia..]).
  destruct (diff_compare_counts a b (c_string x) (c_string y) (nonempty p1) (nonempty p2) n d (UState (um u) w2))
    as (bs & w3 & Hc & Rw); [done|lia|lia|by apply c_string_bytes..|].
  rewrite (ubind_URet _ _ _ _ _ Hc). rewrite (ubind_URet _ _ _ _ _ (uint_ok (n + 1) _ ltac:(lia))).
  set (d' := d + round_diff _ _ _ _) in *.
  assert (Hd' : 0 <= d' <= n + 1) by (unfold d', round_diff; repeat case_match; lia).
  assert (Q1 : pending w3 fd1 = r1) by (destruct Rw as (_ & _ & _ & _ & Rw); by rewrite Rw).
  assert (Q2 : pending w3 fd2 = r2) by (destruct Rw as (_ & _ & _ & _ & Rw); by rewrite Rw).
  destruct (IH (n + 1) d' (e1 || negb (nonempty p1)) (e2 || negb (nonempty p2)) (UState (um u) w3)) as (u' & Hl & Hk);
    simpl uw; rewrite ?Q1, ?Q2; eauto with user.
  - intros He. apply N1. destruct e1; [by apply E1|by destruct p1].
  - intros He. apply N2. destruct e2; [by apply E2|by destruct p2].
  - destruct p1; [rewrite N1 by done; destruct p2; simpl in *; [done|lia]|]. specialize (M1 ltac:(done)). lia.
  - destruct p2; [rewrite N2 by done; destruct p1; simpl in *; [done|lia]|]. specialize (M2 ltac:(done)). lia.
  - destruct p1; [specialize (M2 ltac:(by destruct p2))|specialize (M1 ltac:(done))]; lia.
  - simpl uw in Hl. rewrite Q1, Q2 in Hl. exists u'. split; [|done].
    etransitivity; [exact Hl|]. rewrite Hr. f_equal. unfold d'. lia.
Qed.

Lemma read_line_newline fd (u : ust W) :
  source (uw u) fd -> pending (uw u) fd = [] ->
  exists w', read_line 10 fd MAX_LINE u = URet ([], true) (UState (um u) w') /\ got fd [] (uw u) w'.
Proof.
  intros Hs Hp. destruct (ugetc_spec fd u Hs) as (r & w' & Hg & Hr). rewrite Hp in Hr. destruct Hr as [Hr G].
  exists w'. split; [|done]. unfold read_line. change (MAX_LINE - 1)%nat with (S 254). cbn [read_line_loop].
  rewrite ubind_assoc, (ubind_URet _ _ _ _ _ Hg). by rewrite Hr.
Qed.

Lemma diff_loop_hangs fuel a b fd1 fd2 n (u : ust W) :
  source (uw u) fd1 -> source (uw u) fd2 -> fd1 <> fd2 ->
  pending (uw u) fd1 = [] -> pending (uw u) fd2 = [] -> 0 <= n -> n + Z.of_nat fuel <= INT_MAX ->
  diff_loop fuel (fun _ => (10, 10)) a b fd1 fd2 n 0 false false u = UHang.
Proof.
  revert n u. induction fuel as [|f IH]; intros n u S1 S2 Hne P1 P2 Hz Hn; [done|]. cbn [diff_loop fst snd].
  destruct (read_line_newline fd1 u S1 P1) as (w1 & R1 & G1). rewrite (ubind_URet _ _ _ _ _ R1).
  destruct (read_line_newline fd2 (UState (um u) w1)) as (w2 & R2 & G2); [simpl; eauto with user| |].
  { simpl. destruct G1 as (_ & _ & _ & G & _). by rewrite G. }
  rewrite (ubind_URet _ _ _ _ _ R2). simpl uw in G2. simpl um. cbn [fst snd negb orb andb].
  unfold diff_compare. simpl. unfold ubind at 1, uret at 1.
  rewrite (ubind_URet _ _ _ _ _ (uint_ok (n + 1) _ ltac:(lia))). apply IH; simpl; eauto with user; [| |lia|lia].
  - destruct G2 as (_ & _ & _ & G & _). rewrite G by done. destruct G1 as (G1 & _). by rewrite P1 in G1.
  - destruct G2 as (G2 & _). destruct G1 as (_ & _ & _ & G & _). by rewrite G, P2 in G2.
Qed.
End diff_runs.

(** * Properties *)

(** [wc] of one file prints the number of its lines, of its words and of
    its characters and its name, and exits with status 0.  A last line without
    a newline counts; a word is a nonempty run between blanks. *)
Theorem wc_counts_file {W : Type} `{UnixOk W} fuel prog path fd (u : ust W) w1 :
  cmp_str path (str "?") <> 0 -> ch0 path <> 45 ->
  os_open path O_RDONLY (uw u) = (fd, w1) -> 0 <= fd -> fd <> 1 ->
  source w1 fd -> sink w1 1 -> (length (pending w1 fd) < fuel)%nat ->
  Z.of_nat (length (pending w1 fd)) <= INT_MAX ->
  let bs := pending w1 fd in
  exists dl dw dc u', wc_main fuel [prog; path] u = UExit 0 u' /\
    sent (uw u') 1 = sent w1 1 ++ dl ++ [32] ++ dw ++ [32] ++ dc ++ [32] ++ path ++ [10] /\
    shows dl (Z.of_nat (length (lines_of bs))) /\ shows dw (Z.of_nat (length (words bs))) /\
    shows dc (Z.of_nat (length bs)).
Proof.
  intros Hq Hm Ho Hfd Hne Hs Hk Hf Hb bs.
  destruct (wc_file_default fuel path {| tot_l := 0; tot_w := 0; tot_c := 0; tot_L := 0; tot_files := 0 |}
              fd u w1 Ho Hfd Hne Hs Hk Hf Hb eq_refl eq_refl eq_refl eq_refl)
    as (dl & dw & dc & u' & t' & Hw & Ht & Hr).
  exists dl, dw, dc, u'. split; [|done]. unfold wc_main.
  cbn [lookup list_lookup default length Nat.ltb Nat.leb andb].
  cbv zeta. change (id path) with path.
  rewrite (proj2 (Z.eqb_neq _ _) Hq), (proj2 (Z.eqb_neq _ _) Hm).
  cbn [drop]. cbn [wc_default sh_l sh_w sh_c sh_L negb andb wc_files].
  rewrite !ubind_assoc, (ubind_URet _ _ _ _ _ Hw). unfold ubind, uret, uwhen. by rewrite Ht.
Qed.

Definition wc_text : list Z := ln "two words" ++ ln "" ++ str "end".
Definition wc_world : ust world :=
  UState (fun _ => 0)
    {| w_in := fun fd => if fd =? 3 then wc_text else []; w_out := fun _ => [];
       w_piece := 4; w_names := [(str "f", 3)] |}.

Lemma wc_counts_file_witness :
  exists dl dw dc u', wc_main 20 [str "wc"; str "f"] wc_world = UExit 0 u' /\
    sent (uw u') 1 = dl ++ [32] ++ dw ++ [32] ++ dc ++ [32] ++ str "f" ++ [10] /\
    shows dl 3 /\ shows dw 3 /\ shows dc 14.
Proof.
  destruct (wc_counts_file 20 (str "wc") (str "f") 3 wc_world (uw wc_world))
    as (dl & dw & dc & u' & H1 & H2 & H3 & H4 & H5);
    [by vm_compute..|vm_compute; lia|by vm_compute|].
  exists dl, dw, dc, u'. split_and!; [exact H1|exact H2|exact H3|exact H4|exact H5].
Defined.

(** [tail -n k] of a text that fits the array of the program (9999 bytes,
    99 newlines) and has no NUL and no percent sign prints the last [k] of the
    pieces between its newlines; the piece after the last newline counts, also
    when it is empty. *)
Theorem tail_last_lines {W : Type} `{UnixOk W} fuel buf prog s n (u : ust W) :
  let text := pending (uw u) 0 in
  atoi_str s = Some n -> source (uw u) 0 -> sink (uw u) 1 -> plain text ->
  Z.of_nat (length text) < TAIL_BUF -> (length (cut text).1 < TAIL_LINES)%nat -> (length text < fuel)%nat ->
  let pieces := (cut text).1 ++ [(cut text).2] in
  let k := if n <=? 0 then DEFAULT_LINES else n in
  exists u', tail_main fuel buf [prog; str "-n"; s] u = UExit 0 u' /\
    sent (uw u') 1 = sent (uw u) 1 ++ join (drop (length pieces - Z.to_nat k) pieces).
Proof.
  intros text Ha Hs Hk Hp Hl Hc Hf pieces k.
  assert (Hby : bytes text). { eapply Forall_impl; [|exact Hp]. simpl. lia. }
  destruct (tail_read_all fuel buf 0 [] u Hs Hby eq_refl Hl Hf) as (u1 & Hr & Hm & Hg).
  cbn [app] in Hr, Hm. fold text in Hr, Hm, Hg. unfold tail_main.
  cbn [lookup list_lookup length Nat.ltb Nat.leb andb]. change (default [] (Some (str "-n"))) with (str "-n").
  change (cmp_str (str "-n") (str "?") =? 0) with false. change (cmp_str (str "-n") (str "-n") =? 0) with true.
  assert (Hat : uatoi s u = URet n u) by (unfold uatoi; by rewrite Ha).
  cbn [andb]. rewrite !ubind_assoc. unfold argv_at. cbn [lookup list_lookup]. unfold ubind at 1, uret at 1.
  rewrite !ubind_assoc, (ubind_URet _ _ _ _ _ Hat). unfold ubind at 1, uret at 1. fold k.
  unfold ubind at 1, uret at 1.
  change (Z.of_nat (length [])) with 0 in Hr. rewrite (ubind_URet _ _ _ _ _ Hr).
  unfold ubind at 1, upoke. unfold ubind at 1, upeek. cbn [um uw].
  rewrite Nat2Z.id, (load_bytes_ext _ _ _ (um u1)) by (intros a Hx; apply store8_ne; lia).
  rewrite Hm. cbv zeta. rewrite tail_split_cut by lia. fold pieces.
  set (start := if k <? Z.of_nat (length pieces) then Z.of_nat (length pieces) - k else 0).
  assert (Hk0 : 0 < k) by (unfold k, DEFAULT_LINES; destruct (Z.leb_spec n 0); lia).
  assert (Hst : Z.to_nat start = (length pieces - Z.to_nat k)%nat).
  { unfold start. destruct (Z.ltb_spec k (Z.of_nat (length pieces))); lia. }
  assert (Hpp : Forall plain (drop (Z.to_nat start) pieces)).
  { apply Forall_drop, Forall_app. destruct (plain_cut text Hp) as [? ?]. split; [done|by constructor]. }
  destruct (tail_show_lines (drop (Z.to_nat start) pieces) (UState (store8 (buf + Z.of_nat (length text)) 0 (um u1)) (uw u1)))
    as (w2 & H2 & R2); [done|simpl; eauto with user|].
  rewrite (ubind_URet _ _ _ _ _ H2). eexists. split; [reflexivity|]. simpl uw.
  destruct R2 as (-> & _). simpl uw. destruct Hg as (_ & _ & _ & _ & ->). by rewrite Hst.
Qed.

Definition tail_world : ust world :=
  UState (fun _ => 0)
    {| w_in := fun fd => if fd =? 0 then ln "a" ++ ln "bc" ++ ln "d" else []; w_out := fun _ => [];
       w_piece := 2; w_names := [] |}.

Lemma tail_last_lines_witness :
  exists u', tail_main 20 4096 [str "tail"; str "-n"; str "2"] tail_world = UExit 0 u' /\
    sent (uw u') 1 = ln "d" ++ ln "".
Proof.
  destruct (tail_last_lines 20 4096 (str "tail") (str "2") 2 tail_world) as (u' & H1 & H2);
    [done|done|done| |by vm_compute|vm_compute; lia|vm_compute; lia|].
  - unfold plain. repeat constructor; vm_compute; discriminate.
  - exists u'. split; [exact H1|exact H2].
Defined.


Definition diff_world : ust world :=
  UState (fun _ => 0)
    {| w_in := fun fd => if fd =? 3 then ln "a" ++ ln "b" else if fd =? 4 then ln "a" ++ str "b" else [];
       w_out := fun _ => []; w_piece := 0; w_names := [(str "f", 3); (str "g", 4)] |}.


(** When the uninitialised variable is a newline, [diff] of two empty files
    never ends: both files seem to have an empty line in every round. *)
Theorem diff_may_hang {W : Type} `{UnixOk W} fuel a b fd1 fd2 (u : ust W) :
  source (uw u) fd1 -> source (uw u) fd2 -> fd1 <> fd2 ->
  pending (uw u) fd1 = [] -> pending (uw u) fd2 = [] -> Z.of_nat fuel < INT_MAX ->
  diff_loop fuel (fun _ => (10, 10)) a b fd1 fd2 1 0 false false u = UHang.
Proof. intros. apply (diff_loop_hangs fuel a b fd1 fd2 1); done || lia. Qed.

Lemma diff_may_hang_witness :
  diff_loop 1000 (fun _ => (10, 10)) (str "f") (str "g") 5 6 1 0 false false diff_world = UHang.
Proof. apply (diff_may_hang 1000 (str "f") (str "g") 5 6 diff_world); by vm_compute. Defined.
